(** * Metrics engine of the typing test: embedding and verified properties

    The metrics module [src/lib/calculations.ts] is a handful of pure
    functions over JavaScript numbers, strings and arrays.  A JavaScript
    number is an IEEE 754 binary64 value, and several of the functions
    round twice ([Math.round] of a quotient that was itself rounded), so
    the embedding keeps the binary64 semantics: every arithmetic
    operation is the exact rational result rounded to nearest, ties to
    even, with signed zeros, infinities and NaN.

    Part I defines the numbers, Part II the metrics functions of the
    module, Part III the formulas of the specification and the sample
    inputs, and Part IV the rest of the module ([formatTime]) with the
    pages that use it.  Part V proves facts about rounding, Part VI the
    properties of the metrics functions, Part VII further properties of
    the module and of the pages, and Part VIII the exact conditions under
    which the accuracy is below 100 and the fatigue score is in range. *)

From Stdlib Require Import ZArith QArith Qround Lqa Lia List Bool Ascii String.
From Stdlib Require SpecFloat.
Import ListNotations.

Local Open Scope Z_scope.

(* ================================================================== *)
(** * Part I: JavaScript numbers (binary64) *)
(* ================================================================== *)

(** Every finite binary64 value is an integer multiple of the smallest
    subnormal, [2^-1074].  A finite number is stored as that integer
    multiple, so that [1.0] is [Fin (2^1074)]; the order on finite numbers
    is the order on [Z].  [NegZero] is [-0]; [Fin 0] is [+0]. *)
Inductive number : Type :=
| NaN
| Inf (neg : bool)
| NegZero
| Fin (k : Z).

(** Units in [1.0]. *)
Definition one_units : Z := 2 ^ 1074.

(** [2^1024] in units: the first magnitude that overflows. *)
Definition overflow_units : Z := 2 ^ 2098.

(** ** What rounding is

    Round to the nearest integer, ties to the even one. *)
Definition rne (x : Q) : Z :=
  let t := Qfloor x in
  match Qcompare (x - inject_Z t) (1 # 2) with
  | Lt => t
  | Gt => t + 1
  | Eq => if Z.even t then t else t + 1
  end.

(** The spacing of binary64 values around a magnitude of [a] units is
    [2 ^ shift_of a]: one unit up to [2^53] units, doubling with every
    binade above. *)
Definition shift_of (a : Z) : Z := Z.max 0 (Z.log2 a - 52).

(** Rounding of a non-negative exact magnitude (in units) to the nearest
    magnitude with a 53-bit significand. *)
Definition rnd_mag (x : Q) : Z :=
  let s := shift_of (Qfloor x) in
  rne (x / inject_Z (2 ^ s)) * 2 ^ s.

Definition pack (neg : bool) (k : Z) : number :=
  if overflow_units <=? k then Inf neg
  else if k =? 0 then (if neg then NegZero else Fin 0)
  else Fin (if neg then - k else k).

(** The Number value for the exact result [x] (in units); [zero_neg] is
    the sign given to an exactly zero result. *)
Definition round_q (zero_neg : bool) (x : Q) : number :=
  match Qcompare x 0 with
  | Eq => if zero_neg then NegZero else Fin 0
  | Gt => pack false (rnd_mag x)
  | Lt => pack true (rnd_mag (- x))
  end.

(** ** Rounding without large divisions

    [round_q] states what rounding is.  The operations below use
    [round_frac], which rounds the fraction [p / q] to the same number
    (lemma [round_frac_spec]) but first cancels the power of two that [p]
    and [q] share, so that the division is one of short integers. *)

Definition rne_div (num den : Z) : Z :=
  let (t, r) := Z.div_eucl num den in
  match 2 * r ?= den with
  | Lt => t
  | Gt => t + 1
  | Eq => if Z.even t then t else t + 1
  end.

(** Number of trailing zero bits. *)
Fixpoint pos_ctz (p : positive) : Z :=
  match p with
  | xO p' => Z.succ (pos_ctz p')
  | _ => 0
  end.

Definition ctz (n : Z) : Z :=
  match n with
  | Z0 => 0
  | Zpos p | Zneg p => pos_ctz p
  end.

Definition rne_ratio (num den : Z) : Z :=
  let z := Z.min (ctz num) (ctz den) in
  rne_div (Z.shiftr num z) (Z.shiftr den z).

(** [Z.log2 (p / q)] for [0 < q <= p], from the bit lengths. *)
Definition log2_div (p q : Z) : Z :=
  let c := Z.log2 p - Z.log2 q in
  if Z.shiftl q c <=? p then c else c - 1.

Definition mag_ratio (p q : Z) : Z :=
  let s := Z.max 0 (log2_div p q - 52) in
  Z.shiftl (rne_ratio p (Z.shiftl q s)) s.

(** The Number value for the exact result [p / q] units, [0 < q]. *)
Definition round_frac (zero_neg : bool) (p q : Z) : number :=
  match p with
  | Z0 => if zero_neg then NegZero else Fin 0
  | Zpos _ => pack false (mag_ratio p q)
  | Zneg _ => pack true (mag_ratio (- p) q)
  end.

Definition is_zero (x : number) : bool :=
  match x with
  | NegZero => true
  | Fin k => k =? 0
  | _ => false
  end.

Definition sign_neg (x : number) : bool :=
  match x with
  | NaN => false
  | Inf s => s
  | NegZero => true
  | Fin k => k <? 0
  end.

(** Units of a finite number ([0] for the others, which the operations
    handle before they use it). *)
Definition units (x : number) : Z :=
  match x with
  | Fin k => k
  | _ => 0
  end.

Definition fin_val (x : number) : option Z :=
  match x with
  | Fin k => Some k
  | NegZero => Some 0
  | _ => None
  end.

Definition of_Z (z : Z) : number := round_frac false (one_units * z) 1.
Definition of_nat (n : nat) : number := of_Z (Z.of_nat n).

Definition fneg (x : number) : number :=
  match x with
  | NaN => NaN
  | Inf s => Inf (negb s)
  | NegZero => Fin 0
  | Fin k => if k =? 0 then NegZero else Fin (- k)
  end.

Definition fadd (x y : number) : number :=
  match x, y with
  | NaN, _ | _, NaN => NaN
  | Inf s, Inf s' => if Bool.eqb s s' then Inf s else NaN
  | Inf s, _ | _, Inf s => Inf s
  | _, _ =>
      round_frac (sign_neg x && sign_neg y) (units x + units y) 1
  end.

Definition fsub (x y : number) : number := fadd x (fneg y).

Definition fmul (x y : number) : number :=
  let s := xorb (sign_neg x) (sign_neg y) in
  match x, y with
  | NaN, _ | _, NaN => NaN
  | Inf _, Inf _ => Inf s
  | Inf _, f | f, Inf _ => if is_zero f then NaN else Inf s
  | _, _ => round_frac s (units x * units y) one_units
  end.

Definition fdiv (x y : number) : number :=
  let s := xorb (sign_neg x) (sign_neg y) in
  match x, y with
  | NaN, _ | _, NaN => NaN
  | Inf _, Inf _ => NaN
  | Inf _, _ => Inf s
  | _, Inf _ => if s then NegZero else Fin 0
  | _, _ =>
      if is_zero y then (if is_zero x then NaN else Inf s)
      else round_frac s (Z.sgn (units y) * (one_units * units x))
                      (Z.abs (units y))
  end.

(** [Math.sqrt].  The exact root of [k] units is [sqrt (k * 2^1074)] units.
    Its integer part has [Z.log2 n / 2 + 1] bits, which gives the spacing
    [2^s] of the result; the significand is the integer square root of the
    radicand scaled by [4^s], rounded on the remainder. *)
Definition sqrt_mag (k : Z) : Z :=
  let n := one_units * k in
  let s := Z.max 0 (Z.log2 n / 2 - 52) in
  let t := Z.sqrt (Z.shiftr n (2 * s)) in
  let m := match 4 * n ?= Z.shiftl ((2 * t + 1) * (2 * t + 1)) (2 * s) with
           | Lt => t
           | Gt => t + 1
           | Eq => if Z.even t then t else t + 1
           end in
  Z.shiftl m s.

Definition Math_sqrt (x : number) : number :=
  match x with
  | NaN => NaN
  | Inf s => if s then NaN else Inf false
  | NegZero => NegZero
  | Fin k => if k <? 0 then NaN else if k =? 0 then Fin 0
             else pack false (sqrt_mag k)
  end.

(** [x < y] of JavaScript: false as soon as one side is NaN; the two zeros
    are equal. *)
Definition flt (x y : number) : bool :=
  match x, y with
  | NaN, _ | _, NaN => false
  | Inf s, Inf s' => s && negb s'
  | Inf s, _ => s
  | _, Inf s => negb s
  | _, _ => units x <? units y
  end.

Definition fgt (x y : number) : bool := flt y x.

(** [x <= y] of JavaScript. *)
Definition fle (x y : number) : bool :=
  match x, y with
  | NaN, _ | _, NaN => false
  | _, _ => negb (flt y x)
  end.

(** [x === y] on numbers. *)
Definition feq (x y : number) : bool :=
  match x, y with
  | NaN, _ | _, NaN => false
  | Inf s, Inf s' => Bool.eqb s s'
  | Inf _, _ | _, Inf _ => false
  | _, _ => units x =? units y
  end.

(** [Math.round]: the integer nearest to [x], the larger one at a tie,
    that is the floor of [x + 1/2]; for [x] of [k] units it is the floor of
    [(2 * k + 2^1074) / 2^1075].  The result is [-0] for [x] in
    [[-0.5, 0)]. *)
Definition Math_round (x : number) : number :=
  match x with
  | Fin k =>
      round_frac (k <? 0) (one_units * Z.shiftr (2 * k + one_units) 1075) 1
  | _ => x
  end.

(** [Math.max] and [Math.min] of two arguments: NaN when either is NaN;
    [+0] counts as larger than [-0]. *)
Definition Math_max (x y : number) : number :=
  match x, y with
  | NaN, _ | _, NaN => NaN
  | _, _ => if flt x y then y
            else if flt y x then x
            else match x with NegZero => y | _ => x end
  end.

Definition Math_min (x y : number) : number :=
  match x, y with
  | NaN, _ | _, NaN => NaN
  | _, _ => if flt x y then x
            else if flt y x then y
            else match x with NegZero => x | _ => y end
  end.

(** Truthiness of a number: [0], [-0] and NaN are falsy. *)
Definition truthy (x : number) : bool :=
  match x with
  | NaN => false
  | _ => negb (is_zero x)
  end.

(** [x || y] on numbers. *)
Definition or_else (x y : number) : number := if truthy x then x else y.

(** A number as the binary64 datum of the standard library's executable
    specification of IEEE 754, used to compare the operations above with
    that specification on concrete arguments. *)
Definition to_spec (x : number) : SpecFloat.spec_float :=
  match x with
  | NaN => SpecFloat.S754_nan
  | Inf s => SpecFloat.S754_infinity s
  | NegZero => SpecFloat.S754_zero true
  | Fin k =>
      if k =? 0 then SpecFloat.S754_zero false
      else let s := shift_of (Z.abs k) in
           SpecFloat.S754_finite (k <? 0) (Z.to_pos (Z.shiftr (Z.abs k) s))
                                 (s - 1074)
  end.

(** Structural equality of two such data (NaN equal to NaN, the zeros
    told apart). *)
Definition spec_float_same (a b : SpecFloat.spec_float) : bool :=
  match a, b with
  | SpecFloat.S754_nan, SpecFloat.S754_nan => true
  | SpecFloat.S754_infinity s, SpecFloat.S754_infinity s' => Bool.eqb s s'
  | SpecFloat.S754_zero s, SpecFloat.S754_zero s' => Bool.eqb s s'
  | SpecFloat.S754_finite s m e, SpecFloat.S754_finite s' m' e' =>
      Bool.eqb s s' && Pos.eqb m m' && Z.eqb e e'
  | _, _ => false
  end.

(** ** Notions used to reason about rounding *)

(** The signed value (in units) that [round_q] rounds an exact result to,
    before the overflow test. *)
Definition rq_val (x : Q) : Z :=
  match Qcompare x 0 with
  | Eq => 0
  | Gt => rnd_mag x
  | Lt => - rnd_mag (- x)
  end.

(** Magnitudes with a 53-bit significand. *)
Definition representable (k : Z) : Prop :=
  0 <= k /\ k mod 2 ^ shift_of k = 0.

(** Finite, representable signed values. *)
Definition fin_rep (a : Z) : Prop :=
  representable (Z.abs a) /\ Z.abs a < overflow_units.

(** [x] is a finite number whose value lies between [a] and [b] units. *)
Definition within (a b : Z) (x : number) : Prop :=
  exists k, fin_val x = Some k /\ a <= k <= b.

(** How [round_q] relates a result to the value it rounds. *)
Definition rounds_to (v : Z) (r : number) : Prop :=
  (Z.abs v < overflow_units /\ fin_val r = Some v)
  \/ (overflow_units <= v /\ r = Inf false)
  \/ (v <= - overflow_units /\ r = Inf true).

(* ================================================================== *)
(** * Part II: the functions of [src/lib/calculations.ts] *)
(* ================================================================== *)

(** A JavaScript string is a sequence of UTF-16 code units; [s[i]] is the
    code unit at index [i], [undefined] past the end. *)
Definition code_unit : Type := N.
Definition js_string : Type := list code_unit.

Definition str (s : string) : js_string :=
  List.map N_of_ascii (list_ascii_of_string s).

Definition char_at (s : js_string) (i : nat) : option code_unit :=
  nth_error s i.

(** [a === b] on the results of indexing. *)
Definition char_eq (a b : option code_unit) : bool :=
  match a, b with
  | Some x, Some y => N.eqb x y
  | None, None => true
  | _, _ => false
  end.

(** [KeystrokeEvent] of [types/typing]. *)
Record KeystrokeEvent : Type := {
  key : js_string;
  keyDownTime : number;
  keyUpTime : option number;
  duration : option number;
  isCorrect : bool;
  characterIndex : number
}.

(** [PerformanceMetrics] of [types/typing]. *)
Record PerformanceMetrics : Type := {
  wpm : number;
  accuracy : number;
  errorRate : number;
  totalKeystrokes : number;
  correctKeystrokes : number;
  incorrectKeystrokes : number;
  averageKeystrokeDuration : number;
  keystrokeDurationStdDev : number;
  tremorSeverityScore : number;
  fatigueDetected : bool;
  fatigueScore : number
}.

(** The object returned by [detectFatigue]; its fields carry the prefix
    [fr_] because [fatigueDetected] and [fatigueScore] are fields of
    [PerformanceMetrics] too. *)
Record FatigueResult : Type := {
  fr_fatigueDetected : bool;
  fr_fatigueScore : number;
  fr_earlyWPM : number;
  fr_lateWPM : number
}.

Definition calculateWPM (characterCount durationMs : number) : number :=
  if feq durationMs (of_Z 0) then of_Z 0
  else
    let minutes := fdiv durationMs (of_Z 60000) in
    let words := fdiv characterCount (of_Z 5) in
    Math_round (fdiv words minutes).

(** The [for] loop of [calculateAccuracy]: [todo] iterations remain, [i]
    is the loop index and [correct] the counter.  Both are integers below
    the length of a string, which a binary64 counter holds exactly. *)
Fixpoint accuracy_loop (typedText referenceText : js_string)
         (todo i correct : nat) : nat :=
  match todo with
  | O => correct
  | S todo' =>
      accuracy_loop typedText referenceText todo' (S i)
        (if char_eq (char_at typedText i) (char_at referenceText i)
         then S correct else correct)
  end.

Definition calculateAccuracy (typedText referenceText : js_string) : number :=
  if Nat.eqb (List.length typedText) 0 then of_Z 100
  else
    let comparisonLength :=
      Nat.min (List.length typedText) (List.length referenceText) in
    let correct :=
      accuracy_loop typedText referenceText comparisonLength 0 0 in
    Math_round
      (fmul (fdiv (of_nat correct) (of_nat (List.length typedText)))
            (of_Z 100)).

Definition calculateErrorRate (typedText referenceText : js_string) : number :=
  fsub (of_Z 100) (calculateAccuracy typedText referenceText).

(** [k.duration !== null]. *)
Definition has_duration (k : KeystrokeEvent) : bool :=
  match duration k with
  | Some _ => true
  | None => false
  end.

(** [k.duration || 0]. *)
Definition duration_or_zero (k : KeystrokeEvent) : number :=
  match duration k with
  | Some d => or_else d (of_Z 0)
  | None => of_Z 0
  end.

Definition calculateAverageKeystrokeDuration
           (keystrokes : list KeystrokeEvent) : number :=
  let validKeystrokes := List.filter has_duration keystrokes in
  if Nat.eqb (List.length validKeystrokes) 0 then of_Z 0
  else
    let sum :=
      List.fold_left (fun acc k => fadd acc (duration_or_zero k))
                     validKeystrokes (of_Z 0) in
    Math_round (fdiv sum (of_nat (List.length validKeystrokes))).

Definition calculateKeystrokeDurationStdDev
           (keystrokes : list KeystrokeEvent) : number :=
  let validKeystrokes := List.filter has_duration keystrokes in
  if Nat.eqb (List.length validKeystrokes) 0 then of_Z 0
  else
    let mean := calculateAverageKeystrokeDuration keystrokes in
    let squaredDiffs :=
      List.map (fun k => let diff := fsub (duration_or_zero k) mean in
                         fmul diff diff)
               validKeystrokes in
    let variance :=
      fdiv (List.fold_left (fun acc val => fadd acc val) squaredDiffs (of_Z 0))
           (of_nat (List.length validKeystrokes)) in
    Math_round (Math_sqrt variance).

Definition calculateTremorScore (keystrokes : list KeystrokeEvent) : number :=
  let stdDev := calculateKeystrokeDurationStdDev keystrokes in
  let mean := calculateAverageKeystrokeDuration keystrokes in
  if feq mean (of_Z 0) then of_Z 0
  else
    let coefficientOfVariation := fmul (fdiv stdDev mean) (of_Z 100) in
    Math_min (of_Z 100) (Math_round (fmul coefficientOfVariation (of_Z 2))).

Definition zeroed_fatigue : FatigueResult :=
  {| fr_fatigueDetected := false;
     fr_fatigueScore := of_Z 0;
     fr_earlyWPM := of_Z 0;
     fr_lateWPM := of_Z 0 |}.

Definition detectFatigue (keystrokes : list KeystrokeEvent)
           (startTime endTime : number) : FatigueResult :=
  if Nat.ltb (List.length keystrokes) 10 then zeroed_fatigue
  else
    let totalDuration := fsub endTime startTime in
    let thirdDuration := fdiv totalDuration (of_Z 3) in
    let earlyKeystrokes :=
      List.filter (fun k => flt (keyDownTime k) (fadd startTime thirdDuration))
                  keystrokes in
    let lateKeystrokes :=
      List.filter
        (fun k => fgt (keyDownTime k)
                      (fadd startTime (fmul (of_Z 2) thirdDuration)))
        keystrokes in
    if Nat.eqb (List.length earlyKeystrokes) 0
       || Nat.eqb (List.length lateKeystrokes) 0
    then zeroed_fatigue
    else
      let earlyWPM :=
        calculateWPM (of_nat (List.length earlyKeystrokes)) thirdDuration in
      let lateWPM :=
        calculateWPM (of_nat (List.length lateKeystrokes)) thirdDuration in
      let decline :=
        if fgt earlyWPM (of_Z 0)
        then fmul (fdiv (fsub earlyWPM lateWPM) earlyWPM) (of_Z 100)
        else of_Z 0 in
      let fatigueDetected := fgt decline (of_Z 20) in
      let fatigueScore := Math_max (of_Z 0) (Math_round decline) in
      {| fr_fatigueDetected := fatigueDetected;
         fr_fatigueScore := fatigueScore;
         fr_earlyWPM := Math_round earlyWPM;
         fr_lateWPM := Math_round lateWPM |}.

Definition calculatePerformanceMetrics (typedText referenceText : js_string)
           (keystrokes : list KeystrokeEvent) (startTime endTime : number)
  : PerformanceMetrics :=
  let duration := fsub endTime startTime in
  let accuracy := calculateAccuracy typedText referenceText in
  let wpm := calculateWPM (of_nat (List.length typedText)) duration in
  let avgDuration := calculateAverageKeystrokeDuration keystrokes in
  let stdDev := calculateKeystrokeDurationStdDev keystrokes in
  let tremorScore := calculateTremorScore keystrokes in
  let fatigue := detectFatigue keystrokes startTime endTime in
  let correctKeystrokes := List.length (List.filter isCorrect keystrokes) in
  let incorrectKeystrokes :=
    fsub (of_nat (List.length keystrokes)) (of_nat correctKeystrokes) in
  {| wpm := wpm;
     accuracy := accuracy;
     errorRate := fsub (of_Z 100) accuracy;
     totalKeystrokes := of_nat (List.length keystrokes);
     correctKeystrokes := of_nat correctKeystrokes;
     incorrectKeystrokes := incorrectKeystrokes;
     averageKeystrokeDuration := avgDuration;
     keystrokeDurationStdDev := stdDev;
     tremorSeverityScore := tremorScore;
     fatigueDetected := fr_fatigueDetected fatigue;
     fatigueScore := fr_fatigueScore fatigue |}.

(* ================================================================== *)
(** * Part III: the specification's formulas *)
(* ================================================================== *)

(** ** WPM *)

Definition spec_WPM (characterCount durationMs : number) : number :=
  if is_zero durationMs then of_Z 0
  else Math_round (fdiv (fdiv characterCount (of_Z 5))
                        (fdiv durationMs (of_Z 60000))).

(** ** Accuracy *)

(** The positions [i < min(len(typed), len(reference))] at which the two
    texts agree. *)
Definition matching_positions (typedText referenceText : js_string) : list nat :=
  List.filter
    (fun i => char_eq (char_at typedText i) (char_at referenceText i))
    (List.seq 0 (Nat.min (List.length typedText) (List.length referenceText))).

Definition spec_Accuracy (typedText referenceText : js_string) : number :=
  match typedText with
  | [] => of_Z 100
  | _ :: _ =>
      Math_round
        (fmul (fdiv (of_nat (List.length (matching_positions typedText referenceText)))
                    (of_nat (List.length typedText)))
              (of_Z 100))
  end.

(** ** Keystroke duration statistics

    Two readings.  [spec_mean] and [spec_stdDev] are the formulas that the
    functions are proved to compute: a duration enters the sums as
    [duration || 0], and the stages that are rounded are the mean and the
    final root.  [claimed_mean] and [claimed_stdDev] follow the words of
    the specification: the durations that are not null enter as they are,
    and every stage is rounded, the variance too.  The two readings differ
    (lemma [C3_counterexample]). *)

(** The durations of the events that have one, each as [duration || 0],
    which is the duration itself unless it is NaN or a zero. *)
Definition valid_durations (events : list KeystrokeEvent) : list number :=
  List.flat_map
    (fun k => match duration k with
              | Some d => [or_else d (of_Z 0)]
              | None => []
              end)
    events.

Definition sum_of (l : list number) : number := List.fold_left fadd l (of_Z 0).

Definition spec_mean (events : list KeystrokeEvent) : number :=
  match valid_durations events with
  | [] => of_Z 0
  | ds => Math_round (fdiv (sum_of ds) (of_nat (List.length ds)))
  end.

Definition spec_stdDev (events : list KeystrokeEvent) : number :=
  match valid_durations events with
  | [] => of_Z 0
  | ds =>
      let mean := spec_mean events in
      let squares := List.map (fun d => fmul (fsub d mean) (fsub d mean)) ds in
      Math_round (Math_sqrt (fdiv (sum_of squares) (of_nat (List.length ds))))
  end.

(** The durations that are not null, as they are. *)
Definition claimed_durations (events : list KeystrokeEvent) : list number :=
  List.flat_map
    (fun k => match duration k with
              | Some d => [d]
              | None => []
              end)
    events.

(** [round(sum / count)] over the durations that are not null. *)
Definition claimed_mean (events : list KeystrokeEvent) : number :=
  match claimed_durations events with
  | [] => of_Z 0
  | ds => Math_round (fdiv (sum_of ds) (of_nat (List.length ds)))
  end.

(** The population formula with every intermediate rounded: the mean, the
    variance and the root. *)
Definition claimed_stdDev (events : list KeystrokeEvent) : number :=
  match claimed_durations events with
  | [] => of_Z 0
  | ds =>
      let mean := claimed_mean events in
      let squares := List.map (fun d => fmul (fsub d mean) (fsub d mean)) ds in
      let variance :=
        Math_round (fdiv (sum_of squares) (of_nat (List.length ds))) in
      Math_round (Math_sqrt variance)
  end.

(** ** Tremor score *)

Definition spec_score_of_cv (coefficientOfVariation : number) : number :=
  Math_min (of_Z 100) (Math_round (fmul coefficientOfVariation (of_Z 2))).

Definition spec_TremorScore (events : list KeystrokeEvent) : number :=
  if is_zero (spec_mean events) then of_Z 0
  else spec_score_of_cv
         (fmul (fdiv (spec_stdDev events) (spec_mean events)) (of_Z 100)).

(** ** Fatigue analysis *)

Definition spec_third (startTime endTime : number) : number :=
  fdiv (fsub endTime startTime) (of_Z 3).

Definition spec_early (events : list KeystrokeEvent) (startTime endTime : number)
  : list KeystrokeEvent :=
  List.filter
    (fun k => flt (keyDownTime k) (fadd startTime (spec_third startTime endTime)))
    events.

Definition spec_late (events : list KeystrokeEvent) (startTime endTime : number)
  : list KeystrokeEvent :=
  List.filter
    (fun k => flt (fadd startTime (fmul (of_Z 2) (spec_third startTime endTime)))
                  (keyDownTime k))
    events.

Definition spec_decline (earlyWPM lateWPM : number) : number :=
  if flt (of_Z 0) earlyWPM
  then fmul (fdiv (fsub earlyWPM lateWPM) earlyWPM) (of_Z 100)
  else of_Z 0.

Definition spec_FatigueAnalysis (events : list KeystrokeEvent)
           (startTime endTime : number) : FatigueResult :=
  let third := spec_third startTime endTime in
  let earlyWPM :=
    spec_WPM (of_nat (List.length (spec_early events startTime endTime))) third in
  let lateWPM :=
    spec_WPM (of_nat (List.length (spec_late events startTime endTime))) third in
  let decline := spec_decline earlyWPM lateWPM in
  {| fr_fatigueDetected := flt (of_Z 20) decline;
     fr_fatigueScore := Math_max (of_Z 0) (Math_round decline);
     fr_earlyWPM := earlyWPM;
     fr_lateWPM := lateWPM |}.

(** ** Sample inputs *)

(** Numbers on which the operations are compared with the standard
    library's specification of IEEE 754: the special values, the smallest
    subnormal, the first normal number, integers, inexact quotients and the
    largest finite number. *)
Definition ieee_sample : list number :=
  [NaN; Inf false; Inf true; NegZero; Fin 0; Fin 1; Fin (2 ^ 52);
   of_Z 1; of_Z (-7); fdiv (of_Z 1) (of_Z 3); fdiv (of_Z 29) (of_Z 200);
   fdiv (of_Z (-2)) (of_Z 7); Fin ((2 ^ 53 - 1) * 2 ^ 2045)].

Definition agree2 (f : number -> number -> number)
           (g : SpecFloat.spec_float -> SpecFloat.spec_float
                -> SpecFloat.spec_float) : bool :=
  List.forallb
    (fun p => spec_float_same (to_spec (f (fst p) (snd p)))
                              (g (to_spec (fst p)) (to_spec (snd p))))
    (List.list_prod ieee_sample ieee_sample).

Definition agree_compare : bool :=
  List.forallb
    (fun p =>
       Bool.eqb (flt (fst p) (snd p))
                (SpecFloat.SFltb (to_spec (fst p)) (to_spec (snd p)))
       && Bool.eqb (feq (fst p) (snd p))
                   (SpecFloat.SFeqb (to_spec (fst p)) (to_spec (snd p)))
       && Bool.eqb (fle (fst p) (snd p))
                   (SpecFloat.SFleb (to_spec (fst p)) (to_spec (snd p))))
    (List.list_prod ieee_sample ieee_sample).

(** An event with the given key-down time, duration and correctness flag;
    the other fields play no part in the metrics. *)
Definition event_at (down : Z) (dur : option Z) (ok : bool) : KeystrokeEvent :=
  {| key := [];
     keyDownTime := of_Z down;
     keyUpTime := option_map (fun d => of_Z (down + d)) dur;
     duration := option_map of_Z dur;
     isCorrect := ok;
     characterIndex := of_Z 0 |}.

(** Twelve events, all in the first third of a 9-second window. *)
Definition twelve_early : list KeystrokeEvent :=
  List.map (fun t => event_at t (Some 100) true)
           [100; 300; 500; 700; 900; 1100; 1300; 1500; 1700; 1900; 2100; 2300].

(** Ten events over a 3-second window: six in the first third, four in the
    last. *)
Definition six_then_four : list KeystrokeEvent :=
  List.map (fun t => event_at t (Some 90) true)
           [100; 200; 300; 400; 500; 600; 2100; 2400; 2700; 2900].

(** Three events with durations of 1, 2 and 2 ms. *)
Definition one_two_two : list KeystrokeEvent :=
  [event_at 0 (Some 1) true; event_at 10 (Some 2) true; event_at 20 (Some 2) true].

(** Three events with durations of 100, 100 and 101 ms. *)
Definition hundred_hundred_101 : list KeystrokeEvent :=
  [event_at 0 (Some 100) true; event_at 200 (Some 100) true;
   event_at 400 (Some 101) true].

(** Two events: the duration of the first is not a number, that of the
    second is 100 ms. *)
Definition nan_then_100 : list KeystrokeEvent :=
  [{| key := []; keyDownTime := of_Z 0; keyUpTime := Some NaN;
      duration := Some NaN; isCorrect := true; characterIndex := of_Z 0 |};
   event_at 200 (Some 100) true].

(** Two events whose key-up precedes the key-down (the wall clock was set
    back in between): durations of -100 ms and -300 ms. *)
Definition clock_set_back : list KeystrokeEvent :=
  [event_at 1000 (Some (-100)) true; event_at 2000 (Some (-300)) true].

(** Ten events at the two ends of a window of three units
    (about [1.5e-323] ms). *)
Definition tiny_window : list KeystrokeEvent :=
  List.map (fun k => {| key := []; keyDownTime := Fin k; keyUpTime := None;
                        duration := None; isCorrect := true;
                        characterIndex := of_Z 0 |})
           [0; 0; 0; 0; 0; 3; 3; 3; 3; 3].

(* ================================================================== *)
(** * Part IV: the rest of the module and the pages that use it *)
(* ================================================================== *)

(** ** Further operations on numbers *)

(** [Math.floor]: the largest integer not above [x]; an integer part of
    [0] is [+0] for a positive [x], and [-0] stays [-0]. *)
Definition Math_floor (x : number) : number :=
  match x with
  | Fin k => round_frac false (one_units * Z.shiftr k 1074) 1
  | _ => x
  end.

(** [n % d]: the remainder of the division truncated towards zero; it has
    the sign of the dividend. *)
Definition frem (n d : number) : number :=
  match n, d with
  | NaN, _ | _, NaN => NaN
  | Inf _, _ => NaN
  | _, Inf _ => n
  | _, _ =>
      if is_zero d then NaN
      else if is_zero n then n
      else round_frac (sign_neg n) (Z.rem (units n) (units d)) 1
  end.

(** ** Numbers as strings

    [Number::toString] of ECMAScript, radix 10.  For a positive finite [x]
    it takes the integers [n], [k] and [s] with [10^(k-1) <= s < 10^k] such
    that [s * 10^(n-k)] is a decimal that rounds to [x], [k] as small as
    possible and, among those, [s * 10^(n-k)] nearest to [x]; [s] gives the
    digits and [n] the place of the decimal point. *)

(** The code unit of a decimal digit. *)
Definition digit (d : Z) : code_unit := (48 + Z.to_N d)%N.


Fixpoint digits_fuel (fuel : nat) (z : Z) (acc : js_string) : js_string :=
  match fuel with
  | O => acc
  | S fuel' =>
      let acc' := digit (z mod 10) :: acc in
      if z <? 10 then acc' else digits_fuel fuel' (z / 10) acc'
  end.

(** The decimal representation of a non-negative integer. *)
Definition digits (z : Z) : js_string :=
  digits_fuel (S (Z.to_nat (Z.log2 z))) z [].

(** The search for the decimal exponent of [p / q], upwards from [n] when
    [p / q] is at least 1 and downwards when it is below. *)
Fixpoint exponent_up (fuel : nat) (p q n : Z) : Z :=
  match fuel with
  | O => n
  | S fuel' => if p <? q * 10 ^ n then n else exponent_up fuel' p q (n + 1)
  end.

Fixpoint exponent_down (fuel : nat) (p q n : Z) : Z :=
  match fuel with
  | O => n
  | S fuel' =>
      if q <=? p * 10 ^ (1 - n) then n else exponent_down fuel' p q (n - 1)
  end.

(** The integer [n] with [10^(n-1) <= p / q < 10^n], for positive [p], [q]. *)
Definition decimal_exponent (p q : Z) : Z :=
  let fuel := Z.to_nat (Z.log2 p + Z.log2 q + 2) in
  if q <=? p then exponent_up fuel p q 1 else exponent_down fuel p q 0.

(** The floor of [(p / q) / 10^e]. *)
Definition floor_scaled (p q e : Z) : Z :=
  if 0 <=? e then p / (q * 10 ^ e) else (p * 10 ^ (- e)) / q.

(** The Number value for [c * 10^e]. *)
Definition decimal_value (c e : Z) : number :=
  if 0 <=? e then round_frac false (one_units * (c * 10 ^ e)) 1
  else round_frac false (one_units * c) (10 ^ (- e)).

(** Whether [c * 10^e] rounds to the number of [p] units. *)
Definition is_value (p c e : Z) : bool :=
  match decimal_value c e with
  | Fin r => r =? p
  | _ => false
  end.

(** Whether [lo * 10^e] is nearer to [p / q] than [(lo + 1) * 10^e]; the
    even one at a tie. *)
Definition nearer_low (p q e lo : Z) : bool :=
  let (a, b) := if 0 <=? e then (p, q * 10 ^ e) else (p * 10 ^ (- e), q) in
  match 2 * a ?= (2 * lo + 1) * b with
  | Lt => true
  | Gt => false
  | Eq => Z.even lo
  end.

(** The triple [(n, k, s)] for the number of [p] units, trying [k], [k + 1],
    ... digits in turn.  With [k] digits the candidates are the two
    [k]-digit decimals around [p]; the upper one can be [10^k], which is the
    one-digit decimal [1 * 10^n].  Seventeen digits always suffice, so the
    fuel is never used up. *)
Fixpoint shortest_digits (fuel : nat) (p n k : Z) : Z * Z * Z :=
  let e := n - k in
  let lo := floor_scaled p one_units e in
  let hi := lo + 1 in
  let of_hi := if hi =? 10 ^ k then (n + 1, 1, 1) else (n, k, hi) in
  match fuel with
  | O => (n, k, lo)
  | S fuel' =>
      match is_value p lo e, is_value p hi e with
      | true, true => if nearer_low p one_units e lo then (n, k, lo) else of_hi
      | true, false => (n, k, lo)
      | false, true => of_hi
      | false, false => shortest_digits fuel' p n (k + 1)
      end
  end.

Definition zeros (n : Z) : js_string := List.repeat 48%N (Z.to_nat n).

(** The exponent part: [e], the sign of [n - 1] and its digits. *)

Definition exponent_suffix (n : Z) : js_string :=
  101%N :: (if 0 <=? n - 1 then 43%N else 45%N) :: digits (Z.abs (n - 1)).

(** The string of the positive number of [p] units: plain digits up to
    [10^21], a decimal point inside or after leading zeros down to [10^-6],
    and exponent notation otherwise. *)
Definition positive_toString (p : Z) : js_string :=
  let '(n, k, s) := shortest_digits 800 p (decimal_exponent p one_units) 1 in
  let ds := digits s in
  if (k <=? n) && (n <=? 21) then ds ++ zeros (n - k)
  else if (0 <? n) && (n <=? 21) then
    List.firstn (Z.to_nat n) ds ++ 46%N :: List.skipn (Z.to_nat n) ds
  else if (-6 <? n) && (n <=? 0) then 48%N :: 46%N :: zeros (- n) ++ ds
  else if k =? 1 then ds ++ exponent_suffix n
  else List.firstn 1 ds ++ 46%N :: List.skipn 1 ds ++ exponent_suffix n.

Definition Number_toString (x : number) : js_string :=
  match x with
  | NaN => str "NaN"
  | Inf s => if s then str "-Infinity" else str "Infinity"
  | NegZero => str "0"
  | Fin k =>
      if k =? 0 then str "0"
      else if k <? 0 then 45%N :: positive_toString (- k)
      else positive_toString k
  end.

(** [s.padStart(maxLength, fillString)]. *)
Definition padStart (s : js_string) (maxLength : nat) (fillString : js_string)
  : js_string :=
  if (maxLength <=? List.length s)%nat then s
  else
    match fillString with
    | [] => s
    | _ =>
        let fillLen := (maxLength - List.length s)%nat in
        List.firstn fillLen (List.concat (List.repeat fillString fillLen)) ++ s
    end.

(** ** [formatTime] of [src/lib/calculations.ts] *)

Definition formatTime (ms : number) : js_string :=
  let seconds := Math_floor (fdiv ms (of_Z 1000)) in
  let minutes := Math_floor (fdiv seconds (of_Z 60)) in
  let remainingSeconds := frem seconds (of_Z 60) in
  Number_toString minutes ++ str ":"
    ++ padStart (Number_toString remainingSeconds) 2 (str "0").


(** ** A notion used to reason about signs *)

(** [x] is not negative: [+Infinity], or a finite number of at least 0
    units (a zero of either sign included). *)
Definition not_negative (x : number) : Prop :=
  x = Inf false \/ exists k, fin_val x = Some k /\ 0 <= k.

(** ** The session record *)

(** [TypingSession] of [types/typing]; the optional fields are absent
    ([undefined]) when [None]. *)
Module TypingSession.
Record t : Type := {
  id : js_string;
  timestamp : number;
  referenceText : js_string;
  typedText : js_string;
  keystrokes : list KeystrokeEvent;
  startTime : number;
  endTime : number;
  duration : number;
  wpm : number;
  accuracy : number;
  errorRate : number;
  tremorScore : option number;
  fatigueScore : option number
}.
End TypingSession.

(** [a === b] on strings. *)
Fixpoint string_eq (a b : js_string) : bool :=
  match a, b with
  | [], [] => true
  | x :: a', y :: b' => N.eqb x y && string_eq a' b'
  | _, _ => false
  end.

(** [key === s[i]]: the right-hand side is a string of one code unit, or
    [undefined]. *)
Definition string_eq_char (key : js_string) (c : option code_unit) : bool :=
  match c with
  | Some c => string_eq key [c]
  | None => false
  end.

(** [x || 0] for an optional field. *)
Definition field_or_zero (x : option number) : number :=
  match x with
  | Some v => or_else v (of_Z 0)
  | None => of_Z 0
  end.

(** ** The test page

    The component [TypingTest] of [src/app/page.tsx].  Its state is the
    tuple of its [useState] cells; every handler is a function from the
    state it sees, the event and the clock reading [Date.now()] to the next
    state. *)
Module TypingTest.

Inductive TestStatus : Type := idle | active | completed.

Record State : Type := {
  testStatus : TestStatus;
  typedText : js_string;
  keystrokes : list KeystrokeEvent;
  startTime : option number;
  currentKeyDownTime : option number;
  elapsedTime : number
}.

Definition initial : State :=
  {| testStatus := idle;
     typedText := [];
     keystrokes := [];
     startTime := None;
     currentKeyDownTime := None;
     elapsedTime := of_Z 0 |}.

Definition referenceText : js_string :=
  str "The quick brown fox jumps over the lazy dog. This simple sentence helps us measure typing speed and accuracy effectively.".

(** [!startTime]. *)
Definition no_start (s : State) : bool :=
  match startTime s with
  | Some t => negb (truthy t)
  | None => true
  end.

(** The callback of the timer effect, which runs while the test is active
    and [startTime] is set. *)
Definition timer_tick (s : State) (now : number) : State :=
  match testStatus s, startTime s with
  | active, Some t =>
      if truthy t then
        {| testStatus := testStatus s;
           typedText := typedText s;
           keystrokes := keystrokes s;
           startTime := startTime s;
           currentKeyDownTime := currentKeyDownTime s;
           elapsedTime := fsub now t |}
      else s
  | _, _ => s
  end.

Definition calculateWPM (s : State) : number :=
  if no_start s || feq (elapsedTime s) (of_Z 0) then of_Z 0
  else
    let minutes := fdiv (elapsedTime s) (of_Z 60000) in
    let words := fdiv (of_nat (List.length (typedText s))) (of_Z 5) in
    Math_round (fdiv words minutes).

Definition calculateAccuracy (s : State) : number :=
  if Nat.eqb (List.length (typedText s)) 0 then of_Z 100
  else
    let correct :=
      accuracy_loop (typedText s) referenceText (List.length (typedText s)) 0 0 in
    Math_round
      (fmul (fdiv (of_nat correct) (of_nat (List.length (typedText s))))
            (of_Z 100)).

Definition handleStartTest (s : State) (now : number) : State :=
  {| testStatus := active;
     typedText := [];
     keystrokes := [];
     startTime := Some now;
     currentKeyDownTime := currentKeyDownTime s;
     elapsedTime := of_Z 0 |}.

(** The [onChange] handler of the text area. *)
Definition handleChange (s : State) (value : js_string) : State :=
  {| testStatus := testStatus s;
     typedText := value;
     keystrokes := keystrokes s;
     startTime := startTime s;
     currentKeyDownTime := currentKeyDownTime s;
     elapsedTime := elapsedTime s |}.

Definition modifier_keys : list js_string :=
  [str "Shift"; str "Control"; str "Alt"; str "Meta"].

Definition includes (l : list js_string) (k : js_string) : bool :=
  List.existsb (fun x => string_eq x k) l.

Definition handleKeyDown (s : State) (key : js_string) (now : number) : State :=
  match testStatus s with
  | active =>
      if includes modifier_keys key then s
      else
        {| testStatus := testStatus s;
           typedText := typedText s;
           keystrokes := keystrokes s;
           startTime := startTime s;
           currentKeyDownTime := Some now;
           elapsedTime := elapsedTime s |}
  | _ => s
  end.

Definition handleKeyUp (s : State) (key : js_string) (now : number) : State :=
  match testStatus s, currentKeyDownTime s with
  | active, Some down =>
      let keyUpTime := now in
      let duration := fsub keyUpTime down in
      let currentCharIndex := List.length (typedText s) in
      let isCorrect :=
        string_eq_char key (char_at referenceText currentCharIndex) in
      let keystrokeEvent :=
        {| key := key;
           keyDownTime := down;
           keyUpTime := Some keyUpTime;
           duration := Some duration;
           isCorrect := isCorrect;
           characterIndex := of_nat currentCharIndex |} in
      {| testStatus := testStatus s;
         typedText := typedText s;
         keystrokes := keystrokes s ++ [keystrokeEvent];
         startTime := startTime s;
         currentKeyDownTime := None;
         elapsedTime := elapsedTime s |}
  | _, _ => s
  end.

(** The session object that [handleFinishTest] builds and passes to
    [saveSession]; [None] when it returns at once because [startTime] is
    not set.  [sessionId] is the result of [generateId()] and [endTime] the
    clock reading. *)
Definition finished_session (s : State) (sessionId : js_string)
           (endTime : number) : option TypingSession.t :=
  match startTime s with
  | Some start =>
      if truthy start then
        let metrics :=
          calculatePerformanceMetrics (typedText s) referenceText
                                      (keystrokes s) start endTime in
        Some {| TypingSession.id := sessionId;
                TypingSession.timestamp := start;
                TypingSession.referenceText := referenceText;
                TypingSession.typedText := typedText s;
                TypingSession.keystrokes := keystrokes s;
                TypingSession.startTime := start;
                TypingSession.endTime := endTime;
                TypingSession.duration := fsub endTime start;
                TypingSession.wpm := wpm metrics;
                TypingSession.accuracy := accuracy metrics;
                TypingSession.errorRate := errorRate metrics;
                TypingSession.tremorScore := Some (tremorSeverityScore metrics);
                TypingSession.fatigueScore := Some (fatigueScore metrics) |}
      else None
  | None => None
  end.

(** [handleFinishTest]: [saved] tells whether [saveSession] succeeded; the
    component then navigates to the results page, and otherwise shows the
    completed state. *)
Definition handleFinishTest (s : State) (sessionId : js_string)
           (endTime : number) (saved : bool) : State :=
  match finished_session s sessionId endTime with
  | Some _ =>
      if saved then s
      else
        {| testStatus := completed;
           typedText := typedText s;
           keystrokes := keystrokes s;
           startTime := startTime s;
           currentKeyDownTime := currentKeyDownTime s;
           elapsedTime := elapsedTime s |}
  | None => s
  end.

(** What can happen to the component. *)
Inductive Action : Type :=
| StartTest (now : number)
| Change (value : js_string)
| KeyDown (key : js_string) (now : number)
| KeyUp (key : js_string) (now : number)
| Tick (now : number)
| FinishTest (sessionId : js_string) (now : number) (saved : bool).

Definition step (s : State) (a : Action) : State :=
  match a with
  | StartTest now => handleStartTest s now
  | Change value => handleChange s value
  | KeyDown key now => handleKeyDown s key now
  | KeyUp key now => handleKeyUp s key now
  | Tick now => timer_tick s now
  | FinishTest sessionId now saved => handleFinishTest s sessionId now saved
  end.

Definition run (s : State) (actions : list Action) : State :=
  List.fold_left step actions s.

(** The key-down events that start a measurement: those of a key that is
    not a modifier. *)
Definition timed_key_downs (actions : list Action) : nat :=
  List.length
    (List.filter
       (fun a => match a with
                 | KeyDown key _ => negb (includes modifier_keys key)
                 | _ => false
                 end)
       actions).

(** The clock reading that an action carries. *)
Definition action_time (a : Action) : option number :=
  match a with
  | StartTest now => Some now
  | Change _ => None
  | KeyDown _ now => Some now
  | KeyUp _ now => Some now
  | Tick now => Some now
  | FinishTest _ now _ => Some now
  end.

(** The clock of a sequence of actions never goes backwards: the readings
    are whole milliseconds, each at least the one before (at least [last]
    for the first) and at most [limit]. *)
Fixpoint monotone_clock (limit last : Z) (actions : list Action) : Prop :=
  match actions with
  | [] => True
  | a :: rest =>
      match action_time a with
      | None => monotone_clock limit last rest
      | Some now =>
          exists t,
            now = of_Z t /\ last <= t <= limit /\ monotone_clock limit t rest
      end
  end.

(** What such a clock keeps true of the state of the component: the time
    of a pending key-down and the start time are whole milliseconds
    between 0 and the last reading, the elapsed time is a whole number of
    milliseconds between 0 and [limit], and every duration recorded is a
    finite number between 0 and [limit] milliseconds. *)
Definition clock_invariant (limit last : Z) (s : State) : Prop :=
  (forall d, currentKeyDownTime s = Some d ->
             exists t0, d = of_Z t0 /\ 0 <= t0 <= last)
  /\ (forall d, startTime s = Some d ->
                exists t0, d = of_Z t0 /\ 0 <= t0 <= last)
  /\ (exists e, elapsedTime s = of_Z e /\ 0 <= e <= limit)
  /\ List.Forall (fun k => forall d, duration k = Some d ->
                                     within 0 (limit * one_units) d)
                 (keystrokes s).

(** Whether a key-down is waiting for its key-up, as a count. *)
Definition pending (s : State) : nat :=
  match currentKeyDownTime s with
  | Some _ => 1
  | None => 0
  end.

End TypingTest.

(** ** The results page and the history page *)

(** The results page ([ResultsPage]). *)
Module ResultsPage.

Record Level : Type := { label : js_string; color : js_string }.

Definition getTremorLevel (score : number) : Level :=
  if flt score (of_Z 30) then {| label := str "Low"; color := str "text-green-400" |}
  else if flt score (of_Z 60)
       then {| label := str "Moderate"; color := str "text-yellow-400" |}
       else {| label := str "High"; color := str "text-red-400" |}.

Definition getFatigueLevel (score : number) : Level :=
  if flt score (of_Z 15) then {| label := str "None"; color := str "text-green-400" |}
  else if flt score (of_Z 30)
       then {| label := str "Mild"; color := str "text-yellow-400" |}
       else {| label := str "Significant"; color := str "text-red-400" |}.

(** The two levels that the page shows for a session. *)
Definition tremorLevel (session : TypingSession.t) : Level :=
  getTremorLevel (field_or_zero (TypingSession.tremorScore session)).

Definition fatigueLevel (session : TypingSession.t) : Level :=
  getFatigueLevel (field_or_zero (TypingSession.fatigueScore session)).

End ResultsPage.

(** The history page ([HistoryPage]). *)
Module HistoryPage.

Definition calculateAverageWPM (sessions : list TypingSession.t) : number :=
  if Nat.eqb (List.length sessions) 0 then of_Z 0
  else
    let sum :=
      List.fold_left (fun acc session => fadd acc (TypingSession.wpm session))
                     sessions (of_Z 0) in
    Math_round (fdiv sum (of_nat (List.length sessions))).

Definition calculateAverageAccuracy (sessions : list TypingSession.t) : number :=
  if Nat.eqb (List.length sessions) 0 then of_Z 0
  else
    let sum :=
      List.fold_left (fun acc session => fadd acc (TypingSession.accuracy session))
                     sessions (of_Z 0) in
    Math_round (fdiv sum (of_nat (List.length sessions))).

Record Badge : Type := { label : js_string; bg : js_string; text : js_string }.

Definition getTremorBadge (score : number) : Badge :=
  if flt score (of_Z 30)
  then {| label := str "Low"; bg := str "bg-green-500/20"; text := str "text-green-400" |}
  else if flt score (of_Z 60)
       then {| label := str "Moderate"; bg := str "bg-yellow-500/20";
               text := str "text-yellow-400" |}
       else {| label := str "High"; bg := str "bg-red-500/20"; text := str "text-red-400" |}.

End HistoryPage.

(** ** Sample inputs *)

(** One key typed on the test page: the test is started, the key [T] goes
    down and up, and the text area reports the text. *)
Definition one_key_typed : list TypingTest.Action :=
  [TypingTest.StartTest (of_Z 1000);
   TypingTest.KeyDown (str "T") (of_Z 1100);
   TypingTest.KeyUp (str "T") (of_Z 1200);
   TypingTest.Change (str "T")].

(** A session with the given words per minute and accuracy, and two such
    sessions. *)
Definition session_with (w acc : Z) : TypingSession.t :=
  {| TypingSession.id := [];
     TypingSession.timestamp := of_Z 0;
     TypingSession.referenceText := [];
     TypingSession.typedText := [];
     TypingSession.keystrokes := [];
     TypingSession.startTime := of_Z 0;
     TypingSession.endTime := of_Z 0;
     TypingSession.duration := of_Z 0;
     TypingSession.wpm := of_Z w;
     TypingSession.accuracy := of_Z acc;
     TypingSession.errorRate := of_Z (100 - acc);
     TypingSession.tremorScore := None;
     TypingSession.fatigueScore := None |}.

Definition two_sessions : list TypingSession.t :=
  [session_with 40 90; session_with 60 100].

(** Ten events in a window of 3 seconds: four in the first second, two in
    the second and four in the third. *)
Definition four_two_four : list KeystrokeEvent :=
  List.map (fun t => event_at t (Some 90) true)
           [100; 200; 300; 400; 1100; 1500; 2100; 2400; 2700; 2900].

(* ================================================================== *)
(** * Part V: facts about rounding *)
(* ================================================================== *)

(** ** Rounding to the nearest integer *)

Lemma rne_bounds (x : Q) : (inject_Z (Qfloor x) <= inject_Z (rne x) /\ inject_Z (rne x) <= inject_Z (Qfloor x) + 1)%Q.
Proof.
  unfold rne. cbv zeta.
  destruct (Qcompare _ _); try destruct (Z.even _); rewrite ?inject_Z_plus;
    change (inject_Z 1) with 1%Q; lra.
Qed.

Lemma rne_inject (z : Z) : rne (inject_Z z) = z.
Proof.
  unfold rne. rewrite Qfloor_Z.
  replace (Qcompare (inject_Z z - inject_Z z) (1 # 2)) with Lt; [reflexivity|].
  symmetry. apply (proj1 (Qlt_alt _ _)). lra.
Qed.

Lemma rne_mono (x y : Q) : (x <= y)%Q -> rne x <= rne y.
Proof.
  intros Hxy.
  pose proof (Qfloor_resp_le _ _ Hxy) as Hf.
  pose proof (Qfloor_le x) as Hx1. pose proof (Qlt_floor x) as Hx2.
  pose proof (Qfloor_le y) as Hy1. pose proof (Qlt_floor y) as Hy2.
  destruct (Z.eq_dec (Qfloor x) (Qfloor y)) as [E | N].
  - unfold rne. cbv zeta. rewrite E.
    destruct (Qcompare (x - inject_Z (Qfloor y)) (1 # 2)) eqn:Cx;
      destruct (Qcompare (y - inject_Z (Qfloor y)) (1 # 2)) eqn:Cy;
      try destruct (Z.even (Qfloor y)); try lia;
      try apply (proj2 (Qeq_alt _ _)) in Cx; try apply (proj2 (Qlt_alt _ _)) in Cx;
      try apply (proj2 (Qgt_alt _ _)) in Cx;
      try apply (proj2 (Qeq_alt _ _)) in Cy; try apply (proj2 (Qlt_alt _ _)) in Cy;
      try apply (proj2 (Qgt_alt _ _)) in Cy;
      exfalso; lra.
  - assert (Hlt : Qfloor x + 1 <= Qfloor y) by lia.
    pose proof (rne_bounds x) as [_ Bx]. pose proof (rne_bounds y) as [By _].
    change 1%Q with (inject_Z 1) in Bx. rewrite <- inject_Z_plus in Bx.
    rewrite <- Zle_Qle in Bx, By. lia.
Qed.

Lemma rne_comp (x y : Q) : (x == y)%Q -> rne x = rne y.
Proof.
  intros E. apply Z.le_antisymm; apply rne_mono; rewrite E; apply Qle_refl.
Qed.

(** ** Rounding a magnitude to 53 bits *)

Lemma pow2_pos (s : Z) : 0 <= s -> 0 < 2 ^ s.
Proof. intros. apply Z.pow_pos_nonneg; lia. Qed.

Lemma inject_pow2_pos (s : Z) : 0 <= s -> (0 < inject_Z (2 ^ s))%Q.
Proof.
  intros H. change 0%Q with (inject_Z 0). rewrite <- Zlt_Qlt. now apply pow2_pos.
Qed.

Lemma shift_of_nonneg (a : Z) : 0 <= shift_of a.
Proof. unfold shift_of. lia. Qed.

Lemma shift_of_mono (a b : Z) : a <= b -> shift_of a <= shift_of b.
Proof.
  intros H. unfold shift_of. pose proof (Z.log2_le_mono a b H). lia.
Qed.

Lemma shift_of_upper (a : Z) : a < 2 ^ (shift_of a + 53).
Proof.
  destruct (Z.le_gt_cases a 0) as [Hle | Hpos].
  - pose proof (pow2_pos (shift_of a + 53)). pose proof (shift_of_nonneg a). lia.
  - destruct (Z.log2_spec a Hpos) as [_ Hu].
    apply Z.lt_le_trans with (1 := Hu).
    apply Z.pow_le_mono_r; [lia|]. unfold shift_of. lia.
Qed.

Lemma shift_of_lower (b : Z) : 0 < shift_of b -> 2 ^ (shift_of b + 52) <= b.
Proof.
  intros Hs. unfold shift_of in *.
  assert (Hb : 0 < b).
  { destruct (Z.le_gt_cases b 0) as [Hle | Hpos]; [|exact Hpos].
    rewrite (Z.log2_nonpos b Hle) in Hs. lia. }
  destruct (Z.log2_spec b Hb) as [Hl _].
  replace (Z.max 0 (Z.log2 b - 52) + 52) with (Z.log2 b) by lia. exact Hl.
Qed.

Lemma Qdiv_le_mono (x y c : Q) : (0 < c)%Q -> (x <= y)%Q -> (x / c <= y / c)%Q.
Proof.
  intros Hc Hxy. apply Qle_shift_div_l; [exact Hc|].
  setoid_replace (x / c * c)%Q with x by (field; lra). exact Hxy.
Qed.

Lemma Qfloor_nonneg (x : Q) : (0 <= x)%Q -> 0 <= Qfloor x.
Proof.
  intros H. apply Qfloor_resp_le in H. exact H.
Qed.

(** The significand chosen by [rnd_mag] has at most 53 bits (or is [2^53]). *)
Lemma rnd_mag_significand_upper (x : Q) :
  rne (x / inject_Z (2 ^ shift_of (Qfloor x))) <= 2 ^ 53.
Proof.
  set (s := shift_of (Qfloor x)).
  assert (Hs : 0 <= s) by apply shift_of_nonneg.
  rewrite <- (rne_inject (2 ^ 53)). apply rne_mono.
  apply Qle_shift_div_r; [now apply inject_pow2_pos|].
  rewrite <- inject_Z_mult, <- Z.pow_add_r by lia.
  pose proof (shift_of_upper (Qfloor x)) as Hu. fold s in Hu.
  pose proof (Qlt_floor x) as Hx.
  apply Qlt_le_weak. apply Qlt_le_trans with (1 := Hx).
  rewrite <- Zle_Qle. rewrite Z.add_comm in Hu. lia.
Qed.

Lemma rnd_mag_significand_lower (x : Q) :
  0 < shift_of (Qfloor x) ->
  2 ^ 52 <= rne (x / inject_Z (2 ^ shift_of (Qfloor x))).
Proof.
  intros Hpos. set (s := shift_of (Qfloor x)) in *.
  rewrite <- (rne_inject (2 ^ 52)) at 1. apply rne_mono.
  apply Qle_shift_div_l; [apply inject_pow2_pos; lia|].
  rewrite <- inject_Z_mult, <- Z.pow_add_r by lia.
  pose proof (shift_of_lower (Qfloor x) Hpos) as Hl. fold s in Hl.
  apply Qle_trans with (inject_Z (Qfloor x)); [|apply Qfloor_le].
  rewrite <- Zle_Qle. rewrite Z.add_comm. exact Hl.
Qed.

Lemma rnd_mag_nonneg (x : Q) : (0 <= x)%Q -> 0 <= rnd_mag x.
Proof.
  intros Hx. unfold rnd_mag. cbv zeta.
  set (s := shift_of (Qfloor x)).
  assert (Hs : 0 <= s) by apply shift_of_nonneg.
  apply Z.mul_nonneg_nonneg; [|pose proof (pow2_pos s Hs); lia].
  rewrite <- (rne_inject 0). apply rne_mono.
  apply Qle_shift_div_l; [now apply inject_pow2_pos|].
  change (inject_Z 0) with 0%Q. lra.
Qed.

Lemma rnd_mag_mono (x y : Q) : (0 <= x)%Q -> (x <= y)%Q -> rnd_mag x <= rnd_mag y.
Proof.
  intros Hx Hxy. unfold rnd_mag. cbv zeta.
  pose proof (Qfloor_resp_le _ _ Hxy) as Hf.
  pose proof (shift_of_mono _ _ Hf) as Hs.
  pose proof (shift_of_nonneg (Qfloor x)) as Hsx.
  destruct (Z.eq_dec (shift_of (Qfloor x)) (shift_of (Qfloor y))) as [E | N].
  - rewrite E. apply Z.mul_le_mono_nonneg_r.
    + pose proof (pow2_pos (shift_of (Qfloor y))). lia.
    + apply rne_mono. apply Qdiv_le_mono; [apply inject_pow2_pos; lia | exact Hxy].
  - assert (Hlt : shift_of (Qfloor x) < shift_of (Qfloor y)) by lia.
    pose proof (rnd_mag_significand_upper x) as Hu.
    assert (Hpos : 0 < shift_of (Qfloor y)) by lia.
    pose proof (rnd_mag_significand_lower y Hpos) as Hl.
    set (sx := shift_of (Qfloor x)) in *. set (sy := shift_of (Qfloor y)) in *.
    apply Z.le_trans with (2 ^ 53 * 2 ^ sx).
    { apply Z.mul_le_mono_nonneg_r; [pose proof (pow2_pos sx); lia | exact Hu]. }
    apply Z.le_trans with (2 ^ 52 * 2 ^ sy).
    { rewrite <- !Z.pow_add_r by lia. apply Z.pow_le_mono_r; lia. }
    apply Z.mul_le_mono_nonneg_r; [pose proof (pow2_pos sy); lia | exact Hl].
Qed.


Lemma rnd_mag_exact (k : Z) : representable k -> rnd_mag (inject_Z k) = k.
Proof.
  intros [Hk Hm]. unfold rnd_mag. cbv zeta. rewrite Qfloor_Z.
  set (s := shift_of k) in *.
  assert (Hs : 0 <= s) by apply shift_of_nonneg.
  pose proof (pow2_pos s Hs) as Hp.
  assert (Hdiv : k = k / 2 ^ s * 2 ^ s).
  { pose proof (Z.div_mod k (2 ^ s)). lia. }
  rewrite (rne_comp _ (inject_Z (k / 2 ^ s))).
  - rewrite rne_inject. lia.
  - rewrite Hdiv at 1. rewrite inject_Z_mult. field.
    pose proof (inject_pow2_pos s Hs). lra.
Qed.

Lemma representable_rnd_mag (x : Q) : (0 <= x)%Q -> representable (rnd_mag x).
Proof.
  intros Hx. split; [now apply rnd_mag_nonneg|].
  unfold rnd_mag. cbv zeta.
  set (s := shift_of (Qfloor x)).
  set (m := rne (x / inject_Z (2 ^ s))).
  assert (Hs : 0 <= s) by apply shift_of_nonneg.
  assert (Hm0 : 0 <= m).
  { pose proof (rnd_mag_nonneg x Hx) as H. unfold rnd_mag in H. cbv zeta in H.
    fold s in H. fold m in H. pose proof (pow2_pos s Hs). nia. }
  assert (Hmu : m <= 2 ^ 53) by apply rnd_mag_significand_upper.
  destruct (Z.eq_dec m 0) as [-> | Hne].
  { rewrite Z.mul_0_l. apply Zmod_0_l. }
  assert (Hlog : Z.log2 (m * 2 ^ s) = s + Z.log2 m) by (apply Z.log2_mul_pow2; lia).
  assert (Hsh : shift_of (m * 2 ^ s) <= s \/ (m = 2 ^ 53 /\ shift_of (m * 2 ^ s) = s + 1)).
  { unfold shift_of. rewrite Hlog.
    destruct (Z.eq_dec m (2 ^ 53)) as [-> | Hn].
    - right. split; [reflexivity|]. rewrite Z.log2_pow2 by lia. lia.
    - left. assert (Z.log2 m < 53) by (apply Z.log2_lt_pow2; lia). lia. }
  pose proof (shift_of_nonneg (m * 2 ^ s)) as Hn0.
  destruct Hsh as [Hle | [-> He]].
  - set (t := shift_of (m * 2 ^ s)) in *.
    replace s with ((s - t) + t) by lia.
    rewrite Z.pow_add_r by lia. rewrite Z.mul_assoc. apply Z_mod_mult.
  - rewrite He. rewrite <- Z.pow_add_r by lia.
    replace (53 + s) with (52 + (s + 1)) by lia.
    rewrite Z.pow_add_r by lia. apply Z_mod_mult.
Qed.

Lemma rnd_mag_idem (x : Q) : (0 <= x)%Q -> rnd_mag (inject_Z (rnd_mag x)) = rnd_mag x.
Proof. intros Hx. apply rnd_mag_exact. now apply representable_rnd_mag. Qed.

(** ** Rounding to a number *)


Lemma one_units_pos : 0 < one_units.
Proof. reflexivity. Qed.

Lemma overflow_units_pos : 0 < overflow_units.
Proof. reflexivity. Qed.

Lemma Qcompare_cases (x : Q) :
  (Qcompare x 0 = Eq /\ (x == 0)%Q) \/ (Qcompare x 0 = Gt /\ (0 < x)%Q)
  \/ (Qcompare x 0 = Lt /\ (x < 0)%Q).
Proof.
  destruct (Qcompare x 0) eqn:C.
  - left. split; [reflexivity | now apply Qeq_alt].
  - right. right. split; [reflexivity | now apply (proj2 (Qlt_alt _ _))].
  - right. left. split; [reflexivity | now apply (proj2 (Qgt_alt _ _)) in C].
Qed.

Lemma rq_val_mono (x y : Q) : (x <= y)%Q -> rq_val x <= rq_val y.
Proof.
  intros Hxy. unfold rq_val.
  destruct (Qcompare_cases x) as [[-> Hx] | [[-> Hx] | [-> Hx]]];
    destruct (Qcompare_cases y) as [[-> Hy] | [[-> Hy] | [-> Hy]]];
    try lia; try (exfalso; lra).
  - assert (Hy0 : (0 <= y)%Q) by lra. pose proof (rnd_mag_nonneg y Hy0). lia.
  - apply rnd_mag_mono; lra.
  - assert (Hx0 : (0 <= - x)%Q) by lra. pose proof (rnd_mag_nonneg (- x) Hx0). lia.
  - assert (Hx0 : (0 <= - x)%Q) by lra. assert (Hy0 : (0 <= y)%Q) by lra.
    pose proof (rnd_mag_nonneg (- x) Hx0). pose proof (rnd_mag_nonneg y Hy0). lia.
  - assert (rnd_mag (- y) <= rnd_mag (- x)) by (apply rnd_mag_mono; lra). lia.
Qed.

Lemma rq_val_exact (a : Z) : representable (Z.abs a) -> rq_val (inject_Z a) = a.
Proof.
  intros Hr. unfold rq_val.
  destruct (Qcompare_cases (inject_Z a)) as [[-> Hx] | [[-> Hx] | [-> Hx]]].
  - change 0%Q with (inject_Z 0) in Hx. apply (proj1 (inject_Z_injective _ _)) in Hx. lia.
  - change 0%Q with (inject_Z 0) in Hx. rewrite <- Zlt_Qlt in Hx.
    rewrite Z.abs_eq in Hr by lia. now apply rnd_mag_exact.
  - change 0%Q with (inject_Z 0) in Hx. rewrite <- Zlt_Qlt in Hx.
    rewrite Z.abs_neq in Hr by lia.
    rewrite <- inject_Z_opp. rewrite rnd_mag_exact by exact Hr. lia.
Qed.

Lemma round_q_fin (s : bool) (x : Q) :
  Z.abs (rq_val x) < overflow_units -> fin_val (round_q s x) = Some (rq_val x).
Proof.
  unfold round_q, rq_val.
  destruct (Qcompare_cases x) as [[-> Hx] | [[-> Hx] | [-> Hx]]]; intros Hb.
  - destruct s; reflexivity.
  - assert (0 <= rnd_mag x) by (apply rnd_mag_nonneg; lra).
    unfold pack. destruct (Z.leb_spec overflow_units (rnd_mag x)); [lia|].
    destruct (Z.eqb_spec (rnd_mag x) 0) as [E | N]; simpl; congruence.
  - assert (0 <= rnd_mag (- x)) by (apply rnd_mag_nonneg; lra).
    unfold pack. destruct (Z.leb_spec overflow_units (rnd_mag (- x))); [lia|].
    destruct (Z.eqb_spec (rnd_mag (- x)) 0) as [E | N]; simpl; [|reflexivity].
    rewrite E. reflexivity.
Qed.

(** The bracketing lemma: an exact result between two representable values
    rounds to a finite number between them. *)
Lemma round_q_within (s : bool) (x : Q) (a b : Z) :
  fin_rep a -> fin_rep b -> (inject_Z a <= x)%Q -> (x <= inject_Z b)%Q ->
  within a b (round_q s x).
Proof.
  intros [Ra Fa] [Rb Fb] Hax Hxb.
  pose proof (rq_val_mono _ _ Hax) as H1. pose proof (rq_val_mono _ _ Hxb) as H2.
  rewrite rq_val_exact in H1, H2 by assumption.
  exists (rq_val x). split; [apply round_q_fin; lia | lia].
Qed.

Lemma round_q_exact (s : bool) (a : Z) :
  fin_rep a -> a <> 0 -> round_q s (inject_Z a) = Fin a.
Proof.
  intros [Ra Fa] Hne. unfold round_q.
  destruct (Qcompare_cases (inject_Z a)) as [[-> Hx] | [[-> Hx] | [-> Hx]]];
    change 0%Q with (inject_Z 0) in Hx.
  - apply (proj1 (inject_Z_injective _ _)) in Hx. lia.
  - rewrite <- Zlt_Qlt in Hx. rewrite Z.abs_eq in Ra, Fa by lia.
    rewrite rnd_mag_exact by exact Ra. unfold pack.
    destruct (Z.leb_spec overflow_units a); [lia|].
    destruct (Z.eqb_spec a 0); [lia | reflexivity].
  - rewrite <- Zlt_Qlt in Hx. rewrite Z.abs_neq in Ra, Fa by lia.
    rewrite <- inject_Z_opp. rewrite rnd_mag_exact by exact Ra. unfold pack.
    destruct (Z.leb_spec overflow_units (- a)); [lia|].
    destruct (Z.eqb_spec (- a) 0); [lia | f_equal; lia].
Qed.

Lemma round_int_within (s : bool) (p a b : Z) :
  fin_rep a -> fin_rep b -> a <= p <= b -> within a b (round_q s (inject_Z p)).
Proof.
  intros Ra Rb [H1 H2]. apply round_q_within; try assumption;
    rewrite <- Zle_Qle; assumption.
Qed.

Lemma round_div_within (s : bool) (p q a b : Z) :
  0 < q -> fin_rep a -> fin_rep b -> a * q <= p <= b * q ->
  within a b (round_q s (inject_Z p / inject_Z q)).
Proof.
  intros Hq Ra Rb [H1 H2].
  assert (Hq' : (0 < inject_Z q)%Q).
  { change 0%Q with (inject_Z 0). now rewrite <- Zlt_Qlt. }
  apply round_q_within; try assumption.
  - apply Qle_shift_div_l; [exact Hq'|]. rewrite <- inject_Z_mult, <- Zle_Qle. exact H1.
  - apply Qle_shift_div_r; [exact Hq'|]. rewrite <- inject_Z_mult, <- Zle_Qle. exact H2.
Qed.

(** Values [n * 2^e] with a significand of at most 53 bits are representable. *)
Lemma fin_rep_scaled (n e : Z) :
  Z.abs n <= 2 ^ 53 -> 0 <= e <= 2044 -> fin_rep (n * 2 ^ e).
Proof.
  intros Hn He. unfold fin_rep. rewrite Z.abs_mul.
  pose proof (pow2_pos e (proj1 He)) as Hp.
  rewrite (Z.abs_eq (2 ^ e)) by lia.
  set (m := Z.abs n) in *. assert (Hm : 0 <= m) by apply Z.abs_nonneg.
  split.
  - split; [nia|].
    destruct (Z.eq_dec m 0) as [-> | Hne]; [apply Zmod_0_l|].
    assert (Hlog : Z.log2 (m * 2 ^ e) = e + Z.log2 m) by (apply Z.log2_mul_pow2; lia).
    pose proof (shift_of_nonneg (m * 2 ^ e)) as Hn0.
    destruct (Z.eq_dec m (2 ^ 53)) as [-> | Hn53].
    + assert (Hsh : shift_of (2 ^ 53 * 2 ^ e) = e + 1).
      { unfold shift_of. rewrite Hlog. rewrite Z.log2_pow2 by lia. lia. }
      rewrite Hsh. rewrite <- Z.pow_add_r by lia.
      replace (53 + e) with (52 + (e + 1)) by lia.
      rewrite Z.pow_add_r by lia. apply Z_mod_mult.
    + assert (Hsh : shift_of (m * 2 ^ e) <= e).
      { unfold shift_of. rewrite Hlog.
        assert (Z.log2 m < 53) by (apply Z.log2_lt_pow2; lia). lia. }
      set (t := shift_of (m * 2 ^ e)) in *.
      replace e with ((e - t) + t) by lia.
      rewrite Z.pow_add_r by lia. rewrite Z.mul_assoc. apply Z_mod_mult.
  - apply Z.le_lt_trans with (2 ^ 53 * 2 ^ e); [nia|].
    rewrite <- Z.pow_add_r by lia. unfold overflow_units.
    apply Z.pow_lt_mono_r; lia.
Qed.

Lemma fin_rep_int (n : Z) : Z.abs n <= 2 ^ 53 -> fin_rep (n * one_units).
Proof. intros H. apply fin_rep_scaled; [exact H | lia]. Qed.

Lemma fin_rep_0 : fin_rep 0.
Proof. apply (fin_rep_int 0). simpl. lia. Qed.


(** ** The operations round the exact result *)

Lemma inject_Z_pos (z : Z) : 0 < z -> (0 < inject_Z z)%Q.
Proof. intros H. change 0%Q with (inject_Z 0). now rewrite <- Zlt_Qlt. Qed.

Lemma rne_div_spec (n d : Z) :
  0 < d -> rne (inject_Z n / inject_Z d) = rne_div n d.
Proof.
  intros Hd. pose proof (inject_Z_pos d Hd) as Hd'.
  unfold rne, rne_div. cbv zeta. rewrite <- Zdiv_Qdiv.
  pose proof (Z_div_mod n d ltac:(lia)) as Hdm.
  unfold Z.div. destruct (Z.div_eucl n d) as [t r]. destruct Hdm as [Hn Hr].
  assert (E : (inject_Z n / inject_Z d - inject_Z t == inject_Z r / inject_Z d)%Q).
  { rewrite Hn. rewrite inject_Z_plus, inject_Z_mult. field. lra. }
  destruct (Z.compare_spec (2 * r) d) as [Hc | Hc | Hc].
  - replace (Qcompare (inject_Z n / inject_Z d - inject_Z t) (1 # 2)) with Eq; [reflexivity|].
    symmetry. apply (proj1 (Qeq_alt _ _)). rewrite E.
    rewrite <- Hc. rewrite inject_Z_mult. field.
    assert (0 < r) by lia. pose proof (inject_Z_pos r ltac:(lia)).
    change (inject_Z 2) with 2%Q. lra.
  - replace (Qcompare (inject_Z n / inject_Z d - inject_Z t) (1 # 2)) with Lt; [reflexivity|].
    symmetry. apply (proj1 (Qlt_alt _ _)). rewrite E.
    apply Qlt_shift_div_r; [exact Hd'|].
    rewrite Zlt_Qlt in Hc. rewrite inject_Z_mult in Hc.
    change (inject_Z 2) with 2%Q in Hc. lra.
  - replace (Qcompare (inject_Z n / inject_Z d - inject_Z t) (1 # 2)) with Gt; [reflexivity|].
    symmetry. apply (proj1 (Qgt_alt _ _)). rewrite E.
    apply Qlt_shift_div_l; [exact Hd'|].
    rewrite Zlt_Qlt in Hc. rewrite inject_Z_mult in Hc.
    change (inject_Z 2) with 2%Q in Hc. lra.
Qed.

Lemma pos_ctz_nonneg (p : positive) : 0 <= pos_ctz p.
Proof. induction p; simpl; lia. Qed.

Lemma pos_ctz_divide (p : positive) : Z.pos p mod 2 ^ pos_ctz p = 0.
Proof.
  induction p as [p IH | p IH |]; try (simpl pos_ctz; apply Z.mod_1_r).
  cbn [pos_ctz]. pose proof (pos_ctz_nonneg p) as Hn.
  rewrite Z.pow_succ_r by exact Hn.
  change (Z.pos p~0) with (2 * Z.pos p).
  rewrite Z.mul_mod_distr_l; [rewrite IH; reflexivity | | lia].
  pose proof (pow2_pos (pos_ctz p) Hn). lia.
Qed.

Lemma ctz_nonneg (n : Z) : 0 <= ctz n.
Proof. destruct n; simpl; try lia; apply pos_ctz_nonneg. Qed.

Lemma ctz_divide (n z : Z) : 0 <= z <= ctz n -> n = Z.shiftr n z * 2 ^ z.
Proof.
  intros [Hz Hle]. rewrite Z.shiftr_div_pow2 by exact Hz.
  pose proof (pow2_pos z Hz) as Hp.
  assert (Hm : n mod 2 ^ ctz n = 0).
  { destruct n as [| p | p]; [reflexivity | apply pos_ctz_divide |].
    simpl ctz. change (Z.neg p) with (- Z.pos p).
    pose proof (pos_ctz_divide p) as H.
    apply Z.mod_divide in H; [|pose proof (pow2_pos _ (pos_ctz_nonneg p)); lia].
    apply Z.mod_divide; [pose proof (pow2_pos _ (pos_ctz_nonneg p)); lia|].
    now apply Z.divide_opp_r. }
  assert (Hdiv : (2 ^ z | n)).
  { apply Z.divide_trans with (2 ^ ctz n).
    - exists (2 ^ (ctz n - z)). rewrite <- Z.pow_add_r by lia. f_equal. lia.
    - apply Z.mod_divide; [pose proof (pow2_pos _ (ctz_nonneg n)); lia | exact Hm]. }
  destruct Hdiv as [c ->]. rewrite Z.div_mul by lia. reflexivity.
Qed.

Lemma rne_ratio_spec (n d : Z) :
  0 < d -> rne (inject_Z n / inject_Z d) = rne_ratio n d.
Proof.
  intros Hd. unfold rne_ratio. cbv zeta.
  set (z := Z.min (ctz n) (ctz d)).
  assert (Hz : 0 <= z) by (pose proof (ctz_nonneg n); pose proof (ctz_nonneg d); lia).
  pose proof (ctz_divide n z ltac:(lia)) as Hn.
  pose proof (ctz_divide d z ltac:(lia)) as Hd2.
  pose proof (pow2_pos z Hz) as Hp.
  assert (Hd3 : 0 < Z.shiftr d z) by nia.
  rewrite <- rne_div_spec by exact Hd3.
  apply rne_comp. rewrite Hn at 1. rewrite Hd2 at 1.
  rewrite !inject_Z_mult. field.
  pose proof (inject_Z_pos _ Hd3). pose proof (inject_Z_pos _ Hp). lra.
Qed.

Lemma log2_div_spec (p q : Z) :
  0 <= p -> 0 < q -> shift_of (p / q) = Z.max 0 (log2_div p q - 52).
Proof.
  intros Hp Hq. unfold shift_of, log2_div. cbv zeta.
  destruct (Z.lt_ge_cases p q) as [Hlt | Hge].
  - rewrite Z.div_small by lia. rewrite Z.log2_nonpos by lia.
    assert (Z.log2 p <= Z.log2 q) by (apply Z.log2_le_mono; lia).
    destruct (Z.shiftl q (Z.log2 p - Z.log2 q) <=? p); lia.
  - assert (Hp0 : 0 < p) by lia.
    destruct (Z.log2_spec p Hp0) as [Hp1 Hp2].
    destruct (Z.log2_spec q Hq) as [Hq1 Hq2].
    assert (Hc : 0 <= Z.log2 p - Z.log2 q).
    { assert (Z.log2 q <= Z.log2 p) by (apply Z.log2_le_mono; lia). lia. }
    pose proof (Z.log2_nonneg q) as Hlq.
    set (c := Z.log2 p - Z.log2 q) in *.
    rewrite Z.shiftl_mul_pow2 by exact Hc.
    pose proof (pow2_pos c Hc) as Hpc.
    assert (Hsplit : 2 ^ Z.log2 p = 2 ^ c * 2 ^ Z.log2 q).
    { rewrite <- Z.pow_add_r by lia. f_equal. unfold c. lia. }
    assert (Hsucc : 2 ^ Z.succ (Z.log2 p) = 2 ^ (c + 1) * 2 ^ Z.log2 q).
    { rewrite <- Z.pow_add_r by lia. f_equal. unfold c. lia. }
    destruct (Z.leb_spec (q * 2 ^ c) p) as [Hle | Hgt].
    + assert (E : Z.log2 (p / q) = c).
      { apply Z.log2_unique; [exact Hc|]. split.
        - apply Z.div_le_lower_bound; lia.
        - apply Z.div_lt_upper_bound; [lia|].
          replace (Z.succ c) with (c + 1) by lia.
          pose proof (pow2_pos (c + 1) ltac:(lia)) as Hpc1.
          assert (2 ^ (c + 1) * 2 ^ Z.log2 q <= q * 2 ^ (c + 1)).
          { rewrite (Z.mul_comm q). apply Z.mul_le_mono_nonneg_l; lia. }
          lia. }
      rewrite E. reflexivity.
    + destruct (Z.eq_dec c 0) as [Hc0 | Hc0].
      { rewrite Hc0 in Hgt. simpl in Hgt. lia. }
      assert (E : Z.log2 (p / q) = c - 1).
      { apply Z.log2_unique; [lia|]. split.
        - apply Z.div_le_lower_bound; [lia|].
          assert (Hh : 2 ^ c = 2 * 2 ^ (c - 1)).
          { rewrite <- Z.pow_succ_r by lia. f_equal. lia. }
          pose proof (pow2_pos (c - 1) ltac:(lia)) as Hpc1.
          assert (Hlt2 : q * 2 ^ (c - 1) < 2 * 2 ^ Z.log2 q * 2 ^ (c - 1)).
          { apply Z.mul_lt_mono_pos_r; [exact Hpc1|].
            rewrite Z.pow_succ_r in Hq2 by exact Hlq. exact Hq2. }
          rewrite Hsplit, Hh in Hp1. lia.
        - apply Z.div_lt_upper_bound; [lia|].
          replace (Z.succ (c - 1)) with c by lia. lia. }
      rewrite E. reflexivity.
Qed.

Lemma mag_ratio_spec (p q : Z) :
  0 <= p -> 0 < q -> mag_ratio p q = rnd_mag (inject_Z p / inject_Z q).
Proof.
  intros Hp Hq. unfold mag_ratio, rnd_mag. cbv zeta.
  rewrite <- Zdiv_Qdiv. rewrite log2_div_spec by assumption.
  set (s := Z.max 0 (log2_div p q - 52)).
  assert (Hs : 0 <= s) by (unfold s; lia).
  pose proof (pow2_pos s Hs) as Hps.
  rewrite Z.shiftl_mul_pow2 by exact Hs. f_equal.
  rewrite Z.shiftl_mul_pow2 by exact Hs.
  rewrite <- rne_ratio_spec by lia.
  apply rne_comp. rewrite inject_Z_mult. field.
  pose proof (inject_Z_pos _ Hq). pose proof (inject_Z_pos _ Hps). lra.
Qed.

Lemma rnd_mag_comp (x y : Q) : (0 <= x)%Q -> (x == y)%Q -> rnd_mag x = rnd_mag y.
Proof.
  intros Hx E. apply Z.le_antisymm; apply rnd_mag_mono; lra.
Qed.

Lemma round_frac_spec (s : bool) (p q : Z) :
  0 < q -> round_frac s p q = round_q s (inject_Z p / inject_Z q).
Proof.
  intros Hq. pose proof (inject_Z_pos q Hq) as Hq'.
  unfold round_frac, round_q.
  destruct p as [| p | p].
  - replace (Qcompare (inject_Z 0 / inject_Z q) 0) with Eq; [reflexivity|].
    symmetry. apply (proj1 (Qeq_alt _ _)). field. lra.
  - replace (Qcompare (inject_Z (Z.pos p) / inject_Z q) 0) with Gt.
    + rewrite mag_ratio_spec by lia. reflexivity.
    + symmetry. apply (proj1 (Qgt_alt _ _)). apply Qlt_shift_div_l; [exact Hq'|].
      pose proof (inject_Z_pos (Z.pos p) ltac:(lia)). lra.
  - assert (Hneg : (inject_Z (Z.neg p) / inject_Z q < 0)%Q).
    { apply Qlt_shift_div_r; [exact Hq'|].
      change (Z.neg p) with (- Z.pos p). rewrite inject_Z_opp.
      pose proof (inject_Z_pos (Z.pos p) ltac:(lia)). lra. }
    replace (Qcompare (inject_Z (Z.neg p) / inject_Z q) 0) with Lt
      by (symmetry; now apply (proj1 (Qlt_alt _ _))).
    rewrite mag_ratio_spec by lia. f_equal. apply rnd_mag_comp.
    + apply Qle_shift_div_l; [exact Hq'|].
      pose proof (inject_Z_pos (- Z.neg p) ltac:(lia)). lra.
    + rewrite inject_Z_opp. field. lra.
Qed.

Lemma round_q_comp (s : bool) (x y : Q) : (x == y)%Q -> round_q s x = round_q s y.
Proof.
  intros E. unfold round_q. rewrite <- E.
  destruct (Qcompare_cases x) as [[-> Hx] | [[-> Hx] | [-> Hx]]]; try reflexivity.
  - f_equal. apply rnd_mag_comp; lra.
  - f_equal. apply rnd_mag_comp; lra.
Qed.

Lemma round_frac_int (s : bool) (p : Z) :
  round_frac s p 1 = round_q s (inject_Z p).
Proof.
  rewrite round_frac_spec by lia. apply round_q_comp.
  change (inject_Z 1) with 1%Q. field.
Qed.

Lemma of_Z_0 : of_Z 0 = Fin 0.
Proof. reflexivity. Qed.

Lemma of_Z_round (z : Z) : of_Z z = round_q false (inject_Z (z * one_units)).
Proof.
  unfold of_Z. rewrite round_frac_int. now rewrite Z.mul_comm.
Qed.

Lemma of_Z_exact (n : Z) : Z.abs n <= 2 ^ 53 -> of_Z n = Fin (n * one_units).
Proof.
  intros H. destruct (Z.eq_dec n 0) as [-> | Hne]; [reflexivity|].
  rewrite of_Z_round. apply round_q_exact; [now apply fin_rep_int|].
  pose proof one_units_pos. nia.
Qed.

Lemma of_nat_exact (n : nat) :
  Z.of_nat n <= 2 ^ 53 -> of_nat n = Fin (Z.of_nat n * one_units).
Proof. intros H. apply of_Z_exact. lia. Qed.

(** ** The arithmetic operations on finite numbers *)

(** A number with a value is [-0] or [Fin k]: the two cases of a number [x]
    with [H : fin_val x = Some _]. *)
Ltac finite_cases x k H :=
  destruct x as [| ? | | k]; cbn [fin_val] in H;
  [discriminate H | discriminate H | |]; injection H as H.

Lemma fin_val_units (x : number) (a : Z) : fin_val x = Some a -> units x = a.
Proof. destruct x; simpl; congruence. Qed.

Lemma fin_val_fneg (y : number) (b : Z) :
  fin_val y = Some b -> fin_val (fneg y) = Some (- b).
Proof.
  destruct y as [| |  | k]; simpl; try congruence.
  - intros H. injection H as <-. reflexivity.
  - intros H. injection H as <-. destruct (Z.eqb_spec k 0) as [-> | N]; reflexivity.
Qed.

Lemma fadd_fin (x y : number) (a b : Z) :
  fin_val x = Some a -> fin_val y = Some b ->
  fadd x y = round_q (sign_neg x && sign_neg y) (inject_Z (a + b)).
Proof.
  intros Hx Hy. rewrite <- (fin_val_units _ _ Hx), <- (fin_val_units _ _ Hy).
  rewrite <- round_frac_int.
  destruct x, y; cbn [fin_val] in *; try discriminate; reflexivity.
Qed.

Lemma fmul_fin (x y : number) (a b : Z) :
  fin_val x = Some a -> fin_val y = Some b ->
  fmul x y = round_q (xorb (sign_neg x) (sign_neg y))
                     (inject_Z (a * b) / inject_Z one_units).
Proof.
  intros Hx Hy. rewrite <- (fin_val_units _ _ Hx), <- (fin_val_units _ _ Hy).
  rewrite <- round_frac_spec by apply one_units_pos.
  destruct x, y; cbn [fin_val] in *; try discriminate; reflexivity.
Qed.

Lemma fdiv_fin (x y : number) (a b : Z) :
  fin_val x = Some a -> fin_val y = Some b -> b <> 0 ->
  fdiv x y = round_q (xorb (sign_neg x) (sign_neg y))
                     (inject_Z (a * one_units) / inject_Z b).
Proof.
  intros Hx Hy Hb.
  assert (E : fdiv x y
              = round_frac (xorb (sign_neg x) (sign_neg y))
                           (Z.sgn b * (one_units * a)) (Z.abs b)).
  { rewrite <- (fin_val_units _ _ Hx), <- (fin_val_units _ _ Hy).
    destruct x as [| sx | | kx], y as [| sy | | ky]; cbn [fin_val] in *;
      try discriminate; try congruence;
      injection Hy as Hy; subst b; unfold fdiv; cbn [is_zero units];
      (destruct (Z.eqb_spec ky 0); [contradiction | reflexivity]). }
  rewrite E. rewrite round_frac_spec by lia. apply round_q_comp.
  assert (Hb' : ~ (inject_Z b == 0)%Q).
  { intros H. change 0%Q with (inject_Z 0) in H.
    apply (proj1 (inject_Z_injective _ _)) in H. contradiction. }
  destruct (Z.lt_trichotomy b 0) as [Hneg | [H0 | Hpos]]; [| contradiction |].
  - rewrite Z.sgn_neg, Z.abs_neq by lia.
    rewrite !inject_Z_mult, !inject_Z_opp. change (inject_Z 1) with 1%Q.
    field. exact Hb'.
  - rewrite Z.sgn_pos, Z.abs_eq by lia.
    rewrite !inject_Z_mult. change (inject_Z 1) with 1%Q.
    field. exact Hb'.
Qed.

Lemma within_fin_val (a b : Z) (x : number) (k : Z) :
  fin_val x = Some k -> a <= k <= b -> within a b x.
Proof. intros H1 H2. exists k. now split. Qed.

Lemma fadd_within (x y : number) (a b lo hi : Z) :
  fin_val x = Some a -> fin_val y = Some b -> fin_rep lo -> fin_rep hi ->
  lo <= a + b <= hi -> within lo hi (fadd x y).
Proof.
  intros Hx Hy Rl Rh Hb. rewrite (fadd_fin _ _ _ _ Hx Hy).
  now apply round_int_within.
Qed.

Lemma fsub_within (x y : number) (a b lo hi : Z) :
  fin_val x = Some a -> fin_val y = Some b -> fin_rep lo -> fin_rep hi ->
  lo <= a - b <= hi -> within lo hi (fsub x y).
Proof.
  intros Hx Hy Rl Rh Hb. unfold fsub.
  apply fadd_within with (a := a) (b := - b); try assumption.
  now apply fin_val_fneg.
Qed.

Lemma fmul_within (x y : number) (a b lo hi : Z) :
  fin_val x = Some a -> fin_val y = Some b -> fin_rep lo -> fin_rep hi ->
  lo * one_units <= a * b <= hi * one_units -> within lo hi (fmul x y).
Proof.
  intros Hx Hy Rl Rh Hb. rewrite (fmul_fin _ _ _ _ Hx Hy).
  apply round_div_within; try assumption. apply one_units_pos.
Qed.

Lemma fdiv_within (x y : number) (a b lo hi : Z) :
  fin_val x = Some a -> fin_val y = Some b -> 0 < b -> fin_rep lo -> fin_rep hi ->
  lo * b <= a * one_units <= hi * b -> within lo hi (fdiv x y).
Proof.
  intros Hx Hy Hpos Rl Rh Hb. rewrite (fdiv_fin _ _ _ _ Hx Hy) by lia.
  now apply round_div_within.
Qed.

Lemma flt_fin (x y : number) (a b : Z) :
  fin_val x = Some a -> fin_val y = Some b -> flt x y = (a <? b).
Proof.
  intros Hx Hy. rewrite <- (fin_val_units _ _ Hx), <- (fin_val_units _ _ Hy).
  destruct x, y; cbn [fin_val] in *; try discriminate; reflexivity.
Qed.

Lemma feq_fin (x y : number) (a b : Z) :
  fin_val x = Some a -> fin_val y = Some b -> feq x y = (a =? b).
Proof.
  intros Hx Hy. rewrite <- (fin_val_units _ _ Hx), <- (fin_val_units _ _ Hy).
  destruct x, y; cbn [fin_val] in *; try discriminate; reflexivity.
Qed.

Lemma feq_zero (x : number) : feq x (of_Z 0) = is_zero x.
Proof. destruct x as [| s | | k]; reflexivity. Qed.

(** The integer that [Math.round] picks for [k] units. *)
Lemma round_half_up_bounds (k lo hi : Z) :
  lo * one_units <= k <= hi * one_units ->
  lo <= (2 * k + one_units) / (2 * one_units) <= hi.
Proof.
  intros [H1 H2]. pose proof one_units_pos as HU. split.
  - apply Z.div_le_lower_bound; nia.
  - apply Z.lt_succ_r. apply Z.div_lt_upper_bound; nia.
Qed.

Lemma round_half_up_int (n : Z) :
  (2 * (n * one_units) + one_units) / (2 * one_units) = n.
Proof.
  pose proof one_units_pos as HU. symmetry.
  apply Z.div_unique with (r := one_units); lia.
Qed.

Lemma Math_round_fin (k : Z) :
  Math_round (Fin k)
  = round_q (k <? 0)
            (inject_Z ((2 * k + one_units) / (2 * one_units) * one_units)).
Proof.
  unfold Math_round. rewrite round_frac_int.
  rewrite Z.shiftr_div_pow2 by lia.
  change (2 ^ 1075) with (2 * one_units). now rewrite Z.mul_comm.
Qed.

Lemma Math_round_int (x : number) (k lo hi : Z) :
  fin_val x = Some k -> Z.abs lo <= 2 ^ 53 -> Z.abs hi <= 2 ^ 53 ->
  lo * one_units <= k <= hi * one_units ->
  exists n, fin_val (Math_round x) = Some (n * one_units) /\ lo <= n <= hi.
Proof.
  intros Hx Hlo Hhi Hk. destruct x as [| s | | k']; simpl in Hx; try discriminate.
  - injection Hx as <-. exists 0. split; [reflexivity|].
    pose proof one_units_pos. clear Hlo Hhi. nia.
  - injection Hx as ->. rewrite Math_round_fin.
    pose proof (round_half_up_bounds k lo hi Hk) as Hn.
    set (n := (2 * k + one_units) / (2 * one_units)) in *.
    exists n. split; [|exact Hn].
    rewrite round_q_fin; rewrite rq_val_exact.
    + reflexivity.
    + apply fin_rep_int. lia.
    + apply fin_rep_int. lia.
    + apply fin_rep_int. lia.
Qed.

(** Rounding an integral magnitude gives an integral magnitude. *)
Lemma rnd_mag_integral (n : Z) :
  0 < n -> exists n', 0 < n' /\ rnd_mag (inject_Z (n * one_units)) = n' * one_units.
Proof.
  intros Hn. pose proof one_units_pos as HU.
  assert (Hx : (0 <= inject_Z (n * one_units))%Q).
  { change 0%Q with (inject_Z 0). rewrite <- Zle_Qle. nia. }
  assert (Hge : one_units <= rnd_mag (inject_Z (n * one_units))).
  { rewrite <- (rnd_mag_exact one_units) at 1.
    - apply rnd_mag_mono.
      + change 0%Q with (inject_Z 0). rewrite <- Zle_Qle. lia.
      + rewrite <- Zle_Qle. nia.
    - apply (fin_rep_int 1). simpl. lia. }
  revert Hge. unfold rnd_mag. cbv zeta. rewrite Qfloor_Z.
  set (s := shift_of (n * one_units)).
  assert (Hs : 0 <= s) by apply shift_of_nonneg.
  pose proof (pow2_pos s Hs) as Hp.
  destruct (Z.le_gt_cases 1074 s) as [Hbig | Hsmall]; intros Hge.
  - set (m := rne (inject_Z (n * one_units) / inject_Z (2 ^ s))) in *.
    exists (m * 2 ^ (s - 1074)). 
    assert (E : m * 2 ^ s = m * 2 ^ (s - 1074) * one_units).
    { unfold one_units. rewrite <- Z.mul_assoc, <- Z.pow_add_r by lia.
      do 2 f_equal. lia. }
    split; [|exact E]. rewrite E in Hge. nia.
  - assert (Hq : (inject_Z (n * one_units) / inject_Z (2 ^ s)
                  == inject_Z (n * 2 ^ (1074 - s)))%Q).
    { assert (E : n * one_units = n * 2 ^ (1074 - s) * 2 ^ s).
      { unfold one_units. rewrite <- Z.mul_assoc, <- Z.pow_add_r by lia.
        do 2 f_equal. lia. }
      rewrite E at 1. rewrite inject_Z_mult. field.
      pose proof (inject_pow2_pos s Hs). lra. }
    rewrite (rne_comp _ _ Hq) in *. rewrite rne_inject in *.
    exists n. split; [lia|].
    unfold one_units. rewrite <- !Z.mul_assoc, <- Z.pow_add_r by lia.
    do 2 f_equal. lia.
Qed.

Lemma pack_cases (s : bool) (r : Z) :
  0 < r ->
  (overflow_units <= r /\ pack s r = Inf s)
  \/ (r < overflow_units /\ pack s r = Fin (if s then - r else r)).
Proof.
  intros Hr. unfold pack.
  destruct (Z.leb_spec overflow_units r); [left; now split|].
  destruct (Z.eqb_spec r 0); [lia|]. right. now split.
Qed.

(** [Math.round] leaves its own results unchanged. *)
Lemma Math_round_idem (x : number) : Math_round (Math_round x) = Math_round x.
Proof.
  destruct x as [| s | | k]; try reflexivity.
  pose proof one_units_pos as HU.
  set (n := (2 * k + one_units) / (2 * one_units)).
  rewrite (Math_round_fin k). fold n. unfold round_q.
  destruct (Qcompare_cases (inject_Z (n * one_units))) as [[-> Hx] | [[-> Hx] | [-> Hx]]];
    change 0%Q with (inject_Z 0) in Hx.
  - destruct (k <? 0); reflexivity.
  - rewrite <- Zlt_Qlt in Hx. assert (Hn : 0 < n) by nia.
    destruct (rnd_mag_integral n Hn) as (n' & Hn' & E).
    assert (Hq : (0 <= inject_Z (n * one_units))%Q).
    { change 0%Q with (inject_Z 0). rewrite <- Zle_Qle. lia. }
    pose proof (rnd_mag_idem _ Hq) as Hid.
    set (r := rnd_mag (inject_Z (n * one_units))) in *.
    assert (Hr : 0 < r) by nia.
    destruct (pack_cases false r Hr) as [[Ho ->] | [Hf ->]]; [reflexivity|].
    rewrite Math_round_fin.
    replace ((2 * r + one_units) / (2 * one_units)) with n'
      by (rewrite E; symmetry; apply round_half_up_int).
    rewrite <- E.
    replace (r <? 0) with false by (symmetry; apply Z.ltb_ge; lia).
    unfold round_q.
    replace (Qcompare (inject_Z r) 0) with Gt.
    + rewrite Hid. destruct (pack_cases false r Hr) as [[Ho _] | [_ ->]]; [lia | reflexivity].
    + symmetry. apply (proj1 (Qgt_alt _ _)).
      change 0%Q with (inject_Z 0). rewrite <- Zlt_Qlt. lia.
  - rewrite <- Zlt_Qlt in Hx. assert (Hn : 0 < - n) by nia.
    destruct (rnd_mag_integral (- n) Hn) as (n' & Hn' & E).
    rewrite <- inject_Z_opp.
    replace (- (n * one_units)) with (- n * one_units) by lia.
    assert (Hq : (0 <= inject_Z (- n * one_units))%Q).
    { change 0%Q with (inject_Z 0). rewrite <- Zle_Qle. lia. }
    pose proof (rnd_mag_idem _ Hq) as Hid.
    set (r := rnd_mag (inject_Z (- n * one_units))) in *.
    assert (Hr : 0 < r) by nia.
    destruct (pack_cases true r Hr) as [[Ho ->] | [Hf ->]]; [reflexivity|].
    rewrite Math_round_fin.
    replace (2 * - r + one_units) with (2 * (- n' * one_units) + one_units) by lia.
    rewrite round_half_up_int.
    replace (- r <? 0) with true by (symmetry; apply Z.ltb_lt; lia).
    unfold round_q.
    replace (Qcompare (inject_Z (- n' * one_units)) 0) with Lt.
    + rewrite <- inject_Z_opp. replace (- (- n' * one_units)) with r by lia.
      rewrite Hid. destruct (pack_cases true r Hr) as [[Ho _] | [_ ->]]; [lia | reflexivity].
    + symmetry. apply (proj1 (Qlt_alt _ _)).
      change 0%Q with (inject_Z 0). rewrite <- Zlt_Qlt. nia.
Qed.

(* ================================================================== *)
(** * Part VI: the properties of the metrics engine *)
(* ================================================================== *)

(** ** Agreement with the standard library's IEEE 754 specification *)

(** On every pair of [ieee_sample] the four operations and the three
    comparisons give what [SpecFloat] gives at precision 53 and maximal
    exponent 1024, and so does the square root on every element. *)
Lemma operations_agree_with_IEEE :
  agree2 fadd (SpecFloat.SFadd 53 1024) = true
  /\ agree2 fsub (SpecFloat.SFsub 53 1024) = true
  /\ agree2 fmul (SpecFloat.SFmul 53 1024) = true
  /\ agree2 fdiv (SpecFloat.SFdiv 53 1024) = true
  /\ List.forallb
       (fun x => spec_float_same (to_spec (Math_sqrt x))
                                 (SpecFloat.SFsqrt 53 1024 (to_spec x)))
       ieee_sample = true
  /\ agree_compare = true.
Proof.
  split; [|split; [|split; [|split; [|split]]]]; vm_compute; reflexivity.
Qed.

Example sqrt_agrees_with_IEEE :
  to_spec (Math_sqrt (fdiv (of_Z 15054) (of_Z 7)))
  = SpecFloat.SFsqrt 53 1024 (to_spec (fdiv (of_Z 15054) (of_Z 7))).
Proof. vm_compute. reflexivity. Qed.

Example underflow_agrees_with_IEEE :
  to_spec (fdiv (Fin 1) (of_Z 60000))
  = SpecFloat.SFdiv 53 1024 (to_spec (Fin 1)) (to_spec (of_Z 60000)).
Proof. vm_compute. reflexivity. Qed.

(** Why the rounding of every operation matters: 29 matches out of 200
    typed characters are 14.5 percent, but [29 / 200 * 100] is
    [14.499999999999998] in binary64 and [Math.round] gives 14. *)
Example accuracy_29_of_200 :
  Math_round (fmul (fdiv (of_Z 29) (of_Z 200)) (of_Z 100)) = of_Z 14
  /\ Qfloor ((2900 # 200) + (1 # 2)) = 15.
Proof. split; vm_compute; reflexivity. Qed.

(** ** Accuracy *)

(** The loop of [calculateAccuracy] counts the agreeing positions. *)

Lemma accuracy_loop_count (typedText referenceText : js_string) (todo i correct : nat) :
  accuracy_loop typedText referenceText todo i correct
  = (correct
     + List.length
         (List.filter
            (fun j => char_eq (char_at typedText j) (char_at referenceText j))
            (List.seq i todo)))%nat.
Proof.
  revert i correct. induction todo as [| todo IH]; intros i correct; simpl.
  - lia.
  - rewrite IH.
    destruct (char_eq (char_at typedText i) (char_at referenceText i)); simpl; lia.
Qed.

Lemma calculateAccuracy_spec (typedText referenceText : js_string) :
  calculateAccuracy typedText referenceText = spec_Accuracy typedText referenceText.
Proof.
  unfold calculateAccuracy, spec_Accuracy, matching_positions.
  destruct typedText as [| c rest]; [reflexivity|].
  rewrite accuracy_loop_count. reflexivity.
Qed.

Lemma matching_positions_le (typedText referenceText : js_string) :
  (List.length (matching_positions typedText referenceText)
   <= List.length typedText)%nat.
Proof.
  unfold matching_positions.
  eapply Nat.le_trans; [apply List.filter_length_le|].
  rewrite List.length_seq. apply Nat.le_min_l.
Qed.

(** C1: [calculateAccuracy] returns 100 for an empty typed text, whatever
    the reference; otherwise it counts the positions below
    [min(len(typed), len(reference))] at which the two texts agree and
    returns [round(matches / len(typed) * 100)], the denominator being the
    length of the typed text; [calculateErrorRate] is [100 - accuracy].
    For "helo" against "hello" three positions match, the accuracy is 75
    and the error rate 25. *)
Theorem C1_accuracy_contract (typedText referenceText : js_string) :
  calculateAccuracy [] referenceText = of_Z 100
  /\ calculateAccuracy typedText referenceText
     = spec_Accuracy typedText referenceText
  /\ calculateErrorRate typedText referenceText
     = fsub (of_Z 100) (calculateAccuracy typedText referenceText)
  /\ List.length (matching_positions (str "helo") (str "hello")) = 3%nat
  /\ calculateAccuracy (str "helo") (str "hello") = of_Z 75
  /\ calculateErrorRate (str "helo") (str "hello") = of_Z 25.
Proof.
  split; [reflexivity|]. split; [apply calculateAccuracy_spec|].
  split; [reflexivity|]. split; [reflexivity|].
  split; vm_compute; reflexivity.
Qed.

(** ** Words per minute *)

Lemma calculateWPM_spec (characterCount durationMs : number) :
  calculateWPM characterCount durationMs = spec_WPM characterCount durationMs.
Proof.
  unfold calculateWPM, spec_WPM. rewrite feq_zero. reflexivity.
Qed.

(** C6: [calculateWPM x 0] is 0 for every [x] (also for [-0]; nothing is
    raised), and for every other duration [d] the result is
    [round((x / 5) / (d / 60000))]: words of five characters over minutes,
    rounded to the nearest integer. *)
Theorem C6_wpm_contract (characterCount durationMs : number) :
  calculateWPM characterCount (of_Z 0) = of_Z 0
  /\ calculateWPM characterCount NegZero = of_Z 0
  /\ calculateWPM characterCount durationMs
     = if is_zero durationMs then of_Z 0
       else Math_round (fdiv (fdiv characterCount (of_Z 5))
                             (fdiv durationMs (of_Z 60000))).
Proof.
  split; [reflexivity|]. split; [reflexivity|]. apply calculateWPM_spec.
Qed.

(** ** Keystroke duration statistics *)

Lemma valid_durations_filter (events : list KeystrokeEvent) :
  valid_durations events
  = List.map duration_or_zero (List.filter has_duration events).
Proof.
  unfold valid_durations.
  induction events as [| k events IH]; [reflexivity|].
  cbn [List.flat_map List.filter]. rewrite IH.
  destruct k as [ky down up [d |] ok idx]; reflexivity.
Qed.

Lemma fold_left_map_fadd {A : Type} (f : A -> number) (l : list A) (acc : number) :
  List.fold_left (fun a k => fadd a (f k)) l acc
  = List.fold_left fadd (List.map f l) acc.
Proof.
  revert acc. induction l as [| k l IH]; intros acc; [reflexivity|].
  simpl. apply IH.
Qed.

Lemma mean_spec (events : list KeystrokeEvent) :
  calculateAverageKeystrokeDuration events = spec_mean events.
Proof.
  unfold calculateAverageKeystrokeDuration, spec_mean.
  rewrite valid_durations_filter.
  destruct (List.filter has_duration events) as [| k valid] eqn:E; [reflexivity|].
  rewrite fold_left_map_fadd. cbn [List.map List.length Nat.eqb].
  rewrite List.length_map. reflexivity.
Qed.

Lemma stdDev_spec (events : list KeystrokeEvent) :
  calculateKeystrokeDurationStdDev events = spec_stdDev events.
Proof.
  unfold calculateKeystrokeDurationStdDev, spec_stdDev.
  rewrite mean_spec. rewrite valid_durations_filter.
  destruct (List.filter has_duration events) as [| k valid] eqn:E; [reflexivity|].
  rewrite <- (List.map_map duration_or_zero
                (fun d => fmul (fsub d (spec_mean events)) (fsub d (spec_mean events)))).
  cbn [List.map List.length Nat.eqb]. rewrite List.length_map. reflexivity.
Qed.

Lemma no_duration_filter (events : list KeystrokeEvent) :
  List.filter has_duration
              (List.filter (fun k => negb (has_duration k)) events) = [].
Proof.
  induction events as [| k events IH]; [reflexivity|].
  simpl. destruct (has_duration k) eqn:E; simpl; [exact IH|].
  rewrite E. exact IH.
Qed.

(** C3, as the code has it: the duration statistics keep the events whose
    duration is not null.  When no event has one, mean and standard
    deviation are both 0.  Otherwise, with every duration taken as
    [duration || 0], the mean is [round(sum / count)] and the standard
    deviation is [round(sqrt(sum of squared differences / count))]: the
    population formula (division by the count), the differences taken
    from the already rounded mean, and the variance not rounded before the
    root. *)
Theorem C3_duration_stats (events : list KeystrokeEvent) :
  let no_valid := List.filter (fun k => negb (has_duration k)) events in
  calculateAverageKeystrokeDuration no_valid = of_Z 0
  /\ calculateKeystrokeDurationStdDev no_valid = of_Z 0
  /\ calculateAverageKeystrokeDuration events = spec_mean events
  /\ calculateKeystrokeDurationStdDev events = spec_stdDev events.
Proof.
  cbv zeta. repeat split.
  - unfold calculateAverageKeystrokeDuration. now rewrite no_duration_filter.
  - unfold calculateKeystrokeDurationStdDev. now rewrite no_duration_filter.
  - apply mean_spec.
  - apply stdDev_spec.
Qed.

(** The stages that are rounded are the mean and the final root.  With
    durations 1, 2 and 2 the mean [5 / 3] is rounded to 2 before the
    differences are taken; the variance [1 / 3] enters the square root as
    it is and the deviation is [round(0.577...) = 1], where a rounded
    variance would give 0. *)
Example stdDev_stages :
  calculateAverageKeystrokeDuration one_two_two = of_Z 2
  /\ calculateKeystrokeDurationStdDev one_two_two = of_Z 1
  /\ Math_round (Math_sqrt (fdiv (of_Z 1) (of_Z 3))) = of_Z 1
  /\ Math_round (Math_sqrt (Math_round (fdiv (of_Z 1) (of_Z 3)))) = of_Z 0.
Proof. split; [|split; [|split]]; vm_compute; reflexivity. Qed.

(** With durations 100, 100 and 101 the rounded mean is 100 and the
    variance is [1 / 3]: the code takes its root, [0.577...], which rounds
    to 1, where a variance rounded first gives 0. *)
Lemma stdDev_of_hundreds :
  calculateKeystrokeDurationStdDev hundred_hundred_101 = of_Z 1
  /\ claimed_stdDev hundred_hundred_101 = of_Z 0.
Proof. split; vm_compute; reflexivity. Qed.

(** A duration that is not a number counts as 0 in the code's sum: the
    mean of NaN and 100 is 50, where the sum of the durations themselves
    is NaN. *)
Lemma mean_of_nan_then_100 :
  calculateAverageKeystrokeDuration nan_then_100 = of_Z 50
  /\ claimed_mean nan_then_100 = NaN.
Proof. split; vm_compute; reflexivity. Qed.

Lemma one_is_not_zero : of_Z 1 <> of_Z 0.
Proof. vm_compute. discriminate. Qed.

Lemma fifty_is_a_number : of_Z 50 <> NaN.
Proof. vm_compute. discriminate. Qed.

(** C3, as the specification words it, fails on both counts: the code does
    not round the variance before the root, and it does not sum the
    durations as they are. *)
Lemma C3_counterexample :
  ~ (forall events : list KeystrokeEvent,
       calculateKeystrokeDurationStdDev events = claimed_stdDev events)
  /\ ~ (forall events : list KeystrokeEvent,
          calculateAverageKeystrokeDuration events = claimed_mean events).
Proof.
  split; intros H.
  - pose proof (H hundred_hundred_101) as E.
    destruct stdDev_of_hundreds as [E1 E2]. rewrite E1, E2 in E.
    exact (one_is_not_zero E).
  - pose proof (H nan_then_100) as E.
    destruct mean_of_nan_then_100 as [E1 E2]. rewrite E1, E2 in E.
    exact (fifty_is_a_number E).
Qed.

(** ** Fatigue analysis *)

Lemma spec_WPM_round (characterCount durationMs : number) :
  Math_round (spec_WPM characterCount durationMs)
  = spec_WPM characterCount durationMs.
Proof.
  unfold spec_WPM. destruct (is_zero durationMs); [reflexivity|].
  apply Math_round_idem.
Qed.

Lemma length_zero_iff_nil {A : Type} (l : list A) :
  Nat.eqb (List.length l) 0 = true <-> l = [].
Proof.
  destruct l; simpl; split; intros H; try reflexivity; discriminate.
Qed.

(** [detectFatigue] in terms of the groups of the specification. *)
Lemma detectFatigue_unfold (events : list KeystrokeEvent) (startTime endTime : number) :
  detectFatigue events startTime endTime
  = if Nat.ltb (List.length events) 10 then zeroed_fatigue
    else if Nat.eqb (List.length (spec_early events startTime endTime)) 0
            || Nat.eqb (List.length (spec_late events startTime endTime)) 0
         then zeroed_fatigue
         else spec_FatigueAnalysis events startTime endTime.
Proof.
  unfold detectFatigue, spec_FatigueAnalysis.
  fold (spec_third startTime endTime).
  fold (spec_early events startTime endTime).
  unfold fgt. fold (spec_late events startTime endTime).
  rewrite !calculateWPM_spec, !spec_WPM_round.
  reflexivity.
Qed.

(** C5: [detectFatigue] returns the zeroed result
    [{detected: false, score: 0, earlyWPM: 0, lateWPM: 0}] whenever there
    are fewer than 10 events, whatever the timestamps, and whenever the
    early group or the late group is empty. *)
Theorem C5_fatigue_zeroed (events : list KeystrokeEvent) (startTime endTime : number) :
  (List.length events < 10)%nat
  \/ spec_early events startTime endTime = []
  \/ spec_late events startTime endTime = [] ->
  detectFatigue events startTime endTime
  = {| fr_fatigueDetected := false;
       fr_fatigueScore := of_Z 0;
       fr_earlyWPM := of_Z 0;
       fr_lateWPM := of_Z 0 |}.
Proof.
  intros H. rewrite detectFatigue_unfold.
  destruct (Nat.ltb_spec (List.length events) 10) as [Hlt | Hge]; [reflexivity|].
  destruct H as [H | [H | H]]; [lia | |]; rewrite H; simpl.
  - reflexivity.
  - rewrite Bool.orb_true_r. reflexivity.
Qed.

Lemma C5_fatigue_zeroed_witness :
  ((List.length twelve_early < 10)%nat
   \/ spec_early twelve_early (of_Z 0) (of_Z 9000) = []
   \/ spec_late twelve_early (of_Z 0) (of_Z 9000) = [])
  /\ List.length twelve_early = 12%nat
  /\ List.length (spec_early twelve_early (of_Z 0) (of_Z 9000)) = 12%nat
  /\ detectFatigue twelve_early (of_Z 0) (of_Z 9000) = zeroed_fatigue.
Proof.
  assert (H : spec_late twelve_early (of_Z 0) (of_Z 9000) = [])
    by (vm_compute; reflexivity).
  split; [right; right; exact H|].
  split; [reflexivity|].
  split; [vm_compute; reflexivity|].
  apply (C5_fatigue_zeroed twelve_early (of_Z 0) (of_Z 9000)).
  right; right; exact H.
Defined.

(** C2: for at least 10 events with both groups non-empty, [detectFatigue]
    splits the window into three thirds of [(endTime - startTime) / 3];
    the early group holds the events whose key-down time is strictly
    before [startTime + third], the late group those strictly after
    [startTime + 2 * third], and an event in neither range is in neither
    group; each group's WPM is [calculateWPM] of the group's count over one
    third; [decline] is [(earlyWPM - lateWPM) / earlyWPM * 100] when
    [earlyWPM > 0] and 0 otherwise; the result is [detected = decline > 20],
    [score = max(0, round(decline))]. *)
Theorem C2_fatigue_analysis (events : list KeystrokeEvent) (startTime endTime : number) :
  (10 <= List.length events)%nat ->
  spec_early events startTime endTime <> [] ->
  spec_late events startTime endTime <> [] ->
  let third := fdiv (fsub endTime startTime) (of_Z 3) in
  let early :=
    List.filter (fun k => flt (keyDownTime k) (fadd startTime third)) events in
  let late :=
    List.filter
      (fun k => fgt (keyDownTime k) (fadd startTime (fmul (of_Z 2) third)))
      events in
  let earlyWPM := calculateWPM (of_nat (List.length early)) third in
  let lateWPM := calculateWPM (of_nat (List.length late)) third in
  let decline :=
    if fgt earlyWPM (of_Z 0)
    then fmul (fdiv (fsub earlyWPM lateWPM) earlyWPM) (of_Z 100)
    else of_Z 0 in
  early = spec_early events startTime endTime
  /\ late = spec_late events startTime endTime
  /\ (forall k, List.In k events ->
        flt (keyDownTime k) (fadd startTime third) = false ->
        fgt (keyDownTime k) (fadd startTime (fmul (of_Z 2) third)) = false ->
        ~ List.In k early /\ ~ List.In k late)
  /\ detectFatigue events startTime endTime
     = {| fr_fatigueDetected := fgt decline (of_Z 20);
          fr_fatigueScore := Math_max (of_Z 0) (Math_round decline);
          fr_earlyWPM := earlyWPM;
          fr_lateWPM := lateWPM |}.
Proof.
  intros Hlen Hearly Hlate. cbv zeta.
  split; [reflexivity|]. split; [reflexivity|]. split.
  - intros k Hin He Hl. split; intros Hk; apply List.filter_In in Hk;
      destruct Hk as [_ Hk]; congruence.
  - rewrite detectFatigue_unfold.
    destruct (Nat.ltb_spec (List.length events) 10) as [Hlt | Hge]; [lia|].
    destruct (Nat.eqb (List.length (spec_early events startTime endTime)) 0) eqn:E1.
    { apply length_zero_iff_nil in E1. contradiction. }
    destruct (Nat.eqb (List.length (spec_late events startTime endTime)) 0) eqn:E2.
    { apply length_zero_iff_nil in E2. contradiction. }
    cbn [orb]. unfold spec_FatigueAnalysis, spec_decline, fgt.
    rewrite !calculateWPM_spec. reflexivity.
Qed.

Lemma C2_fatigue_analysis_witness :
  (10 <= List.length six_then_four)%nat
  /\ spec_early six_then_four (of_Z 0) (of_Z 3000) <> []
  /\ spec_late six_then_four (of_Z 0) (of_Z 3000) <> []
  /\ detectFatigue six_then_four (of_Z 0) (of_Z 3000)
     = {| fr_fatigueDetected := true;
          fr_fatigueScore := of_Z 33;
          fr_earlyWPM := of_Z 72;
          fr_lateWPM := of_Z 48 |}.
Proof.
  assert (H1 : (10 <= List.length six_then_four)%nat) by (simpl; lia).
  assert (H2 : spec_early six_then_four (of_Z 0) (of_Z 3000) <> [])
    by (vm_compute; discriminate).
  assert (H3 : spec_late six_then_four (of_Z 0) (of_Z 3000) <> [])
    by (vm_compute; discriminate).
  split; [exact H1|]. split; [exact H2|]. split; [exact H3|].
  destruct (C2_fatigue_analysis six_then_four (of_Z 0) (of_Z 3000) H1 H2 H3)
    as (_ & _ & _ & ->).
  vm_compute. reflexivity.
Defined.

(** ** Keystroke tally *)

(** Counters held in numbers are exact. *)

Lemma round_q_int_units (s : bool) (n : Z) :
  Z.abs n <= 2 ^ 53 -> n <> 0 \/ s = false ->
  round_q s (inject_Z (n * one_units)) = Fin (n * one_units).
Proof.
  intros Hn [Hne | ->].
  - apply round_q_exact; [now apply fin_rep_int|]. pose proof one_units_pos. nia.
  - rewrite <- of_Z_round. now apply of_Z_exact.
Qed.

Lemma fsub_of_nat (a b : nat) :
  (b <= a)%nat -> Z.of_nat a <= 2 ^ 53 ->
  fsub (of_nat a) (of_nat b) = of_nat (a - b).
Proof.
  intros Hle Ha.
  rewrite (of_nat_exact a), (of_nat_exact b), (of_nat_exact (a - b)) by lia.
  unfold fsub.
  rewrite (fadd_fin _ _ (Z.of_nat a * one_units) (- (Z.of_nat b * one_units)));
    [| reflexivity | apply fin_val_fneg; reflexivity].
  replace (Z.of_nat a * one_units + - (Z.of_nat b * one_units))
    with (Z.of_nat (a - b) * one_units)
    by (rewrite Nat2Z.inj_sub by lia; ring).
  apply round_q_int_units; [lia|].
  destruct (Nat.eq_dec a b) as [-> | Hne]; [|left; lia].
  right. cbn [sign_neg]. apply andb_false_intro1.
  apply Z.ltb_ge. pose proof one_units_pos. nia.
Qed.

Lemma fadd_of_nat (a b : nat) :
  Z.of_nat (a + b) <= 2 ^ 53 ->
  fadd (of_nat a) (of_nat b) = of_nat (a + b).
Proof.
  intros Hab.
  rewrite (of_nat_exact a), (of_nat_exact b), (of_nat_exact (a + b)) by lia.
  rewrite (fadd_fin _ _ (Z.of_nat a * one_units) (Z.of_nat b * one_units))
    by reflexivity.
  replace (Z.of_nat a * one_units + Z.of_nat b * one_units)
    with (Z.of_nat (a + b) * one_units)
    by (rewrite Nat2Z.inj_add; ring).
  apply round_q_int_units; [lia|]. right. cbn [sign_neg].
  apply andb_false_intro1. apply Z.ltb_ge. pose proof one_units_pos. nia.
Qed.

(** C8: in the record of [calculatePerformanceMetrics], [totalKeystrokes]
    is the length of the event sequence, [correctKeystrokes] the number of
    events whose [isCorrect] flag is set, [incorrectKeystrokes] the
    remainder, and correct plus incorrect is the total.  (The length of a
    JavaScript array is below [2^32]; the counters are exact up to
    [2^53].) *)
Theorem C8_keystroke_tally (typedText referenceText : js_string)
        (keystrokes : list KeystrokeEvent) (startTime endTime : number) :
  Z.of_nat (List.length keystrokes) <= 2 ^ 53 ->
  let m := calculatePerformanceMetrics typedText referenceText keystrokes
                                       startTime endTime in
  let correct := List.length (List.filter isCorrect keystrokes) in
  totalKeystrokes m = of_nat (List.length keystrokes)
  /\ correctKeystrokes m = of_nat correct
  /\ incorrectKeystrokes m = of_nat (List.length keystrokes - correct)
  /\ fadd (correctKeystrokes m) (incorrectKeystrokes m) = totalKeystrokes m.
Proof.
  intros Hlen. cbv zeta.
  pose proof (List.filter_length_le isCorrect keystrokes) as Hc.
  unfold calculatePerformanceMetrics;
    cbn [totalKeystrokes correctKeystrokes incorrectKeystrokes].
  split; [reflexivity|]. split; [reflexivity|].
  rewrite fsub_of_nat by assumption. split; [reflexivity|].
  rewrite fadd_of_nat by lia. f_equal. lia.
Qed.

Lemma C8_keystroke_tally_witness :
  Z.of_nat (List.length six_then_four) <= 2 ^ 53
  /\ fadd (of_nat 10) (of_nat 0) = of_nat 10
  /\ let m := calculatePerformanceMetrics (str "helo") (str "hello")
                six_then_four (of_Z 0) (of_Z 3000) in
     fadd (correctKeystrokes m) (incorrectKeystrokes m) = totalKeystrokes m.
Proof.
  assert (H : Z.of_nat (List.length six_then_four) <= 2 ^ 53) by (simpl; lia).
  split; [exact H|]. split; [vm_compute; reflexivity|].
  exact (proj2 (proj2 (proj2
    (C8_keystroke_tally (str "helo") (str "hello") six_then_four
                        (of_Z 0) (of_Z 3000) H)))).
Defined.

(** ** Percentage fields *)

Lemma fin_rep_one : fin_rep one_units.
Proof. rewrite <- (Z.mul_1_l one_units). apply fin_rep_int. simpl. lia. Qed.

Lemma fle_fin (x y : number) (a b : Z) :
  fin_val x = Some a -> fin_val y = Some b -> fle x y = (a <=? b).
Proof.
  intros Hx Hy. unfold fle. rewrite (flt_fin _ _ _ _ Hy Hx).
  rewrite Z.leb_antisym.
  destruct x, y; cbn [fin_val] in *; try discriminate; reflexivity.
Qed.

(** A finite number between [lo] and [hi] (integers) passes the two
    JavaScript comparisons. *)
Lemma fle_between (x : number) (k lo hi : Z) :
  Z.abs lo <= 2 ^ 53 -> Z.abs hi <= 2 ^ 53 ->
  fin_val x = Some k -> lo * one_units <= k <= hi * one_units ->
  fle (of_Z lo) x = true /\ fle x (of_Z hi) = true.
Proof.
  intros Hlo Hhi Hx Hk. rewrite (of_Z_exact lo), (of_Z_exact hi) by assumption.
  rewrite (fle_fin _ _ (lo * one_units) k) by (reflexivity || assumption).
  rewrite (fle_fin _ _ k (hi * one_units)) by (reflexivity || assumption).
  split; apply Z.leb_le; lia.
Qed.

Lemma accuracy_integer (typedText referenceText : js_string) :
  Z.of_nat (List.length typedText) <= 2 ^ 53 ->
  exists n, fin_val (calculateAccuracy typedText referenceText)
            = Some (n * one_units) /\ 0 <= n <= 100.
Proof.
  intros Hlen. rewrite calculateAccuracy_spec. unfold spec_Accuracy.
  destruct typedText as [| ch rest].
  { exists 100. split; [reflexivity | lia]. }
  pose proof (matching_positions_le (ch :: rest) referenceText) as Hc.
  set (c := List.length (matching_positions (ch :: rest) referenceText)) in *.
  set (n := List.length (ch :: rest)) in *.
  assert (Hn : (0 < n)%nat) by (unfold n; simpl; lia).
  pose proof one_units_pos as HU.
  rewrite (of_nat_exact c), (of_nat_exact n) by lia.
  rewrite (of_Z_exact 100) by lia.
  assert (Hq : within 0 one_units
                 (fdiv (Fin (Z.of_nat c * one_units)) (Fin (Z.of_nat n * one_units)))).
  { apply fdiv_within with (a := Z.of_nat c * one_units) (b := Z.of_nat n * one_units);
      [reflexivity | reflexivity | apply Z.mul_pos_pos; lia
       | apply fin_rep_0 | apply fin_rep_one |].
    split; [apply Z.mul_nonneg_nonneg; [|apply Z.mul_nonneg_nonneg]; lia|].
    rewrite (Z.mul_comm one_units (Z.of_nat n * one_units)).
    apply Z.mul_le_mono_nonneg_r; [lia|]. apply Z.mul_le_mono_nonneg_r; lia. }
  destruct Hq as (k1 & Hk1 & Hb1).
  assert (Hp : within 0 (100 * one_units)
                 (fmul (fdiv (Fin (Z.of_nat c * one_units))
                             (Fin (Z.of_nat n * one_units)))
                       (Fin (100 * one_units)))).
  { apply fmul_within with (a := k1) (b := 100 * one_units);
      [assumption | reflexivity | apply fin_rep_0
       | apply fin_rep_int; lia |].
    split; [apply Z.mul_nonneg_nonneg; lia|].
    rewrite (Z.mul_comm k1). apply Z.mul_le_mono_nonneg_l; lia. }
  destruct Hp as (k2 & Hk2 & Hb2).
  apply (Math_round_int _ k2 0 100); [assumption | lia | lia | lia].
Qed.

Lemma Math_max_zero_not_negative (y : number) :
  flt (Math_max (of_Z 0) y) (of_Z 0) = false.
Proof.
  rewrite of_Z_0. destruct y as [| s | | k]; try reflexivity.
  - destruct s; reflexivity.
  - unfold Math_max. cbn [flt units].
    destruct (Z.ltb_spec 0 k); [cbn [flt units]; apply Z.ltb_ge; lia|].
    destruct (Z.ltb_spec k 0); reflexivity.
Qed.

Lemma fatigue_score_not_negative (keystrokes : list KeystrokeEvent)
      (startTime endTime : number) :
  flt (fr_fatigueScore (detectFatigue keystrokes startTime endTime)) (of_Z 0)
  = false.
Proof.
  rewrite detectFatigue_unfold.
  destruct (Nat.ltb _ _); [reflexivity|].
  destruct (_ || _); [reflexivity|].
  apply Math_max_zero_not_negative.
Qed.

(** ** Bounds by the rounding of another exact result *)

Lemma round_q_fin_rep (s : bool) (x : Q) (k : Z) :
  fin_val (round_q s x) = Some k -> rq_val x = k /\ fin_rep k.
Proof.
  unfold round_q, rq_val.
  destruct (Qcompare_cases x) as [[-> Hx] | [[-> Hx] | [-> Hx]]]; intros H.
  - assert (k = 0) by (destruct s; simpl in H; congruence). subst k.
    split; [reflexivity | apply fin_rep_0].
  - assert (Hq : (0 <= x)%Q) by lra.
    pose proof (rnd_mag_nonneg x Hq) as Hn.
    pose proof (representable_rnd_mag x Hq) as Hr.
    revert H. unfold pack.
    destruct (Z.leb_spec overflow_units (rnd_mag x)) as [Ho | Hf]; [discriminate|].
    destruct (Z.eqb_spec (rnd_mag x) 0) as [E | N]; cbn [fin_val]; intros H';
      injection H' as <-.
    + split; [congruence | apply fin_rep_0].
    + split; [reflexivity|]. unfold fin_rep. rewrite Z.abs_eq by lia. now split.
  - assert (Hq : (0 <= - x)%Q) by lra.
    pose proof (rnd_mag_nonneg (- x) Hq) as Hn.
    pose proof (representable_rnd_mag (- x) Hq) as Hr.
    revert H. unfold pack.
    destruct (Z.leb_spec overflow_units (rnd_mag (- x))) as [Ho | Hf];
      [discriminate|].
    destruct (Z.eqb_spec (rnd_mag (- x)) 0) as [E | N]; cbn [fin_val]; intros H';
      injection H' as <-.
    + split; [lia | apply fin_rep_0].
    + split; [reflexivity|]. unfold fin_rep. rewrite Z.abs_neq by lia.
      rewrite Z.opp_involutive. now split.
Qed.

Lemma rq_val_0 : rq_val 0 = 0.
Proof. reflexivity. Qed.

Lemma round_q_upper (s sy : bool) (x y : Q) (b : Z) :
  (0 <= x)%Q -> (x <= y)%Q -> fin_val (round_q sy y) = Some b ->
  within 0 b (round_q s x).
Proof.
  intros Hx Hxy Hy. destruct (round_q_fin_rep _ _ _ Hy) as [Hb [_ Hf]].
  pose proof (rq_val_mono _ _ Hx) as H0. rewrite rq_val_0 in H0.
  pose proof (rq_val_mono _ _ Hxy) as H1. rewrite Hb in H1.
  exists (rq_val x). split; [apply round_q_fin; lia | lia].
Qed.

Lemma Qdiv_le_cross (p q p' q' : Z) :
  0 < q -> 0 < q' -> p * q' <= p' * q ->
  (inject_Z p / inject_Z q <= inject_Z p' / inject_Z q')%Q.
Proof.
  intros Hq Hq' H. pose proof (inject_Z_pos q Hq). pose proof (inject_Z_pos q' Hq').
  apply Qle_shift_div_l; [assumption|].
  setoid_replace (inject_Z p / inject_Z q * inject_Z q')%Q
    with (inject_Z (p * q') / inject_Z q)%Q by (rewrite inject_Z_mult; field; lra).
  apply Qle_shift_div_r; [assumption|].
  rewrite <- inject_Z_mult, <- Zle_Qle. exact H.
Qed.

Lemma fdiv_upper (x y x' y' : number) (a b a' b' v : Z) :
  fin_val x = Some a -> fin_val y = Some b ->
  fin_val x' = Some a' -> fin_val y' = Some b' ->
  0 <= a -> 0 < b -> 0 < b' -> a * b' <= a' * b ->
  fin_val (fdiv x' y') = Some v ->
  within 0 v (fdiv x y).
Proof.
  intros Hx Hy Hx' Hy' Ha Hb Hb' Hle Hv. pose proof one_units_pos as HU.
  rewrite (fdiv_fin _ _ _ _ Hx Hy) by lia.
  rewrite (fdiv_fin _ _ _ _ Hx' Hy') in Hv by lia.
  eapply round_q_upper; [| | exact Hv].
  - apply Qle_shift_div_l; [now apply inject_Z_pos|].
    rewrite Qmult_0_l. change 0%Q with (inject_Z 0). rewrite <- Zle_Qle. nia.
  - apply Qdiv_le_cross; try assumption. nia.
Qed.

Lemma fmul_upper (x y x' y' : number) (a b a' b' v : Z) :
  fin_val x = Some a -> fin_val y = Some b ->
  fin_val x' = Some a' -> fin_val y' = Some b' ->
  0 <= a <= a' -> 0 <= b <= b' ->
  fin_val (fmul x' y') = Some v ->
  within 0 v (fmul x y).
Proof.
  intros Hx Hy Hx' Hy' Ha Hb Hv. pose proof one_units_pos as HU.
  rewrite (fmul_fin _ _ _ _ Hx Hy).
  rewrite (fmul_fin _ _ _ _ Hx' Hy') in Hv.
  eapply round_q_upper; [| | exact Hv].
  - apply Qle_shift_div_l; [now apply inject_Z_pos|].
    rewrite Qmult_0_l. change 0%Q with (inject_Z 0). rewrite <- Zle_Qle. nia.
  - apply Qdiv_le_cross; try assumption. 
    apply Z.mul_le_mono_nonneg_r; [lia|]. nia.
Qed.

Lemma Math_round_half (x : number) (k lo hi : Z) :
  fin_val x = Some k -> Z.abs lo <= 2 ^ 53 -> Z.abs hi <= 2 ^ 53 ->
  2 * lo * one_units <= 2 * k + one_units < 2 * (hi + 1) * one_units ->
  exists n, fin_val (Math_round x) = Some (n * one_units) /\ lo <= n <= hi.
Proof.
  intros Hx Hlo Hhi [H1 H2]. pose proof one_units_pos as HU.
  assert (Hn : lo <= (2 * k + one_units) / (2 * one_units) <= hi).
  { split.
    - apply Z.div_le_lower_bound; lia.
    - apply Z.lt_succ_r. apply Z.div_lt_upper_bound; lia. }
  destruct x as [| s | | k']; cbn [fin_val] in Hx; try discriminate;
    injection Hx as Hx; subst k.
  - exists 0. split; [reflexivity|].
    rewrite (Z.div_small (2 * 0 + one_units)) in Hn by lia. exact Hn.
  - rewrite Math_round_fin.
    set (n := (2 * k' + one_units) / (2 * one_units)) in *.
    exists n. split; [|exact Hn].
    assert (Hr : fin_rep (n * one_units)) by (apply fin_rep_int; lia).
    rewrite round_q_fin; rewrite rq_val_exact; try apply Hr. reflexivity.
Qed.

(** ** Typed texts longer than the reference *)

Lemma matching_prefix (typedText referenceText : js_string) :
  (List.length referenceText <= List.length typedText)%nat ->
  List.firstn (List.length referenceText) typedText = referenceText ->
  List.length (matching_positions typedText referenceText)
  = List.length referenceText.
Proof.
  intros Hlen Hpre. unfold matching_positions.
  rewrite Nat.min_r by exact Hlen.
  rewrite List.forallb_filter_id; [apply List.length_seq|].
  apply List.forallb_forall. intros i Hi. apply List.in_seq in Hi.
  unfold char_at. rewrite <- Hpre at 1.
  rewrite List.nth_error_firstn.
  destruct (Nat.ltb_spec i (List.length referenceText)) as [_ | Hge]; [|lia].
  destruct (List.nth_error typedText i) as [ch |] eqn:E.
  - simpl. apply N.eqb_refl.
  - reflexivity.
Qed.

(** ** Windows of at least one millisecond *)

Lemma fdiv_fin_rep (x y : number) (a b k : Z) :
  fin_val x = Some a -> fin_val y = Some b -> b <> 0 ->
  fin_val (fdiv x y) = Some k -> fin_rep k.
Proof.
  intros Hx Hy Hb. rewrite (fdiv_fin _ _ _ _ Hx Hy Hb). intros H.
  now apply round_q_fin_rep in H.
Qed.

Lemma filter_none {A : Type} (f : A -> bool) (l : list A) :
  (forall x, f x = false) -> List.filter f l = [].
Proof.
  intros H. induction l as [| x l IH]; [reflexivity|].
  simpl. now rewrite H.
Qed.

Lemma flt_infinity (y : number) : flt (Inf false) y = false.
Proof. destruct y as [| s | | k]; reflexivity. Qed.

(** The duration of a window of at least one millisecond is either
    infinite (the subtraction overflowed) or at least one millisecond. *)
Lemma window_duration (startTime endTime : number) (a b : Z) :
  fin_val startTime = Some a -> fin_val endTime = Some b ->
  a + one_units <= b ->
  fsub endTime startTime = Inf false
  \/ exists r, fsub endTime startTime = Fin r /\ one_units <= r /\ fin_rep r.
Proof.
  intros Hs He Hab. pose proof one_units_pos as HU. unfold fsub.
  rewrite (fadd_fin _ _ b (- a) He (fin_val_fneg _ _ Hs)).
  set (x := inject_Z (b + - a)).
  assert (Hx : (0 < x)%Q) by (apply inject_Z_pos; lia).
  assert (Hq : (0 <= x)%Q) by lra.
  assert (Hr : one_units <= rnd_mag x).
  { rewrite <- (rnd_mag_exact one_units) at 1 by apply fin_rep_one.
    apply rnd_mag_mono.
    - change 0%Q with (inject_Z 0). rewrite <- Zle_Qle. lia.
    - unfold x. rewrite <- Zle_Qle. lia. }
  unfold round_q.
  replace (Qcompare x 0) with Gt by (symmetry; now apply (proj1 (Qgt_alt _ _))).
  destruct (pack_cases false (rnd_mag x) ltac:(lia)) as [[_ ->] | [Hf ->]].
  - left. reflexivity.
  - right. exists (rnd_mag x). split; [reflexivity|]. split; [exact Hr|].
    unfold fin_rep. rewrite Z.abs_eq by lia.
    split; [now apply representable_rnd_mag | exact Hf].
Qed.

Lemma fatigue_overflowed_window (keystrokes : list KeystrokeEvent)
      (startTime endTime : number) (a : Z) :
  fin_val startTime = Some a ->
  fsub endTime startTime = Inf false ->
  detectFatigue keystrokes startTime endTime = zeroed_fatigue.
Proof.
  intros Hs Hinf. rewrite detectFatigue_unfold.
  destruct (Nat.ltb _ _); [reflexivity|].
  assert (Hlate : spec_late keystrokes startTime endTime = []).
  { unfold spec_late, spec_third. rewrite Hinf.
    assert (E : fmul (of_Z 2) (fdiv (Inf false) (of_Z 3)) = Inf false)
      by (vm_compute; reflexivity).
    rewrite E.
    assert (E2 : fadd startTime (Inf false) = Inf false)
      by (destruct startTime; cbn [fin_val] in Hs;
          [discriminate Hs | discriminate Hs | reflexivity | reflexivity]).
    rewrite E2. apply filter_none. intros k. apply flt_infinity. }
  rewrite Hlate. cbn [List.length Nat.eqb]. rewrite Bool.orb_true_r. reflexivity.
Qed.

Lemma units_scale :
  one_units = 4 * 2 ^ 1072 /\ 2 ^ 1072 = 65536 * 2 ^ 1056
  /\ one_units = 262144 * 2 ^ 1056 /\ 0 < 2 ^ 1056.
Proof. repeat split. Qed.

Lemma fin_rep_pow2 (e : Z) : 0 <= e <= 2044 -> fin_rep (2 ^ e).
Proof.
  intros He. rewrite <- (Z.mul_1_l (2 ^ e)). apply fin_rep_scaled; [|exact He].
  simpl. lia.
Qed.

(** A third of such a window, in the units of [calculateWPM]. *)
Lemma wpm_integer (count : nat) (third : number) (h : Z) :
  Z.of_nat count <= 2 ^ 32 -> fin_val third = Some h -> 2 ^ 1072 <= h ->
  fin_rep h ->
  exists n, fin_val (calculateWPM (of_nat count) third) = Some (n * one_units)
            /\ 0 <= n <= 2 ^ 50.
Proof.
  intros Hcount Hthird Hh Hrep.
  destruct units_scale as (HU4 & HT & HU18 & HM).
  pose proof one_units_pos as HU.
  set (T := 2 ^ 1072) in *. set (M := 2 ^ 1056) in *.
  rewrite calculateWPM_spec. unfold spec_WPM.
  assert (Hz : is_zero third = false).
  { destruct third; cbn [fin_val] in Hthird;
      [discriminate Hthird | discriminate Hthird | |].
    - injection Hthird as <-. lia.
    - injection Hthird as ->. cbn [is_zero]. apply Z.eqb_neq. lia. }
  rewrite Hz.
  (* minutes *)
  assert (Hmin : within M h (fdiv third (of_Z 60000))).
  { rewrite (of_Z_exact 60000) by lia.
    apply fdiv_within with (a := h) (b := 60000 * one_units);
      [assumption | reflexivity | lia | apply fin_rep_pow2; lia | assumption |].
    split.
    - rewrite Z.mul_assoc. apply Z.mul_le_mono_nonneg_r; lia.
    - rewrite (Z.mul_comm 60000), Z.mul_assoc.
      assert (h * one_units * 1 <= h * one_units * 60000)
        by (apply Z.mul_le_mono_nonneg_l; nia).
      lia. }
  destruct Hmin as (mn & Hmn & Hmnb).
  (* words *)
  assert (Hwords : within 0 (Z.of_nat count * one_units)
                     (fdiv (of_nat count) (of_Z 5))).
  { rewrite (of_nat_exact count), (of_Z_exact 5) by lia.
    apply fdiv_within with (a := Z.of_nat count * one_units) (b := 5 * one_units);
      [reflexivity | reflexivity | lia | apply fin_rep_0
       | apply fin_rep_int; lia |].
    split; [nia|].
    apply Z.mul_le_mono_nonneg_l; nia. }
  destruct Hwords as (w & Hw & Hwb).
  (* words per minute *)
  assert (Hq : within 0 (2 ^ 50 * one_units)
                 (fdiv (fdiv (of_nat count) (of_Z 5)) (fdiv third (of_Z 60000)))).
  { apply fdiv_within with (a := w) (b := mn);
      [assumption | assumption | lia | apply fin_rep_0
       | apply fin_rep_int; lia |].
    split; [nia|].
    apply Z.le_trans with (2 ^ 32 * one_units * one_units).
    - apply Z.mul_le_mono_nonneg_r; [lia|].
      apply Z.le_trans with (Z.of_nat count * one_units); [lia|].
      apply Z.mul_le_mono_nonneg_r; lia.
    - rewrite HU18 at 2.
      replace (2 ^ 32 * one_units * (262144 * M))
        with (2 ^ 50 * one_units * M) by (change (2 ^ 50) with (2 ^ 32 * 262144); ring).
      apply Z.mul_le_mono_nonneg_l; nia. }
  destruct Hq as (q & Hq & Hqb).
  apply (Math_round_int _ q 0 (2 ^ 50)); [assumption | lia | lia | lia].
Qed.

Lemma Math_round_within (x : number) (k lo hi : Z) :
  fin_val x = Some k -> fin_rep (lo * one_units) -> fin_rep (hi * one_units) ->
  lo * one_units <= k <= hi * one_units ->
  within (lo * one_units) (hi * one_units) (Math_round x).
Proof.
  intros Hx Hlo Hhi Hk. pose proof one_units_pos as HU.
  pose proof (round_half_up_bounds k lo hi Hk) as Hn.
  finite_cases x k' Hx; subst k.
  - exists 0. split; [reflexivity | lia].
  - rewrite Math_round_fin. apply round_int_within; try assumption.
    split; apply Z.mul_le_mono_nonneg_r; lia.
Qed.

Lemma Math_max_zero_within (y : number) (k hi : Z) :
  fin_val y = Some k -> k <= hi -> 0 <= hi ->
  within 0 hi (Math_max (of_Z 0) y).
Proof.
  intros Hy Hk Hhi. rewrite of_Z_0.
  finite_cases y k' Hy; subst k.
  - exists 0. split; [reflexivity | lia].
  - unfold Math_max. cbn [flt units].
    destruct (Z.ltb_spec 0 k').
    + exists k'. split; [reflexivity | lia].
    + destruct (Z.ltb_spec k' 0); exists 0; (split; [reflexivity | lia]).
Qed.

Lemma within_percent (x : number) :
  within 0 (100 * one_units) x ->
  fle (of_Z 0) x = true /\ fle x (of_Z 100) = true.
Proof.
  intros (k & Hk & Hb). apply (fle_between _ k); [lia | lia | assumption | lia].
Qed.

Lemma sample_window :
  fin_val (of_Z 0) = Some 0 /\ fin_val (of_Z 3000) = Some (3000 * one_units)
  /\ 0 + one_units <= 3000 * one_units.
Proof. split; [reflexivity|]. split; [vm_compute; reflexivity|]. vm_compute. discriminate. Qed.

(** ** Tremor score *)

Lemma tremor_score_formula (events : list KeystrokeEvent) :
  calculateTremorScore events = spec_TremorScore events.
Proof.
  unfold calculateTremorScore, spec_TremorScore, spec_score_of_cv.
  rewrite feq_zero, mean_spec, stdDev_spec. reflexivity.
Qed.

Lemma round_q_rounds_to (s : bool) (x : Q) : rounds_to (rq_val x) (round_q s x).
Proof.
  pose proof overflow_units_pos as HO.
  destruct (Z.lt_ge_cases (Z.abs (rq_val x)) overflow_units) as [Hf | Hinf].
  { left. split; [exact Hf | now apply round_q_fin]. }
  right. revert Hinf. unfold round_q, rq_val.
  destruct (Qcompare_cases x) as [[-> Hx] | [[-> Hx] | [-> Hx]]]; intros Hinf.
  - simpl in Hinf. lia.
  - assert (Hq : (0 <= x)%Q) by lra. pose proof (rnd_mag_nonneg x Hq).
    left. split; [lia|]. unfold pack.
    destruct (Z.leb_spec overflow_units (rnd_mag x)); [reflexivity | lia].
  - assert (Hq : (0 <= - x)%Q) by lra. pose proof (rnd_mag_nonneg (- x) Hq).
    right. split; [lia|]. unfold pack.
    destruct (Z.leb_spec overflow_units (rnd_mag (- x))); [reflexivity | lia].
Qed.

Lemma fle_finite_infinity (r : number) (v : Z) :
  fin_val r = Some v -> fle r (Inf false) = true /\ fle (Inf true) r = true.
Proof.
  intros E. destruct r; cbn [fin_val] in E;
    [discriminate E | discriminate E | |]; split; reflexivity.
Qed.

Lemma rounds_to_mono (v1 v2 : Z) (r1 r2 : number) :
  v1 <= v2 -> rounds_to v1 r1 -> rounds_to v2 r2 -> fle r1 r2 = true.
Proof.
  pose proof overflow_units_pos as HO.
  intros Hv [[H1 E1] | [[H1 E1] | [H1 E1]]] [[H2 E2] | [[H2 E2] | [H2 E2]]];
    try lia.
  - rewrite (fle_fin _ _ _ _ E1 E2). apply Z.leb_le. exact Hv.
  - rewrite E2. apply (fle_finite_infinity _ _ E1).
  - rewrite E1, E2. reflexivity.
  - rewrite E1. apply (fle_finite_infinity _ _ E2).
  - rewrite E1, E2. reflexivity.
  - rewrite E1, E2. reflexivity.
Qed.

Lemma round_q_mono (s s' : bool) (x y : Q) :
  (x <= y)%Q -> fle (round_q s x) (round_q s' y) = true.
Proof.
  intros H. apply (rounds_to_mono (rq_val x) (rq_val y));
    [now apply rq_val_mono | apply round_q_rounds_to | apply round_q_rounds_to].
Qed.

(** The numbers other than NaN are totally preordered by [fle]. *)
Lemma fle_cases (x y : number) :
  fle x y = true ->
  x = Inf true \/ y = Inf false
  \/ exists a b, fin_val x = Some a /\ fin_val y = Some b /\ a <= b.
Proof.
  destruct x as [| [] | | a], y as [| [] | | b]; cbn [fle flt units negb];
    intros H; try discriminate H; auto;
    right; right; eexists _, _; (split; [reflexivity|]); (split; [reflexivity|]);
    try (apply negb_true_iff in H; apply Z.ltb_ge in H); lia.
Qed.

Lemma fle_from_neg_infinity (r : number) : fle r r = true -> fle (Inf true) r = true.
Proof. destruct r as [| [] | | k]; cbn; intros H; try discriminate H; reflexivity. Qed.

Lemma fle_to_infinity (r : number) : fle r r = true -> fle r (Inf false) = true.
Proof. destruct r as [| [] | | k]; cbn; intros H; try discriminate H; reflexivity. Qed.

Lemma rounds_to_refl (v : Z) (r : number) : rounds_to v r -> fle r r = true.
Proof. intros H. apply (rounds_to_mono v v); [lia | exact H | exact H]. Qed.

Lemma fle_right_refl (x y : number) : fle x y = true -> fle y y = true.
Proof.
  destruct x as [| [] | | a], y as [| [] | | b]; cbn [fle flt units negb andb];
    intros H; try discriminate H; try reflexivity;
    apply negb_true_iff; apply Z.ltb_irrefl.
Qed.

Lemma fle_left_refl (x y : number) : fle x y = true -> fle x x = true.
Proof.
  destruct x as [| [] | | a], y as [| [] | | b]; cbn [fle flt units negb andb];
    intros H; try discriminate H; try reflexivity;
    apply negb_true_iff; apply Z.ltb_irrefl.
Qed.

(** Doubling: [coefficientOfVariation * 2]. *)
Lemma fmul_two_rounds_to (x : number) (a : Z) :
  fin_val x = Some a ->
  rounds_to (rq_val (inject_Z (a * (2 * one_units)) / inject_Z one_units))
            (fmul x (of_Z 2)).
Proof.
  intros Hx. rewrite (of_Z_exact 2) by lia.
  rewrite (fmul_fin x (Fin (2 * one_units)) a (2 * one_units) Hx eq_refl).
  apply round_q_rounds_to.
Qed.

Lemma fmul_two_mono (x y : number) :
  fle x y = true -> fle (fmul x (of_Z 2)) (fmul y (of_Z 2)) = true.
Proof.
  intros H. pose proof one_units_pos as HU.
  assert (Hfin : forall z c, fin_val z = Some c ->
                             fle (fmul z (of_Z 2)) (fmul z (of_Z 2)) = true).
  { intros z c Hz. apply (rounds_to_refl _ _ (fmul_two_rounds_to z c Hz)). }
  assert (Hrefl : forall z, fle z z = true ->
                            fle (fmul z (of_Z 2)) (fmul z (of_Z 2)) = true).
  { intros z Hz. destruct z as [| [] | | c];
      [discriminate Hz | vm_compute; reflexivity | vm_compute; reflexivity
       | apply (Hfin NegZero 0 eq_refl) | apply (Hfin (Fin c) c eq_refl)]. }
  destruct (fle_cases _ _ H) as [-> | [-> | (a & b & Ha & Hb & Hab)]].
  - replace (fmul (Inf true) (of_Z 2)) with (Inf true) by (vm_compute; reflexivity).
    apply fle_from_neg_infinity. apply Hrefl. exact (fle_right_refl _ _ H).
  - replace (fmul (Inf false) (of_Z 2)) with (Inf false) by (vm_compute; reflexivity).
    apply fle_to_infinity. apply Hrefl. exact (fle_left_refl _ _ H).
  - eapply rounds_to_mono;
      [| apply (fmul_two_rounds_to x a Ha) | apply (fmul_two_rounds_to y b Hb)].
    apply rq_val_mono. apply Qdiv_le_mono; [now apply inject_Z_pos|].
    rewrite <- Zle_Qle. apply Z.mul_le_mono_nonneg_r; lia.
Qed.

Lemma Math_round_rounds_to (x : number) (k : Z) :
  fin_val x = Some k ->
  rounds_to (rq_val (inject_Z ((2 * k + one_units) / (2 * one_units) * one_units)))
            (Math_round x).
Proof.
  intros Hx. pose proof one_units_pos as HU.
  finite_cases x k' Hx; subst k.
  - rewrite (Z.div_small (2 * 0 + one_units)) by lia.
    left. split; [reflexivity | reflexivity].
  - rewrite Math_round_fin. apply round_q_rounds_to.
Qed.

Lemma Math_round_mono (x y : number) :
  fle x y = true -> fle (Math_round x) (Math_round y) = true.
Proof.
  intros H. pose proof one_units_pos as HU.
  assert (Hrefl : forall z, fle z z = true -> fle (Math_round z) (Math_round z) = true).
  { intros z Hz. destruct z as [| [] | | c];
      [discriminate Hz | reflexivity | reflexivity | reflexivity
       | apply (rounds_to_refl _ _ (Math_round_rounds_to (Fin c) c eq_refl))]. }
  destruct (fle_cases _ _ H) as [-> | [-> | (a & b & Ha & Hb & Hab)]].
  - apply fle_from_neg_infinity. apply Hrefl. exact (fle_right_refl _ _ H).
  - apply fle_to_infinity. apply Hrefl. exact (fle_left_refl _ _ H).
  - eapply rounds_to_mono;
      [| apply (Math_round_rounds_to x a Ha) | apply (Math_round_rounds_to y b Hb)].
    apply rq_val_mono. rewrite <- Zle_Qle.
    apply Z.mul_le_mono_nonneg_r; [lia|].
    apply Z.div_le_mono; lia.
Qed.

(** The clamp [Math.min(100, x)]. *)
Lemma Math_min_100_fin (x : number) (a : Z) :
  fin_val x = Some a ->
  fin_val (Math_min (of_Z 100) x) = Some (Z.min (100 * one_units) a).
Proof.
  intros Hx. rewrite (of_Z_exact 100) by lia. unfold Math_min.
  rewrite (flt_fin (Fin (100 * one_units)) x (100 * one_units) a eq_refl Hx).
  rewrite (flt_fin x (Fin (100 * one_units)) a (100 * one_units) Hx eq_refl).
  finite_cases x k' Hx; subst a;
    destruct (Z.ltb_spec (100 * one_units) 0); 
    try destruct (Z.ltb_spec (100 * one_units) k');
    try destruct (Z.ltb_spec 0 (100 * one_units));
    try destruct (Z.ltb_spec k' (100 * one_units)); cbn [fin_val]; f_equal; lia.
Qed.

Lemma Math_min_100_mono (x y : number) :
  fle x y = true -> fle (Math_min (of_Z 100) x) (Math_min (of_Z 100) y) = true.
Proof.
  intros H. pose proof one_units_pos as HU.
  destruct (fle_cases _ _ H) as [-> | [-> | (a & b & Ha & Hb & Hab)]].
  - replace (Math_min (of_Z 100) (Inf true)) with (Inf true)
      by (vm_compute; reflexivity).
    apply fle_from_neg_infinity. pose proof (fle_right_refl _ _ H) as Hy.
    destruct y as [| [] | | c];
      [discriminate Hy | vm_compute; reflexivity | vm_compute; reflexivity | |].
    + rewrite (fle_fin _ _ _ _ (Math_min_100_fin NegZero 0 eq_refl)
                       (Math_min_100_fin NegZero 0 eq_refl)).
      apply Z.leb_refl.
    + rewrite (fle_fin _ _ _ _ (Math_min_100_fin (Fin c) c eq_refl)
                       (Math_min_100_fin (Fin c) c eq_refl)).
      apply Z.leb_refl.
  - replace (Math_min (of_Z 100) (Inf false)) with (Fin (100 * one_units))
      by (vm_compute; reflexivity).
    pose proof (fle_left_refl _ _ H) as Hx.
    destruct x as [| [] | | c];
      [discriminate Hx | vm_compute; reflexivity | vm_compute; reflexivity | |].
    + rewrite (fle_fin _ (Fin (100 * one_units)) _ (100 * one_units)
                       (Math_min_100_fin NegZero 0 eq_refl) eq_refl).
      apply Z.leb_le. lia.
    + rewrite (fle_fin _ (Fin (100 * one_units)) _ (100 * one_units)
                       (Math_min_100_fin (Fin c) c eq_refl) eq_refl).
      apply Z.leb_le. lia.
  - rewrite (fle_fin _ _ _ _ (Math_min_100_fin x a Ha) (Math_min_100_fin y b Hb)).
    apply Z.leb_le. lia.
Qed.

(** The score does not decrease when the coefficient of variation grows. *)
Lemma tremor_score_monotone (cv1 cv2 : number) :
  fle cv1 cv2 = true ->
  fle (spec_score_of_cv cv1) (spec_score_of_cv cv2) = true.
Proof.
  intros H. unfold spec_score_of_cv.
  apply Math_min_100_mono, Math_round_mono, fmul_two_mono, H.
Qed.

(** The score is never above 100. *)
Lemma tremor_score_not_above_100 (events : list KeystrokeEvent) :
  flt (of_Z 100) (calculateTremorScore events) = false.
Proof.
  rewrite tremor_score_formula. unfold spec_TremorScore.
  destruct (is_zero (spec_mean events)); [vm_compute; reflexivity|].
  unfold spec_score_of_cv.
  set (y := Math_round _). clearbody y.
  pose proof one_units_pos as HU.
  destruct y as [| [] | | c];
    [vm_compute; reflexivity | vm_compute; reflexivity | vm_compute; reflexivity
     | vm_compute; reflexivity |].
  rewrite (of_Z_exact 100) by lia. unfold Math_min. cbn [flt units].
  destruct (Z.ltb_spec (100 * one_units) c) as [H1 | H1].
  - cbn [flt units]. apply Z.ltb_irrefl.
  - destruct (Z.ltb_spec c (100 * one_units)) as [H2 | H2]; cbn [flt units];
      apply Z.ltb_ge; lia.
Qed.

(** C4: the tremor score is meant to lie in [[0, 100]].  On two events with
    durations of -100 ms and -300 ms the mean is -200, the standard
    deviation 100, the coefficient of variation -50 and the score -100:
    [calculateTremorScore] clamps at 100 but not at 0. *)
Theorem C4_tremor_score_negative :
  calculateAverageKeystrokeDuration clock_set_back = of_Z (-200)
  /\ calculateKeystrokeDurationStdDev clock_set_back = of_Z 100
  /\ calculateTremorScore clock_set_back = of_Z (-100)
  /\ flt (calculateTremorScore clock_set_back) (of_Z 0) = true.
Proof. split; [|split; [|split]]; vm_compute; reflexivity. Qed.

(* ================================================================== *)
(** * Part VII: further properties of the module and of the pages *)
(* ================================================================== *)

(** ** Exact arithmetic on small integers *)

Lemma some_eq {A : Type} (a b : A) : Some a = Some b -> a = b.
Proof. intros H. injection H as H. exact H. Qed.

Lemma fin_val_nonzero (x : number) (k : Z) :
  fin_val x = Some k -> k <> 0 -> x = Fin k.
Proof.
  destruct x as [| s | | j]; cbn [fin_val]; intros H Hk; try discriminate H.
  - injection H as H. congruence.
  - injection H as H. congruence.
Qed.

Lemma within_point (x : number) (k : Z) :
  within k k x -> fin_val x = Some k.
Proof.
  intros [j [Hj Hb]]. rewrite Hj. f_equal. lia.
Qed.

Lemma fin_val_of_Z (n : Z) : Z.abs n <= 2 ^ 53 -> fin_val (of_Z n) = Some (n * one_units).
Proof. intros H. rewrite (of_Z_exact n H). reflexivity. Qed.

Lemma fin_val_of_nat (n : nat) :
  Z.of_nat n <= 2 ^ 53 -> fin_val (of_nat n) = Some (Z.of_nat n * one_units).
Proof. intros H. rewrite (of_nat_exact n H). reflexivity. Qed.

Lemma fdiv_self (n : nat) :
  (0 < n)%nat -> Z.of_nat n <= 2 ^ 53 -> fin_val (fdiv (of_nat n) (of_nat n)) = Some one_units.
Proof.
  intros Hn Hb. apply within_point.
  pose proof one_units_pos as Ho.
  apply (fdiv_within _ _ (Z.of_nat n * one_units) (Z.of_nat n * one_units)).
  - apply fin_val_of_nat; exact Hb.
  - apply fin_val_of_nat; exact Hb.
  - apply Z.mul_pos_pos; lia.
  - apply fin_rep_one.
  - apply fin_rep_one.
  - split; apply Z.eq_le_incl; ring.
Qed.

Lemma fmul_percent (x : number) (n : Z) :
  Z.abs n <= 2 ^ 53 -> Z.abs (n * 100) <= 2 ^ 53 ->
  fin_val x = Some (n * one_units) ->
  fin_val (fmul x (of_Z 100)) = Some (n * 100 * one_units).
Proof.
  intros Hn Hn' Hx. apply within_point.
  apply (fmul_within _ _ (n * one_units) (100 * one_units)).
  - exact Hx.
  - apply fin_val_of_Z. lia.
  - apply fin_rep_int; exact Hn'.
  - apply fin_rep_int; exact Hn'.
  - split; apply Z.eq_le_incl; ring.
Qed.

Lemma Math_round_integer (x : number) (n : Z) :
  Z.abs n <= 2 ^ 53 -> fin_val x = Some (n * one_units) ->
  fin_val (Math_round x) = Some (n * one_units).
Proof.
  intros Hn Hx.
  destruct (Math_round_int x (n * one_units) n n Hx Hn Hn) as [m [Hm Hb]]; [lia|].
  rewrite Hm. do 2 f_equal. lia.
Qed.

Lemma of_Z_of_fin_val (x : number) (n : Z) :
  Z.abs n <= 2 ^ 53 -> n <> 0 -> fin_val x = Some (n * one_units) -> x = of_Z n.
Proof.
  intros Hn H0 Hx. rewrite (of_Z_exact n Hn). apply fin_val_nonzero; [exact Hx|].
  pose proof one_units_pos. intros E. apply Z.mul_eq_0 in E. lia.
Qed.

Lemma Math_round_zero : Math_round (Fin 0) = Fin 0.
Proof. vm_compute. reflexivity. Qed.

Lemma fsub_100_100 : fsub (of_Z 100) (of_Z 100) = of_Z 0.
Proof. vm_compute. reflexivity. Qed.

Lemma fsub_100_0 : fsub (of_Z 100) (of_Z 0) = of_Z 100.
Proof. vm_compute. reflexivity. Qed.

Lemma fsub_100_negzero : fsub (of_Z 100) NegZero = of_Z 100.
Proof. vm_compute. reflexivity. Qed.

Lemma fadd_negzero_100 : fadd NegZero (of_Z 100) = of_Z 100.
Proof. vm_compute. reflexivity. Qed.

(** ** Accuracy and error rate *)

Lemma of_nat_100 : of_Z 100 = of_nat 100.
Proof. unfold of_nat. f_equal. Qed.

Lemma fadd_0_100 : fadd (of_Z 0) (of_Z 100) = of_Z 100.
Proof. vm_compute. reflexivity. Qed.

Lemma accuracy_plus_error (a : number) (n : Z) :
  fin_val a = Some (n * one_units) -> 0 <= n <= 100 ->
  fadd a (fsub (of_Z 100) a) = of_Z 100.
Proof.
  intros Ha Hn.
  destruct (Z.eq_dec n 0) as [E | E].
  - subst n. destruct a as [| s | | k]; cbn [fin_val] in Ha; try discriminate Ha.
    + rewrite fsub_100_negzero. apply fadd_negzero_100.
    + apply some_eq in Ha. subst k. rewrite Z.mul_0_l, <- of_Z_0.
      rewrite fsub_100_0. apply fadd_0_100.
  - assert (Ha' : a = of_nat (Z.to_nat n)).
    { unfold of_nat. rewrite Z2Nat.id by lia. apply of_Z_of_fin_val; [lia | exact E | exact Ha]. }
    rewrite Ha'. rewrite of_nat_100.
    rewrite (fsub_of_nat 100 (Z.to_nat n)) by (cbn; lia).
    rewrite (fadd_of_nat (Z.to_nat n) (100 - Z.to_nat n)) by lia.
    f_equal. lia.
Qed.

(** X1.  In the metrics of a session the accuracy and the error rate are
    complementary: their floating-point sum is exactly 100, whatever was
    typed. *)
Theorem X1_accuracy_and_error_rate_sum (typedText referenceText : js_string)
        (keystrokes : list KeystrokeEvent) (startTime endTime : number) :
  Z.of_nat (List.length typedText) <= 2 ^ 53 ->
  let m := calculatePerformanceMetrics typedText referenceText keystrokes
                                       startTime endTime in
  fadd (accuracy m) (errorRate m) = of_Z 100
  /\ fadd (calculateAccuracy typedText referenceText)
          (calculateErrorRate typedText referenceText) = of_Z 100.
Proof.
  intros Hlen m.
  destruct (accuracy_integer typedText referenceText Hlen) as [n [Hn Hb]].
  split.
  - unfold m, calculatePerformanceMetrics. cbn [accuracy errorRate].
    exact (accuracy_plus_error _ n Hn Hb).
  - unfold calculateErrorRate. exact (accuracy_plus_error _ n Hn Hb).
Qed.

Lemma X1_accuracy_and_error_rate_sum_witness :
  Z.of_nat (List.length (str "helo")) <= 2 ^ 53
  /\ fadd (calculateAccuracy (str "helo") (str "hello"))
          (calculateErrorRate (str "helo") (str "hello")) = of_Z 100.
Proof.
  assert (H : Z.of_nat (List.length (str "helo")) <= 2 ^ 53) by (cbn; lia).
  split; [exact H|].
  exact (proj2 (X1_accuracy_and_error_rate_sum (str "helo") (str "hello") []
                  (of_Z 0) (of_Z 1000) H)).
Defined.

Lemma matching_typed_prefix (typedText referenceText : js_string) :
  List.firstn (List.length typedText) referenceText = typedText ->
  List.length (matching_positions typedText referenceText)
  = List.length typedText.
Proof.
  intros Hpre. unfold matching_positions.
  assert (Hlen : (List.length typedText <= List.length referenceText)%nat).
  { rewrite <- Hpre at 1. rewrite List.length_firstn. apply Nat.le_min_r. }
  rewrite Nat.min_l by exact Hlen.
  rewrite List.forallb_filter_id; [apply List.length_seq|].
  apply List.forallb_forall. intros i Hi. apply List.in_seq in Hi.
  unfold char_at. rewrite <- Hpre at 1.
  rewrite List.nth_error_firstn.
  destruct (Nat.ltb_spec i (List.length typedText)) as [_ | Hge]; [|lia].
  destruct (List.nth_error referenceText i) as [ch |] eqn:E.
  - simpl. apply N.eqb_refl.
  - reflexivity.
Qed.

Lemma accuracy_all_correct (n : nat) :
  (0 < n)%nat -> Z.of_nat n <= 2 ^ 53 ->
  Math_round (fmul (fdiv (of_nat n) (of_nat n)) (of_Z 100)) = of_Z 100.
Proof.
  intros Hn Hb. apply of_Z_of_fin_val; [lia | lia |].
  apply Math_round_integer; [lia|].
  change (100 * one_units) with (1 * 100 * one_units).
  apply fmul_percent; [lia | lia |].
  rewrite Z.mul_1_l. apply fdiv_self; assumption.
Qed.

Lemma fdiv_zero_of_nat (n : nat) :
  (0 < n)%nat -> Z.of_nat n <= 2 ^ 53 -> fdiv (of_nat 0) (of_nat n) = Fin 0.
Proof.
  intros Hn Hb. rewrite (of_nat_exact n Hb).
  change (of_nat 0) with (Fin 0).
  pose proof one_units_pos as Ho.
  assert (Hp : 0 < Z.of_nat n * one_units) by (apply Z.mul_pos_pos; lia).
  unfold fdiv. cbn [is_zero units sign_neg].
  destruct (Z.eqb_spec (Z.of_nat n * one_units) 0) as [E | _]; [lia|].
  rewrite (Z.mul_0_r one_units). rewrite (Z.mul_0_r (Z.sgn (Z.of_nat n * one_units))).
  destruct (Z.ltb_spec (Z.of_nat n * one_units) 0) as [E | _]; [lia|].
  reflexivity.
Qed.

Lemma fmul_zero_100 : fmul (Fin 0) (of_Z 100) = Fin 0.
Proof. vm_compute. reflexivity. Qed.

(** X2.  A non-empty typed text that agrees with the reference at every
    position (a prefix of the reference, or the reference itself) has
    accuracy 100 and error rate 0. *)
Theorem X2_correct_text_scores_100 (typedText referenceText : js_string) :
  typedText <> [] ->
  Z.of_nat (List.length typedText) <= 2 ^ 53 ->
  List.firstn (List.length typedText) referenceText = typedText ->
  calculateAccuracy typedText referenceText = of_Z 100
  /\ calculateErrorRate typedText referenceText = of_Z 0.
Proof.
  intros Hne Hlen Hpre.
  assert (Ha : calculateAccuracy typedText referenceText = of_Z 100).
  { rewrite calculateAccuracy_spec. unfold spec_Accuracy.
    destruct typedText as [| ch rest]; [congruence|].
    rewrite (matching_typed_prefix _ _ Hpre).
    apply accuracy_all_correct; [simpl; lia | exact Hlen]. }
  split; [exact Ha|].
  unfold calculateErrorRate. rewrite Ha. apply fsub_100_100.
Qed.

Lemma X2_correct_text_scores_100_witness :
  str "The quick" <> []
  /\ Z.of_nat (List.length (str "The quick")) <= 2 ^ 53
  /\ List.firstn (List.length (str "The quick")) TypingTest.referenceText
     = str "The quick"
  /\ calculateAccuracy (str "The quick") TypingTest.referenceText = of_Z 100.
Proof.
  assert (H1 : str "The quick" <> []) by (cbn; discriminate).
  assert (H2 : Z.of_nat (List.length (str "The quick")) <= 2 ^ 53) by (cbn; lia).
  assert (H3 : List.firstn (List.length (str "The quick")) TypingTest.referenceText
               = str "The quick") by reflexivity.
  split; [exact H1|]. split; [exact H2|]. split; [exact H3|].
  exact (proj1 (X2_correct_text_scores_100 _ _ H1 H2 H3)).
Defined.

(** X3.  A non-empty typed text that agrees with the reference at no
    position has accuracy 0 and error rate 100. *)
Theorem X3_wrong_text_scores_0 (typedText referenceText : js_string) :
  typedText <> [] ->
  Z.of_nat (List.length typedText) <= 2 ^ 53 ->
  matching_positions typedText referenceText = [] ->
  calculateAccuracy typedText referenceText = of_Z 0
  /\ calculateErrorRate typedText referenceText = of_Z 100.
Proof.
  intros Hne Hlen Hnone.
  assert (Ha : calculateAccuracy typedText referenceText = of_Z 0).
  { rewrite calculateAccuracy_spec. unfold spec_Accuracy.
    destruct typedText as [| ch rest]; [congruence|].
    rewrite Hnone. cbn [List.length].
    rewrite fdiv_zero_of_nat by (simpl; lia || exact Hlen).
    rewrite fmul_zero_100. apply Math_round_zero. }
  split; [exact Ha|].
  unfold calculateErrorRate. rewrite Ha. apply fsub_100_0.
Qed.

Lemma X3_wrong_text_scores_0_witness :
  str "xyz" <> []
  /\ Z.of_nat (List.length (str "xyz")) <= 2 ^ 53
  /\ matching_positions (str "xyz") (str "hello") = []
  /\ calculateAccuracy (str "xyz") (str "hello") = of_Z 0
  /\ calculateErrorRate (str "xyz") (str "hello") = of_Z 100.
Proof.
  assert (H1 : str "xyz" <> []) by (cbn; discriminate).
  assert (H2 : Z.of_nat (List.length (str "xyz")) <= 2 ^ 53) by (cbn; lia).
  assert (H3 : matching_positions (str "xyz") (str "hello") = []) by reflexivity.
  split; [exact H1|]. split; [exact H2|]. split; [exact H3|].
  exact (X3_wrong_text_scores_0 _ _ H1 H2 H3).
Defined.

(** ** The live statistics of the test page *)



Lemma loop_past_reference (typedText referenceText : js_string) :
  accuracy_loop typedText referenceText (List.length typedText) 0 0
  = accuracy_loop typedText referenceText
      (Nat.min (List.length typedText) (List.length referenceText)) 0 0.
Proof.
  rewrite !accuracy_loop_count. f_equal.
  destruct (Nat.le_ge_cases (List.length typedText) (List.length referenceText))
    as [Hle | Hge].
  - rewrite Nat.min_l by exact Hle. reflexivity.
  - rewrite Nat.min_r by exact Hge.
    replace (List.length typedText)
      with (List.length referenceText
            + (List.length typedText - List.length referenceText))%nat at 1 by lia.
    rewrite List.seq_app, List.filter_app, List.length_app.
    rewrite (List.filter_ext_in _ (fun _ => false)
               (List.seq (0 + List.length referenceText)
                         (List.length typedText - List.length referenceText))).
    + rewrite List.filter_false. simpl. lia.
    + intros i Hi. apply List.in_seq in Hi. unfold char_at.
      destruct (List.nth_error typedText i) as [c |] eqn:Et.
      * rewrite (proj2 (List.nth_error_None referenceText i)) by lia. reflexivity.
      * apply List.nth_error_None in Et. lia.
Qed.

(** X4.  The accuracy that the test page shows while typing, computed by
    its own loop over every typed position, is the accuracy that the
    metrics module computes for the same text: positions past the end of
    the reference never count as correct. *)
Theorem X4_live_accuracy_is_module_accuracy (s : TypingTest.State) :
  TypingTest.calculateAccuracy s
  = calculateAccuracy (TypingTest.typedText s) TypingTest.referenceText.
Proof.
  unfold TypingTest.calculateAccuracy, calculateAccuracy.
  rewrite loop_past_reference. reflexivity.
Qed.

(** X5.  After a tick of the timer at clock reading [now], the words per
    minute shown by the test page are those of the session that finishing
    the test at [now] stores, and so is the accuracy. *)
Theorem X5_live_statistics_match_session (s : TypingTest.State)
        (sessionId : js_string) (now : number) (session : TypingSession.t) :
  TypingTest.testStatus s = TypingTest.active ->
  TypingTest.finished_session s sessionId now = Some session ->
  TypingTest.calculateWPM (TypingTest.timer_tick s now) = TypingSession.wpm session
  /\ TypingTest.calculateAccuracy (TypingTest.timer_tick s now)
     = TypingSession.accuracy session.
Proof.
  intros Hact Hfin. unfold TypingTest.finished_session in Hfin.
  destruct (TypingTest.startTime s) as [start |] eqn:Hs; [|discriminate Hfin].
  destruct (truthy start) eqn:Ht; [|discriminate Hfin].
  apply some_eq in Hfin. subst session. cbn [TypingSession.wpm TypingSession.accuracy].
  assert (Htick : TypingTest.timer_tick s now
                  = {| TypingTest.testStatus := TypingTest.testStatus s;
                       TypingTest.typedText := TypingTest.typedText s;
                       TypingTest.keystrokes := TypingTest.keystrokes s;
                       TypingTest.startTime := TypingTest.startTime s;
                       TypingTest.currentKeyDownTime := TypingTest.currentKeyDownTime s;
                       TypingTest.elapsedTime := fsub now start |}).
  { unfold TypingTest.timer_tick. rewrite Hact, Hs, Ht. reflexivity. }
  rewrite Htick. split.
  - unfold TypingTest.calculateWPM, TypingTest.no_start.
    cbn [TypingTest.startTime TypingTest.elapsedTime TypingTest.typedText].
    rewrite Hs, Ht. cbn [negb orb].
    unfold calculatePerformanceMetrics. cbn [wpm]. reflexivity.
  - unfold TypingTest.calculateAccuracy, calculatePerformanceMetrics, calculateAccuracy.
    cbn [TypingTest.typedText accuracy].
    rewrite loop_past_reference. reflexivity.
Qed.

Lemma truthy_1000 : truthy (of_Z 1000) = true.
Proof. vm_compute. reflexivity. Qed.

Lemma X5_live_statistics_match_session_witness :
  let s := TypingTest.handleChange
             (TypingTest.handleStartTest TypingTest.initial (of_Z 1000))
             (str "The quick") in
  TypingTest.testStatus s = TypingTest.active
  /\ (exists session,
        TypingTest.finished_session s (str "id") (of_Z 7000) = Some session
        /\ TypingTest.calculateWPM (TypingTest.timer_tick s (of_Z 7000))
           = TypingSession.wpm session).
Proof.
  intros s.
  assert (Ha : TypingTest.testStatus s = TypingTest.active) by reflexivity.
  split; [exact Ha|].
  eexists. split.
  - unfold TypingTest.finished_session, s, TypingTest.handleChange,
      TypingTest.handleStartTest.
    cbn [TypingTest.startTime TypingTest.typedText TypingTest.keystrokes].
    rewrite truthy_1000. reflexivity.
  - refine (proj1 (X5_live_statistics_match_session s (str "id") (of_Z 7000) _ Ha _)).
    unfold TypingTest.finished_session, s, TypingTest.handleChange,
      TypingTest.handleStartTest.
    cbn [TypingTest.startTime TypingTest.typedText TypingTest.keystrokes].
    rewrite truthy_1000. reflexivity.
Defined.

(** ** The keystroke recorder of the test page *)

Lemma string_eq_true (a b : js_string) : string_eq a b = true -> a = b.
Proof.
  revert b. induction a as [| x a IH]; intros [| y b] H; simpl in H;
    try discriminate H; [reflexivity|].
  apply andb_true_iff in H. destruct H as [Hx Hr].
  apply N.eqb_eq in Hx. rewrite Hx, (IH b Hr). reflexivity.
Qed.

Lemma run_app (s : TypingTest.State) (l1 l2 : list TypingTest.Action) :
  TypingTest.run s (l1 ++ l2) = TypingTest.run (TypingTest.run s l1) l2.
Proof. apply List.fold_left_app. Qed.

(** Every handler either leaves the list of keystrokes as it is, empties
    it, or appends the event that [handleKeyUp] builds. *)
Lemma step_keystrokes (s : TypingTest.State) (a : TypingTest.Action) :
  TypingTest.keystrokes (TypingTest.step s a) = TypingTest.keystrokes s
  \/ TypingTest.keystrokes (TypingTest.step s a) = []
  \/ exists key now down,
       TypingTest.currentKeyDownTime s = Some down
       /\ TypingTest.keystrokes (TypingTest.step s a)
          = TypingTest.keystrokes s
            ++ [{| key := key;
                   keyDownTime := down;
                   keyUpTime := Some now;
                   duration := Some (fsub now down);
                   isCorrect :=
                     string_eq_char key
                       (char_at TypingTest.referenceText
                                (List.length (TypingTest.typedText s)));
                   characterIndex :=
                     of_nat (List.length (TypingTest.typedText s)) |}].
Proof.
  destruct a as [now | value | key now | key now | now | sid now saved];
    cbn [TypingTest.step].
  - right. left. reflexivity.
  - left. reflexivity.
  - left. unfold TypingTest.handleKeyDown.
    destruct (TypingTest.testStatus s); try reflexivity.
    destruct (TypingTest.includes TypingTest.modifier_keys key); reflexivity.
  - unfold TypingTest.handleKeyUp.
    destruct (TypingTest.testStatus s); try (left; reflexivity).
    destruct (TypingTest.currentKeyDownTime s) as [down |] eqn:Hd;
      [| left; reflexivity].
    right. right. exists key, now, down. split; reflexivity.
  - left. unfold TypingTest.timer_tick.
    destruct (TypingTest.testStatus s); try reflexivity.
    destruct (TypingTest.startTime s) as [t |]; [|reflexivity].
    destruct (truthy t); reflexivity.
  - left. unfold TypingTest.handleFinishTest.
    destruct (TypingTest.finished_session s sid now); [|reflexivity].
    destruct saved; reflexivity.
Qed.

Lemma run_keystrokes_invariant (P : KeystrokeEvent -> Prop) :
  (forall (key : js_string) (now down : number) (typed : js_string),
      P {| key := key;
           keyDownTime := down;
           keyUpTime := Some now;
           duration := Some (fsub now down);
           isCorrect :=
             string_eq_char key
               (char_at TypingTest.referenceText (List.length typed));
           characterIndex := of_nat (List.length typed) |}) ->
  forall (actions : list TypingTest.Action) (s : TypingTest.State),
    List.Forall P (TypingTest.keystrokes s) ->
    List.Forall P (TypingTest.keystrokes (TypingTest.run s actions)).
Proof.
  intros HP actions. induction actions as [| a rest IH]; intros s Hs.
  - exact Hs.
  - cbn [TypingTest.run List.fold_left]. apply IH.
    destruct (step_keystrokes s a) as [E | [E | (key & now & down & _ & E)]];
      rewrite E.
    + exact Hs.
    + constructor.
    + apply List.Forall_app. split; [exact Hs|].
      constructor; [apply HP | constructor].
Qed.

(** X6.  Whatever happens on the test page, every keystroke it records
    carries a key-up time and a duration, the duration being the key-up time
    minus the key-down time; so the metrics module, which skips events
    without a duration, uses every recorded keystroke. *)
Theorem X6_recorded_keystrokes_have_durations (actions : list TypingTest.Action) :
  let recorded := TypingTest.keystrokes (TypingTest.run TypingTest.initial actions) in
  List.Forall
    (fun e => exists up, keyUpTime e = Some up
                         /\ duration e = Some (fsub up (keyDownTime e)))
    recorded
  /\ List.filter has_duration recorded = recorded.
Proof.
  intros recorded.
  assert (H : List.Forall
                (fun e => exists up, keyUpTime e = Some up
                                     /\ duration e = Some (fsub up (keyDownTime e)))
                recorded).
  { apply run_keystrokes_invariant.
    - intros k now down typed. exists now. split; reflexivity.
    - constructor. }
  split; [exact H|].
  apply List.forallb_filter_id. apply List.forallb_forall. intros e He.
  rewrite List.Forall_forall in H. destruct (H e He) as (up & _ & Hd).
  unfold has_duration. rewrite Hd. reflexivity.
Qed.

Lemma char_at_length (s : js_string) (i : nat) (c : code_unit) :
  char_at s i = Some c -> (i < List.length s)%nat.
Proof.
  unfold char_at. intros H. apply List.nth_error_Some. rewrite H. discriminate.
Qed.

(** X7.  A recorded keystroke is marked correct only if its key is the
    single character that the reference text has at the index recorded with
    it, which is then an index inside the reference text; a key whose name
    is longer than one character, such as a modifier, is never marked
    correct. *)
Theorem X7_correct_flag_means_reference_character
        (actions : list TypingTest.Action) (e : KeystrokeEvent) :
  List.In e (TypingTest.keystrokes (TypingTest.run TypingTest.initial actions)) ->
  isCorrect e = true ->
  exists (i : nat) (c : code_unit),
    characterIndex e = of_nat i
    /\ (i < List.length TypingTest.referenceText)%nat
    /\ char_at TypingTest.referenceText i = Some c
    /\ key e = [c]
    /\ TypingTest.includes TypingTest.modifier_keys (key e) = false.
Proof.
  intros He.
  assert (H : List.Forall
                (fun e => isCorrect e = true ->
                          exists (i : nat) (c : code_unit),
                            characterIndex e = of_nat i
                            /\ (i < List.length TypingTest.referenceText)%nat
                            /\ char_at TypingTest.referenceText i = Some c
                            /\ key e = [c]
                            /\ TypingTest.includes TypingTest.modifier_keys (key e)
                               = false)
                (TypingTest.keystrokes (TypingTest.run TypingTest.initial actions))).
  { apply run_keystrokes_invariant; [| constructor].
    intros k now down typed. cbn [isCorrect characterIndex key].
    intros Hc. unfold string_eq_char in Hc.
    destruct (char_at TypingTest.referenceText (List.length typed)) as [c |] eqn:Ec;
      [| discriminate Hc].
    apply string_eq_true in Hc. subst k.
    exists (List.length typed), c.
    split; [reflexivity|]. split; [exact (char_at_length _ _ _ Ec)|].
    split; [exact Ec|]. split; [reflexivity|].
    unfold TypingTest.includes, TypingTest.modifier_keys. cbn.
    rewrite !Bool.andb_false_r. reflexivity. }
  rewrite List.Forall_forall in H. exact (H e He).
Qed.

Lemma X7_correct_flag_means_reference_character_witness :
  let actions := [TypingTest.StartTest (of_Z 1000);
                  TypingTest.KeyDown (str "T") (of_Z 1100);
                  TypingTest.KeyUp (str "T") (of_Z 1200)] in
  let e := {| key := str "T";
              keyDownTime := of_Z 1100;
              keyUpTime := Some (of_Z 1200);
              duration := Some (fsub (of_Z 1200) (of_Z 1100));
              isCorrect := true;
              characterIndex := of_nat 0 |} in
  List.In e (TypingTest.keystrokes (TypingTest.run TypingTest.initial actions))
  /\ isCorrect e = true
  /\ exists (i : nat) (c : code_unit),
       characterIndex e = of_nat i
       /\ (i < List.length TypingTest.referenceText)%nat
       /\ char_at TypingTest.referenceText i = Some c
       /\ key e = [c]
       /\ TypingTest.includes TypingTest.modifier_keys (key e) = false.
Proof.
  intros actions e.
  assert (Hin : List.In e (TypingTest.keystrokes
                             (TypingTest.run TypingTest.initial actions)))
    by (left; reflexivity).
  assert (Hc : isCorrect e = true) by reflexivity.
  split; [exact Hin|]. split; [exact Hc|].
  exact (X7_correct_flag_means_reference_character actions e Hin Hc).
Defined.

Lemma step_count (s : TypingTest.State) (a : TypingTest.Action) :
  (List.length (TypingTest.keystrokes (TypingTest.step s a))
   + TypingTest.pending (TypingTest.step s a)
   <= List.length (TypingTest.keystrokes s) + TypingTest.pending s
      + TypingTest.timed_key_downs [a])%nat.
Proof.
  unfold TypingTest.pending, TypingTest.timed_key_downs.
  destruct a as [now | value | key now | key now | now | sid now saved];
    cbn [TypingTest.step List.filter List.length].
  - cbn. lia.
  - cbn. lia.
  - unfold TypingTest.handleKeyDown.
    destruct (TypingTest.testStatus s);
      destruct (TypingTest.includes TypingTest.modifier_keys key);
      cbn; destruct (TypingTest.currentKeyDownTime s); try lia.
  - unfold TypingTest.handleKeyUp.
    destruct (TypingTest.testStatus s);
      destruct (TypingTest.currentKeyDownTime s) as [down |] eqn:Ed;
      cbn [TypingTest.keystrokes TypingTest.currentKeyDownTime List.length];
      rewrite ?Ed, ?List.length_app; cbn [List.length]; lia.
  - unfold TypingTest.timer_tick.
    destruct (TypingTest.testStatus s); try lia.
    destruct (TypingTest.startTime s) as [t |]; [|lia].
    destruct (truthy t); cbn; lia.
  - unfold TypingTest.handleFinishTest.
    destruct (TypingTest.finished_session s sid now); [|lia].
    destruct saved; cbn; lia.
Qed.

Lemma run_count (actions : list TypingTest.Action) (s : TypingTest.State) :
  (List.length (TypingTest.keystrokes (TypingTest.run s actions))
   + TypingTest.pending (TypingTest.run s actions)
   <= List.length (TypingTest.keystrokes s) + TypingTest.pending s
      + TypingTest.timed_key_downs actions)%nat.
Proof.
  revert s. induction actions as [| a rest IH]; intros s.
  - cbn. lia.
  - cbn [TypingTest.run List.fold_left].
    pose proof (IH (TypingTest.step s a)) as H1.
    pose proof (step_count s a) as H2.
    unfold TypingTest.run in H1.
    change (a :: rest) with ([a] ++ rest).
    unfold TypingTest.timed_key_downs in *.
    rewrite List.filter_app, List.length_app. lia.
Qed.

(** X8.  The test page records at most one keystroke for each key-down of
    a key that is not a modifier: a key-up without a pending key-down
    records nothing, and a key-up consumes the pending key-down. *)
Theorem X8_one_keystroke_per_key_down (actions : list TypingTest.Action) :
  (List.length (TypingTest.keystrokes (TypingTest.run TypingTest.initial actions))
   <= TypingTest.timed_key_downs actions)%nat
  /\ forall (s : TypingTest.State) (key : js_string) (now now' : number),
       TypingTest.keystrokes
         (TypingTest.handleKeyUp (TypingTest.handleKeyUp s key now) key now')
       = TypingTest.keystrokes (TypingTest.handleKeyUp s key now).
Proof.
  split.
  - pose proof (run_count actions TypingTest.initial) as H.
    cbn [TypingTest.initial TypingTest.keystrokes TypingTest.pending
         TypingTest.currentKeyDownTime List.length] in H. lia.
  - intros s key now now'. unfold TypingTest.handleKeyUp at 1 3.
    destruct (TypingTest.testStatus (TypingTest.handleKeyUp s key now)) eqn:Est;
      try reflexivity.
    destruct (TypingTest.currentKeyDownTime (TypingTest.handleKeyUp s key now))
      as [down |] eqn:Ed; [|reflexivity].
    exfalso. unfold TypingTest.handleKeyUp in Ed, Est.
    destruct (TypingTest.testStatus s) eqn:Es;
      destruct (TypingTest.currentKeyDownTime s) as [d |] eqn:Ec;
      cbn [TypingTest.testStatus TypingTest.currentKeyDownTime] in Ed, Est;
      congruence.
Qed.

(** ** The levels of the results page *)

Lemma Math_round_20 : Math_round (of_Z 20) = of_Z 20.
Proof. vm_compute. reflexivity. Qed.

Lemma flt_0_15 : flt (of_Z 0) (of_Z 15) = true.
Proof. vm_compute. reflexivity. Qed.

Lemma flt_0_30 : flt (of_Z 0) (of_Z 30) = true.
Proof. vm_compute. reflexivity. Qed.

Lemma or_else_zero_within (x : number) (k hi : Z) :
  fin_val x = Some k -> 0 <= k <= hi -> within 0 hi (or_else x (of_Z 0)).
Proof.
  intros Hx Hk. unfold or_else. destruct (truthy x).
  - exists k. split; [exact Hx | exact Hk].
  - rewrite of_Z_0. exists 0. split; [reflexivity | lia].
Qed.

Lemma flagged_decline_level (d : number) :
  flt (of_Z 20) d = true ->
  flt (or_else (Math_max (of_Z 0) (Math_round d)) (of_Z 0)) (of_Z 15) = false.
Proof.
  intros Hd.
  assert (Hle : fle (of_Z 20) d = true).
  { rewrite (of_Z_exact 20) in * by lia.
    destruct d as [| [] | | k]; cbn [flt fle units negb] in *;
      try discriminate Hd; try reflexivity.
    apply Z.ltb_lt in Hd. apply negb_true_iff, Z.ltb_ge. lia. }
  apply Math_round_mono in Hle. rewrite Math_round_20 in Hle.
  pose proof one_units_pos as Ho.
  rewrite (of_Z_exact 15) by lia.
  destruct (fle_cases _ _ Hle) as [E | [E | (a & b & Ha & Hb & Hab)]].
  - rewrite (of_Z_exact 20) in E by lia. discriminate E.
  - rewrite E, of_Z_0. reflexivity.
  - rewrite (fin_val_of_Z 20) in Ha by lia. apply some_eq in Ha. subst a.
    assert (Hr : Math_round d = Fin b) by (apply fin_val_nonzero; [exact Hb | lia]).
    rewrite Hr, of_Z_0. unfold Math_max. cbn [flt units].
    destruct (Z.ltb_spec 0 b) as [_ | Hc]; [|lia].
    unfold or_else. cbn [truthy is_zero].
    destruct (Z.eqb_spec b 0) as [Hc | _]; [lia|]. cbn [negb flt units].
    apply Z.ltb_ge. lia.
Qed.

Lemma unflagged_decline_level (d : number) :
  flt (of_Z 20) d = false ->
  flt (or_else (Math_max (of_Z 0) (Math_round d)) (of_Z 0)) (of_Z 30) = true.
Proof.
  intros Hd. pose proof one_units_pos as Ho.
  assert (Hcases : d = NaN \/ fle d (of_Z 20) = true).
  { rewrite (of_Z_exact 20) in * by lia.
    destruct d as [| [] | | k]; cbn [flt fle units negb] in *;
      [left; reflexivity | right; reflexivity | discriminate Hd
       | right; rewrite Hd; reflexivity | right; rewrite Hd; reflexivity]. }
  destruct Hcases as [E | Hle].
  { subst d. cbn [Math_round]. rewrite of_Z_0 at 1. cbn [Math_max].
    unfold or_else. cbn [truthy]. apply flt_0_30. }
  apply Math_round_mono in Hle. rewrite Math_round_20 in Hle.
  assert (Hw : within 0 (20 * one_units)
                 (or_else (Math_max (of_Z 0) (Math_round d)) (of_Z 0))).
  { destruct (fle_cases _ _ Hle) as [E | [E | (a & b & Ha & Hb & Hab)]].
    - rewrite E, of_Z_0. cbn [Math_max flt andb negb].
      unfold or_else. cbn [truthy is_zero Z.eqb negb].
      exists 0. split; [reflexivity | lia].
    - rewrite (of_Z_exact 20) in E by lia. discriminate E.
    - rewrite (fin_val_of_Z 20) in Hb by lia. apply some_eq in Hb. subst b.
      destruct (Math_max_zero_within (Math_round d) a (20 * one_units) Ha Hab)
        as (j & Hj & Hjb); [lia|].
      exact (or_else_zero_within _ j _ Hj Hjb). }
  destruct Hw as (j & Hj & Hjb).
  rewrite (flt_fin _ _ j (30 * one_units) Hj (fin_val_of_Z 30 ltac:(lia))).
  apply Z.ltb_lt. lia.
Qed.

Lemma fatigue_level_of_flag (flag : bool) (score : number) :
  (flag = true -> flt (or_else score (of_Z 0)) (of_Z 15) = false) ->
  (flag = false -> flt (or_else score (of_Z 0)) (of_Z 30) = true) ->
  let level := ResultsPage.getFatigueLevel (field_or_zero (Some score)) in
  (flag = true -> ResultsPage.label level <> str "None")
  /\ (flag = false -> ResultsPage.label level <> str "Significant").
Proof.
  intros H1 H2 level. unfold level, ResultsPage.getFatigueLevel.
  cbn [field_or_zero]. split; intros Hf.
  - rewrite (H1 Hf).
    destruct (flt (or_else score (of_Z 0)) (of_Z 30));
      cbn [ResultsPage.label]; cbn; discriminate.
  - rewrite (H2 Hf).
    destruct (flt (or_else score (of_Z 0)) (of_Z 15));
      cbn [ResultsPage.label]; cbn; discriminate.
Qed.

Lemma or_else_zero_zero : or_else (of_Z 0) (of_Z 0) = of_Z 0.
Proof. vm_compute. reflexivity. Qed.

(** X9.  The fatigue level shown on the results page follows the fatigue
    flag of the metrics: a session whose decline exceeds 20 percent is never
    shown with the level [None], and a session that is not flagged is never
    shown with the level [Significant]. *)
Theorem X9_fatigue_level_follows_flag (typedText referenceText : js_string)
        (keystrokes : list KeystrokeEvent) (startTime endTime : number) :
  let m := calculatePerformanceMetrics typedText referenceText keystrokes
                                       startTime endTime in
  let level := ResultsPage.getFatigueLevel (field_or_zero (Some (fatigueScore m))) in
  (fatigueDetected m = true -> ResultsPage.label level <> str "None")
  /\ (fatigueDetected m = false -> ResultsPage.label level <> str "Significant").
Proof.
  intros m. unfold m, calculatePerformanceMetrics.
  cbn [fatigueDetected fatigueScore].
  apply (fatigue_level_of_flag
           (fr_fatigueDetected (detectFatigue keystrokes startTime endTime))
           (fr_fatigueScore (detectFatigue keystrokes startTime endTime)));
    rewrite detectFatigue_unfold;
    destruct (Nat.ltb _ _);
    try (destruct (_ || _));
    cbn [zeroed_fatigue spec_FatigueAnalysis fr_fatigueDetected fr_fatigueScore];
    intros H.
  - discriminate H.
  - discriminate H.
  - exact (flagged_decline_level _ H).
  - rewrite or_else_zero_zero. exact flt_0_30.
  - rewrite or_else_zero_zero. exact flt_0_30.
  - exact (unflagged_decline_level _ H).
Qed.

Lemma six_then_four_flagged :
  fatigueDetected (calculatePerformanceMetrics (str "helo") (str "hello")
                     six_then_four (of_Z 0) (of_Z 3000)) = true.
Proof. vm_compute. reflexivity. Qed.

Lemma X9_fatigue_level_follows_flag_witness :
  let m := calculatePerformanceMetrics (str "helo") (str "hello") six_then_four
                                       (of_Z 0) (of_Z 3000) in
  fatigueDetected m = true
  /\ ResultsPage.label
       (ResultsPage.getFatigueLevel (field_or_zero (Some (fatigueScore m))))
     <> str "None".
Proof.
  intros m. split; [exact six_then_four_flagged|].
  exact (proj1 (X9_fatigue_level_follows_flag (str "helo") (str "hello")
                  six_then_four (of_Z 0) (of_Z 3000)) six_then_four_flagged).
Defined.

(** ** Numbers that are not negative *)

Lemma pack_not_negative (r : Z) : 0 <= r -> not_negative (pack false r).
Proof.
  intros Hr. unfold pack.
  destruct (Z.leb_spec overflow_units r); [left; reflexivity|].
  right. destruct (Z.eqb_spec r 0).
  - exists 0. split; [reflexivity | lia].
  - exists r. split; [reflexivity | lia].
Qed.

Lemma round_q_not_negative (s : bool) (x : Q) :
  (0 <= x)%Q -> not_negative (round_q s x).
Proof.
  intros Hx. unfold round_q.
  destruct (Qcompare_cases x) as [[-> _] | [[-> Hp] | [-> Hn]]].
  - right. exists 0. split; [destruct s; reflexivity | lia].
  - apply pack_not_negative. apply rnd_mag_nonneg. exact Hx.
  - lra.
Qed.

Lemma not_negative_flt (x : number) : not_negative x -> flt x (of_Z 0) = false.
Proof.
  rewrite of_Z_0. intros [-> | (k & Hk & Hpos)]; [reflexivity|].
  finite_cases x k' Hk; [reflexivity|]. subst k'. cbn [flt units].
  apply Z.ltb_ge. exact Hpos.
Qed.

Lemma not_negative_fle (x : number) : not_negative x -> fle (of_Z 0) x = true.
Proof.
  rewrite of_Z_0. intros [-> | (k & Hk & Hpos)]; [reflexivity|].
  finite_cases x k' Hk; [reflexivity|]. subst k'. cbn [fle flt units].
  apply negb_true_iff, Z.ltb_ge. exact Hpos.
Qed.

Lemma Math_round_not_negative (x : number) :
  not_negative x -> not_negative (Math_round x).
Proof.
  intros [-> | (k & Hk & Hpos)]; [left; reflexivity|].
  finite_cases x k' Hk.
  - right. exists 0. split; [reflexivity | lia].
  - subst k'. rewrite Math_round_fin. apply round_q_not_negative.
    pose proof one_units_pos as Ho.
    change 0%Q with (inject_Z 0). rewrite <- Zle_Qle.
    apply Z.mul_nonneg_nonneg; [|lia].
    apply Z.div_pos; lia.
Qed.

Lemma sqrt_mag_nonneg (k : Z) : 0 <= sqrt_mag k.
Proof.
  unfold sqrt_mag. apply Z.shiftl_nonneg.
  set (t := Z.sqrt _). pose proof (Z.sqrt_nonneg (Z.shiftr (one_units * k)
    (2 * Z.max 0 (Z.log2 (one_units * k) / 2 - 52)))) as Ht. fold t in Ht.
  destruct (_ ?= _); [destruct (Z.even t)| |]; lia.
Qed.

Lemma Math_sqrt_not_negative (x : number) :
  not_negative x -> not_negative (Math_sqrt x).
Proof.
  intros [-> | (k & Hk & Hpos)]; [left; reflexivity|].
  finite_cases x k' Hk.
  - right. exists 0. split; [reflexivity | lia].
  - subst k'. cbn [Math_sqrt].
    destruct (Z.ltb_spec k 0); [lia|].
    destruct (Z.eqb_spec k 0).
    + right. exists 0. split; [reflexivity | lia].
    + apply pack_not_negative. apply sqrt_mag_nonneg.
Qed.

Lemma fdiv_not_negative (x y : number) (b : Z) :
  not_negative x -> fin_val y = Some b -> 0 < b -> not_negative (fdiv x y).
Proof.
  intros Hx Hy Hb. pose proof one_units_pos as Ho.
  destruct Hx as [-> | (a & Ha & Hpos)].
  - left. finite_cases y b' Hy; [lia|]. subst b'. cbn [fdiv sign_neg xorb].
    destruct (Z.ltb_spec b 0); [lia | reflexivity].
  - rewrite (fdiv_fin x y a b Ha Hy) by lia.
    apply round_q_not_negative.
    apply Qle_shift_div_l; [apply inject_Z_pos; exact Hb|].
    rewrite Qmult_0_l. change 0%Q with (inject_Z 0). rewrite <- Zle_Qle.
    apply Z.mul_nonneg_nonneg; lia.
Qed.

Lemma fmul_not_negative (x y : number) (b : Z) :
  not_negative x -> fin_val y = Some b -> 0 < b -> not_negative (fmul x y).
Proof.
  intros Hx Hy Hb. pose proof one_units_pos as Ho.
  destruct Hx as [-> | (a & Ha & Hpos)].
  - left. finite_cases y b' Hy; [lia|]. subst b'. cbn [fmul sign_neg xorb is_zero].
    destruct (Z.eqb_spec b 0); [lia|].
    destruct (Z.ltb_spec b 0); [lia | reflexivity].
  - rewrite (fmul_fin x y a b Ha Hy).
    apply round_q_not_negative.
    apply Qle_shift_div_l; [apply inject_Z_pos; exact Ho|].
    rewrite Qmult_0_l. change 0%Q with (inject_Z 0). rewrite <- Zle_Qle.
    apply Z.mul_nonneg_nonneg; lia.
Qed.

(** ** The spread of the keystroke durations *)

Lemma Math_sqrt_flt (x : number) : flt (Math_sqrt x) (of_Z 0) = false.
Proof.
  rewrite of_Z_0. destruct x as [| [] | | k]; try reflexivity.
  cbn [Math_sqrt]. destruct (Z.ltb_spec k 0); [reflexivity|].
  rewrite <- of_Z_0. apply not_negative_flt.
  destruct (Z.eqb_spec k 0).
  - right. exists 0. split; [reflexivity | lia].
  - apply pack_not_negative. apply sqrt_mag_nonneg.
Qed.

Lemma Math_round_flt (x : number) :
  flt x (of_Z 0) = false -> flt (Math_round x) (of_Z 0) = false.
Proof.
  intros H. destruct x as [| s | | k]; try exact H.
  apply not_negative_flt. apply Math_round_not_negative.
  right. exists k. split; [reflexivity|].
  rewrite of_Z_0 in H. cbn [flt units] in H. apply Z.ltb_ge in H. exact H.
Qed.

(** X10.  The standard deviation of the keystroke durations is never
    negative, whatever the durations are (it can be NaN). *)
Theorem X10_standard_deviation_not_negative (keystrokes : list KeystrokeEvent) :
  flt (calculateKeystrokeDurationStdDev keystrokes) (of_Z 0) = false.
Proof.
  unfold calculateKeystrokeDurationStdDev.
  destruct (Nat.eqb _ 0).
  - rewrite of_Z_0. reflexivity.
  - apply Math_round_flt. apply Math_sqrt_flt.
Qed.

(** ** Sums of bounded numbers *)

Lemma sum_within (e : Z) (l : list number) :
  0 <= e <= 2044 ->
  List.Forall (within 0 (2 ^ e)) l ->
  forall (acc : number) (i : Z),
    0 <= i -> i + Z.of_nat (List.length l) <= 2 ^ 53 ->
    within 0 (i * 2 ^ e) acc ->
    within 0 ((i + Z.of_nat (List.length l)) * 2 ^ e) (List.fold_left fadd l acc).
Proof.
  intros He Hl. induction Hl as [| x rest Hx Hrest IH]; intros acc i Hi Hn Hacc.
  - cbn [List.length List.fold_left]. rewrite Z.add_0_r. exact Hacc.
  - cbn [List.fold_left]. rewrite List.length_cons, Nat2Z.inj_succ in *.
    replace (i + Z.succ (Z.of_nat (List.length rest)))
      with ((i + 1) + Z.of_nat (List.length rest)) by lia.
    apply IH; [lia | lia |].
    destruct Hacc as (a & Ha & Hab). destruct Hx as (b & Hb & Hbb).
    apply (fadd_within acc x a b); [exact Ha | exact Hb | apply fin_rep_0 | |].
    + apply fin_rep_scaled; lia.
    + rewrite Z.mul_add_distr_r. lia.
Qed.

Lemma sum_of_within (e : Z) (l : list number) :
  0 <= e <= 2044 -> Z.of_nat (List.length l) <= 2 ^ 53 ->
  List.Forall (within 0 (2 ^ e)) l ->
  within 0 (Z.of_nat (List.length l) * 2 ^ e) (sum_of l).
Proof.
  intros He Hn Hl. unfold sum_of.
  apply (sum_within e l He Hl (of_Z 0) 0); [lia | lia |].
  rewrite of_Z_0. exists 0. split; [reflexivity | lia].
Qed.

Lemma mean_of_within (e : Z) (l : list number) :
  0 <= e <= 2044 -> l <> [] -> Z.of_nat (List.length l) <= 2 ^ 53 ->
  List.Forall (within 0 (2 ^ e)) l ->
  within 0 (2 ^ e) (fdiv (sum_of l) (of_nat (List.length l))).
Proof.
  intros He Hne Hn Hl. pose proof one_units_pos as Ho.
  destruct (sum_of_within e l He Hn Hl) as (a & Ha & Hab).
  assert (Hpos : (0 < List.length l)%nat) by (destruct l; [congruence | simpl; lia]).
  apply (fdiv_within _ _ a (Z.of_nat (List.length l) * one_units)).
  - exact Ha.
  - apply fin_val_of_nat. exact Hn.
  - apply Z.mul_pos_pos; lia.
  - apply fin_rep_0.
  - apply fin_rep_pow2. exact He.
  - split; [apply Z.mul_nonneg_nonneg; lia|].
    apply Z.le_trans with (Z.of_nat (List.length l) * 2 ^ e * one_units).
    + apply Z.mul_le_mono_nonneg_r; lia.
    + apply Z.eq_le_incl. ring.
Qed.

Lemma within_not_negative (hi : Z) (x : number) : within 0 hi x -> not_negative x.
Proof. intros (k & Hk & Hb). right. exists k. split; [exact Hk | lia]. Qed.

Lemma duration_bound : 2 ^ 53 * one_units = 2 ^ 1127.
Proof. unfold one_units. rewrite <- Z.pow_add_r by lia. reflexivity. Qed.

Lemma valid_durations_within (hi : Z) (events : list KeystrokeEvent) :
  0 <= hi ->
  List.Forall (fun k => forall d, duration k = Some d -> within 0 hi d) events ->
  List.Forall (within 0 hi) (valid_durations events).
Proof.
  intros Hhi H. unfold valid_durations. induction H as [| k rest Hk Hrest IH].
  - constructor.
  - cbn [List.flat_map]. destruct (duration k) as [d |] eqn:Ed.
    + cbn [List.app]. constructor; [|exact IH].
      destruct (Hk d eq_refl) as (j & Hj & Hjb).
      exact (or_else_zero_within d j hi Hj Hjb).
    + exact IH.
Qed.

Lemma valid_durations_length (events : list KeystrokeEvent) :
  (List.length (valid_durations events) <= List.length events)%nat.
Proof.
  rewrite valid_durations_filter, List.length_map. apply List.filter_length_le.
Qed.

Lemma fin_rep_opp (a : Z) : fin_rep a -> fin_rep (- a).
Proof. unfold fin_rep. rewrite Z.abs_opp. exact (fun H => H). Qed.

Lemma squares_within (mean : number) (l : list number) :
  within 0 (2 ^ 1127) mean ->
  List.Forall (within 0 (2 ^ 1127)) l ->
  List.Forall (within 0 (2 ^ 1180))
              (List.map (fun d => fmul (fsub d mean) (fsub d mean)) l).
Proof.
  intros (m & Hm & Hmb) Hl. pose proof one_units_pos as Ho.
  induction Hl as [| d rest Hd Hrest IH]; cbn [List.map]; constructor; [|exact IH].
  destruct Hd as (a & Ha & Hab).
  assert (Hdiff : within (- 2 ^ 1127) (2 ^ 1127) (fsub d mean)).
  { apply (fsub_within d mean a m (- 2 ^ 1127) (2 ^ 1127) Ha Hm).
    - apply fin_rep_opp, fin_rep_pow2. lia.
    - apply fin_rep_pow2. lia.
    - lia. }
  destruct Hdiff as (c & Hc & Hcb).
  apply (fmul_within _ _ c c 0 (2 ^ 1180) Hc Hc); [apply fin_rep_0 | apply fin_rep_pow2; lia |].
  split; [rewrite Z.mul_0_l; apply Z.square_nonneg|].
  replace (2 ^ 1180 * one_units) with (2 ^ 1127 * 2 ^ 1127)
    by (unfold one_units; rewrite <- !Z.pow_add_r by lia; reflexivity).
  assert (Hp : 0 < 2 ^ 1127) by (apply pow2_pos; lia).
  destruct (Z.le_ge_cases 0 c).
  - apply Z.mul_le_mono_nonneg; lia.
  - replace (c * c) with ((- c) * (- c)) by ring.
    apply Z.mul_le_mono_nonneg; lia.
Qed.

(** ** The tremor score of durations that are not negative *)

Lemma spec_mean_within (events : list KeystrokeEvent) :
  Z.of_nat (List.length events) <= 2 ^ 53 ->
  List.Forall (fun k => forall d, duration k = Some d ->
                                  within 0 (2 ^ 53 * one_units) d) events ->
  within 0 (2 ^ 1127) (spec_mean events).
Proof.
  intros Hn Hd. rewrite duration_bound in Hd.
  pose proof (valid_durations_within (2 ^ 1127) events ltac:(lia) Hd) as Hv.
  pose proof (valid_durations_length events) as Hlen.
  unfold spec_mean.
  destruct (valid_durations events) as [| d0 rest] eqn:E.
  { rewrite of_Z_0. exists 0. split; [reflexivity | lia]. }
  rewrite <- E in *. 
  assert (Hne : valid_durations events <> []) by (rewrite E; discriminate).
  destruct (mean_of_within 1127 (valid_durations events) ltac:(lia) Hne ltac:(lia) Hv)
    as (q & Hq & Hqb).
  rewrite <- duration_bound in *.
  apply (Math_round_within _ q 0 (2 ^ 53)).
  - exact Hq.
  - rewrite Z.mul_0_l. apply fin_rep_0.
  - apply fin_rep_int. lia.
  - lia.
Qed.

Lemma spec_stdDev_not_negative (events : list KeystrokeEvent) :
  Z.of_nat (List.length events) <= 2 ^ 53 ->
  List.Forall (fun k => forall d, duration k = Some d ->
                                  within 0 (2 ^ 53 * one_units) d) events ->
  not_negative (spec_stdDev events).
Proof.
  intros Hn Hd. pose proof (spec_mean_within events Hn Hd) as Hm.
  rewrite duration_bound in Hd.
  pose proof (valid_durations_within (2 ^ 1127) events ltac:(lia) Hd) as Hv.
  pose proof (valid_durations_length events) as Hlen.
  pose proof one_units_pos as Ho.
  unfold spec_stdDev.
  destruct (valid_durations events) as [| d0 rest] eqn:E.
  { rewrite of_Z_0. right. exists 0. split; [reflexivity | lia]. }
  rewrite <- E in *.
  apply Math_round_not_negative, Math_sqrt_not_negative.
  pose proof (squares_within (spec_mean events) (valid_durations events) Hm Hv) as Hs.
  assert (Hpos : (0 < List.length (valid_durations events))%nat)
    by (rewrite E; simpl; lia).
  apply (fdiv_not_negative _ _ (Z.of_nat (List.length (valid_durations events))
                                * one_units)).
  - eapply within_not_negative. apply (sum_of_within 1180); [lia | | exact Hs].
    rewrite List.length_map. lia.
  - apply fin_val_of_nat. lia.
  - apply Z.mul_pos_pos; lia.
Qed.

Lemma fle_0_0 : fle (of_Z 0) (of_Z 0) = true.
Proof. vm_compute. reflexivity. Qed.

Lemma fle_0_100 : fle (of_Z 0) (of_Z 100) = true.
Proof. vm_compute. reflexivity. Qed.

Lemma fle_100_100 : fle (of_Z 100) (of_Z 100) = true.
Proof. vm_compute. reflexivity. Qed.

Lemma Math_min_100_percent (r : number) :
  not_negative r ->
  fle (of_Z 0) (Math_min (of_Z 100) r) = true
  /\ fle (Math_min (of_Z 100) r) (of_Z 100) = true.
Proof.
  pose proof one_units_pos as Ho.
  intros [-> | (b & Hb & Hpos)].
  - assert (E : Math_min (of_Z 100) (Inf false) = of_Z 100).
    { rewrite (of_Z_exact 100) by lia. reflexivity. }
    rewrite E. split; [exact fle_0_100 | exact fle_100_100].
  - apply within_percent. exists (Z.min (100 * one_units) b).
    split; [apply Math_min_100_fin; exact Hb | lia].
Qed.

Lemma scaled_variation_not_negative (keystrokes : list KeystrokeEvent) :
  Z.of_nat (List.length keystrokes) <= 2 ^ 53 ->
  List.Forall (fun k => forall d, duration k = Some d ->
                                  within 0 (2 ^ 53 * one_units) d) keystrokes ->
  is_zero (spec_mean keystrokes) = false ->
  not_negative
    (Math_round
       (fmul (fmul (fdiv (spec_stdDev keystrokes) (spec_mean keystrokes))
                   (of_Z 100))
             (of_Z 2))).
Proof.
  intros Hn Hd Ez.
  destruct (spec_mean_within keystrokes Hn Hd) as (m & Hm & Hmb).
  pose proof (spec_stdDev_not_negative keystrokes Hn Hd) as Hsd.
  assert (Hpos : 0 < m).
  { destruct (spec_mean keystrokes) as [| s | | k]; cbn [fin_val is_zero] in *;
      try discriminate.
    apply some_eq in Hm. subst k. apply Z.eqb_neq in Ez. lia. }
  pose proof one_units_pos as Ho.
  apply Math_round_not_negative.
  apply (fmul_not_negative _ _ (2 * one_units));
    [| apply fin_val_of_Z; lia | lia].
  apply (fmul_not_negative _ _ (100 * one_units));
    [| apply fin_val_of_Z; lia | lia].
  exact (fdiv_not_negative _ _ m Hsd Hm Hpos).
Qed.

(** X11.  When no keystroke has a negative duration (each duration present
    is a finite number between 0 and 2^53 ms, as a clock that does not go
    backwards gives), the tremor score lies between 0 and 100. *)
Theorem X11_tremor_score_in_range (keystrokes : list KeystrokeEvent) :
  Z.of_nat (List.length keystrokes) <= 2 ^ 53 ->
  List.Forall (fun k => forall d, duration k = Some d ->
                                  within 0 (2 ^ 53 * one_units) d) keystrokes ->
  fle (of_Z 0) (calculateTremorScore keystrokes) = true
  /\ fle (calculateTremorScore keystrokes) (of_Z 100) = true.
Proof.
  intros Hn Hd. rewrite tremor_score_formula. unfold spec_TremorScore.
  destruct (is_zero (spec_mean keystrokes)) eqn:Ez.
  - split; [exact fle_0_0 | exact fle_0_100].
  - unfold spec_score_of_cv. apply Math_min_100_percent.
    exact (scaled_variation_not_negative keystrokes Hn Hd Ez).
Qed.

Lemma event_at_duration_within (t v : Z) (ok : bool) :
  0 <= v <= 2 ^ 53 ->
  forall d, duration (event_at t (Some v) ok) = Some d ->
            within 0 (2 ^ 53 * one_units) d.
Proof.
  intros Hv d Hd. cbn [event_at duration option_map] in Hd.
  apply some_eq in Hd. subst d. pose proof one_units_pos as Ho.
  exists (v * one_units). split; [apply fin_val_of_Z; lia|].
  split; [apply Z.mul_nonneg_nonneg; lia | apply Z.mul_le_mono_nonneg_r; lia].
Qed.

Lemma six_then_four_durations :
  List.Forall (fun k => forall d, duration k = Some d ->
                                  within 0 (2 ^ 53 * one_units) d) six_then_four.
Proof.
  apply List.Forall_forall. intros k Hk. unfold six_then_four in Hk.
  apply List.in_map_iff in Hk. destruct Hk as (t & <- & _).
  apply event_at_duration_within. lia.
Qed.

Lemma X11_tremor_score_in_range_witness :
  Z.of_nat (List.length six_then_four) <= 2 ^ 53
  /\ List.Forall (fun k => forall d, duration k = Some d ->
                                     within 0 (2 ^ 53 * one_units) d) six_then_four
  /\ fle (of_Z 0) (calculateTremorScore six_then_four) = true
  /\ fle (calculateTremorScore six_then_four) (of_Z 100) = true.
Proof.
  assert (H1 : Z.of_nat (List.length six_then_four) <= 2 ^ 53) by (cbn; lia).
  split; [exact H1|]. split; [exact six_then_four_durations|].
  exact (X11_tremor_score_in_range six_then_four H1 six_then_four_durations).
Defined.

(** ** Regular keystrokes *)

Lemma fadd_of_Z (a b : Z) :
  Z.abs a <= 2 ^ 53 -> Z.abs b <= 2 ^ 53 -> Z.abs (a + b) <= 2 ^ 53 ->
  fadd (of_Z a) (of_Z b) = of_Z (a + b).
Proof.
  intros Ha Hb Hab. pose proof one_units_pos as Ho.
  rewrite (fadd_fin _ _ (a * one_units) (b * one_units))
    by (apply fin_val_of_Z; assumption).
  rewrite (of_Z_exact a Ha), (of_Z_exact b Hb), (of_Z_exact (a + b) Hab).
  rewrite <- Z.mul_add_distr_r. cbn [sign_neg].
  apply round_q_int_units; [exact Hab|].
  destruct (Z.eq_dec (a + b) 0) as [E | N]; [right | left; exact N].
  destruct (Z.ltb_spec (a * one_units) 0) as [H1 | H1];
    destruct (Z.ltb_spec (b * one_units) 0) as [H2 | H2]; try reflexivity.
  exfalso. assert (a < 0) by nia. assert (b < 0) by nia. lia.
Qed.

Lemma fsub_self (v : Z) : Z.abs v <= 2 ^ 53 -> fsub (of_Z v) (of_Z v) = Fin 0.
Proof.
  intros Hv. pose proof one_units_pos as Ho.
  rewrite (of_Z_exact v Hv). unfold fsub, fneg.
  destruct (Z.eqb_spec (v * one_units) 0) as [E | N].
  - rewrite E. reflexivity.
  - unfold fadd. cbn [units sign_neg]. rewrite Z.add_opp_diag_r. cbn [round_frac].
    destruct (Z.ltb_spec (v * one_units) 0) as [H1 | H1];
      destruct (Z.ltb_spec (- (v * one_units)) 0) as [H2 | H2];
      try reflexivity; lia.
Qed.

Lemma sum_repeat (v : Z) (j : nat) (i : Z) :
  0 <= i -> Z.abs v * (i + Z.of_nat j) <= 2 ^ 53 ->
  List.fold_left fadd (List.repeat (of_Z v) j) (of_Z (i * v))
  = of_Z ((i + Z.of_nat j) * v).
Proof.
  revert i. induction j as [| j IH]; intros i Hi Hb.
  - cbn [List.repeat List.fold_left]. f_equal. lia.
  - cbn [List.repeat List.fold_left].
    assert (Hv : Z.abs v <= 2 ^ 53) by nia.
    assert (Hiv : Z.abs (i * v) <= 2 ^ 53) by (rewrite Z.abs_mul; nia).
    assert (Hiv' : Z.abs ((i + 1) * v) <= 2 ^ 53) by (rewrite Z.abs_mul; nia).
    rewrite (fadd_of_Z (i * v) v Hiv Hv)
      by (replace (i * v + v) with ((i + 1) * v) by ring; exact Hiv').
    replace (i * v + v) with ((i + 1) * v) by ring.
    rewrite IH by lia. f_equal. lia.
Qed.

Lemma or_else_of_Z (v : Z) :
  Z.abs v <= 2 ^ 53 -> or_else (of_Z v) (of_Z 0) = of_Z v.
Proof.
  intros Hv. pose proof one_units_pos as Ho.
  destruct (Z.eq_dec v 0) as [-> | N]; [apply or_else_zero_zero|].
  rewrite (of_Z_exact v Hv). unfold or_else. cbn [truthy is_zero].
  destruct (Z.eqb_spec (v * one_units) 0) as [E | _]; [nia | reflexivity].
Qed.

Lemma regular_durations (v : Z) (events : list KeystrokeEvent) :
  Z.abs v <= 2 ^ 53 ->
  List.Forall (fun k => forall d, duration k = Some d -> d = of_Z v) events ->
  valid_durations events
  = List.repeat (of_Z v) (List.length (valid_durations events)).
Proof.
  intros Hv H. unfold valid_durations. induction H as [| k rest Hk Hrest IH].
  - reflexivity.
  - cbn [List.flat_map]. destruct (duration k) as [d |] eqn:Ed.
    + cbn [List.app List.length List.repeat].
      rewrite (Hk d eq_refl), (or_else_of_Z v Hv). f_equal. exact IH.
    + exact IH.
Qed.

Lemma fdiv_exact_of_nat (v : Z) (n : nat) :
  (0 < n)%nat -> Z.of_nat n <= 2 ^ 53 -> Z.abs v * Z.of_nat n <= 2 ^ 53 ->
  fin_val (fdiv (of_Z (Z.of_nat n * v)) (of_nat n)) = Some (v * one_units).
Proof.
  intros Hn Hb Hv. pose proof one_units_pos as Ho.
  assert (Hnv : Z.abs (Z.of_nat n * v) <= 2 ^ 53) by (rewrite Z.abs_mul; nia).
  assert (Hv' : Z.abs v <= 2 ^ 53) by nia.
  apply within_point.
  apply (fdiv_within _ _ (Z.of_nat n * v * one_units) (Z.of_nat n * one_units)).
  - apply fin_val_of_Z. exact Hnv.
  - apply fin_val_of_nat. exact Hb.
  - apply Z.mul_pos_pos; lia.
  - apply fin_rep_int. exact Hv'.
  - apply fin_rep_int. exact Hv'.
  - split; apply Z.eq_le_incl; ring.
Qed.

Lemma regular_mean (v : Z) (events : list KeystrokeEvent) :
  Z.abs v * Z.of_nat (List.length events) <= 2 ^ 53 ->
  Z.of_nat (List.length events) <= 2 ^ 53 ->
  List.Forall (fun k => forall d, duration k = Some d -> d = of_Z v) events ->
  valid_durations events <> [] ->
  spec_mean events = of_Z v.
Proof.
  intros Hb Hn H Hne. pose proof (valid_durations_length events) as Hlen.
  assert (Hpos : (0 < List.length (valid_durations events))%nat).
  { destruct (valid_durations events); [congruence | simpl; lia]. }
  assert (Hv : Z.abs v <= 2 ^ 53) by nia.
  unfold spec_mean.
  destruct (valid_durations events) as [| d0 rest] eqn:E; [congruence|].
  rewrite <- E in *. set (n := List.length (valid_durations events)) in *.
  rewrite (regular_durations v events Hv H). fold n.
  unfold sum_of.
  change (of_Z 0) with (of_Z (0 * v)).
  rewrite (sum_repeat v n 0) by nia. rewrite Z.add_0_l.
  pose proof (fdiv_exact_of_nat v n Hpos ltac:(lia) ltac:(nia)) as Hq.
  pose proof (Math_round_integer _ v Hv Hq) as Hr.
  destruct (Z.eq_dec v 0) as [-> | N].
  - rewrite Z.mul_0_r. change (of_Z 0) with (of_nat 0).
    rewrite fdiv_zero_of_nat by lia. apply Math_round_zero.
  - apply of_Z_of_fin_val; assumption.
Qed.

Lemma fmul_zero_zero : fmul (Fin 0) (Fin 0) = Fin 0.
Proof. reflexivity. Qed.

Lemma fadd_zero_zero : fadd (Fin 0) (Fin 0) = Fin 0.
Proof. reflexivity. Qed.

Lemma sum_zeros (n : nat) :
  List.fold_left fadd (List.repeat (Fin 0) n) (Fin 0) = Fin 0.
Proof.
  induction n as [| n IH]; [reflexivity|].
  cbn [List.repeat List.fold_left]. rewrite fadd_zero_zero. exact IH.
Qed.

Lemma regular_stdDev (v : Z) (events : list KeystrokeEvent) :
  Z.abs v * Z.of_nat (List.length events) <= 2 ^ 53 ->
  Z.of_nat (List.length events) <= 2 ^ 53 ->
  List.Forall (fun k => forall d, duration k = Some d -> d = of_Z v) events ->
  spec_stdDev events = of_Z 0.
Proof.
  intros Hb Hn H. pose proof (valid_durations_length events) as Hlen.
  unfold spec_stdDev.
  destruct (valid_durations events) as [| d0 rest] eqn:E; [reflexivity|].
  rewrite <- E in *.
  assert (Hne : valid_durations events <> []) by (rewrite E; discriminate).
  assert (Hpos : (0 < List.length (valid_durations events))%nat)
    by (rewrite E; simpl; lia).
  assert (Hv : Z.abs v <= 2 ^ 53) by nia.
  rewrite (regular_mean v events Hb Hn H Hne).
  set (n := List.length (valid_durations events)) in *.
  rewrite (regular_durations v events Hv H). fold n.
  assert (Hsq : List.map (fun d => fmul (fsub d (of_Z v)) (fsub d (of_Z v)))
                         (List.repeat (of_Z v) n)
                = List.repeat (Fin 0) n).
  { clear - Hv. induction n as [| n IH]; [reflexivity|].
    cbn [List.repeat List.map]. rewrite IH, (fsub_self v Hv), fmul_zero_zero.
    reflexivity. }
  rewrite Hsq.
  unfold sum_of. rewrite of_Z_0, sum_zeros.
  change (Fin 0) with (of_nat 0) at 1.
  rewrite fdiv_zero_of_nat by lia.
  cbn [Math_sqrt Z.ltb Z.eqb Z.compare]. apply Math_round_zero.
Qed.

Lemma zero_score (z y : number) (b : Z) :
  is_zero z = true -> fin_val y = Some b -> b <> 0 ->
  is_zero (Math_min (of_Z 100)
             (Math_round (fmul (fmul (fdiv z y) (of_Z 100)) (of_Z 2)))) = true.
Proof.
  intros Hz Hy Hb. pose proof one_units_pos as Ho.
  assert (H1 : fdiv z y = Fin 0 \/ fdiv z y = NegZero).
  { finite_cases y b' Hy; [congruence|]. subst b'.
    destruct z as [| s | | k]; cbn [is_zero] in Hz; try discriminate Hz.
    - unfold fdiv. cbn [is_zero units sign_neg].
      destruct (Z.eqb_spec b 0) as [E | _]; [congruence|].
      rewrite (Z.mul_0_r one_units), (Z.mul_0_r (Z.sgn b)). cbn [round_frac].
      destruct (xorb true (b <? 0)); auto.
    - apply Z.eqb_eq in Hz. subst k. unfold fdiv. cbn [is_zero units sign_neg].
      destruct (Z.eqb_spec b 0) as [E | _]; [congruence|].
      rewrite (Z.mul_0_r one_units), (Z.mul_0_r (Z.sgn b)). cbn [round_frac].
      destruct (xorb (0 <? 0) (b <? 0)); auto. }
  destruct H1 as [-> | ->]; vm_compute; reflexivity.
Qed.

(** X12.  When every keystroke that has a duration has the same duration,
    a whole number [v] of milliseconds small enough for the sum to be exact
    ([|v|] times the number of keystrokes is at most [2^53]), the standard
    deviation is 0, the tremor score is a zero and the results page shows
    the tremor level [Low]. *)
Theorem X12_regular_keystrokes_score_zero (v : Z) (keystrokes : list KeystrokeEvent) :
  Z.abs v * Z.of_nat (List.length keystrokes) <= 2 ^ 53 ->
  Z.of_nat (List.length keystrokes) <= 2 ^ 53 ->
  List.Forall (fun k => forall d, duration k = Some d -> d = of_Z v) keystrokes ->
  calculateKeystrokeDurationStdDev keystrokes = of_Z 0
  /\ is_zero (calculateTremorScore keystrokes) = true
  /\ ResultsPage.label
       (ResultsPage.getTremorLevel
          (field_or_zero (Some (calculateTremorScore keystrokes))))
     = str "Low".
Proof.
  intros Hb Hn H. pose proof one_units_pos as Ho.
  assert (Hsd : calculateKeystrokeDurationStdDev keystrokes = of_Z 0)
    by (rewrite stdDev_spec; exact (regular_stdDev v keystrokes Hb Hn H)).
  assert (Hz : is_zero (calculateTremorScore keystrokes) = true).
  { rewrite tremor_score_formula. unfold spec_TremorScore, spec_score_of_cv.
    destruct (is_zero (spec_mean keystrokes)) eqn:Ez; [reflexivity|].
    rewrite <- stdDev_spec, Hsd.
    assert (Hne : valid_durations keystrokes <> []).
    { intros E. unfold spec_mean in Ez. rewrite E in Ez. discriminate Ez. }
    rewrite (regular_mean v keystrokes Hb Hn H Hne) in *.
    assert (Hv : Z.abs v <= 2 ^ 53).
    { pose proof (valid_durations_length keystrokes) as Hlen.
      destruct (valid_durations keystrokes); [congruence|].
      cbn [List.length] in Hlen. nia. }
    rewrite (of_Z_exact v Hv) in *. cbn [is_zero] in Ez. apply Z.eqb_neq in Ez.
    apply (zero_score _ _ (v * one_units)); [reflexivity | reflexivity | exact Ez]. }
  split; [exact Hsd|]. split; [exact Hz|].
  assert (Hf : field_or_zero (Some (calculateTremorScore keystrokes)) = of_Z 0).
  { cbn [field_or_zero]. unfold or_else, truthy.
    destruct (calculateTremorScore keystrokes); cbn [is_zero] in Hz |- *;
      try discriminate Hz; rewrite ?Hz; reflexivity. }
  rewrite Hf. unfold ResultsPage.getTremorLevel. rewrite flt_0_30. reflexivity.
Qed.

Lemma six_then_four_regular :
  List.Forall (fun k => forall d, duration k = Some d -> d = of_Z 90) six_then_four.
Proof.
  apply List.Forall_forall. intros k Hk. unfold six_then_four in Hk.
  apply List.in_map_iff in Hk. destruct Hk as (t & <- & _).
  intros d Hd. cbn [event_at duration option_map] in Hd.
  apply some_eq in Hd. symmetry. exact Hd.
Qed.

Lemma X12_regular_keystrokes_score_zero_witness :
  Z.abs 90 * Z.of_nat (List.length six_then_four) <= 2 ^ 53
  /\ Z.of_nat (List.length six_then_four) <= 2 ^ 53
  /\ List.Forall (fun k => forall d, duration k = Some d -> d = of_Z 90)
                 six_then_four
  /\ calculateKeystrokeDurationStdDev six_then_four = of_Z 0.
Proof.
  assert (H1 : Z.abs 90 * Z.of_nat (List.length six_then_four) <= 2 ^ 53)
    by (cbn; lia).
  assert (H2 : Z.of_nat (List.length six_then_four) <= 2 ^ 53) by (cbn; lia).
  split; [exact H1|]. split; [exact H2|]. split; [exact six_then_four_regular|].
  exact (proj1 (X12_regular_keystrokes_score_zero 90 six_then_four H1 H2
                  six_then_four_regular)).
Defined.

(** ** Words per minute over a window of at least a millisecond *)

Lemma words_within (count : nat) :
  Z.of_nat count <= 2 ^ 53 ->
  within 0 (Z.of_nat count * one_units) (fdiv (of_nat count) (of_Z 5)).
Proof.
  intros Hc. pose proof one_units_pos as Ho.
  apply (fdiv_within _ _ (Z.of_nat count * one_units) (5 * one_units)).
  - apply fin_val_of_nat. exact Hc.
  - apply fin_val_of_Z. lia.
  - lia.
  - apply fin_rep_0.
  - apply fin_rep_int. lia.
  - split; [apply Z.mul_nonneg_nonneg; [apply Z.mul_nonneg_nonneg|]; lia|].
    apply Z.mul_le_mono_nonneg_l; [apply Z.mul_nonneg_nonneg; lia | lia].
Qed.

Lemma minutes_of_infinity : fdiv (Inf false) (of_Z 60000) = Inf false.
Proof. vm_compute. reflexivity. Qed.

Lemma fdiv_by_infinity (w : number) (k : Z) :
  fin_val w = Some k -> fin_val (fdiv w (Inf false)) = Some 0.
Proof.
  intros Hw. finite_cases w k' Hw; cbn [fdiv sign_neg xorb].
  - reflexivity.
  - destruct (xorb (k' <? 0) false); reflexivity.
Qed.

Lemma Math_round_of_zero (x : number) :
  fin_val x = Some 0 -> fin_val (Math_round x) = Some 0.
Proof.
  intros Hx. destruct x as [| s | | k]; cbn [fin_val] in Hx;
    [discriminate Hx | discriminate Hx | reflexivity |].
  apply some_eq in Hx. subst k. rewrite Math_round_zero. reflexivity.
Qed.

Lemma wpm_overflowed_window (count : nat) :
  Z.of_nat count <= 2 ^ 53 ->
  fin_val (calculateWPM (of_nat count) (Inf false)) = Some 0.
Proof.
  intros Hc. rewrite calculateWPM_spec. unfold spec_WPM. cbn [is_zero].
  rewrite minutes_of_infinity.
  destruct (words_within count Hc) as (w & Hw & _).
  apply Math_round_of_zero. exact (fdiv_by_infinity _ w Hw).
Qed.

Lemma window_wpm (count : nat) (d : number) :
  Z.of_nat count <= 2 ^ 32 ->
  d = Inf false \/ (exists r, d = Fin r /\ one_units <= r /\ fin_rep r) ->
  exists n, fin_val (calculateWPM (of_nat count) d) = Some (n * one_units)
            /\ 0 <= n <= 2 ^ 50.
Proof.
  intros Hc [-> | (r & -> & Hr & Hrep)].
  - exists 0. split; [apply wpm_overflowed_window; lia | lia].
  - destruct units_scale as (HU4 & _ & _ & HM).
    apply (wpm_integer _ (Fin r) r Hc eq_refl); [lia | exact Hrep].
Qed.

(** X13.  Over a window of at least one millisecond between finite clock
    readings, the words per minute of a session are a whole number that is
    not negative. *)
Theorem X13_wpm_is_a_whole_number (typedText referenceText : js_string)
        (keystrokes : list KeystrokeEvent) (startTime endTime : number)
        (a b : Z) :
  Z.of_nat (List.length typedText) <= 2 ^ 32 ->
  fin_val startTime = Some a -> fin_val endTime = Some b ->
  a + one_units <= b ->
  exists n,
    fin_val (wpm (calculatePerformanceMetrics typedText referenceText keystrokes
                    startTime endTime)) = Some (n * one_units)
    /\ 0 <= n <= 2 ^ 50.
Proof.
  intros Hlen Hs He Hab. unfold calculatePerformanceMetrics. cbn [wpm].
  apply window_wpm; [exact Hlen|].
  exact (window_duration startTime endTime a b Hs He Hab).
Qed.

Lemma X13_wpm_is_a_whole_number_witness :
  Z.of_nat (List.length (str "helo")) <= 2 ^ 32
  /\ fin_val (of_Z 0) = Some 0
  /\ fin_val (of_Z 3000) = Some (3000 * one_units)
  /\ 0 + one_units <= 3000 * one_units
  /\ exists n,
       fin_val (wpm (calculatePerformanceMetrics (str "helo") (str "hello")
                       six_then_four (of_Z 0) (of_Z 3000))) = Some (n * one_units)
       /\ 0 <= n <= 2 ^ 50.
Proof.
  assert (H1 : Z.of_nat (List.length (str "helo")) <= 2 ^ 32) by (cbn; lia).
  destruct sample_window as (H2 & H3 & H4).
  split; [exact H1|]. split; [exact H2|]. split; [exact H3|]. split; [exact H4|].
  exact (X13_wpm_is_a_whole_number (str "helo") (str "hello") six_then_four
           (of_Z 0) (of_Z 3000) 0 (3000 * one_units) H1 H2 H3 H4).
Defined.

Lemma fdiv_mono_num (x x' y : number) (a a' b : Z) :
  fin_val x = Some a -> fin_val x' = Some a' -> a <= a' ->
  fin_val y = Some b -> 0 < b ->
  fle (fdiv x y) (fdiv x' y) = true.
Proof.
  intros Hx Hx' Haa Hy Hb. pose proof one_units_pos as Ho.
  rewrite (fdiv_fin x y a b Hx Hy), (fdiv_fin x' y a' b Hx' Hy) by lia.
  apply round_q_mono. apply Qdiv_le_mono; [apply inject_Z_pos; exact Hb|].
  rewrite <- Zle_Qle. apply Z.mul_le_mono_nonneg_r; lia.
Qed.

Lemma fdiv_mono_den (x y y' : number) (a b b' : Z) :
  fin_val x = Some a -> 0 <= a ->
  fin_val y = Some b -> fin_val y' = Some b' -> 0 < b <= b' ->
  fle (fdiv x y') (fdiv x y) = true.
Proof.
  intros Hx Ha Hy Hy' Hbb. pose proof one_units_pos as Ho.
  rewrite (fdiv_fin x y a b Hx Hy), (fdiv_fin x y' a b' Hx Hy') by lia.
  apply round_q_mono. apply Qdiv_le_cross; [lia | lia |].
  apply Z.mul_le_mono_nonneg_l; [apply Z.mul_nonneg_nonneg; lia | lia].
Qed.

Lemma minutes_within (r : Z) :
  one_units <= r -> fin_rep r ->
  within (2 ^ 1056) r (fdiv (Fin r) (of_Z 60000)).
Proof.
  intros Hr Hrep. destruct units_scale as (_ & _ & HU18 & HM).
  pose proof one_units_pos as Ho.
  set (M := 2 ^ 1056) in *.
  apply (fdiv_within _ _ r (60000 * one_units)).
  - reflexivity.
  - apply fin_val_of_Z. lia.
  - lia.
  - apply fin_rep_pow2. lia.
  - exact Hrep.
  - split.
    + rewrite Z.mul_assoc. apply Z.mul_le_mono_nonneg_r; lia.
    + rewrite (Z.mul_comm 60000), Z.mul_assoc.
      assert (r * one_units * 1 <= r * one_units * 60000)
        by (apply Z.mul_le_mono_nonneg_l; [apply Z.mul_nonneg_nonneg|]; lia).
      lia.
Qed.

Lemma fle_of_fin_val (x y : number) (a b : Z) :
  fin_val x = Some a -> fin_val y = Some b -> a <= b -> fle x y = true.
Proof.
  intros Hx Hy Hab. rewrite (fle_fin x y a b Hx Hy). apply Z.leb_le. exact Hab.
Qed.

Lemma fin_val_le_of_fle (x y : number) (a b : Z) :
  fin_val x = Some a -> fin_val y = Some b -> fle x y = true -> a <= b.
Proof.
  intros Hx Hy H. rewrite (fle_fin x y a b Hx Hy) in H. apply Z.leb_le. exact H.
Qed.

(** X14.  Over the same window (at least one millisecond between finite
    clock readings), a longer typed text never has fewer words per minute. *)
Theorem X14_wpm_grows_with_the_text (text1 text2 referenceText : js_string)
        (keystrokes : list KeystrokeEvent) (startTime endTime : number)
        (a b : Z) :
  (List.length text1 <= List.length text2)%nat ->
  Z.of_nat (List.length text2) <= 2 ^ 53 ->
  fin_val startTime = Some a -> fin_val endTime = Some b ->
  a + one_units <= b ->
  fle (wpm (calculatePerformanceMetrics text1 referenceText keystrokes
              startTime endTime))
      (wpm (calculatePerformanceMetrics text2 referenceText keystrokes
              startTime endTime)) = true.
Proof.
  intros Hlen Hb2 Hs He Hab. unfold calculatePerformanceMetrics. cbn [wpm].
  pose proof one_units_pos as Ho.
  destruct (window_duration startTime endTime a b Hs He Hab)
    as [-> | (r & -> & Hr & Hrep)].
  - apply (fle_of_fin_val _ _ 0 0); [| | lia]; apply wpm_overflowed_window; lia.
  - rewrite !calculateWPM_spec. unfold spec_WPM. cbn [is_zero].
    destruct (Z.eqb_spec r 0) as [E | _]; [lia|].
    apply Math_round_mono.
    destruct (minutes_within r Hr Hrep) as (mn & Hmn & Hmnb).
    destruct (words_within (List.length text1) ltac:(lia)) as (w1 & Hw1 & _).
    destruct (words_within (List.length text2) ltac:(lia)) as (w2 & Hw2 & _).
    assert (Hpos : 0 < 2 ^ 1056) by (apply pow2_pos; lia).
    apply (fdiv_mono_num _ _ _ w1 w2 mn Hw1 Hw2); [| exact Hmn | lia].
    apply (fin_val_le_of_fle _ _ w1 w2 Hw1 Hw2).
    apply (fdiv_mono_num _ _ _ (Z.of_nat (List.length text1) * one_units)
                         (Z.of_nat (List.length text2) * one_units) (5 * one_units)).
    + apply fin_val_of_nat. lia.
    + apply fin_val_of_nat. lia.
    + apply Z.mul_le_mono_nonneg_r; lia.
    + apply fin_val_of_Z. lia.
    + lia.
Qed.

Lemma X14_wpm_grows_with_the_text_witness :
  (List.length (str "helo") <= List.length (str "hello"))%nat
  /\ Z.of_nat (List.length (str "hello")) <= 2 ^ 53
  /\ fin_val (of_Z 0) = Some 0
  /\ fin_val (of_Z 3000) = Some (3000 * one_units)
  /\ 0 + one_units <= 3000 * one_units
  /\ fle (wpm (calculatePerformanceMetrics (str "helo") (str "hello") []
                 (of_Z 0) (of_Z 3000)))
         (wpm (calculatePerformanceMetrics (str "hello") (str "hello") []
                 (of_Z 0) (of_Z 3000))) = true.
Proof.
  assert (H0 : (List.length (str "helo") <= List.length (str "hello"))%nat)
    by (cbn; lia).
  assert (H1 : Z.of_nat (List.length (str "hello")) <= 2 ^ 53) by (cbn; lia).
  destruct sample_window as (H2 & H3 & H4).
  split; [exact H0|]. split; [exact H1|]. split; [exact H2|].
  split; [exact H3|]. split; [exact H4|].
  exact (X14_wpm_grows_with_the_text (str "helo") (str "hello") (str "hello") []
           (of_Z 0) (of_Z 3000) 0 (3000 * one_units) H0 H1 H2 H3 H4).
Defined.

Lemma fsub_mono_l (e e' s : number) (a b b' : Z) :
  fin_val s = Some a -> fin_val e = Some b -> fin_val e' = Some b' -> b <= b' ->
  fle (fsub e s) (fsub e' s) = true.
Proof.
  intros Hs He He' Hbb. unfold fsub.
  rewrite (fadd_fin _ _ b (- a) He (fin_val_fneg _ _ Hs)).
  rewrite (fadd_fin _ _ b' (- a) He' (fin_val_fneg _ _ Hs)).
  apply round_q_mono. rewrite <- Zle_Qle. lia.
Qed.

(** X15.  For the same typed text and the same start, finishing later never
    gives more words per minute (windows of at least one millisecond
    between finite clock readings). *)
Theorem X15_wpm_falls_with_the_duration (typedText referenceText : js_string)
        (keystrokes : list KeystrokeEvent) (startTime endTime endTime' : number)
        (a b b' : Z) :
  Z.of_nat (List.length typedText) <= 2 ^ 32 ->
  fin_val startTime = Some a -> fin_val endTime = Some b ->
  fin_val endTime' = Some b' ->
  a + one_units <= b -> b <= b' ->
  fle (wpm (calculatePerformanceMetrics typedText referenceText keystrokes
              startTime endTime'))
      (wpm (calculatePerformanceMetrics typedText referenceText keystrokes
              startTime endTime)) = true.
Proof.
  intros Hlen Hs He He' Hab Hbb. pose proof one_units_pos as Ho.
  pose proof (fsub_mono_l endTime endTime' startTime a b b' Hs He He' Hbb) as Hd.
  unfold calculatePerformanceMetrics. cbn [wpm].
  pose proof (window_duration startTime endTime a b Hs He Hab) as Hw.
  pose proof (window_duration startTime endTime' a b' Hs He' ltac:(lia)) as Hw'.
  destruct (window_wpm (List.length typedText) _ Hlen Hw) as (n & Hn & Hnb).
  destruct Hw' as [E' | (r' & E' & Hr' & Hrep')].
  { rewrite E'.
    apply (fle_of_fin_val _ _ 0 (n * one_units));
      [apply wpm_overflowed_window; lia | exact Hn |].
    apply Z.mul_nonneg_nonneg; lia. }
  destruct Hw as [E | (r & E & Hr & Hrep)].
  { rewrite E, E' in Hd. discriminate Hd. }
  rewrite E, E' in *.
  assert (Hrr : r <= r') by (exact (fin_val_le_of_fle (Fin r) (Fin r') r r' eq_refl eq_refl Hd)).
  rewrite !calculateWPM_spec. unfold spec_WPM. cbn [is_zero].
  destruct (Z.eqb_spec r' 0) as [Ez | _]; [lia|].
  destruct (Z.eqb_spec r 0) as [Ez | _]; [lia|].
  apply Math_round_mono.
  destruct (minutes_within r Hr Hrep) as (mn & Hmn & Hmnb).
  destruct (minutes_within r' Hr' Hrep') as (mn' & Hmn' & Hmnb').
  destruct (words_within (List.length typedText) ltac:(lia)) as (w & Hw & Hwb).
  assert (Hpos : 0 < 2 ^ 1056) by (apply pow2_pos; lia).
  apply (fdiv_mono_den _ _ _ w mn mn' Hw ltac:(lia) Hmn Hmn').
  split; [lia|].
  apply (fin_val_le_of_fle _ _ mn mn' Hmn Hmn').
  apply (fdiv_mono_num (Fin r) (Fin r') _ r r' (60000 * one_units) eq_refl eq_refl Hrr).
  - apply fin_val_of_Z. lia.
  - lia.
Qed.

Lemma later_window :
  fin_val (of_Z 6000) = Some (6000 * one_units)
  /\ 3000 * one_units <= 6000 * one_units.
Proof. split; [vm_compute; reflexivity | vm_compute; discriminate]. Qed.

Lemma X15_wpm_falls_with_the_duration_witness :
  Z.of_nat (List.length (str "helo")) <= 2 ^ 32
  /\ fin_val (of_Z 0) = Some 0
  /\ fin_val (of_Z 3000) = Some (3000 * one_units)
  /\ fin_val (of_Z 6000) = Some (6000 * one_units)
  /\ 0 + one_units <= 3000 * one_units
  /\ 3000 * one_units <= 6000 * one_units
  /\ fle (wpm (calculatePerformanceMetrics (str "helo") (str "hello") []
                 (of_Z 0) (of_Z 6000)))
         (wpm (calculatePerformanceMetrics (str "helo") (str "hello") []
                 (of_Z 0) (of_Z 3000))) = true.
Proof.
  assert (H1 : Z.of_nat (List.length (str "helo")) <= 2 ^ 32) by (cbn; lia).
  destruct sample_window as (H2 & H3 & H4).
  destruct later_window as (H5 & H6).
  split; [exact H1|]. split; [exact H2|]. split; [exact H3|].
  split; [exact H5|]. split; [exact H4|]. split; [exact H6|].
  exact (X15_wpm_falls_with_the_duration (str "helo") (str "hello") []
           (of_Z 0) (of_Z 3000) (of_Z 6000) 0 (3000 * one_units)
           (6000 * one_units) H1 H2 H3 H5 H4 H6).
Defined.

(** ** The two groups of the fatigue analysis *)

Lemma flt_fle_trans (t x y : number) :
  flt t x = true -> fle x y = true -> flt y t = false.
Proof.
  destruct t as [| [] | | c], x as [| [] | | a], y as [| [] | | b];
    cbn [flt fle units negb andb]; intros H1 H2;
    try discriminate H1; try discriminate H2; try reflexivity;
    try (apply Z.ltb_lt in H1); try (apply negb_true_iff, Z.ltb_ge in H2);
    apply Z.ltb_ge; lia.
Qed.

Lemma fle_self_round_q (s : bool) (x : Q) : fle (round_q s x) (round_q s x) = true.
Proof. exact (rounds_to_refl _ _ (round_q_rounds_to s x)). Qed.

Lemma fadd_mono_r (s t t' : number) (a : Z) :
  fin_val s = Some a -> not_negative t -> not_negative t' -> fle t t' = true ->
  fle (fadd s t) (fadd s t') = true.
Proof.
  intros Hs Ht Ht' Hle.
  assert (Hinf : fadd s (Inf false) = Inf false).
  { destruct s as [| ? | |]; cbn [fin_val] in Hs; try discriminate Hs; reflexivity. }
  destruct Ht' as [-> | (k' & Hk' & _)].
  - rewrite Hinf. apply fle_to_infinity.
    destruct Ht as [-> | (k & Hk & _)].
    + rewrite Hinf. reflexivity.
    + rewrite (fadd_fin s t a k Hs Hk). apply fle_self_round_q.
  - destruct Ht as [-> | (k & Hk & _)].
    + finite_cases t' j Hk'; discriminate Hle.
    + rewrite (fadd_fin s t a k Hs Hk), (fadd_fin s t' a k' Hs Hk').
      apply round_q_mono. rewrite <- Zle_Qle.
      pose proof (fin_val_le_of_fle t t' k k' Hk Hk' Hle). lia.
Qed.

Lemma fmul_comm (x y : number) : fmul x y = fmul y x.
Proof.
  unfold fmul. rewrite (xorb_comm (sign_neg x)), (Z.mul_comm (units x)).
  destruct x as [| ? | |], y as [| ? | |]; reflexivity.
Qed.

Lemma double_not_smaller (t : number) :
  not_negative t -> (forall k, fin_val t = Some k -> fin_rep k) ->
  not_negative (fmul (of_Z 2) t) /\ fle t (fmul (of_Z 2) t) = true.
Proof.
  intros Ht Hrep. pose proof one_units_pos as Ho.
  assert (Hnn : not_negative (fmul (of_Z 2) t)).
  { rewrite fmul_comm.
    apply (fmul_not_negative t (of_Z 2) (2 * one_units) Ht); [|lia].
    apply fin_val_of_Z. lia. }
  split; [exact Hnn|].
  destruct Ht as [-> | (k & Hk & Hpos)].
  - rewrite (of_Z_exact 2) by lia. reflexivity.
  - destruct (Z.eq_dec k 0) as [-> | N].
    + destruct Hnn as [-> | (j & Hj & Hjpos)].
      * destruct t as [| ? | |]; cbn [fin_val] in Hk; try discriminate Hk; reflexivity.
      * apply (fle_of_fin_val _ _ 0 j Hk Hj Hjpos).
    + rewrite (fin_val_nonzero t k Hk N).
      rewrite (fmul_fin (of_Z 2) (Fin k) (2 * one_units) k
                 (fin_val_of_Z 2 ltac:(lia)) eq_refl).
      rewrite <- (round_q_exact false k (Hrep k Hk) N) at 1.
      apply round_q_mono.
      apply Qle_shift_div_l; [apply inject_Z_pos; exact Ho|].
      rewrite <- inject_Z_mult, <- Zle_Qle.
      replace (2 * one_units * k) with (k * one_units + k * one_units) by ring.
      assert (0 <= k * one_units) by (apply Z.mul_nonneg_nonneg; lia). lia.
Qed.

Lemma thresholds_ordered (startTime endTime : number) (a b : Z) :
  fin_val startTime = Some a -> fin_val endTime = Some b -> a <= b ->
  let third := fdiv (fsub endTime startTime) (of_Z 3) in
  fle (fadd startTime third) (fadd startTime (fmul (of_Z 2) third)) = true.
Proof.
  intros Hs He Hab third. pose proof one_units_pos as Ho.
  assert (Hd : not_negative (fsub endTime startTime)).
  { unfold fsub. rewrite (fadd_fin _ _ b (- a) He (fin_val_fneg _ _ Hs)).
    apply round_q_not_negative. change 0%Q with (inject_Z 0).
    rewrite <- Zle_Qle. lia. }
  assert (H3 : fin_val (of_Z 3) = Some (3 * one_units)) by (apply fin_val_of_Z; lia).
  assert (Ht : not_negative third)
    by (exact (fdiv_not_negative _ _ (3 * one_units) Hd H3 ltac:(lia))).
  assert (Hrep : forall k, fin_val third = Some k -> fin_rep k).
  { intros k Hk. destruct Hd as [E | (d & Hdv & _)].
    - unfold third in Hk. rewrite E in Hk.
      rewrite (of_Z_exact 3) in Hk by lia. discriminate Hk.
    - exact (fdiv_fin_rep _ _ d (3 * one_units) k Hdv H3 ltac:(lia) Hk). }
  destruct (double_not_smaller third Ht Hrep) as (Hnn & Hle).
  exact (fadd_mono_r startTime third _ a Hs Ht Hnn Hle).
Qed.

Lemma disjoint_filters {A : Type} (f g : A -> bool) (l : list A) :
  (forall x, f x = true -> g x = false) ->
  (List.length (List.filter f l) + List.length (List.filter g l)
   <= List.length l)%nat.
Proof.
  intros H. induction l as [| x rest IH]; [simpl; lia|].
  cbn [List.filter List.length].
  destruct (f x) eqn:Ef.
  - rewrite (H x Ef). cbn [List.length]. lia.
  - destruct (g x); cbn [List.length]; lia.
Qed.

(** X16.  When the test does not end before it starts, the two groups of
    the fatigue analysis are disjoint: no keystroke is both in the early
    third and in the late third of the window, so the two groups together
    have at most as many keystrokes as the session. *)
Theorem X16_early_and_late_groups_disjoint (keystrokes : list KeystrokeEvent)
        (startTime endTime : number) (a b : Z) :
  fin_val startTime = Some a -> fin_val endTime = Some b -> a <= b ->
  let third := fdiv (fsub endTime startTime) (of_Z 3) in
  let early :=
    List.filter (fun k => flt (keyDownTime k) (fadd startTime third)) keystrokes in
  let late :=
    List.filter
      (fun k => fgt (keyDownTime k) (fadd startTime (fmul (of_Z 2) third)))
      keystrokes in
  (forall k, List.In k early -> ~ List.In k late)
  /\ (List.length early + List.length late <= List.length keystrokes)%nat.
Proof.
  intros Hs He Hab third early late.
  pose proof (thresholds_ordered startTime endTime a b Hs He Hab) as Hord.
  cbv zeta in Hord. fold third in Hord.
  assert (Hex : forall k,
             flt (keyDownTime k) (fadd startTime third) = true ->
             fgt (keyDownTime k) (fadd startTime (fmul (of_Z 2) third)) = false).
  { intros k Hk. unfold fgt. exact (flt_fle_trans _ _ _ Hk Hord). }
  split.
  - intros k Hearly Hlate. unfold early in Hearly. unfold late in Hlate.
    apply List.filter_In in Hearly. apply List.filter_In in Hlate.
    destruct Hearly as [_ H1]. destruct Hlate as [_ H2].
    rewrite (Hex k H1) in H2. discriminate H2.
  - unfold early, late. apply disjoint_filters. exact Hex.
Qed.

Lemma X16_early_and_late_groups_disjoint_witness :
  fin_val (of_Z 0) = Some 0
  /\ fin_val (of_Z 3000) = Some (3000 * one_units)
  /\ 0 <= 3000 * one_units
  /\ let third := fdiv (fsub (of_Z 3000) (of_Z 0)) (of_Z 3) in
     let early :=
       List.filter (fun k => flt (keyDownTime k) (fadd (of_Z 0) third))
                   six_then_four in
     let late :=
       List.filter
         (fun k => fgt (keyDownTime k) (fadd (of_Z 0) (fmul (of_Z 2) third)))
         six_then_four in
     (forall k, List.In k early -> ~ List.In k late)
     /\ (List.length early + List.length late <= List.length six_then_four)%nat.
Proof.
  destruct sample_window as (H2 & H3 & H4).
  assert (H5 : 0 <= 3000 * one_units) by (pose proof one_units_pos; lia).
  split; [exact H2|]. split; [exact H3|]. split; [exact H5|].
  exact (X16_early_and_late_groups_disjoint six_then_four (of_Z 0) (of_Z 3000)
           0 (3000 * one_units) H2 H3 H5).
Defined.

(** ** Averages of whole numbers *)

Lemma fadd_integers (x y : number) (a b : Z) :
  fin_val x = Some (a * one_units) -> fin_val y = Some (b * one_units) ->
  Z.abs (a + b) <= 2 ^ 53 ->
  fin_val (fadd x y) = Some ((a + b) * one_units).
Proof.
  intros Hx Hy Hab. apply within_point.
  apply (fadd_within x y (a * one_units) (b * one_units) _ _ Hx Hy);
    [apply fin_rep_int; exact Hab | apply fin_rep_int; exact Hab |].
  split; apply Z.eq_le_incl; ring.
Qed.

Lemma sum_of_integers {A : Type} (f : A -> number) (lo hi : Z) (l : list A) :
  0 <= lo <= hi ->
  List.Forall (fun x => exists z, fin_val (f x) = Some (z * one_units)
                                  /\ lo <= z <= hi) l ->
  forall (acc : number) (i t : Z),
    0 <= i -> (i + Z.of_nat (List.length l)) * hi <= 2 ^ 53 ->
    fin_val acc = Some (t * one_units) -> i * lo <= t <= i * hi ->
    exists t',
      fin_val (List.fold_left (fun a x => fadd a (f x)) l acc)
      = Some (t' * one_units)
      /\ (i + Z.of_nat (List.length l)) * lo <= t'
         <= (i + Z.of_nat (List.length l)) * hi.
Proof.
  intros Hb Hl. induction Hl as [| x rest (z & Hz & Hzb) Hrest IH];
    intros acc i t Hi Hn Hacc Ht.
  - cbn [List.fold_left List.length]. rewrite Z.add_0_r. exists t. split; assumption.
  - cbn [List.fold_left]. rewrite List.length_cons, Nat2Z.inj_succ in *.
    replace (i + Z.succ (Z.of_nat (List.length rest)))
      with ((i + 1) + Z.of_nat (List.length rest)) in * by lia.
    assert (Hbound : (i + 1) * hi <= 2 ^ 53).
    { apply Z.le_trans with ((i + 1 + Z.of_nat (List.length rest)) * hi); [|exact Hn].
      apply Z.mul_le_mono_nonneg_r; lia. }
    apply (IH (fadd acc (f x)) (i + 1) (t + z)); [lia | exact Hn | | lia].
    apply fadd_integers; [exact Hacc | exact Hz | lia].
Qed.

Lemma average_of_integers {A : Type} (f : A -> number) (lo hi : Z) (l : list A) :
  0 <= lo <= hi -> l <> [] ->
  Z.of_nat (List.length l) * hi <= 2 ^ 53 ->
  Z.of_nat (List.length l) <= 2 ^ 53 ->
  List.Forall (fun x => exists z, fin_val (f x) = Some (z * one_units)
                                  /\ lo <= z <= hi) l ->
  exists m,
    fin_val (Math_round
               (fdiv (List.fold_left (fun a x => fadd a (f x)) l (of_Z 0))
                     (of_nat (List.length l))))
    = Some (m * one_units)
    /\ lo <= m <= hi.
Proof.
  intros Hb Hne Hn Hlen Hl. pose proof one_units_pos as Ho.
  assert (Hpos : 0 < Z.of_nat (List.length l))
    by (destruct l; [congruence | cbn [List.length]; lia]).
  destruct (sum_of_integers f lo hi l Hb Hl (of_Z 0) 0 0)
    as (t & Ht & Htb); [lia | lia | rewrite of_Z_0; reflexivity | lia |].
  rewrite Z.add_0_l in Htb.
  assert (Hhi : hi <= 2 ^ 53).
  { apply Z.le_trans with (Z.of_nat (List.length l) * hi); [|exact Hn].
    rewrite <- (Z.mul_1_l hi) at 1. apply Z.mul_le_mono_nonneg_r; lia. }
  assert (Hq : within (lo * one_units) (hi * one_units)
                 (fdiv (List.fold_left (fun a x => fadd a (f x)) l (of_Z 0))
                       (of_nat (List.length l)))).
  { apply (fdiv_within _ _ (t * one_units) (Z.of_nat (List.length l) * one_units)).
    - exact Ht.
    - apply fin_val_of_nat. exact Hlen.
    - apply Z.mul_pos_pos; lia.
    - apply fin_rep_int. lia.
    - apply fin_rep_int. lia.
    - split.
      + replace (lo * one_units * (Z.of_nat (List.length l) * one_units))
          with (Z.of_nat (List.length l) * lo * one_units * one_units) by ring.
        apply Z.mul_le_mono_nonneg_r; [lia|].
        apply Z.mul_le_mono_nonneg_r; lia.
      + replace (hi * one_units * (Z.of_nat (List.length l) * one_units))
          with (Z.of_nat (List.length l) * hi * one_units * one_units) by ring.
        apply Z.mul_le_mono_nonneg_r; [lia|].
        apply Z.mul_le_mono_nonneg_r; lia. }
  destruct Hq as (q & Hq & Hqb).
  apply (Math_round_int _ q lo hi Hq); lia.
Qed.

(** X17.  On the history page, the average accuracy of sessions whose
    accuracies are whole percentages between 0 and 100 is again a whole
    number between 0 and 100 (and 0 when there is no session). *)
Theorem X17_average_accuracy_is_a_percentage (sessions : list TypingSession.t) :
  Z.of_nat (List.length sessions) <= 2 ^ 46 ->
  List.Forall
    (fun s => exists z, fin_val (TypingSession.accuracy s) = Some (z * one_units)
                        /\ 0 <= z <= 100)
    sessions ->
  exists m,
    fin_val (HistoryPage.calculateAverageAccuracy sessions) = Some (m * one_units)
    /\ 0 <= m <= 100.
Proof.
  intros Hn H. unfold HistoryPage.calculateAverageAccuracy.
  destruct sessions as [| s rest] eqn:E.
  { exists 0. split; [rewrite of_Z_0; reflexivity | lia]. }
  rewrite <- E in *. cbn [Nat.eqb List.length].
  assert (Hne : sessions <> []) by (rewrite E; discriminate).
  replace (Nat.eqb (List.length sessions) 0) with false
    by (rewrite E; reflexivity).
  apply (average_of_integers TypingSession.accuracy 0 100 sessions);
    [lia | exact Hne | | | exact H].
  - apply Z.le_trans with (2 ^ 46 * 100); [|cbn; lia].
    apply Z.mul_le_mono_nonneg_r; lia.
  - apply Z.le_trans with (2 ^ 46); [exact Hn | cbn; lia].
Qed.

(** X18.  On the history page, the average words per minute of a non-empty
    list of sessions whose values are whole numbers between [lo] and [hi],
    few and small enough for their sum to be exact (the number of sessions
    times [hi] is at most [2^53]), is a whole number between [lo] and
    [hi]. *)
Theorem X18_average_wpm_between_extremes (sessions : list TypingSession.t)
        (lo hi : Z) :
  sessions <> [] -> 0 <= lo <= hi ->
  Z.of_nat (List.length sessions) * hi <= 2 ^ 53 ->
  Z.of_nat (List.length sessions) <= 2 ^ 53 ->
  List.Forall
    (fun s => exists z, fin_val (TypingSession.wpm s) = Some (z * one_units)
                        /\ lo <= z <= hi)
    sessions ->
  exists m,
    fin_val (HistoryPage.calculateAverageWPM sessions) = Some (m * one_units)
    /\ lo <= m <= hi.
Proof.
  intros Hne Hb Hn Hlen H. unfold HistoryPage.calculateAverageWPM.
  replace (Nat.eqb (List.length sessions) 0) with false
    by (destruct sessions; [congruence | reflexivity]).
  exact (average_of_integers TypingSession.wpm lo hi sessions Hb Hne Hn Hlen H).
Qed.

Lemma two_sessions_accuracy :
  List.Forall
    (fun s => exists z, fin_val (TypingSession.accuracy s) = Some (z * one_units)
                        /\ 0 <= z <= 100)
    two_sessions.
Proof.
  unfold two_sessions, session_with.
  constructor; [| constructor; [| constructor]]; cbn [TypingSession.accuracy].
  - exists 90. split; [apply fin_val_of_Z; lia | lia].
  - exists 100. split; [apply fin_val_of_Z; lia | lia].
Qed.

Lemma X17_average_accuracy_is_a_percentage_witness :
  Z.of_nat (List.length two_sessions) <= 2 ^ 46
  /\ exists m,
       fin_val (HistoryPage.calculateAverageAccuracy two_sessions)
       = Some (m * one_units)
       /\ 0 <= m <= 100.
Proof.
  assert (H1 : Z.of_nat (List.length two_sessions) <= 2 ^ 46) by (cbn; lia).
  split; [exact H1|].
  exact (X17_average_accuracy_is_a_percentage two_sessions H1 two_sessions_accuracy).
Defined.

Lemma two_sessions_wpm :
  List.Forall
    (fun s => exists z, fin_val (TypingSession.wpm s) = Some (z * one_units)
                        /\ 40 <= z <= 60)
    two_sessions.
Proof.
  unfold two_sessions, session_with.
  constructor; [| constructor; [| constructor]]; cbn [TypingSession.wpm].
  - exists 40. split; [apply fin_val_of_Z; lia | lia].
  - exists 60. split; [apply fin_val_of_Z; lia | lia].
Qed.

Lemma X18_average_wpm_between_extremes_witness :
  two_sessions <> []
  /\ 0 <= 40 <= 60
  /\ Z.of_nat (List.length two_sessions) * 60 <= 2 ^ 53
  /\ Z.of_nat (List.length two_sessions) <= 2 ^ 53
  /\ exists m,
       fin_val (HistoryPage.calculateAverageWPM two_sessions) = Some (m * one_units)
       /\ 40 <= m <= 60.
Proof.
  assert (H0 : two_sessions <> []) by (unfold two_sessions; discriminate).
  assert (H1 : 0 <= 40 <= 60) by lia.
  assert (H2 : Z.of_nat (List.length two_sessions) * 60 <= 2 ^ 53) by (cbn; lia).
  assert (H3 : Z.of_nat (List.length two_sessions) <= 2 ^ 53) by (cbn; lia).
  split; [exact H0|]. split; [exact H1|]. split; [exact H2|]. split; [exact H3|].
  exact (X18_average_wpm_between_extremes two_sessions 40 60 H0 H1 H2 H3
           two_sessions_wpm).
Defined.

(** ** The mean keystroke duration *)

Lemma or_else_integer (d : number) (z : Z) :
  fin_val d = Some (z * one_units) ->
  fin_val (or_else d (of_Z 0)) = Some (z * one_units).
Proof.
  intros Hd. unfold or_else. destruct (truthy d) eqn:Et; [exact Hd|].
  rewrite of_Z_0. cbn [fin_val]. f_equal.
  destruct d as [| s | | k]; cbn [fin_val truthy is_zero] in *;
    try discriminate Hd; apply some_eq in Hd.
  - exact Hd.
  - apply negb_false_iff, Z.eqb_eq in Et. congruence.
Qed.

(** X19.  When the keystrokes that have a duration have whole-millisecond
    durations between [lo] and [hi] (not negative), there is at least one
    of them, and they are few and small enough for their sum to be exact
    (the number of keystrokes times [hi] is at most [2^53]), the average
    keystroke duration is a whole number between [lo] and [hi]. *)
Theorem X19_mean_duration_between_extremes (keystrokes : list KeystrokeEvent)
        (lo hi : Z) :
  List.filter has_duration keystrokes <> [] ->
  0 <= lo <= hi ->
  Z.of_nat (List.length keystrokes) * hi <= 2 ^ 53 ->
  Z.of_nat (List.length keystrokes) <= 2 ^ 53 ->
  List.Forall
    (fun k => forall d, duration k = Some d ->
                        exists z, fin_val d = Some (z * one_units) /\ lo <= z <= hi)
    keystrokes ->
  exists m,
    fin_val (calculateAverageKeystrokeDuration keystrokes) = Some (m * one_units)
    /\ lo <= m <= hi.
Proof.
  intros Hne Hb Hn Hlen H. unfold calculateAverageKeystrokeDuration.
  set (valid := List.filter has_duration keystrokes) in *.
  pose proof (List.filter_length_le has_duration keystrokes) as Hle. fold valid in Hle.
  replace (Nat.eqb (List.length valid) 0) with false
    by (destruct valid; [congruence | reflexivity]).
  apply (average_of_integers duration_or_zero lo hi valid Hb Hne).
  - apply Z.le_trans with (Z.of_nat (List.length keystrokes) * hi); [|exact Hn].
    apply Z.mul_le_mono_nonneg_r; lia.
  - lia.
  - apply List.Forall_forall. intros k Hk. unfold valid in Hk.
    apply List.filter_In in Hk. destruct Hk as [Hin Hd].
    rewrite List.Forall_forall in H. specialize (H k Hin).
    unfold has_duration in Hd. unfold duration_or_zero.
    destruct (duration k) as [d |]; [|discriminate Hd].
    destruct (H d eq_refl) as (z & Hz & Hzb).
    exists z. split; [exact (or_else_integer d z Hz) | exact Hzb].
Qed.

Lemma six_then_four_whole_durations :
  List.Forall
    (fun k => forall d, duration k = Some d ->
                        exists z, fin_val d = Some (z * one_units) /\ 90 <= z <= 90)
    six_then_four.
Proof.
  apply List.Forall_forall. intros k Hk. unfold six_then_four in Hk.
  apply List.in_map_iff in Hk. destruct Hk as (t & <- & _).
  intros d Hd. cbn [event_at duration option_map] in Hd.
  apply some_eq in Hd. subst d.
  exists 90. split; [apply fin_val_of_Z; lia | lia].
Qed.

Lemma six_then_four_valid : List.filter has_duration six_then_four <> [].
Proof. unfold six_then_four. cbn. discriminate. Qed.

Lemma X19_mean_duration_between_extremes_witness :
  List.filter has_duration six_then_four <> []
  /\ 0 <= 90 <= 90
  /\ Z.of_nat (List.length six_then_four) * 90 <= 2 ^ 53
  /\ Z.of_nat (List.length six_then_four) <= 2 ^ 53
  /\ exists m,
       fin_val (calculateAverageKeystrokeDuration six_then_four)
       = Some (m * one_units)
       /\ 90 <= m <= 90.
Proof.
  assert (H1 : 0 <= 90 <= 90) by lia.
  assert (H2 : Z.of_nat (List.length six_then_four) * 90 <= 2 ^ 53) by (cbn; lia).
  assert (H3 : Z.of_nat (List.length six_then_four) <= 2 ^ 53) by (cbn; lia).
  split; [exact six_then_four_valid|]. split; [exact H1|]. split; [exact H2|].
  split; [exact H3|].
  exact (X19_mean_duration_between_extremes six_then_four 90 90
           six_then_four_valid H1 H2 H3 six_then_four_whole_durations).
Defined.

(** ** Decimal digits *)

Lemma digits_fuel_acc (fuel : nat) (z : Z) (acc : js_string) :
  digits_fuel fuel z acc = digits_fuel fuel z [] ++ acc.
Proof.
  revert z acc. induction fuel as [| fuel IH]; intros z acc; [reflexivity|].
  cbn [digits_fuel]. destruct (z <? 10); [reflexivity|].
  rewrite (IH (z / 10) (digit (z mod 10) :: acc)).
  rewrite (IH (z / 10) [digit (z mod 10)]).
  rewrite <- List.app_assoc. reflexivity.
Qed.

Lemma digits_fuel_enough (f1 f2 : nat) (z : Z) (acc : js_string) :
  0 <= z < 10 ^ Z.of_nat (S f1) -> z < 10 ^ Z.of_nat (S f2) ->
  digits_fuel (S f1) z acc = digits_fuel (S f2) z acc.
Proof.
  revert f2 z acc. induction f1 as [| f1 IH]; intros f2 z acc H1 H2.
  - cbn [digits_fuel]. change (10 ^ Z.of_nat 1) with 10 in H1.
    destruct (Z.ltb_spec z 10); [reflexivity | lia].
  - cbn [digits_fuel]. destruct (Z.ltb_spec z 10) as [_ | Hge]; [reflexivity|].
    destruct f2 as [| f2].
    + change (10 ^ Z.of_nat 1) with 10 in H2. lia.
    + apply (IH f2 (z / 10)).
      * split; [apply Z.div_pos; lia|].
        apply Z.div_lt_upper_bound; [lia|].
        rewrite (Nat2Z.inj_succ (S f1)), Z.pow_succ_r in H1 by lia. lia.
      * apply Z.div_lt_upper_bound; [lia|].
        rewrite (Nat2Z.inj_succ (S f2)), Z.pow_succ_r in H2 by lia. lia.
Qed.

Lemma pow10_log2 (z : Z) : 0 <= z -> z < 10 ^ Z.of_nat (S (Z.to_nat (Z.log2 z))).
Proof.
  intros Hz. rewrite Nat2Z.inj_succ, Z2Nat.id by apply Z.log2_nonneg.
  destruct (Z.eq_dec z 0) as [-> | N]; [reflexivity|].
  apply Z.lt_le_trans with (2 ^ Z.succ (Z.log2 z)).
  - apply Z.log2_spec. lia.
  - apply Z.pow_le_mono_l. pose proof (Z.log2_nonneg z). lia.
Qed.

Lemma digits_small (z : Z) : 0 <= z < 10 -> digits z = [digit z].
Proof.
  intros Hz. unfold digits. cbn [digits_fuel].
  destruct (Z.ltb_spec z 10); [|lia]. rewrite Z.mod_small by lia. reflexivity.
Qed.

Lemma digits_step (z : Z) :
  10 <= z -> digits z = digits (z / 10) ++ [digit (z mod 10)].
Proof.
  intros Hz. unfold digits at 1. cbn [digits_fuel].
  destruct (Z.ltb_spec z 10); [lia|].
  rewrite digits_fuel_acc. f_equal.
  assert (Hq : 0 <= z / 10) by (apply Z.div_pos; lia).
  destruct (Z.to_nat (Z.log2 z)) as [| f] eqn:Ef.
  - exfalso. assert (Z.log2 z = 0) by (pose proof (Z.log2_nonneg z); lia).
    assert (3 <= Z.log2 z) by (apply Z.log2_le_pow2; simpl; lia). lia.
  - unfold digits. apply digits_fuel_enough.
    + split; [exact Hq|]. apply Z.div_lt_upper_bound; [lia|].
      pose proof (pow10_log2 z ltac:(lia)) as Hp. rewrite Ef in Hp.
      rewrite (Nat2Z.inj_succ (S f)), Z.pow_succ_r in Hp by lia. lia.
    + apply pow10_log2. exact Hq.
Qed.

Lemma digits_times_ten (s : Z) : 0 < s -> digits (s * 10) = digits s ++ [48%N].
Proof.
  intros Hs. rewrite digits_step by lia.
  rewrite Z.div_mul by lia. rewrite Z.mod_mul by lia. reflexivity.
Qed.

Lemma digits_shift (s e : Z) :
  0 < s -> 0 <= e -> digits (s * 10 ^ e) = digits s ++ zeros e.
Proof.
  intros Hs He. pattern e. apply natlike_ind; [| | exact He].
  - rewrite Z.mul_1_r. unfold zeros. cbn. rewrite List.app_nil_r. reflexivity.
  - intros x Hx IH. rewrite Z.pow_succ_r by lia.
    replace (s * (10 * 10 ^ x)) with (s * 10 ^ x * 10) by ring.
    rewrite digits_times_ten by (apply Z.mul_pos_pos; [lia | apply Z.pow_pos_nonneg; lia]).
    rewrite IH. unfold zeros. rewrite Z2Nat.inj_succ by lia.
    rewrite <- List.app_assoc. f_equal.
    change [48%N] with (List.repeat 48%N 1).
    rewrite <- List.repeat_app. f_equal. lia.
Qed.

Lemma two_digits (r : Z) :
  0 <= r < 100 ->
  padStart (digits r) 2 (str "0") = [digit (r / 10); digit (r mod 10)].
Proof.
  intros Hr. destruct (Z.ltb_spec r 10) as [Hlt | Hge].
  - rewrite digits_small by lia. rewrite Z.div_small, Z.mod_small by lia. reflexivity.
  - rewrite digits_step by lia.
    rewrite (digits_small (r / 10))
      by (split; [apply Z.div_pos; lia | apply Z.div_lt_upper_bound; lia]).
    reflexivity.
Qed.

(** ** Floor and remainder of whole numbers *)

Lemma Math_floor_fin (q : Z) : Math_floor (Fin q) = of_Z (q / one_units).
Proof.
  cbn [Math_floor]. unfold of_Z. rewrite Z.shiftr_div_pow2 by lia. reflexivity.
Qed.

Lemma fdiv_not_negzero (a b : Z) :
  0 <= a -> 0 < b -> fdiv (Fin a) (Fin b) <> NegZero.
Proof.
  intros Ha Hb. pose proof one_units_pos as Ho. unfold fdiv. cbn [is_zero units sign_neg].
  destruct (Z.eqb_spec b 0) as [E | _]; [lia|].
  destruct (Z.ltb_spec a 0) as [E | _]; [lia|].
  destruct (Z.ltb_spec b 0) as [E | _]; [lia|]. cbn [xorb].
  assert (Hp : 0 <= Z.sgn b * (one_units * a)).
  { rewrite Z.sgn_pos by exact Hb. rewrite Z.mul_1_l. apply Z.mul_nonneg_nonneg; lia. }
  destruct (Z.sgn b * (one_units * a)) as [| p | p]; cbn [round_frac].
  - discriminate.
  - unfold pack. destruct (_ <=? _); [discriminate|].
    destruct (_ =? _); discriminate.
  - lia.
Qed.

Lemma floor_of_quotient (n c : Z) :
  0 <= n <= 2 ^ 53 -> 0 < c <= 1024 -> n / c < 2 ^ 43 ->
  Math_floor (fdiv (of_Z n) (of_Z c)) = of_Z (n / c).
Proof.
  intros Hn Hc Hk43. pose proof one_units_pos as Ho.
  set (k := n / c).
  assert (Hk : 0 <= k) by (apply Z.div_pos; lia).
  assert (Hdiv : c * k <= n < c * (k + 1)).
  { unfold k. pose proof (Z.mul_div_le n c ltac:(lia)).
    pose proof (Z.mul_succ_div_gt n c ltac:(lia)). lia. }
  fold k in Hk43.
  assert (Hone : one_units = 1024 * 2 ^ 1064) by reflexivity.
  assert (Hs : 0 < 2 ^ 1064) by (apply pow2_pos; lia).
  set (u := 2 ^ 1064) in *.
  assert (Hw : within (k * one_units) (((k + 1) * 1024 - 1) * u)
                 (fdiv (of_Z n) (of_Z c))).
  { apply (fdiv_within _ _ (n * one_units) (c * one_units)).
    - apply fin_val_of_Z. lia.
    - apply fin_val_of_Z. lia.
    - apply Z.mul_pos_pos; lia.
    - apply fin_rep_int. lia.
    - apply fin_rep_scaled; [|lia].
      rewrite Z.abs_eq by lia.
      apply Z.le_trans with (2 ^ 43 * 1024 - 1); [|cbn; lia].
      apply Z.sub_le_mono_r. apply Z.mul_le_mono_nonneg_r; lia.
    - split.
      + replace (k * one_units * (c * one_units))
          with (c * k * (one_units * one_units)) by ring.
        replace (n * one_units * one_units) with (n * (one_units * one_units)) by ring.
        apply Z.mul_le_mono_nonneg_r; [apply Z.mul_nonneg_nonneg; lia | lia].
      + rewrite Hone.
        replace (n * (1024 * u) * (1024 * u))
          with (1024 * n * (u * (1024 * u))) by ring.
        replace (((k + 1) * 1024 - 1) * u * (c * (1024 * u)))
          with (((k + 1) * 1024 - 1) * c * (u * (1024 * u))) by ring.
        apply Z.mul_le_mono_nonneg_r;
          [apply Z.mul_nonneg_nonneg; [lia | apply Z.mul_nonneg_nonneg; lia]|].
        assert (c * k * 1024 + c * 1024 - c = ((k + 1) * 1024 - 1) * c) by ring.
        assert (1024 * n <= 1024 * (c * (k + 1) - 1)) by lia. lia. }
  destruct Hw as (q & Hq & Hqb).
  assert (Hfin : fdiv (of_Z n) (of_Z c) = Fin q).
  { rewrite (of_Z_exact n), (of_Z_exact c) in * by lia.
    pose proof (fdiv_not_negzero (n * one_units) (c * one_units)
                  ltac:(apply Z.mul_nonneg_nonneg; lia)
                  ltac:(apply Z.mul_pos_pos; lia)) as Hnz.
    destruct (fdiv (Fin (n * one_units)) (Fin (c * one_units))) as [| s | | q'];
      cbn [fin_val] in Hq; try discriminate Hq; [congruence|].
    apply some_eq in Hq. subst q'. reflexivity. }
  rewrite Hfin, Math_floor_fin. f_equal.
  symmetry. apply Z.div_unique with (q - k * one_units).
  - left. rewrite Hone in *. lia.
  - ring.
Qed.

Lemma frem_of_Z (n c : Z) :
  0 <= n <= 2 ^ 53 -> 0 < c <= 2 ^ 53 ->
  frem (of_Z n) (of_Z c) = of_Z (n mod c).
Proof.
  intros Hn Hc. pose proof one_units_pos as Ho.
  rewrite (of_Z_exact n), (of_Z_exact c) by lia.
  unfold frem. cbn [is_zero units sign_neg].
  destruct (Z.eqb_spec (c * one_units) 0) as [E | _]; [nia|].
  destruct (Z.eqb_spec (n * one_units) 0) as [E | N].
  - assert (n = 0) by nia. subst n. rewrite Z.mod_0_l by lia. rewrite of_Z_0. reflexivity.
  - destruct (Z.ltb_spec (n * one_units) 0) as [E | _]; [nia|].
    rewrite Z.rem_mod_nonneg by nia.
    rewrite Z.mul_mod_distr_r by lia.
    unfold of_Z. rewrite (Z.mul_comm one_units). reflexivity.
Qed.

(** ** The shortest decimal representation of a whole number *)

Lemma exponent_up_spec (fuel : nat) (p q n : Z) :
  0 < q -> 0 <= n - 1 -> q * 10 ^ (n - 1) <= p ->
  p < q * 10 ^ (n - 1 + Z.of_nat fuel) ->
  let r := exponent_up fuel p q n in
  q * 10 ^ (r - 1) <= p < q * 10 ^ r /\ n <= r.
Proof.
  revert n. induction fuel as [| fuel IH]; intros n Hq Hn Hlo Hhi; cbn [exponent_up].
  - rewrite Z.add_0_r in Hhi. lia.
  - destruct (Z.ltb_spec p (q * 10 ^ n)) as [Hlt | Hge].
    + cbv zeta. split; [split; assumption | lia].
    + assert (H := IH (n + 1) Hq ltac:(lia)).
      replace (n + 1 - 1) with n in H by lia.
      specialize (H Hge).
      replace (n + Z.of_nat fuel) with (n - 1 + Z.of_nat (S fuel)) in H by lia.
      specialize (H Hhi). cbv zeta in H |- *. split; [apply H | lia].
Qed.

Lemma decimal_exponent_whole (m : Z) :
  0 < m ->
  let D := decimal_exponent (m * one_units) one_units in
  1 <= D /\ 10 ^ (D - 1) <= m < 10 ^ D.
Proof.
  intros Hm. pose proof one_units_pos as Ho. cbv zeta.
  unfold decimal_exponent.
  destruct (Z.leb_spec one_units (m * one_units)) as [_ | Hlt]; [|nia].
  set (fuel := Z.to_nat _).
  assert (Hfuel : Z.log2 (m * one_units) + 1 <= Z.of_nat fuel).
  { unfold fuel. pose proof (Z.log2_nonneg (m * one_units)).
    pose proof (Z.log2_nonneg one_units). lia. }
  pose proof (exponent_up_spec fuel (m * one_units) one_units 1 Ho ltac:(lia)) as H.
  replace (1 - 1) with 0 in H by lia. rewrite Z.pow_0_r, Z.mul_1_r in H.
  assert (Hlo : one_units <= m * one_units) by nia.
  assert (Hhi : m * one_units < one_units * 10 ^ (0 + Z.of_nat fuel)).
  { apply Z.lt_le_trans with (2 ^ (Z.log2 (m * one_units) + 1)).
    - apply Z.log2_spec. nia.
    - apply Z.le_trans with (10 ^ Z.of_nat fuel).
      + apply Z.le_trans with (2 ^ Z.of_nat fuel).
        * apply Z.pow_le_mono_r; lia.
        * apply Z.pow_le_mono_l. lia.
      + rewrite Z.add_0_l.
        assert (0 < 10 ^ Z.of_nat fuel) by (apply Z.pow_pos_nonneg; lia). nia. }
  specialize (H Hlo Hhi). cbv zeta in H. destruct H as [[H1 H2] H3].
  split; [exact H3|].
  split.
  - apply (Z.mul_le_mono_pos_l _ _ one_units Ho).
    rewrite (Z.mul_comm one_units m). exact H1.
  - apply (Z.mul_lt_mono_pos_l one_units _ _ Ho).
    rewrite (Z.mul_comm one_units m). exact H2.
Qed.

Lemma of_Z_mono (x y : Z) : x <= y -> fle (of_Z x) (of_Z y) = true.
Proof.
  intros H. rewrite !of_Z_round. apply round_q_mono. rewrite <- Zle_Qle.
  pose proof one_units_pos. apply Z.mul_le_mono_nonneg_r; lia.
Qed.

Lemma is_value_whole (m c e : Z) :
  0 < m -> m < 2 ^ 53 -> 0 <= e -> 0 <= c ->
  is_value (m * one_units) c e = (c * 10 ^ e =? m).
Proof.
  intros Hm Hb He Hc. pose proof one_units_pos as Ho.
  unfold is_value, decimal_value.
  destruct (Z.leb_spec 0 e) as [_ | E]; [|lia].
  fold (of_Z (c * 10 ^ e)). set (v := c * 10 ^ e).
  assert (Hv : 0 <= v) by (apply Z.mul_nonneg_nonneg; [lia | apply Z.pow_nonneg; lia]).
  destruct (Z.eqb_spec v m) as [E | N].
  - rewrite E, (of_Z_exact m) by lia. apply Z.eqb_refl.
  - destruct (Z.lt_ge_cases v m) as [Hlt | Hge].
    + rewrite (of_Z_exact v) by lia. apply Z.eqb_neq. nia.
    + assert (Hle : fle (of_Z (m + 1)) (of_Z v) = true) by (apply of_Z_mono; lia).
      rewrite (of_Z_exact (m + 1)) in Hle by lia.
      destruct (of_Z v) as [| s | | r]; try reflexivity.
      cbn [fle flt units] in Hle. apply negb_true_iff, Z.ltb_ge in Hle.
      apply Z.eqb_neq. nia.
Qed.

Lemma floor_scaled_whole (m e : Z) :
  0 <= e -> floor_scaled (m * one_units) one_units e = m / 10 ^ e.
Proof.
  intros He. pose proof one_units_pos as Ho. unfold floor_scaled.
  destruct (Z.leb_spec 0 e) as [_ | E]; [|lia].
  rewrite (Z.mul_comm m). apply Z.div_mul_cancel_l; [|lia].
  assert (0 < 10 ^ e) by (apply Z.pow_pos_nonneg; lia). lia.
Qed.

Lemma shortest_digits_step (fuel : nat) (p n k : Z) :
  shortest_digits (S fuel) p n k
  = let e := n - k in
    let lo := floor_scaled p one_units e in
    let hi := lo + 1 in
    let of_hi := if hi =? 10 ^ k then (n + 1, 1, 1) else (n, k, hi) in
    match is_value p lo e, is_value p hi e with
    | true, true => if nearer_low p one_units e lo then (n, k, lo) else of_hi
    | true, false => (n, k, lo)
    | false, true => of_hi
    | false, false => shortest_digits fuel p n (k + 1)
    end.
Proof. reflexivity. Qed.

Lemma shortest_digits_whole (m D : Z) :
  0 < m < 2 ^ 53 -> 1 <= D -> 10 ^ (D - 1) <= m < 10 ^ D ->
  forall (fuel : nat) (k : Z),
    1 <= k <= D -> D - k < Z.of_nat fuel ->
    exists K,
      k <= K <= D /\ m mod 10 ^ (D - K) = 0
      /\ shortest_digits fuel (m * one_units) D k = (D, K, m / 10 ^ (D - K)).
Proof.
  intros Hm HD Hdig fuel. induction fuel as [| fuel IH]; intros k Hk Hfuel.
  - cbn in Hfuel. lia.
  - rewrite shortest_digits_step. cbv zeta.
    assert (He : 0 <= D - k) by lia.
    assert (Hp : 0 < 10 ^ (D - k)) by (apply Z.pow_pos_nonneg; lia).
    rewrite (floor_scaled_whole m (D - k) He).
    set (lo := m / 10 ^ (D - k)).
    assert (Hlo : 0 <= lo) by (apply Z.div_pos; lia).
    pose proof (Z.div_mod m (10 ^ (D - k)) ltac:(lia)) as Hdm. fold lo in Hdm.
    pose proof (Z.mod_pos_bound m (10 ^ (D - k)) Hp) as Hmod.
    rewrite (is_value_whole m lo (D - k)) by lia.
    rewrite (is_value_whole m (lo + 1) (D - k)) by lia.
    destruct (Z.eqb_spec ((lo + 1) * 10 ^ (D - k)) m) as [E | _]; [nia|].
    destruct (Z.eqb_spec (lo * 10 ^ (D - k)) m) as [E | N].
    + exists k. split; [lia|]. split; [nia | reflexivity].
    + assert (Hk' : k < D).
      { destruct (Z.eq_dec k D) as [-> | Hne]; [|lia].
        exfalso. apply N. unfold lo. rewrite Z.sub_diag, Z.pow_0_r, Z.div_1_r. lia. }
      destruct (IH (k + 1) ltac:(lia) ltac:(lia)) as (K & HK & Hz & Hs).
      exists K. split; [lia|]. split; assumption.
Qed.

Lemma whole_digit_count (m D : Z) : m < 2 ^ 53 -> 10 ^ (D - 1) <= m -> D <= 16.
Proof.
  intros Hm HD. destruct (Z.le_gt_cases D 16) as [H | H]; [exact H|].
  exfalso. assert (10 ^ 16 <= 10 ^ (D - 1)) by (apply Z.pow_le_mono_r; lia).
  assert (2 ^ 53 < 10 ^ 16) by reflexivity. lia.
Qed.

Lemma positive_toString_whole (m : Z) :
  0 < m < 2 ^ 53 -> positive_toString (m * one_units) = digits m.
Proof.
  intros Hm. unfold positive_toString.
  destruct (decimal_exponent_whole m ltac:(lia)) as (HD & Hdig).
  set (D := decimal_exponent (m * one_units) one_units) in *.
  pose proof (whole_digit_count m D ltac:(lia) ltac:(lia)) as H16.
  destruct (shortest_digits_whole m D Hm HD Hdig 800 1 ltac:(lia))
    as (K & HK & Hz & ->).
  { change (Z.of_nat 800) with 800. lia. }
  destruct (Z.leb_spec K D) as [_ | E]; [|lia].
  destruct (Z.leb_spec D 21) as [_ | E]; [|lia].
  cbn [andb].
  assert (Hp : 0 < 10 ^ (D - K)) by (apply Z.pow_pos_nonneg; lia).
  pose proof (Z.div_mod m (10 ^ (D - K)) ltac:(lia)) as Hdm.
  rewrite Hz, Z.add_0_r in Hdm.
  assert (Hs : 0 < m / 10 ^ (D - K)).
  { destruct (Z.le_gt_cases (m / 10 ^ (D - K)) 0) as [Hle | Hgt]; [|exact Hgt].
    exfalso. assert (10 ^ (D - K) * (m / 10 ^ (D - K)) <= 0)
      by (apply Z.mul_nonneg_nonpos; lia). lia. }
  rewrite <- digits_shift by lia.
  f_equal. rewrite Z.mul_comm. symmetry. exact Hdm.
Qed.

Lemma Number_toString_whole (m : Z) :
  0 <= m < 2 ^ 53 -> Number_toString (of_Z m) = digits m.
Proof.
  intros Hm. pose proof one_units_pos as Ho.
  rewrite (of_Z_exact m) by lia. cbn [Number_toString].
  destruct (Z.eqb_spec (m * one_units) 0) as [E | N].
  - assert (m = 0) by nia. subst m. reflexivity.
  - destruct (Z.ltb_spec (m * one_units) 0) as [E | _]; [nia|].
    apply positive_toString_whole. nia.
Qed.

(** The strings of some numbers that are not whole, of a large one and of
    the values that are not finite, as every JavaScript engine prints
    them. *)
Example Number_toString_samples :
  Number_toString (fdiv (of_Z 1) (of_Z 10)) = str "0.1"
  /\ Number_toString (fdiv (of_Z 123456) (of_Z 1000)) = str "123.456"
  /\ Number_toString (fdiv (of_Z (-3)) (of_Z 2)) = str "-1.5"
  /\ Number_toString (of_Z (10 ^ 21)) = str "1e+21"
  /\ Number_toString (fdiv (of_Z 1) (of_Z 10000000)) = str "1e-7"
  /\ Number_toString NaN = str "NaN"
  /\ Number_toString (Inf true) = str "-Infinity".
Proof.
  split; [vm_compute; reflexivity|]. split; [vm_compute; reflexivity|].
  split; [vm_compute; reflexivity|]. split; [vm_compute; reflexivity|].
  split; [vm_compute; reflexivity|]. split; reflexivity.
Qed.

(** What [formatTime] gives outside the durations it is meant for: a
    negative duration and a duration that is not a number. *)
Example formatTime_edge_cases :
  formatTime (of_Z (-1500)) = str "-1:-2"
  /\ formatTime NaN = str "NaN:NaN".
Proof. split; vm_compute; reflexivity. Qed.

Lemma formatTime_whole (ms : Z) :
  0 <= ms <= 2 ^ 52 ->
  formatTime (of_Z ms)
  = digits (ms / 1000 / 60) ++ str ":"
      ++ [digit (ms / 1000 mod 60 / 10); digit (ms / 1000 mod 60 mod 10)].
Proof.
  intros Hms. unfold formatTime. set (seconds := ms / 1000).
  assert (Hs : 0 <= seconds) by (apply Z.div_pos; lia).
  assert (Hs43 : seconds < 2 ^ 43).
  { apply Z.div_lt_upper_bound; [lia|].
    apply Z.le_lt_trans with (2 ^ 52); [lia | reflexivity]. }
  assert (Hm : 0 <= seconds / 60) by (apply Z.div_pos; lia).
  assert (Hm43 : seconds / 60 < 2 ^ 43)
    by (apply Z.div_lt_upper_bound; [lia|]; lia).
  pose proof (Z.mod_pos_bound seconds 60 ltac:(lia)) as Hr.
  rewrite (floor_of_quotient ms 1000) by (try exact Hs43; lia).
  fold seconds.
  rewrite (floor_of_quotient seconds 60) by (try exact Hm43; lia).
  rewrite (frem_of_Z seconds 60) by lia.
  rewrite (Number_toString_whole (seconds / 60)) by lia.
  rewrite (Number_toString_whole (seconds mod 60)) by lia.
  rewrite (two_digits (seconds mod 60)) by lia.
  reflexivity.
Qed.

(** X20.  For a whole number of milliseconds that is not negative,
    [formatTime] gives the decimal digits of the whole minutes, a colon and
    the remaining whole seconds as exactly two digits (the seconds are
    below 60, padded with a zero when below 10). *)
Theorem X20_formatTime_minutes_and_seconds (ms : Z) :
  0 <= ms <= 2 ^ 52 ->
  let seconds := ms / 1000 in
  formatTime (of_Z ms)
  = digits (ms / 60000) ++ str ":"
      ++ [digit (seconds mod 60 / 10); digit (seconds mod 60 mod 10)]
  /\ 0 <= seconds mod 60 < 60
  /\ ms / 60000 * 60 + seconds mod 60 = seconds.
Proof.
  intros Hms seconds.
  assert (Hs : 0 <= seconds) by (apply Z.div_pos; lia).
  assert (Hm : ms / 60000 = seconds / 60)
    by (unfold seconds; rewrite Z.div_div by lia; reflexivity).
  split.
  - rewrite (formatTime_whole ms Hms). fold seconds. rewrite Hm. reflexivity.
  - split; [apply Z.mod_pos_bound; lia|].
    rewrite Hm. pose proof (Z.div_mod seconds 60 ltac:(lia)). lia.
Qed.

Lemma X20_formatTime_minutes_and_seconds_witness :
  0 <= 754321 <= 2 ^ 52
  /\ formatTime (of_Z 754321) = str "12:34".
Proof.
  assert (H : 0 <= 754321 <= 2 ^ 52) by (split; [lia | cbn; lia]).
  split; [exact H|].
  exact (proj1 (X20_formatTime_minutes_and_seconds 754321 H)).
Defined.

(** ** The session that the test page stores *)

(** X21.  Whatever happened on the test page before, the session that
    finishing the test stores is well formed: every keystroke of it has a
    duration, its duration is the end time minus the start time, accuracy
    and error rate add up to 100, the tremor score is not above 100 and the
    fatigue score is not below 0. *)
Theorem X21_stored_session_is_well_formed (actions : list TypingTest.Action)
        (sessionId : js_string) (now : number) (session : TypingSession.t) :
  let s := TypingTest.run TypingTest.initial actions in
  Z.of_nat (List.length (TypingTest.typedText s)) <= 2 ^ 53 ->
  TypingTest.finished_session s sessionId now = Some session ->
  List.filter has_duration (TypingSession.keystrokes session)
  = TypingSession.keystrokes session
  /\ TypingSession.duration session
     = fsub (TypingSession.endTime session) (TypingSession.startTime session)
  /\ fadd (TypingSession.accuracy session) (TypingSession.errorRate session)
     = of_Z 100
  /\ flt (of_Z 100) (field_or_zero (TypingSession.tremorScore session)) = false
  /\ flt (field_or_zero (TypingSession.fatigueScore session)) (of_Z 0) = false.
Proof.
  intros s Hlen Hfin. unfold TypingTest.finished_session in Hfin.
  destruct (TypingTest.startTime s) as [start |] eqn:Hs; [|discriminate Hfin].
  destruct (truthy start) eqn:Ht; [|discriminate Hfin].
  apply some_eq in Hfin. subst session.
  cbn [TypingSession.keystrokes TypingSession.duration TypingSession.endTime
       TypingSession.startTime TypingSession.accuracy TypingSession.errorRate
       TypingSession.tremorScore TypingSession.fatigueScore field_or_zero].
  split.
  { assert (H : List.Forall (fun e => has_duration e = true) (TypingTest.keystrokes s)).
    { unfold s. apply run_keystrokes_invariant; [|constructor].
      intros k t down typed. reflexivity. }
    apply List.forallb_filter_id. apply List.forallb_forall.
    apply List.Forall_forall. exact H. }
  split; [reflexivity|].
  split.
  { unfold calculatePerformanceMetrics. cbn [accuracy errorRate].
    destruct (accuracy_integer (TypingTest.typedText s) TypingTest.referenceText Hlen)
      as (n & Hn & Hb).
    exact (accuracy_plus_error _ n Hn Hb). }
  unfold calculatePerformanceMetrics. cbn [tremorSeverityScore fatigueScore].
  split.
  - pose proof (tremor_score_not_above_100 (TypingTest.keystrokes s)) as H.
    unfold or_else.
    destruct (truthy (calculateTremorScore (TypingTest.keystrokes s))); [exact H|].
    rewrite (of_Z_exact 100), of_Z_0 by lia. reflexivity.
  - pose proof (fatigue_score_not_negative (TypingTest.keystrokes s) start now) as H.
    unfold or_else.
    destruct (truthy (fr_fatigueScore
                        (detectFatigue (TypingTest.keystrokes s) start now)));
      [exact H|].
    rewrite of_Z_0. reflexivity.
Qed.

Lemma one_key_typed_start :
  TypingTest.startTime (TypingTest.run TypingTest.initial one_key_typed)
  = Some (of_Z 1000).
Proof. reflexivity. Qed.

Lemma one_key_typed_length :
  Z.of_nat (List.length
              (TypingTest.typedText (TypingTest.run TypingTest.initial one_key_typed)))
  <= 2 ^ 53.
Proof. vm_compute. discriminate. Qed.

Lemma X21_stored_session_is_well_formed_witness :
  let s := TypingTest.run TypingTest.initial one_key_typed in
  Z.of_nat (List.length (TypingTest.typedText s)) <= 2 ^ 53
  /\ exists session,
       TypingTest.finished_session s (str "id") (of_Z 7000) = Some session
       /\ fadd (TypingSession.accuracy session) (TypingSession.errorRate session)
          = of_Z 100.
Proof.
  intros s. split; [exact one_key_typed_length|].
  eexists. split.
  - unfold TypingTest.finished_session. unfold s at 1.
    rewrite one_key_typed_start, truthy_1000. reflexivity.
  - refine (proj1 (proj2 (proj2 (X21_stored_session_is_well_formed one_key_typed
                                   (str "id") (of_Z 7000) _ one_key_typed_length _)))).
    unfold TypingTest.finished_session.
    rewrite one_key_typed_start, truthy_1000. reflexivity.
Defined.

(** ** The tremor labels of the two pages *)

(** X22.  The results page and the history page give every tremor score
    the same label, and the label is [High] exactly when the score is not
    below 60 (which includes a score that is NaN). *)
Theorem X22_tremor_labels_agree (score : number) :
  ResultsPage.label (ResultsPage.getTremorLevel score)
  = HistoryPage.label (HistoryPage.getTremorBadge score)
  /\ (ResultsPage.label (ResultsPage.getTremorLevel score) = str "High"
      <-> flt score (of_Z 60) = false).
Proof.
  unfold ResultsPage.getTremorLevel, HistoryPage.getTremorBadge.
  destruct (flt score (of_Z 30)) eqn:E30.
  - split; [reflexivity|]. cbn [ResultsPage.label]. split.
    + intros H. cbn in H. discriminate H.
    + intros H. exfalso.
      assert (Hle : fle (of_Z 30) (of_Z 60) = true) by (apply of_Z_mono; lia).
      assert (H60 : flt score (of_Z 60) = true).
      { rewrite (of_Z_exact 30), (of_Z_exact 60) in * by lia.
        destruct score as [| [] | | k]; cbn [flt fle units negb] in *;
          try discriminate E30; try reflexivity.
        all: apply negb_true_iff, Z.ltb_ge in Hle; apply Z.ltb_lt in E30;
          apply Z.ltb_lt; lia. }
      congruence.
  - destruct (flt score (of_Z 60)) eqn:E60; (split; [reflexivity|]);
      cbn [ResultsPage.label]; split; intros H; try reflexivity;
      try discriminate H.
Qed.

(** ** A flagged fatigue means a slower last third *)

Lemma round_q_positive (s : bool) (x : Q) :
  flt (Fin 0) (round_q s x) = true -> (0 < x)%Q.
Proof.
  intros H. destruct (Qlt_le_dec 0 x) as [Hpos | Hle]; [exact Hpos|].
  exfalso. pose proof (round_q_mono s false x 0 Hle) as Hm.
  change (round_q false 0) with (Fin 0) in Hm.
  destruct (round_q s x) as [| [] | | k]; cbn [flt fle units negb] in *;
    try discriminate H; try discriminate Hm.
  rewrite H in Hm. discriminate Hm.
Qed.

Lemma Qdiv_positive_inv (p q : Z) :
  0 < q -> (0 < inject_Z p / inject_Z q)%Q -> 0 < p.
Proof.
  intros Hq H. pose proof (inject_Z_pos q Hq) as Hq'.
  pose proof (Qmult_lt_0_compat _ _ H Hq') as Hm.
  assert (E : (inject_Z p / inject_Z q * inject_Z q == inject_Z p)%Q)
    by (field; lra).
  rewrite E in Hm. change 0%Q with (inject_Z 0) in Hm.
  rewrite <- Zlt_Qlt in Hm. exact Hm.
Qed.

Lemma exceeds_20_positive (d : number) :
  flt (of_Z 20) d = true -> flt (Fin 0) d = true.
Proof.
  rewrite (of_Z_exact 20) by lia. pose proof one_units_pos as Ho.
  destruct d as [| [] | | k]; cbn [flt units negb]; intros H;
    try discriminate H; try reflexivity.
  all: apply Z.ltb_lt in H; try apply Z.ltb_lt; lia.
Qed.

Lemma fmul_positive_inv (x y : number) (b : Z) :
  fin_val y = Some b -> 0 < b ->
  flt (Fin 0) (fmul x y) = true -> flt (Fin 0) x = true.
Proof.
  intros Hy Hb H. pose proof one_units_pos as Ho.
  assert (Hfin : forall a, fin_val x = Some a -> 0 < a).
  { intros a Ha. rewrite (fmul_fin x y a b Ha Hy) in H.
    apply round_q_positive in H. apply Qdiv_positive_inv in H; [|exact Ho].
    destruct (Z.lt_ge_cases 0 a) as [Hpos | Hneg]; [exact Hpos|].
    exfalso. assert (a * b <= 0) by (apply Z.mul_nonpos_nonneg; lia). lia. }
  destruct x as [| s | | a].
  - cbn in H. discriminate H.
  - finite_cases y b' Hy; [lia|]. subst b'. cbn [fmul sign_neg is_zero] in H.
    destruct (Z.eqb_spec b 0) as [E | _]; [lia|].
    destruct (Z.ltb_spec b 0) as [E | _]; [lia|].
    rewrite xorb_false_r in H. exact H.
  - specialize (Hfin 0 eq_refl). lia.
  - specialize (Hfin a eq_refl). cbn [flt units]. apply Z.ltb_lt. exact Hfin.
Qed.

Lemma fdiv_positive_inv (y e : number) :
  flt (Fin 0) (fdiv y e) = true -> flt (Fin 0) e = true ->
  flt (Fin 0) y = true /\ exists b, e = Fin b /\ 0 < b.
Proof.
  intros H He. pose proof one_units_pos as Ho.
  destruct e as [| [] | | b]; cbn [flt units negb] in He; try discriminate He.
  - exfalso. destruct y as [| ? | | a]; cbn [fdiv sign_neg xorb] in H;
      try discriminate H.
    all: destruct (xorb _ false); cbn in H; discriminate H.
  - apply Z.ltb_lt in He. split; [|exists b; split; [reflexivity | exact He]].
    destruct y as [| s | | a].
    + cbn in H. discriminate H.
    + cbn [fdiv sign_neg] in H.
      destruct (Z.ltb_spec b 0) as [E | _]; [lia|].
      rewrite xorb_false_r in H. exact H.
    + rewrite (fdiv_fin NegZero (Fin b) 0 b eq_refl eq_refl) in H by lia.
      apply round_q_positive in H. apply Qdiv_positive_inv in H; lia.
    + rewrite (fdiv_fin (Fin a) (Fin b) a b eq_refl eq_refl) in H by lia.
      apply round_q_positive in H. apply Qdiv_positive_inv in H; [|exact He].
      cbn [flt units]. apply Z.ltb_lt.
      destruct (Z.lt_ge_cases 0 a) as [Hpos | Hneg]; [exact Hpos|].
      exfalso. assert (a * one_units <= 0) by (apply Z.mul_nonpos_nonneg; lia). lia.
Qed.

Lemma fsub_positive_inv (l : number) (b : Z) :
  flt (Fin 0) (fsub (Fin b) l) = true -> flt l (Fin b) = true.
Proof.
  intros H. destruct l as [| s | | c].
  - cbn in H. discriminate H.
  - destruct s; [reflexivity | cbn in H; discriminate H].
  - unfold fsub in H.
    rewrite (fadd_fin (Fin b) (fneg NegZero) b (- 0) eq_refl
               (fin_val_fneg NegZero 0 eq_refl)) in H.
    apply round_q_positive in H. change 0%Q with (inject_Z 0) in H.
    rewrite <- Zlt_Qlt in H. cbn [flt units]. apply Z.ltb_lt. lia.
  - unfold fsub in H.
    rewrite (fadd_fin (Fin b) (fneg (Fin c)) b (- c) eq_refl
               (fin_val_fneg (Fin c) c eq_refl)) in H.
    apply round_q_positive in H. change 0%Q with (inject_Z 0) in H.
    rewrite <- Zlt_Qlt in H. cbn [flt units]. apply Z.ltb_lt. lia.
Qed.

Lemma flt_20_0 : flt (of_Z 20) (of_Z 0) = false.
Proof. vm_compute. reflexivity. Qed.

(** X23.  Fatigue is flagged only when typing got slower: whenever
    [detectFatigue] reports fatigue, the words per minute of the last third
    are below those of the first third. *)
Theorem X23_flagged_fatigue_means_slower (keystrokes : list KeystrokeEvent)
        (startTime endTime : number) :
  let r := detectFatigue keystrokes startTime endTime in
  fr_fatigueDetected r = true -> flt (fr_lateWPM r) (fr_earlyWPM r) = true.
Proof.
  cbv zeta. rewrite detectFatigue_unfold.
  destruct (Nat.ltb _ _); [intros H; discriminate H|].
  destruct (_ || _); [intros H; discriminate H|].
  unfold spec_FatigueAnalysis. cbn [fr_fatigueDetected fr_lateWPM fr_earlyWPM].
  set (early := spec_WPM (of_nat (List.length (spec_early keystrokes startTime endTime)))
                         (spec_third startTime endTime)).
  set (late := spec_WPM (of_nat (List.length (spec_late keystrokes startTime endTime)))
                        (spec_third startTime endTime)).
  unfold spec_decline. rewrite of_Z_0 at 1.
  destruct (flt (Fin 0) early) eqn:Hearly.
  - intros H. apply exceeds_20_positive in H.
    apply (fmul_positive_inv _ _ (100 * one_units)) in H;
      [| apply fin_val_of_Z; lia | pose proof one_units_pos; lia].
    destruct (fdiv_positive_inv _ _ H Hearly) as (Hd & b & Eb & Hb).
    rewrite Eb in *. exact (fsub_positive_inv late b Hd).
  - intros H. rewrite flt_20_0 in H. discriminate H.
Qed.

Lemma six_then_four_detected :
  fr_fatigueDetected (detectFatigue six_then_four (of_Z 0) (of_Z 3000)) = true.
Proof. vm_compute. reflexivity. Qed.

Lemma X23_flagged_fatigue_means_slower_witness :
  let r := detectFatigue six_then_four (of_Z 0) (of_Z 3000) in
  fr_fatigueDetected r = true /\ flt (fr_lateWPM r) (fr_earlyWPM r) = true.
Proof.
  intros r. split; [exact six_then_four_detected|].
  exact (X23_flagged_fatigue_means_slower six_then_four (of_Z 0) (of_Z 3000)
           six_then_four_detected).
Defined.

(** ** Accuracy after one more character *)

Lemma matching_snoc (typedText referenceText : js_string) (ch : code_unit) :
  List.length (matching_positions (typedText ++ [ch]) referenceText)
  = (List.length (matching_positions typedText referenceText)
     + if char_eq (Some ch) (char_at referenceText (List.length typedText))
       then 1 else 0)%nat.
Proof.
  unfold matching_positions. rewrite List.length_app. cbn [List.length].
  set (n := List.length typedText). set (lr := List.length referenceText).
  assert (Hsame : forall m, (m <= n)%nat ->
            List.filter (fun i => char_eq (char_at (typedText ++ [ch]) i)
                                          (char_at referenceText i)) (List.seq 0 m)
            = List.filter (fun i => char_eq (char_at typedText i)
                                            (char_at referenceText i)) (List.seq 0 m)).
  { intros m Hm. apply List.filter_ext_in. intros i Hi. apply List.in_seq in Hi.
    unfold char_at. rewrite List.nth_error_app1 by (fold n; lia). reflexivity. }
  destruct (Nat.le_gt_cases lr n) as [Hle | Hgt].
  - rewrite (Nat.min_r (n + 1) lr), (Nat.min_r n lr) by lia.
    rewrite (Hsame lr Hle).
    assert (E : char_at referenceText n = None)
      by (unfold char_at; apply List.nth_error_None; fold lr; lia).
    rewrite E. cbn [char_eq]. lia.
  - rewrite (Nat.min_l (n + 1) lr), (Nat.min_l n lr) by lia.
    rewrite List.seq_app, List.filter_app, List.length_app.
    rewrite (Hsame n (Nat.le_refl n)). f_equal.
    cbn [List.seq List.filter Nat.add].
    assert (E : char_at (typedText ++ [ch]) n = Some ch).
    { unfold char_at. rewrite List.nth_error_app2 by (fold n; lia).
      fold n. rewrite Nat.sub_diag. reflexivity. }
    rewrite E. destruct (char_eq _ _); reflexivity.
Qed.

Lemma ratio_within (c n : nat) :
  (c <= n)%nat -> (0 < n)%nat -> Z.of_nat n <= 2 ^ 53 ->
  within 0 one_units (fdiv (of_nat c) (of_nat n)).
Proof.
  intros Hc Hn Hb. pose proof one_units_pos as Ho.
  apply (fdiv_within _ _ (Z.of_nat c * one_units) (Z.of_nat n * one_units)).
  - apply fin_val_of_nat. lia.
  - apply fin_val_of_nat. lia.
  - apply Z.mul_pos_pos; lia.
  - apply fin_rep_0.
  - apply fin_rep_one.
  - split; [apply Z.mul_nonneg_nonneg; [apply Z.mul_nonneg_nonneg|]; lia|].
    rewrite (Z.mul_comm one_units (Z.of_nat n * one_units)).
    apply Z.mul_le_mono_nonneg_r; [lia|]. apply Z.mul_le_mono_nonneg_r; lia.
Qed.

Lemma percentage_mono (c1 n1 c2 n2 : nat) :
  (c1 <= n1)%nat -> (c2 <= n2)%nat -> (0 < n1)%nat -> (0 < n2)%nat ->
  Z.of_nat n1 <= 2 ^ 53 -> Z.of_nat n2 <= 2 ^ 53 ->
  (c1 * n2 <= c2 * n1)%nat ->
  fle (Math_round (fmul (fdiv (of_nat c1) (of_nat n1)) (of_Z 100)))
      (Math_round (fmul (fdiv (of_nat c2) (of_nat n2)) (of_Z 100))) = true.
Proof.
  intros Hc1 Hc2 Hn1 Hn2 Hb1 Hb2 Hcross. pose proof one_units_pos as Ho.
  apply Math_round_mono.
  destruct (ratio_within c1 n1 Hc1 Hn1 Hb1) as (q1 & Hq1 & _).
  destruct (ratio_within c2 n2 Hc2 Hn2 Hb2) as (q2 & Hq2 & _).
  assert (Hle : fle (fdiv (of_nat c1) (of_nat n1)) (fdiv (of_nat c2) (of_nat n2)) = true).
  { rewrite (fdiv_fin _ _ (Z.of_nat c1 * one_units) (Z.of_nat n1 * one_units)
               (fin_val_of_nat c1 ltac:(lia)) (fin_val_of_nat n1 Hb1)) by nia.
    rewrite (fdiv_fin _ _ (Z.of_nat c2 * one_units) (Z.of_nat n2 * one_units)
               (fin_val_of_nat c2 ltac:(lia)) (fin_val_of_nat n2 Hb2)) by nia.
    apply round_q_mono. apply Qdiv_le_cross; [nia | nia |].
    replace (Z.of_nat c1 * one_units * one_units * (Z.of_nat n2 * one_units))
      with (Z.of_nat (c1 * n2) * (one_units * one_units * one_units))
      by (rewrite Nat2Z.inj_mul; ring).
    replace (Z.of_nat c2 * one_units * one_units * (Z.of_nat n1 * one_units))
      with (Z.of_nat (c2 * n1) * (one_units * one_units * one_units))
      by (rewrite Nat2Z.inj_mul; ring).
    apply Z.mul_le_mono_nonneg_r; [|lia].
    apply Z.mul_nonneg_nonneg; [apply Z.mul_nonneg_nonneg|]; lia. }
  pose proof (fin_val_le_of_fle _ _ q1 q2 Hq1 Hq2 Hle) as Hq.
  rewrite (fmul_fin _ _ q1 (100 * one_units) Hq1 (fin_val_of_Z 100 ltac:(lia))).
  rewrite (fmul_fin _ _ q2 (100 * one_units) Hq2 (fin_val_of_Z 100 ltac:(lia))).
  apply round_q_mono. apply Qdiv_le_mono; [apply inject_Z_pos; exact Ho|].
  rewrite <- Zle_Qle. apply Z.mul_le_mono_nonneg_r; lia.
Qed.

Lemma accuracy_at_most_100 (typedText referenceText : js_string) :
  Z.of_nat (List.length typedText) <= 2 ^ 53 ->
  fle (calculateAccuracy typedText referenceText) (of_Z 100) = true.
Proof.
  intros Hlen.
  destruct (accuracy_integer typedText referenceText Hlen) as (n & Hn & Hb).
  apply (fle_of_fin_val _ _ (n * one_units) (100 * one_units) Hn);
    [apply fin_val_of_Z; lia|].
  pose proof one_units_pos. apply Z.mul_le_mono_nonneg_r; lia.
Qed.

Lemma accuracy_of_nonempty (typedText referenceText : js_string) :
  typedText <> [] ->
  calculateAccuracy typedText referenceText
  = Math_round
      (fmul (fdiv (of_nat (List.length (matching_positions typedText referenceText)))
                  (of_nat (List.length typedText)))
            (of_Z 100)).
Proof.
  intros Hne. rewrite calculateAccuracy_spec. unfold spec_Accuracy.
  destruct typedText; [congruence | reflexivity].
Qed.

(** X24.  One more typed character moves the accuracy the right way: it
    never lowers it when the character is the one the reference text has at
    that position, and never raises it otherwise. *)
Theorem X24_accuracy_after_one_more_character
        (typedText referenceText : js_string) (ch : code_unit) :
  Z.of_nat (List.length typedText) < 2 ^ 53 ->
  (char_at referenceText (List.length typedText) = Some ch ->
   fle (calculateAccuracy typedText referenceText)
       (calculateAccuracy (typedText ++ [ch]) referenceText) = true)
  /\ (char_at referenceText (List.length typedText) <> Some ch ->
      fle (calculateAccuracy (typedText ++ [ch]) referenceText)
          (calculateAccuracy typedText referenceText) = true).
Proof.
  intros Hlen.
  assert (Hlen' : Z.of_nat (List.length (typedText ++ [ch])) <= 2 ^ 53)
    by (rewrite List.length_app; cbn [List.length]; lia).
  pose proof (matching_snoc typedText referenceText ch) as Hsnoc.
  pose proof (matching_positions_le typedText referenceText) as Hc.
  pose proof (matching_positions_le (typedText ++ [ch]) referenceText) as Hc'.
  set (c := List.length (matching_positions typedText referenceText)) in *.
  set (c' := List.length (matching_positions (typedText ++ [ch]) referenceText)) in *.
  assert (Hn' : List.length (typedText ++ [ch]) = S (List.length typedText))
    by (rewrite List.length_app; cbn [List.length]; lia).
  assert (Hacc' : calculateAccuracy (typedText ++ [ch]) referenceText
                  = Math_round
                      (fmul (fdiv (of_nat c') (of_nat (S (List.length typedText))))
                            (of_Z 100))).
  { rewrite accuracy_of_nonempty by (destruct typedText; discriminate).
    fold c'. rewrite Hn'. reflexivity. }
  assert (Hempty : typedText = [] ->
                   calculateAccuracy typedText referenceText = of_Z 100)
    by (intros ->; reflexivity).
  assert (Hacc : typedText <> [] ->
                 calculateAccuracy typedText referenceText
                 = Math_round
                     (fmul (fdiv (of_nat c) (of_nat (List.length typedText)))
                           (of_Z 100)))
    by (intros Hne; rewrite accuracy_of_nonempty by exact Hne; reflexivity).
  assert (Hcases : typedText = [] \/ typedText <> [])
    by (destruct typedText; [left; reflexivity | right; discriminate]).
  split.
  - intros Hch. rewrite Hch in Hsnoc. cbn [char_eq] in Hsnoc.
    rewrite N.eqb_refl in Hsnoc.
    destruct Hcases as [E | Hne].
    + rewrite (Hempty E), Hacc'. subst typedText.
      replace c' with 1%nat by (cbn [List.length] in Hc; lia).
      cbn [List.length]. rewrite (accuracy_all_correct 1) by (cbn; lia).
      exact fle_100_100.
    + rewrite (Hacc Hne), Hacc'.
      assert (Hpos : (0 < List.length typedText)%nat)
        by (destruct typedText; [congruence | simpl; lia]).
      apply percentage_mono; lia.
  - intros Hch.
    assert (Hno : char_eq (Some ch) (char_at referenceText (List.length typedText))
                  = false).
    { destruct (char_at referenceText (List.length typedText)) as [x |];
        [|reflexivity].
      cbn [char_eq]. apply N.eqb_neq. intros ->. apply Hch. reflexivity. }
    rewrite Hno in Hsnoc.
    destruct Hcases as [E | Hne].
    + rewrite (Hempty E). apply accuracy_at_most_100. exact Hlen'.
    + rewrite (Hacc Hne), Hacc'.
      assert (Hpos : (0 < List.length typedText)%nat)
        by (destruct typedText; [congruence | simpl; lia]).
      apply percentage_mono; lia.
Qed.

Lemma X24_accuracy_after_one_more_character_witness :
  Z.of_nat (List.length (str "hel")) < 2 ^ 53
  /\ char_at (str "hello") (List.length (str "hel")) = Some 108%N
  /\ fle (calculateAccuracy (str "hel") (str "hello"))
         (calculateAccuracy (str "hel" ++ [108%N]) (str "hello")) = true.
Proof.
  assert (H1 : Z.of_nat (List.length (str "hel")) < 2 ^ 53) by (cbn; lia).
  assert (H2 : char_at (str "hello") (List.length (str "hel")) = Some 108%N)
    by reflexivity.
  split; [exact H1|]. split; [exact H2|].
  exact (proj1 (X24_accuracy_after_one_more_character (str "hel") (str "hello")
                  108%N H1) H2).
Defined.

(** ** Sessions recorded with a clock that does not go backwards *)

Lemma fsub_whole_times (limit t t0 : Z) :
  0 <= t0 <= t -> t <= limit -> limit <= 2 ^ 53 ->
  within 0 (limit * one_units) (fsub (of_Z t) (of_Z t0)).
Proof.
  intros Ht0 Ht Hl. pose proof one_units_pos as Ho.
  apply (fsub_within _ _ (t * one_units) (t0 * one_units)).
  - apply fin_val_of_Z. lia.
  - apply fin_val_of_Z. lia.
  - apply fin_rep_0.
  - apply fin_rep_int. lia.
  - rewrite <- Z.mul_sub_distr_r. split.
    + apply Z.mul_nonneg_nonneg; lia.
    + apply Z.mul_le_mono_nonneg_r; lia.
Qed.

Lemma truthy_whole (t : Z) : truthy (of_Z t) = true -> t <> 0.
Proof. intros H E. subst t. rewrite of_Z_0 in H. discriminate H. Qed.

Lemma fsub_of_Z (t t0 : Z) :
  0 < t0 <= t -> t <= 2 ^ 53 -> fsub (of_Z t) (of_Z t0) = of_Z (t - t0).
Proof.
  intros Ht0 Ht. pose proof one_units_pos as Ho.
  assert (E : fneg (of_Z t0) = of_Z (- t0)).
  { rewrite (of_Z_exact t0), (of_Z_exact (- t0)) by lia. unfold fneg.
    destruct (Z.eqb_spec (t0 * one_units) 0) as [E | _]; [nia|].
    rewrite Z.mul_opp_l. reflexivity. }
  unfold fsub. rewrite E. rewrite (fadd_of_Z t (- t0)) by lia.
  f_equal.
Qed.

Lemma clock_invariant_later (limit last last' : Z) (s : TypingTest.State) :
  last <= last' ->
  TypingTest.clock_invariant limit last s ->
  TypingTest.clock_invariant limit last' s.
Proof.
  intros Hl (H1 & H2 & H3 & H4). split; [|split; [|split]].
  - intros d Hd. destruct (H1 d Hd) as (t0 & E & Hb).
    exists t0. split; [exact E | lia].
  - intros d Hd. destruct (H2 d Hd) as (t0 & E & Hb).
    exists t0. split; [exact E | lia].
  - exact H3.
  - exact H4.
Qed.

Lemma clock_invariant_step (limit last t : Z) (s : TypingTest.State)
      (a : TypingTest.Action) :
  0 <= last <= t -> t <= limit -> limit <= 2 ^ 53 ->
  TypingTest.action_time a = Some (of_Z t) ->
  TypingTest.clock_invariant limit last s ->
  TypingTest.clock_invariant limit t (TypingTest.step s a).
Proof.
  intros Hlast Ht Hlim Ha Hinv.
  pose proof (clock_invariant_later limit last t s ltac:(lia) Hinv) as Hlater.
  destruct Hinv as (H1 & H2 & H3 & H4).
  destruct a as [now | value | key now | key now | now | sid now saved];
    cbn [TypingTest.action_time] in Ha; try discriminate Ha;
    apply some_eq in Ha; subst now; cbn [TypingTest.step].
  - unfold TypingTest.handleStartTest, TypingTest.clock_invariant.
    cbn [TypingTest.currentKeyDownTime TypingTest.startTime
         TypingTest.elapsedTime TypingTest.keystrokes].
    split; [exact (proj1 Hlater)|]. split; [|split].
    + intros d Hd. apply some_eq in Hd. subst d.
      exists t. split; [reflexivity | lia].
    + exists 0. split; [reflexivity | lia].
    + constructor.
  - unfold TypingTest.handleKeyDown.
    destruct (TypingTest.testStatus s); try exact Hlater.
    destruct (TypingTest.includes TypingTest.modifier_keys key); [exact Hlater|].
    unfold TypingTest.clock_invariant.
    cbn [TypingTest.currentKeyDownTime TypingTest.startTime
         TypingTest.elapsedTime TypingTest.keystrokes].
    split; [|exact (proj2 Hlater)].
    intros d Hd. apply some_eq in Hd. subst d.
    exists t. split; [reflexivity | lia].
  - unfold TypingTest.handleKeyUp.
    destruct (TypingTest.testStatus s); try exact Hlater.
    destruct (TypingTest.currentKeyDownTime s) as [down |] eqn:Ed;
      [|exact Hlater].
    unfold TypingTest.clock_invariant.
    cbn [TypingTest.currentKeyDownTime TypingTest.startTime
         TypingTest.elapsedTime TypingTest.keystrokes].
    split; [intros d Hd; discriminate Hd|].
    split; [exact (proj1 (proj2 Hlater))|]. split; [exact H3|].
    apply List.Forall_app. split; [exact H4|].
    constructor; [|constructor].
    cbn [duration]. intros d Hd. apply some_eq in Hd. subst d.
    destruct (H1 down eq_refl) as (t0 & -> & Hb).
    apply fsub_whole_times; lia.
  - unfold TypingTest.timer_tick.
    destruct (TypingTest.testStatus s); try exact Hlater.
    destruct (TypingTest.startTime s) as [st |] eqn:Es; [|exact Hlater].
    destruct (truthy st) eqn:Et; [|exact Hlater].
    unfold TypingTest.clock_invariant.
    cbn [TypingTest.currentKeyDownTime TypingTest.startTime
         TypingTest.elapsedTime TypingTest.keystrokes].
    split; [exact (proj1 Hlater)|].
    split; [intros d Hd; apply (proj1 (proj2 Hlater)); rewrite Es; exact Hd|].
    split; [|exact H4].
    destruct (H2 st eq_refl) as (t0 & -> & Hb).
    pose proof (truthy_whole t0 Et) as Hnz.
    exists (t - t0). split; [apply fsub_of_Z; lia | lia].
  - unfold TypingTest.handleFinishTest.
    destruct (TypingTest.finished_session s sid (of_Z t)); [|exact Hlater].
    destruct saved; exact Hlater.
Qed.

Lemma monotone_clock_invariant (limit : Z) (actions : list TypingTest.Action) :
  limit <= 2 ^ 53 ->
  forall (last : Z) (s : TypingTest.State),
    0 <= last <= limit ->
    TypingTest.monotone_clock limit last actions ->
    TypingTest.clock_invariant limit last s ->
    exists last',
      TypingTest.clock_invariant limit last' (TypingTest.run s actions).
Proof.
  intros Hlim. induction actions as [| a rest IH]; intros last s Hlast Hclock Hinv.
  - exists last. exact Hinv.
  - cbn [TypingTest.run List.fold_left].
    cbn [TypingTest.monotone_clock] in Hclock.
    destruct (TypingTest.action_time a) as [now |] eqn:Ea.
    + destruct Hclock as (t & -> & Ht & Hrest).
      apply (IH t); [lia | exact Hrest |].
      apply (clock_invariant_step limit last t s a); try assumption; lia.
    + apply (IH last); [exact Hlast | exact Hclock |].
      destruct a; cbn [TypingTest.action_time] in Ea; try discriminate Ea.
      exact Hinv.
Qed.

Lemma clock_invariant_initial (limit : Z) :
  0 <= limit -> TypingTest.clock_invariant limit 0 TypingTest.initial.
Proof.
  intros Hl. unfold TypingTest.clock_invariant, TypingTest.initial.
  cbn [TypingTest.currentKeyDownTime TypingTest.startTime
       TypingTest.elapsedTime TypingTest.keystrokes].
  split; [intros d Hd; discriminate Hd|].
  split; [intros d Hd; discriminate Hd|].
  split; [exists 0; split; [reflexivity | lia] | constructor].
Qed.

Lemma timed_key_downs_le (actions : list TypingTest.Action) :
  (TypingTest.timed_key_downs actions <= List.length actions)%nat.
Proof. unfold TypingTest.timed_key_downs. apply List.filter_length_le. Qed.

(** X25.  When the clock never goes backwards while the page is used (its
    readings are whole milliseconds that do not decrease), every recorded
    duration is a finite number of milliseconds that is not negative, and
    the tremor score of the session that finishing the test stores lies
    between 0 and 100. *)
Theorem X25_monotone_clock_gives_score_in_range
        (actions : list TypingTest.Action) (sessionId : js_string) (now : number)
        (session : TypingSession.t) :
  TypingTest.monotone_clock (2 ^ 53) 0 actions ->
  Z.of_nat (List.length actions) <= 2 ^ 53 ->
  TypingTest.finished_session (TypingTest.run TypingTest.initial actions)
                              sessionId now = Some session ->
  List.Forall (fun e => forall d, duration e = Some d ->
                                  within 0 (2 ^ 53 * one_units) d)
              (TypingSession.keystrokes session)
  /\ exists score,
       TypingSession.tremorScore session = Some score
       /\ fle (of_Z 0) score = true /\ fle score (of_Z 100) = true.
Proof.
  intros Hclock Hlen Hfin.
  set (s := TypingTest.run TypingTest.initial actions) in *.
  assert (Hks : List.Forall (fun e => forall d, duration e = Some d ->
                                                within 0 (2 ^ 53 * one_units) d)
                            (TypingTest.keystrokes s)).
  { destruct (monotone_clock_invariant (2 ^ 53) actions ltac:(lia) 0
                TypingTest.initial ltac:(lia) Hclock
                (clock_invariant_initial (2 ^ 53) ltac:(lia)))
      as (last & _ & _ & _ & H4).
    exact H4. }
  assert (Hn : Z.of_nat (List.length (TypingTest.keystrokes s)) <= 2 ^ 53).
  { pose proof (run_count actions TypingTest.initial) as Hc.
    pose proof (timed_key_downs_le actions) as Ht. fold s in Hc.
    cbn [TypingTest.initial TypingTest.keystrokes TypingTest.pending
         TypingTest.currentKeyDownTime List.length] in Hc. lia. }
  unfold TypingTest.finished_session in Hfin.
  destruct (TypingTest.startTime s) as [start |]; [|discriminate Hfin].
  destruct (truthy start); [|discriminate Hfin].
  apply some_eq in Hfin. subst session.
  cbn [TypingSession.keystrokes TypingSession.tremorScore].
  split; [exact Hks|].
  eexists. split; [reflexivity|].
  unfold calculatePerformanceMetrics. cbn [tremorSeverityScore].
  rewrite tremor_score_formula. unfold spec_TremorScore.
  destruct (is_zero (spec_mean (TypingTest.keystrokes s))) eqn:Ez.
  - split; [exact fle_0_0 | exact fle_0_100].
  - unfold spec_score_of_cv. apply Math_min_100_percent.
    exact (scaled_variation_not_negative (TypingTest.keystrokes s) Hn Hks Ez).
Qed.

Lemma one_key_typed_clock (limit : Z) :
  1200 <= limit -> TypingTest.monotone_clock limit 0 one_key_typed.
Proof.
  intros Hl. unfold one_key_typed.
  cbn [TypingTest.monotone_clock TypingTest.action_time].
  exists 1000. split; [reflexivity|]. split; [lia|].
  exists 1100. split; [reflexivity|]. split; [lia|].
  exists 1200. split; [reflexivity|]. split; [lia|].
  exact I.
Qed.

Lemma one_key_typed_actions :
  Z.of_nat (List.length one_key_typed) <= 2 ^ 53.
Proof. cbn. lia. Qed.

Lemma X25_monotone_clock_gives_score_in_range_witness :
  TypingTest.monotone_clock (2 ^ 53) 0 one_key_typed
  /\ Z.of_nat (List.length one_key_typed) <= 2 ^ 53
  /\ exists session,
       TypingTest.finished_session
         (TypingTest.run TypingTest.initial one_key_typed) (str "id") (of_Z 7000)
       = Some session
       /\ List.Forall (fun e => forall d, duration e = Some d ->
                                          within 0 (2 ^ 53 * one_units) d)
                      (TypingSession.keystrokes session)
       /\ exists score,
            TypingSession.tremorScore session = Some score
            /\ fle (of_Z 0) score = true /\ fle score (of_Z 100) = true.
Proof.
  assert (Hc : TypingTest.monotone_clock (2 ^ 53) 0 one_key_typed)
    by (apply one_key_typed_clock; lia).
  split; [exact Hc|]. split; [exact one_key_typed_actions|].
  eexists. split.
  - unfold TypingTest.finished_session.
    rewrite one_key_typed_start, truthy_1000. reflexivity.
  - refine (X25_monotone_clock_gives_score_in_range
              one_key_typed (str "id") (of_Z 7000) _
              Hc one_key_typed_actions _).
    unfold TypingTest.finished_session.
    rewrite one_key_typed_start, truthy_1000. reflexivity.
Defined.

(** ** The time that the page shows *)

Lemma limit_52 : 2 ^ 52 <= 2 ^ 53.
Proof. apply Z.pow_le_mono_r; lia. Qed.

(** X26.  With a clock that never goes backwards, the elapsed time of the
    test page is always a whole number of milliseconds that is not
    negative, and the page shows it as minutes, a colon and two digits of
    seconds. *)
Theorem X26_elapsed_time_is_shown_as_minutes_and_seconds
        (actions : list TypingTest.Action) :
  TypingTest.monotone_clock (2 ^ 52) 0 actions ->
  exists e,
    0 <= e <= 2 ^ 52
    /\ TypingTest.elapsedTime (TypingTest.run TypingTest.initial actions) = of_Z e
    /\ formatTime (TypingTest.elapsedTime (TypingTest.run TypingTest.initial actions))
       = digits (e / 60000) ++ str ":"
           ++ [digit (e / 1000 mod 60 / 10); digit (e / 1000 mod 60 mod 10)].
Proof.
  intros Hclock.
  assert (H0 : 0 <= 2 ^ 52) by (apply Z.pow_nonneg; lia).
  destruct (monotone_clock_invariant (2 ^ 52) actions limit_52 0
              TypingTest.initial ltac:(lia) Hclock
              (clock_invariant_initial (2 ^ 52) H0))
    as (last & _ & _ & (e & He & Hb) & _).
  exists e. split; [exact Hb|]. split; [exact He|].
  rewrite He, (formatTime_whole e Hb).
  rewrite Z.div_div by lia. reflexivity.
Qed.

Lemma one_key_typed_then_tick_clock :
  TypingTest.monotone_clock (2 ^ 52) 0
    (one_key_typed ++ [TypingTest.Tick (of_Z 76200)]).
Proof.
  unfold one_key_typed.
  cbn [List.app TypingTest.monotone_clock TypingTest.action_time].
  assert (H : 76200 <= 2 ^ 52) by (cbn; lia).
  exists 1000. split; [reflexivity|]. split; [lia|].
  exists 1100. split; [reflexivity|]. split; [lia|].
  exists 1200. split; [reflexivity|]. split; [lia|].
  exists 76200. split; [reflexivity|]. split; [lia|].
  exact I.
Qed.

Lemma X26_elapsed_time_is_shown_as_minutes_and_seconds_witness :
  TypingTest.monotone_clock (2 ^ 52) 0
    (one_key_typed ++ [TypingTest.Tick (of_Z 76200)])
  /\ exists e,
       0 <= e <= 2 ^ 52
       /\ TypingTest.elapsedTime
            (TypingTest.run TypingTest.initial
               (one_key_typed ++ [TypingTest.Tick (of_Z 76200)])) = of_Z e
       /\ formatTime
            (TypingTest.elapsedTime
               (TypingTest.run TypingTest.initial
                  (one_key_typed ++ [TypingTest.Tick (of_Z 76200)])))
          = digits (e / 60000) ++ str ":"
              ++ [digit (e / 1000 mod 60 / 10); digit (e / 1000 mod 60 mod 10)].
Proof.
  split; [exact one_key_typed_then_tick_clock|].
  exact (X26_elapsed_time_is_shown_as_minutes_and_seconds
           (one_key_typed ++ [TypingTest.Tick (of_Z 76200)])
           one_key_typed_then_tick_clock).
Defined.

(** ** Equal groups in the fatigue analysis *)

Lemma max_round_zero : Math_max (of_Z 0) (Math_round (Fin 0)) = of_Z 0.
Proof. vm_compute. reflexivity. Qed.

Lemma flt_20_zero : flt (of_Z 20) (Fin 0) = false.
Proof. vm_compute. reflexivity. Qed.

Lemma decline_of_equal (w : number) (k : Z) :
  fin_val w = Some k -> spec_decline w w = Fin 0.
Proof.
  intros Hw. unfold spec_decline. rewrite of_Z_0.
  destruct w as [| s | | j]; cbn [fin_val] in Hw;
    [discriminate Hw | discriminate Hw | reflexivity |].
  cbn [flt units]. destruct (Z.ltb_spec 0 j) as [Hj | Hj]; [|reflexivity].
  assert (E : fsub (Fin j) (Fin j) = Fin 0).
  { unfold fsub, fneg. destruct (Z.eqb_spec j 0) as [E | _]; [lia|].
    unfold fadd. cbn [units sign_neg]. rewrite Z.add_opp_diag_r.
    cbn [round_frac].
    destruct (Z.ltb_spec j 0) as [H1 | _]; [lia|]. reflexivity. }
  rewrite E. unfold fdiv. cbn [is_zero units sign_neg].
  destruct (Z.eqb_spec j 0) as [E0 | _]; [lia|].
  rewrite (Z.mul_0_r one_units), (Z.mul_0_r (Z.sgn j)).
  destruct (Z.ltb_spec j 0) as [H1 | _]; [lia|].
  cbn [round_frac xorb Z.ltb Z.compare]. exact fmul_zero_100.
Qed.

(** X27.  Over a window of at least one millisecond between finite clock
    readings, a session whose early and late thirds hold equally many
    keystrokes shows no fatigue: the flag is off, the score is 0 and the two
    rates reported are equal. *)
Theorem X27_equal_groups_show_no_fatigue (keystrokes : list KeystrokeEvent)
        (startTime endTime : number) (a b : Z) :
  Z.of_nat (List.length keystrokes) <= 2 ^ 32 ->
  fin_val startTime = Some a -> fin_val endTime = Some b ->
  a + one_units <= b ->
  let third := fdiv (fsub endTime startTime) (of_Z 3) in
  let early :=
    List.filter (fun k => flt (keyDownTime k) (fadd startTime third)) keystrokes in
  let late :=
    List.filter
      (fun k => fgt (keyDownTime k) (fadd startTime (fmul (of_Z 2) third)))
      keystrokes in
  List.length early = List.length late ->
  let r := detectFatigue keystrokes startTime endTime in
  fr_fatigueDetected r = false
  /\ fr_fatigueScore r = of_Z 0
  /\ fr_earlyWPM r = fr_lateWPM r.
Proof.
  intros Hlen Hs He Hab third early late Heq. cbv zeta.
  assert (Hzero : fr_fatigueDetected zeroed_fatigue = false
                  /\ fr_fatigueScore zeroed_fatigue = of_Z 0
                  /\ fr_earlyWPM zeroed_fatigue = fr_lateWPM zeroed_fatigue).
  { split; [reflexivity|]. split; reflexivity. }
  destruct (window_duration _ _ _ _ Hs He Hab) as [Hinf | (r & Hr & Hrb & Hrep)].
  { rewrite (fatigue_overflowed_window _ _ _ _ Hs Hinf). exact Hzero. }
  rewrite detectFatigue_unfold.
  destruct (Nat.ltb _ _); [exact Hzero|].
  destruct (_ || _); [exact Hzero|].
  unfold spec_FatigueAnalysis.
  cbn [fr_fatigueDetected fr_fatigueScore fr_earlyWPM fr_lateWPM].
  assert (Heq' : List.length (spec_early keystrokes startTime endTime)
                 = List.length (spec_late keystrokes startTime endTime)).
  { exact Heq. }
  rewrite <- Heq'.
  pose proof one_units_pos as HU.
  destruct units_scale as (HU4 & _ & _ & _).
  assert (Hthird : within (2 ^ 1072) r (spec_third startTime endTime)).
  { unfold spec_third. rewrite Hr. rewrite (of_Z_exact 3) by lia.
    apply fdiv_within with (a := r) (b := 3 * one_units);
      [reflexivity | reflexivity | lia | apply fin_rep_pow2; lia | assumption |].
    set (T := 2 ^ 1072) in *. split.
    - rewrite Z.mul_assoc. apply Z.mul_le_mono_nonneg_r; lia.
    - rewrite (Z.mul_comm 3), Z.mul_assoc.
      assert (r * one_units * 1 <= r * one_units * 3)
        by (apply Z.mul_le_mono_nonneg_l; nia).
      lia. }
  destruct Hthird as (h & Hh & Hhb).
  assert (Hhrep : fin_rep h).
  { unfold spec_third in Hh. rewrite Hr in Hh. rewrite (of_Z_exact 3) in Hh by lia.
    apply (fdiv_fin_rep (Fin r) (Fin (3 * one_units)) r (3 * one_units) h);
      [reflexivity | reflexivity | lia | exact Hh]. }
  assert (Hle : (List.length (spec_early keystrokes startTime endTime)
                 <= List.length keystrokes)%nat)
    by apply List.filter_length_le.
  destruct (wpm_integer (List.length (spec_early keystrokes startTime endTime))
                        (spec_third startTime endTime) h ltac:(lia) Hh
                        ltac:(lia) Hhrep) as (n & Hn & _).
  rewrite calculateWPM_spec in Hn.
  rewrite (decline_of_equal _ _ Hn).
  split; [exact flt_20_zero|]. split; [exact max_round_zero | reflexivity].
Qed.

Lemma four_two_four_length : Z.of_nat (List.length four_two_four) <= 2 ^ 32.
Proof. cbn. lia. Qed.

Lemma four_two_four_groups :
  let third := fdiv (fsub (of_Z 3000) (of_Z 0)) (of_Z 3) in
  let early :=
    List.filter (fun k => flt (keyDownTime k) (fadd (of_Z 0) third))
                four_two_four in
  let late :=
    List.filter
      (fun k => fgt (keyDownTime k) (fadd (of_Z 0) (fmul (of_Z 2) third)))
      four_two_four in
  List.length early = List.length late.
Proof. vm_compute. reflexivity. Qed.

Lemma X27_equal_groups_show_no_fatigue_witness :
  Z.of_nat (List.length four_two_four) <= 2 ^ 32
  /\ fin_val (of_Z 0) = Some 0
  /\ fin_val (of_Z 3000) = Some (3000 * one_units)
  /\ 0 + one_units <= 3000 * one_units
  /\ (let third := fdiv (fsub (of_Z 3000) (of_Z 0)) (of_Z 3) in
      let early :=
        List.filter (fun k => flt (keyDownTime k) (fadd (of_Z 0) third))
                    four_two_four in
      let late :=
        List.filter
          (fun k => fgt (keyDownTime k) (fadd (of_Z 0) (fmul (of_Z 2) third)))
          four_two_four in
      List.length early = List.length late)
  /\ let r := detectFatigue four_two_four (of_Z 0) (of_Z 3000) in
     fr_fatigueDetected r = false
     /\ fr_fatigueScore r = of_Z 0
     /\ fr_earlyWPM r = fr_lateWPM r.
Proof.
  destruct sample_window as (H0 & H1 & H2).
  split; [exact four_two_four_length|].
  split; [exact H0|]. split; [exact H1|]. split; [exact H2|].
  split; [exact four_two_four_groups|].
  exact (X27_equal_groups_show_no_fatigue four_two_four (of_Z 0) (of_Z 3000)
           0 (3000 * one_units) four_two_four_length H0 H1 H2
           four_two_four_groups).
Defined.

(** ** Negative durations *)

Lemma floor_of_negative_quotient (n c : Z) :
  - 2 ^ 53 <= n < 0 -> 0 < c <= 1024 -> - 2 ^ 43 <= n / c ->
  Math_floor (fdiv (of_Z n) (of_Z c)) = of_Z (n / c).
Proof.
  intros Hn Hc Hk43. pose proof one_units_pos as Ho.
  set (k := n / c).
  assert (Hdiv : c * k <= n < c * (k + 1)).
  { unfold k. pose proof (Z.mul_div_le n c ltac:(lia)).
    pose proof (Z.mul_succ_div_gt n c ltac:(lia)). lia. }
  assert (Hk : k < 0) by nia.
  fold k in Hk43.
  assert (Hone : one_units = 1024 * 2 ^ 1064) by reflexivity.
  assert (Hs : 0 < 2 ^ 1064) by (apply pow2_pos; lia).
  set (u := 2 ^ 1064) in *.
  assert (Hw : within (k * one_units) (((k + 1) * 1024 - 1) * u)
                 (fdiv (of_Z n) (of_Z c))).
  { apply (fdiv_within _ _ (n * one_units) (c * one_units)).
    - apply fin_val_of_Z. lia.
    - apply fin_val_of_Z. lia.
    - apply Z.mul_pos_pos; lia.
    - apply fin_rep_int. lia.
    - apply fin_rep_scaled; [|lia].
      rewrite Z.abs_neq by lia.
      apply Z.le_trans with (2 ^ 43 * 1024); [lia | cbn; lia].
    - split.
      + replace (k * one_units * (c * one_units))
          with (c * k * (one_units * one_units)) by ring.
        replace (n * one_units * one_units) with (n * (one_units * one_units)) by ring.
        apply Z.mul_le_mono_nonneg_r; [apply Z.mul_nonneg_nonneg; lia | lia].
      + rewrite Hone.
        replace (n * (1024 * u) * (1024 * u))
          with (1024 * n * (u * (1024 * u))) by ring.
        replace (((k + 1) * 1024 - 1) * u * (c * (1024 * u)))
          with (((k + 1) * 1024 - 1) * c * (u * (1024 * u))) by ring.
        apply Z.mul_le_mono_nonneg_r;
          [apply Z.mul_nonneg_nonneg; [lia | apply Z.mul_nonneg_nonneg; lia]|].
        assert (c * k * 1024 + c * 1024 - c = ((k + 1) * 1024 - 1) * c) by ring.
        assert (1024 * n <= 1024 * (c * (k + 1) - 1)) by lia. lia. }
  destruct Hw as (q & Hq & Hqb).
  assert (Hqneg : q < 0) by nia.
  assert (Hfin : fdiv (of_Z n) (of_Z c) = Fin q).
  { destruct (fdiv (of_Z n) (of_Z c)) as [| s | | q'];
      cbn [fin_val] in Hq; try discriminate Hq.
    - apply some_eq in Hq. lia.
    - apply some_eq in Hq. subst q'. reflexivity. }
  rewrite Hfin, Math_floor_fin. f_equal.
  symmetry. apply Z.div_unique with (q - k * one_units).
  - left. rewrite Hone in *. lia.
  - ring.
Qed.

Lemma frem_of_negative (n c : Z) :
  - 2 ^ 53 <= n < 0 -> 0 < c <= 2 ^ 53 ->
  frem (of_Z n) (of_Z c)
  = if Z.rem n c =? 0 then NegZero else of_Z (Z.rem n c).
Proof.
  intros Hn Hc. pose proof one_units_pos as Ho.
  rewrite (of_Z_exact n), (of_Z_exact c) by lia.
  unfold frem. cbn [is_zero units sign_neg].
  destruct (Z.eqb_spec (c * one_units) 0) as [E | _]; [nia|].
  destruct (Z.eqb_spec (n * one_units) 0) as [E | _]; [nia|].
  destruct (Z.ltb_spec (n * one_units) 0) as [_ | E]; [|nia].
  assert (Hrem : Z.rem (n * one_units) (c * one_units) = Z.rem n c * one_units).
  { rewrite Z.mul_rem_distr_r; lia. }
  rewrite Hrem.
  pose proof (Z.rem_bound_pos_neg n c ltac:(lia) ltac:(lia)) as Hb.
  destruct (Z.eqb_spec (Z.rem n c) 0) as [E | N].
  - rewrite E. reflexivity.
  - unfold of_Z. rewrite (Z.mul_comm one_units).
    destruct (Z.rem n c * one_units) as [| p | p] eqn:Ep; [nia | nia |].
    reflexivity.
Qed.

Lemma Number_toString_negative (m : Z) :
  0 < m < 2 ^ 53 -> Number_toString (of_Z (- m)) = 45%N :: digits m.
Proof.
  intros Hm. pose proof one_units_pos as Ho.
  rewrite (of_Z_exact (- m)) by lia. cbn [Number_toString].
  destruct (Z.eqb_spec (- m * one_units) 0) as [E | _]; [nia|].
  destruct (Z.ltb_spec (- m * one_units) 0) as [_ | E]; [|nia].
  f_equal. rewrite Z.mul_opp_l, Z.opp_involutive.
  apply positive_toString_whole. lia.
Qed.

Lemma digits_not_empty (z : Z) : digits z <> [].
Proof.
  unfold digits. cbn [digits_fuel].
  destruct (z <? 10); [discriminate|].
  rewrite digits_fuel_acc. intros E. apply List.app_eq_nil in E.
  destruct E as [_ E]. discriminate E.
Qed.

Lemma padStart_long (s : js_string) (n : nat) (fill : js_string) :
  (n <= List.length s)%nat -> padStart s n fill = s.
Proof.
  intros H. unfold padStart.
  destruct (Nat.leb_spec n (List.length s)) as [_ | E]; [reflexivity | lia].
Qed.

(** X28.  For a negative whole number of milliseconds the text of
    [formatTime] is not clamped to zero: it is a minus sign and the digits
    of the whole minutes rounded down (so at least [-1]), a colon, and
    then [00] when the whole seconds are a multiple of 60 and otherwise a
    minus sign and the seconds without padding. *)
Theorem X28_formatTime_of_negative_duration (ms : Z) :
  - 2 ^ 52 <= ms < 0 ->
  let seconds := ms / 1000 in
  formatTime (of_Z ms)
  = 45%N :: digits (- (seconds / 60)) ++ str ":"
      ++ (if Z.rem seconds 60 =? 0 then str "00"
          else 45%N :: digits (- Z.rem seconds 60))
  /\ seconds / 60 <= -1.
Proof.
  intros Hms seconds. unfold formatTime.
  assert (H52 : 2 ^ 52 = 4503599627370496) by reflexivity.
  assert (H53 : 2 ^ 53 = 9007199254740992) by reflexivity.
  assert (H43 : 2 ^ 43 = 8796093022208) by reflexivity.
  assert (Hs : seconds < 0).
  { unfold seconds. apply Z.div_lt_upper_bound; lia. }
  assert (Hs43 : - 2 ^ 43 <= seconds).
  { unfold seconds. apply Z.div_le_lower_bound; lia. }
  assert (Hm : seconds / 60 < 0) by (apply Z.div_lt_upper_bound; lia).
  assert (Hm43 : - 2 ^ 43 <= seconds / 60)
    by (apply Z.div_le_lower_bound; lia).
  pose proof (Z.rem_bound_pos_neg seconds 60 ltac:(lia) ltac:(lia)) as Hr.
  rewrite (floor_of_negative_quotient ms 1000) by (try exact Hs43; lia).
  fold seconds.
  rewrite (floor_of_negative_quotient seconds 60) by (try exact Hm43; lia).
  rewrite (frem_of_negative seconds 60) by lia.
  replace (seconds / 60) with (- (- (seconds / 60))) at 1 by lia.
  rewrite (Number_toString_negative (- (seconds / 60))) by lia.
  split; [|lia].
  cbn [List.app]. f_equal. f_equal. f_equal.
  destruct (Z.eqb_spec (Z.rem seconds 60) 0) as [E | N].
  - reflexivity.
  - replace (Z.rem seconds 60) with (- (- Z.rem seconds 60)) at 1 by lia.
    rewrite (Number_toString_negative (- Z.rem seconds 60)) by lia.
    apply padStart_long. cbn [List.length].
    pose proof (digits_not_empty (- Z.rem seconds 60)) as Hne.
    destruct (digits (- Z.rem seconds 60)); [congruence | cbn [List.length]; lia].
Qed.

Lemma X28_formatTime_of_negative_duration_witness :
  - 2 ^ 52 <= -61500 < 0
  /\ formatTime (of_Z (-61500)) = str "-2:-2".
Proof.
  assert (H : - 2 ^ 52 <= -61500 < 0) by (split; [cbn; lia | lia]).
  split; [exact H|].
  exact (proj1 (X28_formatTime_of_negative_duration (-61500) H)).
Defined.

(** ** The text of a duration determines its whole seconds *)

Lemma digit_inj (a b : Z) :
  0 <= a < 10 -> 0 <= b < 10 -> digit a = digit b -> a = b.
Proof. intros Ha Hb H. unfold digit in H. lia. Qed.

Lemma digits_length_step (z : Z) :
  10 <= z -> (2 <= List.length (digits z))%nat.
Proof.
  intros Hz. rewrite digits_step by exact Hz. rewrite List.length_app.
  pose proof (digits_not_empty (z / 10)) as Hne.
  destruct (digits (z / 10)); [congruence | cbn [List.length]; lia].
Qed.

Lemma digits_inj (x : Z) :
  0 <= x -> forall y, 0 <= y -> digits x = digits y -> x = y.
Proof.
  intros Hx. revert x Hx.
  apply (Zlt_0_ind (fun x => forall y, 0 <= y -> digits x = digits y -> x = y)).
  intros x IH Hx y Hy E.
  destruct (Z.ltb_spec x 10) as [Hx10 | Hx10];
    destruct (Z.ltb_spec y 10) as [Hy10 | Hy10].
  - rewrite (digits_small x), (digits_small y) in E by lia.
    injection E as E. apply digit_inj; [lia | lia | exact E].
  - pose proof (digits_length_step y Hy10) as Hl.
    rewrite <- E, (digits_small x) in Hl by lia. cbn [List.length] in Hl. lia.
  - pose proof (digits_length_step x Hx10) as Hl.
    rewrite E, (digits_small y) in Hl by lia. cbn [List.length] in Hl. lia.
  - rewrite (digits_step x), (digits_step y) in E by lia.
    apply List.app_inj_tail in E. destruct E as [E1 E2].
    pose proof (Z.mod_pos_bound x 10 ltac:(lia)) as Hmx.
    pose proof (Z.mod_pos_bound y 10 ltac:(lia)) as Hmy.
    apply digit_inj in E2; [| lia | lia].
    assert (Hq : x / 10 = y / 10).
    { apply (IH (x / 10)).
      - split; [apply Z.div_pos; lia | apply Z.div_lt; lia].
      - apply Z.div_pos; lia.
      - exact E1. }
    pose proof (Z.div_mod x 10 ltac:(lia)). pose proof (Z.div_mod y 10 ltac:(lia)).
    lia.
Qed.

Lemma formatTime_seconds (ms : Z) :
  0 <= ms <= 2 ^ 52 ->
  formatTime (of_Z ms)
  = ((digits (ms / 1000 / 60) ++ str ":")
       ++ [digit (ms / 1000 mod 60 / 10)]) ++ [digit (ms / 1000 mod 60 mod 10)].
Proof.
  intros Hms. rewrite (formatTime_whole ms Hms).
  rewrite <- !List.app_assoc. reflexivity.
Qed.

(** X29.  For whole durations that are not negative, the text of
    [formatTime] tells the whole seconds and nothing more: two durations
    have the same text exactly when they have the same number of whole
    seconds. *)
Theorem X29_formatTime_shows_the_whole_seconds (a b : Z) :
  0 <= a <= 2 ^ 52 -> 0 <= b <= 2 ^ 52 ->
  formatTime (of_Z a) = formatTime (of_Z b) <-> a / 1000 = b / 1000.
Proof.
  intros Ha Hb.
  rewrite (formatTime_seconds a Ha), (formatTime_seconds b Hb).
  set (sa := a / 1000). set (sb := b / 1000).
  assert (Hsa : 0 <= sa) by (apply Z.div_pos; lia).
  assert (Hsb : 0 <= sb) by (apply Z.div_pos; lia).
  split.
  - intros E.
    apply List.app_inj_tail in E. destruct E as [E E2].
    apply List.app_inj_tail in E. destruct E as [E E1].
    apply List.app_inv_tail in E.
    apply digits_inj in E; [| apply Z.div_pos; lia | apply Z.div_pos; lia].
    pose proof (Z.mod_pos_bound sa 60 ltac:(lia)) as Hma.
    pose proof (Z.mod_pos_bound sb 60 ltac:(lia)) as Hmb.
    apply digit_inj in E1;
      [| split; [apply Z.div_pos; lia | apply Z.div_lt_upper_bound; lia]
       | split; [apply Z.div_pos; lia | apply Z.div_lt_upper_bound; lia]].
    apply digit_inj in E2; [| apply Z.mod_pos_bound; lia | apply Z.mod_pos_bound; lia].
    pose proof (Z.div_mod (sa mod 60) 10 ltac:(lia)).
    pose proof (Z.div_mod (sb mod 60) 10 ltac:(lia)).
    pose proof (Z.div_mod sa 60 ltac:(lia)). pose proof (Z.div_mod sb 60 ltac:(lia)).
    lia.
  - intros E. rewrite E. reflexivity.
Qed.

Lemma X29_formatTime_shows_the_whole_seconds_witness :
  0 <= 61000 <= 2 ^ 52 /\ 0 <= 61999 <= 2 ^ 52
  /\ formatTime (of_Z 61000) = formatTime (of_Z 61999).
Proof.
  assert (Ha : 0 <= 61000 <= 2 ^ 52) by (split; [lia | cbn; lia]).
  assert (Hb : 0 <= 61999 <= 2 ^ 52) by (split; [lia | cbn; lia]).
  split; [exact Ha|]. split; [exact Hb|].
  apply (proj2 (X29_formatTime_shows_the_whole_seconds 61000 61999 Ha Hb)).
  reflexivity.
Defined.

(** ** Words per minute of a steady typist *)

Lemma fdiv_exact (q b : Z) :
  0 < b -> Z.abs b <= 2 ^ 53 -> Z.abs q <= 2 ^ 53 -> Z.abs (q * b) <= 2 ^ 53 ->
  fin_val (fdiv (of_Z (q * b)) (of_Z b)) = Some (q * one_units).
Proof.
  intros Hb Hb53 Hq Hqb. pose proof one_units_pos as Ho.
  apply within_point.
  apply (fdiv_within _ _ (q * b * one_units) (b * one_units)).
  - apply fin_val_of_Z. exact Hqb.
  - apply fin_val_of_Z. exact Hb53.
  - apply Z.mul_pos_pos; lia.
  - apply fin_rep_int. exact Hq.
  - apply fin_rep_int. exact Hq.
  - split; apply Z.eq_le_incl; ring.
Qed.

(** X30.  A typist who keeps a steady pace gets that pace: [5 * w * m]
    characters typed in [m] whole minutes are exactly [w] words per
    minute. *)
Theorem X30_steady_pace_is_reported (w m : Z) :
  0 < w -> 0 < m -> 5 * w * m <= 2 ^ 53 -> 60000 * m <= 2 ^ 53 ->
  calculateWPM (of_Z (5 * w * m)) (of_Z (60000 * m)) = of_Z w.
Proof.
  intros Hw Hm Hc Hd. pose proof one_units_pos as Ho.
  assert (H53 : 2 ^ 53 = 9007199254740992) by reflexivity.
  rewrite calculateWPM_spec. unfold spec_WPM.
  assert (Hz : is_zero (of_Z (60000 * m)) = false).
  { rewrite (of_Z_exact (60000 * m)) by lia. cbn [is_zero].
    apply Z.eqb_neq. nia. }
  rewrite Hz.
  assert (Hwords : fdiv (of_Z (5 * w * m)) (of_Z 5) = of_Z (w * m)).
  { apply of_Z_of_fin_val; [nia | nia |].
    replace (5 * w * m) with (w * m * 5) by ring.
    apply fdiv_exact; try lia; rewrite ?Z.abs_eq; nia. }
  assert (Hmin : fdiv (of_Z (60000 * m)) (of_Z 60000) = of_Z m).
  { apply of_Z_of_fin_val; [lia | lia |].
    replace (60000 * m) with (m * 60000) by ring.
    apply fdiv_exact; try lia. }
  rewrite Hwords, Hmin.
  apply of_Z_of_fin_val; [nia | lia |].
  apply Math_round_integer; [nia|].
  apply fdiv_exact; try lia; rewrite ?Z.abs_eq; nia.
Qed.

Lemma X30_steady_pace_is_reported_witness :
  0 < 40 /\ 0 < 3 /\ 5 * 40 * 3 <= 2 ^ 53 /\ 60000 * 3 <= 2 ^ 53
  /\ calculateWPM (of_Z (5 * 40 * 3)) (of_Z (60000 * 3)) = of_Z 40.
Proof.
  assert (H1 : 0 < 40) by lia. assert (H2 : 0 < 3) by lia.
  assert (H3 : 5 * 40 * 3 <= 2 ^ 53) by (cbn; lia).
  assert (H4 : 60000 * 3 <= 2 ^ 53) by (cbn; lia).
  split; [exact H1|]. split; [exact H2|]. split; [exact H3|]. split; [exact H4|].
  exact (X30_steady_pace_is_reported 40 3 H1 H2 H3 H4).
Defined.

(* ================================================================== *)
(** * Part VIII: the exact conditions of the bounds *)
(* ================================================================== *)

(** ** Typed texts longer than the reference: the exact condition *)

Lemma ratio_below_995 :
  exists k1 k2,
    fin_val (fdiv (of_Z (199 * 2 ^ 32 - 1)) (of_Z (200 * 2 ^ 32))) = Some k1
    /\ fin_val (fmul (fdiv (of_Z (199 * 2 ^ 32 - 1)) (of_Z (200 * 2 ^ 32)))
                     (of_Z 100)) = Some k2
    /\ 0 <= k1
    /\ 2 * k2 + one_units < 200 * one_units.
Proof.
  assert (H : match fin_val (fdiv (of_Z (199 * 2 ^ 32 - 1)) (of_Z (200 * 2 ^ 32))),
                    fin_val (fmul (fdiv (of_Z (199 * 2 ^ 32 - 1))
                                        (of_Z (200 * 2 ^ 32))) (of_Z 100)) with
              | Some k1, Some k2 =>
                  (0 <=? k1) && (2 * k2 + one_units <? 200 * one_units)
              | _, _ => false
              end = true) by (vm_compute; reflexivity).
  destruct (fin_val (fdiv (of_Z (199 * 2 ^ 32 - 1)) (of_Z (200 * 2 ^ 32))))
    as [k1 |]; [|discriminate].
  destruct (fin_val (fmul (fdiv (of_Z (199 * 2 ^ 32 - 1)) (of_Z (200 * 2 ^ 32)))
                          (of_Z 100))) as [k2 |]; [|discriminate].
  apply andb_true_iff in H. destruct H as [H1 H2].
  apply Z.leb_le in H1. apply Z.ltb_lt in H2.
  exists k1, k2. repeat split; assumption.
Qed.

Lemma accuracy_value_below_995 (c n : nat) :
  (200 * c < 199 * n)%nat -> Z.of_nat n <= 2 ^ 32 ->
  exists m,
    fin_val (Math_round (fmul (fdiv (of_nat c) (of_nat n)) (of_Z 100)))
    = Some (m * one_units) /\ 0 <= m <= 99.
Proof.
  intros Hc Hn. pose proof one_units_pos as HU.
  assert (H32 : 2 ^ 32 = 4294967296) by reflexivity.
  assert (H53 : 2 ^ 53 = 9007199254740992) by reflexivity.
  destruct ratio_below_995 as (k1 & k2 & Hk1 & Hk2 & Hpos & Hlt).
  set (a' := 199 * 2 ^ 32 - 1) in *. set (b' := 200 * 2 ^ 32) in *.
  assert (Ha' : a' = 854698491903) by reflexivity.
  assert (Hb' : b' = 858993459200) by reflexivity.
  assert (Hq : within 0 k1 (fdiv (of_nat c) (of_nat n))).
  { rewrite (of_nat_exact c), (of_nat_exact n) by lia.
    rewrite (of_Z_exact a'), (of_Z_exact b') in Hk1 by lia.
    apply fdiv_upper with (a := Z.of_nat c * one_units) (b := Z.of_nat n * one_units)
                          (x' := Fin (a' * one_units)) (y' := Fin (b' * one_units))
                          (a' := a' * one_units) (b' := b' * one_units);
      try reflexivity; try exact Hk1; try nia. }
  destruct Hq as (q & Hq & Hqb).
  assert (Hp : within 0 k2 (fmul (fdiv (of_nat c) (of_nat n)) (of_Z 100))).
  { rewrite (of_Z_exact 100) in * by lia.
    apply fmul_upper with (a := q) (b := 100 * one_units)
                          (x' := fdiv (of_Z a') (of_Z b'))
                          (y' := Fin (100 * one_units))
                          (a' := k1) (b' := 100 * one_units);
      try exact Hq; try exact Hk1; try exact Hk2; try reflexivity; lia. }
  destruct Hp as (p & Hp & Hpb).
  apply (Math_round_half _ p 0 99); [exact Hp | lia | lia | lia].
Qed.

Lemma percentage_199_of_200 :
  Math_round (fmul (fdiv (of_nat 199) (of_nat 200)) (of_Z 100)) = of_Z 100.
Proof. vm_compute. reflexivity. Qed.

Lemma accuracy_value_from_995 (c n : nat) :
  (c <= n)%nat -> (199 * n <= 200 * c)%nat -> (0 < n)%nat ->
  Z.of_nat n <= 2 ^ 53 ->
  fle (of_Z 100) (Math_round (fmul (fdiv (of_nat c) (of_nat n)) (of_Z 100)))
  = true.
Proof.
  intros Hc H995 Hn Hb. rewrite <- percentage_199_of_200.
  apply percentage_mono; lia.
Qed.

(** C7, as the code has it: a typed text that is strictly longer than the
    reference and starts with it has an accuracy strictly below 100 exactly
    when the reference is less than 99.5 percent of it, that is when
    [len(typed) < 200 * (len(typed) - len(reference))]; otherwise the ratio
    is at least 99.5 percent, [Math.round] takes it to 100 and the accuracy
    is 100.  (The lengths are at most [2^32], as the length of every string
    of a JavaScript engine.) *)
Theorem C7_overlong_text_below_100 (typedText referenceText : js_string) :
  (List.length referenceText < List.length typedText)%nat ->
  List.firstn (List.length referenceText) typedText = referenceText ->
  Z.of_nat (List.length typedText) <= 2 ^ 32 ->
  ((List.length typedText
    < 200 * (List.length typedText - List.length referenceText))%nat ->
   flt (calculateAccuracy typedText referenceText) (of_Z 100) = true)
  /\ ((200 * (List.length typedText - List.length referenceText)
       <= List.length typedText)%nat ->
      calculateAccuracy typedText referenceText = of_Z 100).
Proof.
  intros Hlen Hpre Hb. pose proof one_units_pos as HU.
  assert (H32 : 2 ^ 32 = 4294967296) by reflexivity.
  assert (H53 : 2 ^ 53 = 9007199254740992) by reflexivity.
  assert (Hne : typedText <> []).
  { intros E. subst typedText. cbn [List.length] in Hlen. lia. }
  rewrite (accuracy_of_nonempty typedText referenceText Hne).
  rewrite matching_prefix by (lia || assumption).
  split.
  - intros Hcond.
    destruct (accuracy_value_below_995 (List.length referenceText)
                (List.length typedText) ltac:(lia) Hb) as (m & Hm & Hmb).
    rewrite (flt_fin _ _ (m * one_units) (100 * one_units));
      [| exact Hm | apply fin_val_of_Z; lia].
    apply Z.ltb_lt. nia.
  - intros Hcond.
    pose proof (accuracy_value_from_995 (List.length referenceText)
                  (List.length typedText) ltac:(lia) ltac:(lia) ltac:(lia)
                  ltac:(lia)) as Hge.
    destruct (accuracy_integer typedText referenceText ltac:(lia))
      as (m & Hm & Hmb).
    rewrite (accuracy_of_nonempty typedText referenceText Hne) in Hm.
    rewrite matching_prefix in Hm by (lia || assumption).
    pose proof (fin_val_le_of_fle _ _ (100 * one_units) (m * one_units)
                  (fin_val_of_Z 100 ltac:(lia)) Hm Hge) as Hle.
    assert (m = 100) by nia. subst m.
    apply of_Z_of_fin_val; [lia | lia | exact Hm].
Qed.

Lemma C7_overlong_text_below_100_witness :
  (List.length (str "hello") < List.length (str "hello!"))%nat
  /\ List.firstn (List.length (str "hello")) (str "hello!") = str "hello"
  /\ Z.of_nat (List.length (str "hello!")) <= 2 ^ 32
  /\ (List.length (str "hello!")
      < 200 * (List.length (str "hello!") - List.length (str "hello")))%nat
  /\ flt (calculateAccuracy (str "hello!") (str "hello")) (of_Z 100) = true.
Proof.
  assert (H1 : (List.length (str "hello") < List.length (str "hello!"))%nat)
    by (simpl; lia).
  assert (H2 : List.firstn (List.length (str "hello")) (str "hello!") = str "hello")
    by reflexivity.
  assert (H3 : Z.of_nat (List.length (str "hello!")) <= 2 ^ 32) by (simpl; lia).
  assert (H4 : (List.length (str "hello!")
                < 200 * (List.length (str "hello!") - List.length (str "hello")))%nat)
    by (simpl; lia).
  split; [exact H1|]. split; [exact H2|]. split; [exact H3|]. split; [exact H4|].
  exact (proj1 (C7_overlong_text_below_100 (str "hello!") (str "hello") H1 H2 H3)
               H4).
Defined.

(** A text of 200 characters that extends a reference of 199. *)
Lemma overlong_sample_length :
  (List.length (List.repeat 97%N 199) < List.length (List.repeat 97%N 200))%nat.
Proof. rewrite !List.repeat_length. lia. Qed.

Lemma overlong_sample_prefix :
  List.firstn (List.length (List.repeat 97%N 199)) (List.repeat 97%N 200)
  = List.repeat 97%N 199.
Proof. vm_compute. reflexivity. Qed.

Lemma overlong_sample_accuracy :
  calculateAccuracy (List.repeat 97%N 200) (List.repeat 97%N 199) = of_Z 100.
Proof. vm_compute. reflexivity. Qed.

Lemma overlong_sample_not_below :
  flt (calculateAccuracy (List.repeat 97%N 200) (List.repeat 97%N 199)) (of_Z 100)
  = false.
Proof. vm_compute. reflexivity. Qed.

(** C7, as the specification states it for every length, fails: a text of
    200 characters that extends a reference of 199 has
    [199 / 200 * 100 = 99.5], which [Math.round] takes to 100. *)
Lemma C7_counterexample :
  ~ (forall typedText referenceText : js_string,
       (List.length referenceText < List.length typedText)%nat ->
       List.firstn (List.length referenceText) typedText = referenceText ->
       flt (calculateAccuracy typedText referenceText) (of_Z 100) = true).
Proof.
  intros H.
  pose proof (H _ _ overlong_sample_length overlong_sample_prefix) as H1.
  rewrite overlong_sample_not_below in H1. discriminate.
Qed.

(** ** The fatigue score on every window *)

Lemma words_positive (c : nat) :
  (0 < c)%nat -> Z.of_nat c <= 2 ^ 53 ->
  exists b, fdiv (of_nat c) (of_Z 5) = Fin b /\ 0 < b.
Proof.
  intros Hc Hb. pose proof one_units_pos as Ho.
  assert (Hone : one_units = 8 * 2 ^ 1071) by reflexivity.
  assert (Hp : 0 < 2 ^ 1071) by (apply pow2_pos; lia).
  assert (Hw : within (2 ^ 1071) (Z.of_nat c * one_units)
                      (fdiv (of_nat c) (of_Z 5))).
  { apply (fdiv_within _ _ (Z.of_nat c * one_units) (5 * one_units)).
    - apply fin_val_of_nat. exact Hb.
    - apply fin_val_of_Z. lia.
    - lia.
    - apply fin_rep_pow2. lia.
    - apply fin_rep_int. lia.
    - split.
      + rewrite Hone. set (u := 2 ^ 1071) in *. nia.
      + apply Z.mul_le_mono_nonneg_l; [apply Z.mul_nonneg_nonneg; lia | lia]. }
  destruct Hw as (k & Hk & Hkb).
  exists k. split; [apply fin_val_nonzero; [exact Hk | lia] | lia].
Qed.

Lemma Math_round_positive_inv (x : number) :
  flt (Fin 0) (Math_round x) = true -> flt (Fin 0) x = true.
Proof.
  pose proof one_units_pos as Ho.
  destruct x as [| s | | k]; cbn [Math_round]; try (intros H; exact H).
  fold (Math_round (Fin k)). rewrite Math_round_fin. intros H.
  apply round_q_positive in H. change 0%Q with (inject_Z 0) in H.
  rewrite <- Zlt_Qlt in H. cbn [flt units]. apply Z.ltb_lt.
  destruct (Z.lt_ge_cases 0 k) as [Hpos | Hneg]; [exact Hpos|].
  exfalso.
  assert ((2 * k + one_units) / (2 * one_units) <= 0).
  { apply Z.lt_succ_r. apply Z.div_lt_upper_bound; lia. }
  nia.
Qed.

Lemma Qdiv_negative_den (p j : Z) :
  0 < p -> j < 0 -> ~ (0 < inject_Z p / inject_Z j)%Q.
Proof.
  intros Hp Hj H.
  assert (E : (inject_Z p / inject_Z j == inject_Z (- p) / inject_Z (- j))%Q).
  { rewrite !inject_Z_opp. field. intros E0.
    unfold Qeq in E0. cbn in E0. lia. }
  rewrite E in H. apply Qdiv_positive_inv in H; lia.
Qed.

Lemma fdiv_positive_den (a : Z) (m : number) :
  0 < a -> flt (Fin 0) (fdiv (Fin a) m) = true ->
  exists j, m = Fin j /\ 0 <= j.
Proof.
  intros Ha H. pose proof one_units_pos as Ho.
  destruct m as [| s | | j].
  - cbn in H. discriminate H.
  - exfalso. cbn [fdiv sign_neg] in H.
    destruct (xorb (a <? 0) s); cbn in H; discriminate H.
  - exfalso. cbn [fdiv sign_neg is_zero] in H.
    destruct (Z.eqb_spec a 0) as [E | _]; [lia|].
    destruct (Z.ltb_spec a 0) as [E | _]; [lia|]. cbn in H. discriminate H.
  - exists j. split; [reflexivity|].
    destruct (Z.lt_ge_cases j 0) as [Hneg | Hpos]; [|exact Hpos].
    exfalso. rewrite (fdiv_fin (Fin a) (Fin j) a j eq_refl eq_refl) in H by lia.
    apply round_q_positive in H.
    apply (Qdiv_negative_den (a * one_units) j); [nia | exact Hneg | exact H].
Qed.

Lemma wpm_same_window (ce cl : nat) (d : number) :
  (0 < ce)%nat -> Z.of_nat ce <= 2 ^ 53 ->
  (0 < cl)%nat -> Z.of_nat cl <= 2 ^ 53 ->
  flt (Fin 0) (spec_WPM (of_nat ce) d) = true ->
  not_negative (spec_WPM (of_nat cl) d).
Proof.
  intros Hce Hbe Hcl Hbl. unfold spec_WPM.
  destruct (is_zero d); [intros H; discriminate H|].
  intros H. apply Math_round_positive_inv in H.
  destruct (words_positive ce Hce Hbe) as (a & Ea & Ha). rewrite Ea in H.
  destruct (fdiv_positive_den a _ Ha H) as (j & Ej & Hj).
  destruct (words_positive cl Hcl Hbl) as (b & Eb & Hb).
  rewrite Ej, Eb.
  apply Math_round_not_negative.
  destruct (Z.eq_dec j 0) as [-> | Hnz].
  - left. cbn [fdiv is_zero sign_neg].
    destruct (Z.eqb_spec b 0) as [E | _]; [lia|].
    destruct (Z.ltb_spec b 0) as [E | _]; [lia|]. reflexivity.
  - apply (fdiv_not_negative _ _ j); [| reflexivity | lia].
    right. exists b. split; [reflexivity | lia].
Qed.

Lemma fsub_not_above (e : Z) (late : number) :
  fin_rep e -> e <> 0 -> not_negative late ->
  fle (fsub (Fin e) late) (Fin e) = true.
Proof.
  intros Hrep Hnz [-> | (l & Hl & Hpos)].
  - cbn. reflexivity.
  - unfold fsub.
    rewrite (fadd_fin (Fin e) (fneg late) e (- l) eq_refl (fin_val_fneg late l Hl)).
    rewrite <- (round_q_exact false e Hrep Hnz) at 2.
    apply round_q_mono. rewrite <- Zle_Qle. lia.
Qed.

Lemma fdiv_not_above_one (x : number) (e : Z) :
  0 < e -> fle x (Fin e) = true -> fle (fdiv x (Fin e)) (Fin one_units) = true.
Proof.
  intros He H. pose proof one_units_pos as Ho.
  destruct (fle_cases _ _ H) as [-> | [E | (a & b & Ha & Hb & Hab)]].
  - cbn [fdiv sign_neg]. destruct (Z.ltb_spec e 0) as [E | _]; [lia|]. reflexivity.
  - discriminate E.
  - cbn [fin_val] in Hb. apply some_eq in Hb. subst b.
    rewrite (fdiv_fin x (Fin e) a e Ha eq_refl) by lia.
    rewrite <- (round_q_exact false one_units fin_rep_one) by lia.
    apply round_q_mono.
    apply Qle_shift_div_r; [apply inject_Z_pos; exact He|].
    rewrite <- inject_Z_mult, <- Zle_Qle.
    rewrite (Z.mul_comm a). apply Z.mul_le_mono_nonneg_l; lia.
Qed.

Lemma fmul_100_not_above (y : number) :
  fle y (Fin one_units) = true -> fle (fmul y (of_Z 100)) (of_Z 100) = true.
Proof.
  intros H. pose proof one_units_pos as Ho.
  rewrite (of_Z_exact 100) by lia.
  destruct (fle_cases _ _ H) as [-> | [E | (a & b & Ha & Hb & Hab)]].
  - cbn [fmul sign_neg is_zero].
    destruct (Z.eqb_spec (100 * one_units) 0) as [E | _]; [lia|].
    destruct (Z.ltb_spec (100 * one_units) 0) as [E | _]; [lia|]. reflexivity.
  - discriminate E.
  - cbn [fin_val] in Hb. apply some_eq in Hb. subst b.
    rewrite (fmul_fin y (Fin (100 * one_units)) a (100 * one_units) Ha eq_refl).
    rewrite <- (round_q_exact false (100 * one_units)
                  (fin_rep_int 100 ltac:(lia))) at 2 by lia.
    apply round_q_mono.
    apply Qle_shift_div_r; [apply inject_Z_pos; exact Ho|].
    rewrite <- inject_Z_mult, <- Zle_Qle.
    rewrite (Z.mul_comm a). apply Z.mul_le_mono_nonneg_l; lia.
Qed.

Lemma Math_round_100 : Math_round (of_Z 100) = of_Z 100.
Proof. vm_compute. reflexivity. Qed.

Lemma Math_max_zero_percent (r : number) :
  fle r (of_Z 100) = true ->
  fle (of_Z 0) (Math_max (of_Z 0) r) = true
  /\ fle (Math_max (of_Z 0) r) (of_Z 100) = true.
Proof.
  intros H. pose proof one_units_pos as Ho.
  destruct (fle_cases _ _ H) as [-> | [E | (a & b & Ha & Hb & Hab)]].
  - rewrite of_Z_0.
    assert (E : Math_max (Fin 0) (Inf true) = Fin 0) by reflexivity.
    rewrite E. split; [reflexivity | rewrite <- of_Z_0; exact fle_0_100].
  - rewrite (of_Z_exact 100) in E by lia. discriminate E.
  - rewrite (fin_val_of_Z 100) in Hb by lia. apply some_eq in Hb. subst b.
    apply within_percent.
    apply (Math_max_zero_within r a (100 * one_units) Ha Hab). lia.
Qed.

Lemma decline_of_finite_early (e : Z) (late : number) :
  0 < e -> fin_rep e -> not_negative late ->
  fle (Math_round (fmul (fdiv (fsub (Fin e) late) (Fin e)) (of_Z 100)))
      (of_Z 100) = true.
Proof.
  intros He Hrep Hlate. rewrite <- Math_round_100 at 2.
  apply Math_round_mono. apply fmul_100_not_above.
  apply fdiv_not_above_one; [exact He|].
  apply fsub_not_above; [exact Hrep | lia | exact Hlate].
Qed.

Lemma decline_of_infinite_early (late : number) :
  Math_max (of_Z 0)
           (Math_round (fmul (fdiv (fsub (Inf false) late) (Inf false)) (of_Z 100)))
  = NaN.
Proof.
  rewrite of_Z_0. destruct late as [| [] | | l]; try reflexivity.
  unfold fsub, fneg. destruct (l =? 0); reflexivity.
Qed.

Lemma score_of_no_decline :
  Math_max (of_Z 0) (Math_round (of_Z 0)) = of_Z 0.
Proof. vm_compute. reflexivity. Qed.

(** What the score of [detectFatigue] can be.  When the words per minute
    of the early third overflow to [Infinity] the decline is
    [Infinity / Infinity] and the score is NaN; in every other case the
    score lies between 0 and 100. *)
Lemma fatigue_score_cases (keystrokes : list KeystrokeEvent)
      (startTime endTime : number) :
  Z.of_nat (List.length keystrokes) <= 2 ^ 53 ->
  let r := detectFatigue keystrokes startTime endTime in
  (fr_earlyWPM r = Inf false -> fr_fatigueScore r = NaN)
  /\ (fr_earlyWPM r <> Inf false ->
      fle (of_Z 0) (fr_fatigueScore r) = true
      /\ fle (fr_fatigueScore r) (of_Z 100) = true).
Proof.
  intros Hlen. cbv zeta.
  assert (Hzero : (fr_earlyWPM zeroed_fatigue = Inf false ->
                   fr_fatigueScore zeroed_fatigue = NaN)
                  /\ (fr_earlyWPM zeroed_fatigue <> Inf false ->
                      fle (of_Z 0) (fr_fatigueScore zeroed_fatigue) = true
                      /\ fle (fr_fatigueScore zeroed_fatigue) (of_Z 100) = true)).
  { unfold zeroed_fatigue. cbn [fr_earlyWPM fr_fatigueScore]. rewrite of_Z_0.
    split; [intros E; discriminate E|].
    intros _. split; [reflexivity | rewrite <- of_Z_0; exact fle_0_100]. }
  rewrite detectFatigue_unfold.
  destruct (Nat.ltb _ _); [exact Hzero|].
  destruct (Nat.eqb (List.length (spec_early keystrokes startTime endTime)) 0)
    eqn:Ee; [exact Hzero|].
  destruct (Nat.eqb (List.length (spec_late keystrokes startTime endTime)) 0)
    eqn:El; [exact Hzero|].
  cbn [orb]. apply Nat.eqb_neq in Ee. apply Nat.eqb_neq in El.
  pose proof (List.filter_length_le
                (fun k => flt (keyDownTime k)
                              (fadd startTime (spec_third startTime endTime)))
                keystrokes) as Hle.
  fold (spec_early keystrokes startTime endTime) in Hle.
  pose proof (List.filter_length_le
                (fun k => flt (fadd startTime
                                    (fmul (of_Z 2) (spec_third startTime endTime)))
                              (keyDownTime k))
                keystrokes) as Hll.
  fold (spec_late keystrokes startTime endTime) in Hll.
  unfold spec_FatigueAnalysis. cbn [fr_earlyWPM fr_fatigueScore].
  set (ce := List.length (spec_early keystrokes startTime endTime)) in *.
  set (cl := List.length (spec_late keystrokes startTime endTime)) in *.
  set (third := spec_third startTime endTime).
  pose proof (wpm_same_window ce cl third ltac:(lia) ltac:(lia) ltac:(lia)
                ltac:(lia)) as Hsame.
  pose proof (spec_WPM_round (of_nat ce) third) as Hround.
  set (early := spec_WPM (of_nat ce) third) in *.
  set (late := spec_WPM (of_nat cl) third) in *.
  unfold spec_decline. rewrite of_Z_0.
  split.
  - intros E. rewrite E. cbn [flt negb].
    pose proof (decline_of_infinite_early late) as Hnan.
    rewrite of_Z_0 in Hnan. exact Hnan.
  - intros Hfin.
    destruct (flt (Fin 0) early) eqn:Hpos.
    + specialize (Hsame eq_refl).
      destruct early as [| [] | | e]; cbn [flt units negb] in Hpos;
        try discriminate Hpos; [congruence|].
      apply Z.ltb_lt in Hpos.
      assert (Hrep : fin_rep e).
      { apply (round_q_fin_rep (e <? 0)
                 (inject_Z ((2 * e + one_units) / (2 * one_units) * one_units)) e).
        rewrite <- Math_round_fin, Hround. reflexivity. }
      pose proof (Math_max_zero_percent _
                    (decline_of_finite_early e late Hpos Hrep Hsame)) as Hp.
      rewrite of_Z_0 in Hp. exact Hp.
    + pose proof score_of_no_decline as E0. rewrite of_Z_0 in E0. rewrite E0.
      split; [reflexivity | rewrite <- of_Z_0; exact fle_0_100].
Qed.

(** ** Windows on which the words per minute are finite *)

Lemma window_at_least (startTime endTime : number) (a b t : Z) :
  fin_val startTime = Some a -> fin_val endTime = Some b ->
  0 < t -> fin_rep t -> a + t <= b ->
  fsub endTime startTime = Inf false
  \/ exists r, fsub endTime startTime = Fin r /\ t <= r /\ fin_rep r.
Proof.
  intros Hs He Ht Hrep Hab. unfold fsub.
  rewrite (fadd_fin _ _ b (- a) He (fin_val_fneg _ _ Hs)).
  set (x := inject_Z (b + - a)).
  assert (Hx : (0 < x)%Q) by (apply inject_Z_pos; lia).
  assert (Hq : (0 <= x)%Q) by lra.
  assert (Hr : t <= rnd_mag x).
  { destruct Hrep as [Hrt _]. rewrite Z.abs_eq in Hrt by lia.
    rewrite <- (rnd_mag_exact t Hrt) at 1.
    apply rnd_mag_mono.
    - change 0%Q with (inject_Z 0). rewrite <- Zle_Qle. lia.
    - unfold x. rewrite <- Zle_Qle. lia. }
  unfold round_q.
  replace (Qcompare x 0) with Gt by (symmetry; now apply (proj1 (Qgt_alt _ _))).
  destruct (pack_cases false (rnd_mag x) ltac:(lia)) as [[_ ->] | [Hf ->]].
  - left. reflexivity.
  - right. exists (rnd_mag x). split; [reflexivity|]. split; [exact Hr|].
    unfold fin_rep. rewrite Z.abs_eq by lia.
    split; [now apply representable_rnd_mag | exact Hf].
Qed.

Lemma short_window_scale :
  one_units = 2 ^ 992 * 2 ^ 82 /\ 2 ^ 98 = 65536 * 2 ^ 82
  /\ 2 ^ 100 = 4 * 2 ^ 98 /\ 2 ^ 2096 = 2 ^ 30 * one_units * 2 ^ 992
  /\ 2 ^ 2096 = 2 ^ 1022 * one_units /\ 0 < 2 ^ 82 /\ 0 < 2 ^ 992.
Proof. repeat split. Qed.

Lemma fin_rep_2096 : fin_rep (2 ^ 2096).
Proof.
  replace (2 ^ 2096) with (2 ^ 52 * 2 ^ 2044) by reflexivity.
  apply fin_rep_scaled; [|lia].
  rewrite Z.abs_eq by (apply Z.pow_nonneg; lia).
  apply Z.pow_le_mono_r; lia.
Qed.

Lemma wpm_finite (count : nat) (third : number) (h : Z) :
  Z.of_nat count <= 2 ^ 32 -> fin_val third = Some h -> 2 ^ 98 <= h ->
  fin_rep h ->
  exists q, fin_val (calculateWPM (of_nat count) third) = Some q.
Proof.
  intros Hcount Hthird Hh Hrep.
  destruct short_window_scale as (HU & H98 & _ & H2096 & H1022 & HM & HB).
  pose proof one_units_pos as Ho.
  assert (H32 : 2 ^ 32 = 4 * 2 ^ 30) by reflexivity.
  assert (H30 : 0 < 2 ^ 30) by reflexivity.
  assert (H53 : 2 ^ 32 <= 2 ^ 53) by (apply Z.pow_le_mono_r; lia).
  set (M := 2 ^ 82) in *. set (B := 2 ^ 992) in *. set (T := 2 ^ 98) in *.
  set (W := 2 ^ 30) in *.
  rewrite calculateWPM_spec. unfold spec_WPM.
  assert (Hz : is_zero third = false).
  { destruct third; cbn [fin_val] in Hthird;
      [discriminate Hthird | discriminate Hthird | |].
    - apply some_eq in Hthird. lia.
    - apply some_eq in Hthird. subst h. cbn [is_zero]. apply Z.eqb_neq. lia. }
  rewrite Hz.
  assert (Hmin : within M h (fdiv third (of_Z 60000))).
  { rewrite (of_Z_exact 60000) by lia.
    apply fdiv_within with (a := h) (b := 60000 * one_units);
      [assumption | reflexivity | lia | apply fin_rep_pow2; lia | assumption |].
    split.
    - rewrite Z.mul_assoc. apply Z.mul_le_mono_nonneg_r; lia.
    - rewrite (Z.mul_comm 60000), Z.mul_assoc.
      assert (h * one_units * 1 <= h * one_units * 60000)
        by (apply Z.mul_le_mono_nonneg_l; nia).
      lia. }
  destruct Hmin as (mn & Hmn & Hmnb).
  assert (Hwords : within 0 (W * one_units) (fdiv (of_nat count) (of_Z 5))).
  { rewrite (of_nat_exact count), (of_Z_exact 5) by lia.
    apply fdiv_within with (a := Z.of_nat count * one_units) (b := 5 * one_units);
      [reflexivity | reflexivity | lia | apply fin_rep_0
       | apply fin_rep_int; unfold W; rewrite Z.abs_eq by lia;
         apply Z.pow_le_mono_r; lia |].
    split; [nia|].
    replace (W * one_units * (5 * one_units))
      with (5 * W * one_units * one_units) by ring.
    apply Z.mul_le_mono_nonneg_r; [lia|].
    apply Z.mul_le_mono_nonneg_r; lia. }
  destruct Hwords as (w & Hw & Hwb).
  assert (Hq : within 0 (2 ^ 2096)
                 (fdiv (fdiv (of_nat count) (of_Z 5)) (fdiv third (of_Z 60000)))).
  { apply fdiv_within with (a := w) (b := mn);
      [assumption | assumption | lia | apply fin_rep_0 | apply fin_rep_2096 |].
    split; [nia|].
    apply Z.le_trans with (W * one_units * one_units).
    - apply Z.mul_le_mono_nonneg_r; lia.
    - rewrite H2096.
      replace (W * one_units * one_units) with (W * one_units * B * M)
        by (rewrite HU; ring).
      apply Z.mul_le_mono_nonneg_l; [|lia].
      apply Z.mul_nonneg_nonneg; [apply Z.mul_nonneg_nonneg|]; lia. }
  destruct Hq as (q & Hq & Hqb).
  assert (Hrep0 : fin_rep (0 * one_units)) by (rewrite Z.mul_0_l; apply fin_rep_0).
  assert (Hrep1 : fin_rep (2 ^ 1022 * one_units))
    by (rewrite <- H1022; apply fin_rep_2096).
  destruct (Math_round_within _ q 0 (2 ^ 1022) Hq Hrep0 Hrep1) as (k & Hk & _).
  { rewrite <- H1022, Z.mul_0_l. exact Hqb. }
  exists k. exact Hk.
Qed.

Lemma early_wpm_finite (keystrokes : list KeystrokeEvent)
      (startTime endTime : number) (a b : Z) :
  Z.of_nat (List.length keystrokes) <= 2 ^ 32 ->
  fin_val startTime = Some a -> fin_val endTime = Some b ->
  a + 2 ^ 100 <= b ->
  fr_earlyWPM (detectFatigue keystrokes startTime endTime) <> Inf false.
Proof.
  intros Hlen Hs He Hab.
  destruct short_window_scale as (_ & _ & H100 & _ & _ & _ & _).
  assert (H98 : 0 < 2 ^ 98) by (apply pow2_pos; lia).
  assert (Hzero : fr_earlyWPM zeroed_fatigue <> Inf false).
  { unfold zeroed_fatigue. cbn [fr_earlyWPM]. rewrite of_Z_0. discriminate. }
  destruct (window_at_least _ _ a b (2 ^ 100) Hs He ltac:(lia)
              (fin_rep_pow2 100 ltac:(lia)) Hab)
    as [Hinf | (r & Hr & Hrb & Hrep)].
  { rewrite (fatigue_overflowed_window _ _ _ _ Hs Hinf). exact Hzero. }
  rewrite detectFatigue_unfold.
  destruct (Nat.ltb _ _); [exact Hzero|].
  destruct (_ || _); [exact Hzero|].
  unfold spec_FatigueAnalysis. cbn [fr_earlyWPM].
  pose proof one_units_pos as HU.
  assert (Hthird : within (2 ^ 98) r (spec_third startTime endTime)).
  { unfold spec_third. rewrite Hr. rewrite (of_Z_exact 3) by lia.
    apply fdiv_within with (a := r) (b := 3 * one_units);
      [reflexivity | reflexivity | lia | apply fin_rep_pow2; lia | assumption |].
    set (T := 2 ^ 98) in *. split.
    - rewrite Z.mul_assoc. apply Z.mul_le_mono_nonneg_r; lia.
    - rewrite (Z.mul_comm 3), Z.mul_assoc.
      assert (r * one_units * 1 <= r * one_units * 3)
        by (apply Z.mul_le_mono_nonneg_l; nia).
      lia. }
  destruct Hthird as (h & Hh & Hhb).
  assert (Hhrep : fin_rep h).
  { unfold spec_third in Hh. rewrite Hr in Hh. rewrite (of_Z_exact 3) in Hh by lia.
    apply (fdiv_fin_rep (Fin r) (Fin (3 * one_units)) r (3 * one_units) h);
      [reflexivity | reflexivity | lia | exact Hh]. }
  pose proof (List.filter_length_le
                (fun k => flt (keyDownTime k)
                              (fadd startTime (spec_third startTime endTime)))
                keystrokes) as Hle.
  fold (spec_early keystrokes startTime endTime) in Hle.
  destruct (wpm_finite (List.length (spec_early keystrokes startTime endTime))
              (spec_third startTime endTime) h ltac:(lia) Hh ltac:(lia) Hhrep)
    as (q & Hq).
  rewrite calculateWPM_spec in Hq. intros E. rewrite E in Hq. discriminate Hq.
Qed.

(** C9, as the code has it: in the record of [calculatePerformanceMetrics],
    [accuracy] and [errorRate] lie between 0 and 100 inclusive.  The
    [fatigueScore] is clamped from below only and is never below 0: it is
    at least 0 in every case but one, that of early words per minute that
    overflow to [Infinity], where the decline is [Infinity / Infinity] and
    the score is NaN; they do not overflow when the times are finite and at
    least [2^-974] ms apart.  (A JavaScript string has at most [2^53 - 1]
    characters and an array at most [2^32 - 1] elements.) *)
Theorem C9_percentage_fields (typedText referenceText : js_string)
        (keystrokes : list KeystrokeEvent) (startTime endTime : number) :
  Z.of_nat (List.length typedText) <= 2 ^ 53 ->
  Z.of_nat (List.length keystrokes) <= 2 ^ 32 ->
  let m := calculatePerformanceMetrics typedText referenceText keystrokes
                                       startTime endTime in
  let earlyWPM := fr_earlyWPM (detectFatigue keystrokes startTime endTime) in
  (fle (of_Z 0) (accuracy m) = true /\ fle (accuracy m) (of_Z 100) = true)
  /\ (fle (of_Z 0) (errorRate m) = true /\ fle (errorRate m) (of_Z 100) = true)
  /\ flt (fatigueScore m) (of_Z 0) = false
  /\ (earlyWPM <> Inf false -> fle (of_Z 0) (fatigueScore m) = true)
  /\ (earlyWPM = Inf false -> fatigueScore m = NaN)
  /\ (forall a b : Z,
        fin_val startTime = Some a -> fin_val endTime = Some b ->
        a + 2 ^ 100 <= b -> fle (of_Z 0) (fatigueScore m) = true).
Proof.
  intros Hlen Hks. cbv zeta.
  assert (H53 : 2 ^ 32 <= 2 ^ 53) by (apply Z.pow_le_mono_r; lia).
  destruct (fatigue_score_cases keystrokes startTime endTime ltac:(lia))
    as [Hnan Hrange].
  unfold calculatePerformanceMetrics; cbn [accuracy errorRate fatigueScore].
  destruct (accuracy_integer typedText referenceText Hlen) as (n & Hn & Hb).
  pose proof one_units_pos as HU.
  split; [|split; [|split; [|split; [|split]]]].
  - apply (fle_between _ (n * one_units));
      [lia | lia | assumption | nia].
  - assert (He : within 0 (100 * one_units)
                   (fsub (of_Z 100) (calculateAccuracy typedText referenceText))).
    { rewrite (of_Z_exact 100) by lia.
      apply fsub_within with (a := 100 * one_units) (b := n * one_units);
        [reflexivity | assumption | apply fin_rep_0
         | apply fin_rep_int; lia | nia]. }
    destruct He as (k & Hk & Hkb).
    apply (fle_between _ k); [lia | lia | assumption | lia].
  - apply fatigue_score_not_negative.
  - intros Hfin. exact (proj1 (Hrange Hfin)).
  - exact Hnan.
  - intros a b Hs He Hab.
    exact (proj1 (Hrange (early_wpm_finite keystrokes startTime endTime a b
                            Hks Hs He Hab))).
Qed.

Lemma sample_window_long :
  fin_val (of_Z 0) = Some 0 /\ fin_val (of_Z 3000) = Some (3000 * one_units)
  /\ 0 + 2 ^ 100 <= 3000 * one_units.
Proof.
  split; [reflexivity|]. split; [vm_compute; reflexivity|].
  vm_compute. discriminate.
Qed.

Lemma C9_percentage_fields_witness :
  Z.of_nat (List.length (str "helo")) <= 2 ^ 53
  /\ Z.of_nat (List.length six_then_four) <= 2 ^ 32
  /\ let m := calculatePerformanceMetrics (str "helo") (str "hello")
                six_then_four (of_Z 0) (of_Z 3000) in
     (fle (of_Z 0) (accuracy m) = true /\ fle (accuracy m) (of_Z 100) = true)
     /\ (fle (of_Z 0) (errorRate m) = true /\ fle (errorRate m) (of_Z 100) = true)
     /\ fle (of_Z 0) (fatigueScore m) = true.
Proof.
  assert (H : Z.of_nat (List.length (str "helo")) <= 2 ^ 53) by (simpl; lia).
  assert (Hk : Z.of_nat (List.length six_then_four) <= 2 ^ 32) by (simpl; lia).
  destruct sample_window_long as (H0 & H1 & H2).
  split; [exact H|]. split; [exact Hk|].
  destruct (C9_percentage_fields (str "helo") (str "hello") six_then_four
              (of_Z 0) (of_Z 3000) H Hk) as (Ha & He & _ & _ & _ & Hw).
  split; [exact Ha|]. split; [exact He|].
  exact (Hw 0 (3000 * one_units) H0 H1 H2).
Defined.

(** The score that the record has for the ten events of [tiny_window]. *)
Lemma tiny_window_record_score :
  fle (of_Z 0)
      (fatigueScore (calculatePerformanceMetrics (str "helo") (str "hello")
                       tiny_window (Fin 0) (Fin 3)))
  = false.
Proof. vm_compute. reflexivity. Qed.

(** C9, as the specification states it for every input, fails for the
    fatigue score: on a window of three units (about [1.5e-323] ms) the
    score is NaN, which is not at least 0. *)
Lemma C9_counterexample :
  ~ (forall (typedText referenceText : js_string)
            (keystrokes : list KeystrokeEvent) (startTime endTime : number),
       fle (of_Z 0)
           (fatigueScore (calculatePerformanceMetrics typedText referenceText
                            keystrokes startTime endTime)) = true).
Proof.
  intros H.
  pose proof (H (str "helo") (str "hello") tiny_window (Fin 0) (Fin 3)) as H1.
  rewrite tiny_window_record_score in H1. discriminate.
Qed.

(** C10, as the code has it: for at most [2^32] events and every
    [startTime] and [endTime], the fatigue score of [detectFatigue], which
    is the one [calculatePerformanceMetrics] reports, lies between 0 and 100
    inclusive unless the early words per minute overflow to [Infinity], and
    then it is NaN.  They do not overflow when the times are finite and at
    least [2^-974] ms apart, as all clock readings that differ are. *)
Theorem C10_fatigue_score_bounded (typedText referenceText : js_string)
        (keystrokes : list KeystrokeEvent) (startTime endTime : number) :
  Z.of_nat (List.length keystrokes) <= 2 ^ 32 ->
  let r := detectFatigue keystrokes startTime endTime in
  let score := fr_fatigueScore r in
  fatigueScore (calculatePerformanceMetrics typedText referenceText
                  keystrokes startTime endTime) = score
  /\ (fr_earlyWPM r <> Inf false ->
      fle (of_Z 0) score = true /\ fle score (of_Z 100) = true)
  /\ (fr_earlyWPM r = Inf false -> score = NaN)
  /\ (forall a b : Z,
        fin_val startTime = Some a -> fin_val endTime = Some b ->
        a + 2 ^ 100 <= b ->
        fle (of_Z 0) score = true /\ fle score (of_Z 100) = true).
Proof.
  intros Hks. cbv zeta.
  assert (H53 : 2 ^ 32 <= 2 ^ 53) by (apply Z.pow_le_mono_r; lia).
  destruct (fatigue_score_cases keystrokes startTime endTime ltac:(lia))
    as [Hnan Hrange].
  split; [reflexivity|]. split; [exact Hrange|]. split; [exact Hnan|].
  intros a b Hs He Hab. apply Hrange.
  exact (early_wpm_finite keystrokes startTime endTime a b Hks Hs He Hab).
Qed.

Lemma C10_fatigue_score_bounded_witness :
  Z.of_nat (List.length six_then_four) <= 2 ^ 32
  /\ let score := fr_fatigueScore (detectFatigue six_then_four (of_Z 0) (of_Z 3000)) in
     fle (of_Z 0) score = true /\ fle score (of_Z 100) = true.
Proof.
  assert (H1 : Z.of_nat (List.length six_then_four) <= 2 ^ 32) by (simpl; lia).
  destruct sample_window_long as (H2 & H3 & H4).
  split; [exact H1|].
  destruct (C10_fatigue_score_bounded (str "helo") (str "hello") six_then_four
              (of_Z 0) (of_Z 3000) H1) as (_ & _ & _ & Hw).
  exact (Hw 0 (3000 * one_units) H2 H3 H4).
Defined.

(** The score of the ten events of [tiny_window]. *)
Lemma tiny_window_score :
  fr_fatigueScore (detectFatigue tiny_window (Fin 0) (Fin 3)) = NaN.
Proof. vm_compute. reflexivity. Qed.

Lemma tiny_window_not_at_most_100 :
  fle (fr_fatigueScore (detectFatigue tiny_window (Fin 0) (Fin 3))) (of_Z 100)
  = false.
Proof. vm_compute. reflexivity. Qed.

(** C10, as the specification states it for every window with
    [endTime > startTime], fails: on a window of three units (about
    [1.5e-323] ms) the third is not zero but its length in minutes
    underflows to zero, both WPM values are infinite, the decline is
    [Infinity - Infinity] and the score is NaN, which is not at most 100. *)
Lemma C10_counterexample :
  ~ (forall (keystrokes : list KeystrokeEvent) (startTime endTime : number),
       fgt endTime startTime = true ->
       fle (fr_fatigueScore (detectFatigue keystrokes startTime endTime))
           (of_Z 100) = true).
Proof.
  intros H.
  pose proof (H tiny_window (Fin 0) (Fin 3) eq_refl) as H1.
  rewrite tiny_window_not_at_most_100 in H1. discriminate.
Qed.
